(* ===== verification/_CoqProject ===== *)
-Q . S2P
Prelude.v
Float.v
World.v
Clock.v
Config.v
Econ.v
RateLimit.v
Wire.v
Host.v
HostInv.v
Persist.v
EconStore.v
Structs.v
Flat.v
Tables.v
TableSpecs.v
Codec.v
FlatTree.v
CodecProps.v
Bindings.v
Server.v
Sched.v
ServerInv.v
TickInv.v
ServerProps.v
Sessions.v
Progress.v
Hydration.v
Recurrence.v
Interest.v
ServerSpec.v
Refinement.v
EndToEnd.v
Greeting.v
Mooring.v
Main.v
ArchDag.v
