(* ===== verification/Prelude.v ===== *)
(** * Sailwind Online: a verification of the authoritative server

    The program under src/server is the authoritative server of a sailing game:
    clients reach it over LiteNetLib-style UDP, every message is a FlatBuffers
    envelope, and the state that must survive is in SQLite.  This library models
    its Rust crates by functions on explicit state and proves what makes them
    correct.  A method that takes [&mut self] is a function from the old to the
    new state, one that returns a [Result] keeps whatever it wrote before
    failing, integers are [Z] with their wrap-around written out, floats are
    IEEE 754 by the standard [spec_float], and the environment (datagrams, clock
    readings, failing SQL statements, socket errors) is an argument over which
    every theorem quantifies.

    ** The parts and their files

    - [Prelude]: results and the [?] operator, machine integers, record update,
      ordered sets, the hint database [sw] and shared lemmas.
    - [Float]: [f32] and [f64] as the sources use them.
    - [World]: sw-world/src/lib.rs (cells, interest sets, entity index) and
      sw-server/src/validate.rs (the guard on client poses).
    - [Clock]: sw-server/src/clock.rs.  [Config]: sw-server/src/config.rs.
    - [Econ]: sw-econ/src/lib.rs.  [Ledger] and [Market] run over any store; what a
      store promises is a class ([LedgerStoreSpec], [MarketStoreSpec]), discharged
      here by the in-memory stores and in [EconStore] by the database.
    - [RateLimit]: sw-server/src/ratelimit.rs.
    - [Wire]: sw-net/src/protocol.rs.  [Host], [HostInv]: sw-net/src/lib.rs, the
      peer table and its bounded poll, then its invariants.  The socket is a
      script of arbitrary peek and receive results.
    - [Persist]: sw-persist/src/lib.rs.  The tables are finite maps, a statement
      may fail as the environment decides, a transaction rolls back.
    - [EconStore]: sw-server/src/econ_store.rs, the stores of [Econ] over [Persist].
    - [Structs], [Tables]: the generated bindings,
      sw-contracts/src/generated/envelope_generated.rs.  [Structs] has the structs
      as bytes with every getter and setter, and the union tag; [Tables], table by
      table, the slots, accessors, arguments, builder, [create] and verifier, the
      union accessors and the root.  [TableSpecs] proves of each table what its
      [create] leaves, that the verifier accepts it and what the accessors read.
    - [Flat]: the flatbuffers crate, which is not part of the repository: the class
      [FlatBuffers] of the operations the bindings call, a parameter of the model,
      and the class [FlatBuffersLaws] of what its documentation promises slot by
      slot; [FlatBuffersInline] adds that strings are stored inline.  [FlatTree] is a
      concrete instance that satisfies the laws, used by every witness.
    - [Codec]: sw-server/src/codec.rs and sw-contracts/src/lib.rs, each encoder as
      the sequence of its builder calls, and the decoder.  [CodecProps]: the round
      trips, and the fuzz target of server/fuzz.
    - [Bindings]: the rest of the generated bindings (the [Debug] text, the glue of
      structs and discriminants, the size-prefixed, unchecked and with-options roots),
      over a second interface, [FlatBuffersMore], with its laws and its instance.
    - [Server], [Sched]: sw-server/src/server.rs.  [Server] holds the state, the
      session registry, start-up and one definition per message handler; [Sched]
      the tick work (snapshots, interest delivery, fan-out, dirty flush), the tick
      that composes it with [Host.poll] and the handlers, and the shutdown.
    - [ServerInv], [TickInv], [ServerProps]: the invariant of the server, that every
      handler and every kind of tick work keeps it, and the theorems on the server.
      [Sessions]: whose the sessions are, over events, ticks and runs.
    - [Progress], [Hydration], [Recurrence], [Interest]: what the per-tick budgets of
      [Sched] add up to, for the dirty flush, for the hydration of cells, for the
      freshness of what snapshots show, and for the queue of interest delivery.
    - [ServerSpec]: an abstract machine of what the server promises (its tables, who is
      on which peer, what waits and what was sent), with its invariant.  [Refinement]:
      every handler and every tick is a sequence of its steps.  [EndToEnd]: whole runs,
      from start-up through ticks and the final flush to the shutdown.
    - [Greeting]: when a hello is served, and the configuration under which none is
      ever answered.  [Mooring]: what a mooring request stores.
    - [Main]: sw-server/src/main.rs.  [ArchDag]: sw-server/src/arch_dag.rs, the check
      of the crate dependencies.

    The server calls every other part: a tick polls [Host], whose events go to the
    handlers of [Server], which decode with [Codec], use [RateLimit], [World],
    [Persist] and [EconStore] and answer through [Host.send_unreliable]; [Sched] then
    spends its budgets.  [Main] starts it on a configuration [Config] accepted.

    ** What the theorems show

    - Whole runs (C1 to C6): the server implements the abstract machine; every tick
      completes and keeps the registry, queues, interest state and transport
      consistent, with each session backed by a live peer; the books balance and
      nothing stored is forgotten; every datagram sent fits, decodes and keeps its
      promise in the database; a ledger row is only committed for the player who
      asked, and once: sent again it changes nothing, whatever fails.
    - Who gets in (C7 to C9, C20, C32): in every run sessions come only from
      accepted hellos of their own peers; a valid hello that the limiters let pass is served, if the database works and has room,
      and touches nobody else but an older session of its player; and with a server
      name longer than a datagram, which validation lets through, no hello is ever
      answered.
    - What reaches the clients (C16, C23 to C27, C29): queued fan-out is decided once,
      in order, and only delivered to sessions that are still the captured ones;
      interest chunks converge, no session that is owed something is forgotten, each
      is served within a bound that counts its own work and one round of the queue
      only, and on a working database a waiting cell is told completely, apart from
      moorings with an over-long name; a player in view is shown again
      within an explicit number of ticks, which is more than the configuration
      reckons with (C26).
    - The end (C19, C28): the dirty flush loses no player and drains, and the final
      flush accounts for every one.  That the loop of [main] ends is not claimed: its
      flag is the length of the list of inputs ([Main.main_outcome] is what the
      process leaves when it does).
    - The messages (C12, C15, C17, C29): what a client builds is what the server decodes
      and what the server encodes is what a verifying client reads, field by field;
      arbitrary bytes decode to well-typed values or not at all.  They hold for every
      runtime with the laws of [FlatBuffersLaws], for buffers of at most [max_buffer]
      bytes; C9 also relies on strings being stored inline ([FlatBuffersInline]).
    - The economy (C3, C5, C6, C11, C18, C21, C39): balances are the sums of committed
      transactions, each applied once; stocks move by exactly the accepted trades;
      the policies refine abstract ledgers over any store, and over SQLite with
      statements failing anywhere.  C6 and C39 pin down where the code falls short:
      an id another player has used is acknowledged to the wrong player, and trade
      ids from 2^63 on are refused.
    - The transport (C13, C14, C31 to C33, C35): the peer table stays sound, events
      obey the session protocol, work per poll is bounded and silent peers are still
      reaped, admission needs the key, stale requests are inert, packets round-trip,
      and the connect request is parsed exactly.
    - Persistence (C10, C20, C34, C38), the world index and pose validation (C30, C37),
      limiters (C22) and configuration (C36): exact functional behaviour, round trips
      and bounds.  C10 shows whose a mooring is: the last claimant's.  A stored pose
      is the one sent up to the sign of a zero, which a REAL column does not keep.
      C38 covers both builds: with debug assertions a newer schema panics, without
      it is used unchecked.  The clock and the interest chunks have theirs as lemmas
      ([Clock.clock_well_formed], [ServerProps.aoi_chunks_converge]).
    - The architecture test (C40): it passes exactly on the manifests the policy
      allows, and the edges it sees then have no cycle; an edge to the server's
      package it does not see.

    ** Bounds and fuel

    Loops of the source recurse structurally on the list they walk.  Four take
    fuel: [Host.expire_loop] takes the source's own budget; [Persist.read_pages],
    the client loop of a pagination theorem, takes one more than the rows;
    [ArchDag.scan_entries] takes one more than the characters left, since every
    round consumes a quoted entry; and [Sched.fanout_loop] takes two more than the
    queued jobs, since each round finishes a job or is the last.  [fanout_loop] and
    [scan_entries] return [None] without fuel, and the theorems show that they never
    do.  [Flat.verify] recurses on the depth limit of the verifier, 64 as in the
    crate's default; the messages nest at most 4 deep.  [Flat.max_buffer] is 2^16,
    above any UDP datagram.

    Where a build with debug assertions differs from a release build, the model of the
    server is the release build: arithmetic wraps and [debug_assert]s are not there;
    [Persist.init] takes the build as an argument.  A [Vec::with_capacity] over
    [isize::MAX] bytes panics ([World.cells_in_radius]); memory is otherwise unbounded.

    ** What is not modelled

    The flatbuffers crate, behind [FlatBuffers] and [FlatBuffersMore], and of the
    generated code only the marker impls and the empty offset enums, which compute
    nothing; SQLite itself (opening files, WAL, SQL parsing), sockets, threads,
    sleeping and tracing; the unit tests; and the parts of the repository that are
    not the Rust server (the C# client mod, tools and documents).  An [Arc] of
    recipients is a list with an address; strings are byte strings.  Statistics kept
    only for tests are modelled where a theorem speaks of them.  The exact size of an
    encoded message is the crate's own, so no theorem says which messages fit a
    datagram, only that what does not fit is not sent. *)

From stdpp Require Export base option list gmap fin_maps strings sorting.
From Stdlib Require Export ZArith Lia.

#[global] Open Scope Z_scope.
#[global] Set Default Goal Selector "!".

(** ** Results and the [?] operator

    Rust's [Result<A, E>].  A method that takes [&mut self] and returns a
    [Result] keeps whatever it wrote before failing, so it is modelled by a
    function returning the result together with the new state;
    [try! x, s := c in k] is the [?] operator of such methods, and
    [let? x := c in k] the one of pure functions. *)
Inductive result (E A : Type) : Type :=
| Ok (a : A)
| Err (e : E).

Arguments Ok {E A} a.
Arguments Err {E A} e.

Declare Scope sw_scope.
Delimit Scope sw_scope with sw.
#[global] Open Scope sw_scope.

Notation "'let?' x ':=' c 'in' k" :=
  (match c with Ok x => k | Err e => Err e end)
  (at level 10, x pattern, c at level 100, k at level 200) : sw_scope.

Notation "'try!' x ',' s ':=' c 'in' k" :=
  (match c with (Ok x, s) => k | (Err e, s) => (Err e, s) end)
  (at level 10, x pattern, s name, c at level 100, k at level 200) : sw_scope.

(** ** Machine integers

    Every Rust integer is a [Z]; [wrapU]/[wrapS] are the wrap-around of a
    release build and of [as] casts, [checked_add_s] and [saturating_*] the
    methods of the same name. *)
Definition wrapU (w z : Z) : Z := z mod 2 ^ w.

Definition wrapS (w z : Z) : Z := (z + 2 ^ (w - 1)) mod 2 ^ w - 2 ^ (w - 1).

Definition inU (w z : Z) : Prop := 0 <= z < 2 ^ w.

Definition inS (w z : Z) : Prop := - 2 ^ (w - 1) <= z < 2 ^ (w - 1).

#[global] Instance inU_dec w z : Decision (inU w z).
Proof. unfold inU. apply _. Defined.

#[global] Instance inS_dec w z : Decision (inS w z).
Proof. unfold inS. apply _. Defined.

Definition checked_add_s (w a b : Z) : option Z :=
  if decide (inS w (a + b)) then Some (a + b) else None.

Definition checked_u (w z : Z) : option Z :=
  if decide (inU w z) then Some z else None.

Definition saturateS (w z : Z) : Z := Z.max (- 2 ^ (w - 1)) (Z.min z (2 ^ (w - 1) - 1)).

Definition saturateU (w z : Z) : Z := Z.max 0 (Z.min z (2 ^ w - 1)).

Definition i64_max : Z := 2 ^ 63 - 1.
Definition i64_min : Z := - 2 ^ 63.
Definition u64_max : Z := 2 ^ 64 - 1.
Definition u32_max : Z := 2 ^ 32 - 1.

(** [len v] is [v.len()] as an integer. *)
Definition len {A} (l : list A) : Z := Z.of_nat (length l).

(** ** Record update

    [r <| f := v |>] is the Rust assignment [r.f = v].  A record type declares
    its eta expansion as a [Settable] instance; the setter of each field is
    then found by abstracting the field out of the expansion. *)
Class Settable (R : Type) := mkSettable { eta : R -> R }.

Arguments mkSettable {R} _.

Class Setter {R T : Type} (f : R -> T) := mkSetter { update : (T -> T) -> R -> R }.

Arguments mkSetter {R T f} _.

Arguments update {R T} f {_} _ _ : simpl nomatch.

Ltac solve_setter :=
  match goal with
  | |- @Setter ?R ?T ?f =>
      constructor;
      let g := fresh "g" in
      let r := fresh "r" in
      intros g r;
      let e := eval hnf in (@eta R _ r) in
      let h := eval pattern (f r) in e in
      match h with ?k _ => exact (k (g (f r))) end
  end.

#[global] Hint Extern 0 (Setter _) => solve_setter : typeclass_instances.

Notation "r <| f := v |>" := (update f (fun _ => v) r)
  (at level 1, left associativity, f at level 0, v at level 200,
   format "r  <| f  :=  v |>") : sw_scope.

Notation "r <| f ::= g |>" := (update f g r)
  (at level 1, left associativity, f at level 0, g at level 200,
   format "r  <| f  ::=  g |>") : sw_scope.

(** ** Shared tactics and lemmas *)
Create HintDb sw.
Create Rewrite HintDb sw_len.

(** Split the innermost [match] or [if] of a hypothesis or of the goal. *)
Ltac break_in H :=
  match type of H with
  | context [match ?x with _ => _ end] =>
      lazymatch x with
      | context [match _ with _ => _ end] => fail
      | _ => destruct x eqn:?
      end
  end.

Ltac break_goal :=
  match goal with
  | |- context [match ?x with _ => _ end] =>
      lazymatch x with
      | context [match _ with _ => _ end] => fail
      | _ => destruct x eqn:?
      end
  end.

Ltac crush_in H := repeat (break_in H; simplify_eq/=).

Lemma pow2_pos w : 0 <= w -> 0 < 2 ^ w.
Proof. intros; apply Z.pow_pos_nonneg; lia. Qed.

Lemma pow2_half w : 0 < w -> 2 ^ w = 2 * 2 ^ (w - 1).
Proof. intros. rewrite <- Z.pow_succ_r by lia. f_equal. lia. Qed.

Lemma wrapU_in w z : 0 <= w -> inU w (wrapU w z).
Proof. intros. apply Z.mod_pos_bound, pow2_pos. lia. Qed.

Lemma wrapU_id w z : inU w z -> wrapU w z = z.
Proof. intros. apply Z.mod_small. done. Qed.

Lemma wrapS_in w z : 0 < w -> inS w (wrapS w z).
Proof.
  intros. unfold inS, wrapS.
  pose proof (Z.mod_pos_bound (z + 2 ^ (w - 1)) (2 ^ w) (pow2_pos w ltac:(lia))).
  pose proof (pow2_half w). lia.
Qed.

Lemma wrapS_id w z : 0 < w -> inS w z -> wrapS w z = z.
Proof.
  intros Hw [? ?]. unfold wrapS. pose proof (pow2_half w Hw).
  rewrite Z.mod_small; lia.
Qed.

(** The two [as] casts between an unsigned and a signed integer of the same
    width undo each other. *)
Lemma wrapU_wrapS w z : 0 < w -> inU w z -> wrapU w (wrapS w z) = z.
Proof.
  intros Hw Hz. unfold wrapU, wrapS.
  rewrite Zminus_mod, Zmod_mod, <- Zminus_mod.
  replace (z + 2 ^ (w - 1) - 2 ^ (w - 1)) with z by lia.
  by apply Z.mod_small.
Qed.

Lemma wrapS_wrapU w z : 0 < w -> inS w z -> wrapS w (wrapU w z) = z.
Proof.
  intros Hw Hz. unfold wrapU, wrapS.
  rewrite Z.add_mod_idemp_l by (pose proof (pow2_pos w); lia).
  by apply wrapS_id.
Qed.

Lemma wrapS_inj w a b : 0 < w -> inU w a -> inU w b -> wrapS w a = wrapS w b -> a = b.
Proof.
  intros Hw Ha Hb E.
  rewrite <- (wrapU_wrapS w a), <- (wrapU_wrapS w b) by done. by rewrite E.
Qed.

Lemma checked_add_s_Some w a b c :
  checked_add_s w a b = Some c <-> c = a + b /\ inS w (a + b).
Proof. unfold checked_add_s. case_decide; naive_solver. Qed.

Lemma checked_add_s_None w a b :
  checked_add_s w a b = None <-> ~ inS w (a + b).
Proof. unfold checked_add_s. case_decide; naive_solver. Qed.

Lemma saturateS_in w z : 0 < w -> inS w (saturateS w z).
Proof. intros Hw. unfold inS, saturateS. pose proof (pow2_pos (w - 1)). lia. Qed.

Lemma saturateS_id w z : inS w z -> saturateS w z = z.
Proof. unfold inS, saturateS. lia. Qed.

#[export] Hint Resolve wrapU_in wrapS_in saturateS_in : sw.

(** Length of the [Z]-valued [len]. *)
Lemma len_nonneg {A} (l : list A) : 0 <= len l.
Proof. unfold len. lia. Qed.

Lemma len_app {A} (l k : list A) : len (l ++ k) = len l + len k.
Proof. unfold len. rewrite length_app. lia. Qed.

Lemma len_cons {A} (x : A) l : len (x :: l) = 1 + len l.
Proof. unfold len. simpl. lia. Qed.

#[export] Hint Rewrite @len_app @len_cons : sw_len.

(** A saturated difference is below a positive [i64] bound exactly when the
    exact difference is. *)
Lemma saturateS_lt w z b :
  0 < w -> 0 < b -> inS w b -> (saturateS w z < b <-> z < b).
Proof. unfold saturateS, inS. intros. pose proof (pow2_pos (w - 1)). lia. Qed.

Lemma size_delete_Some `{Countable K} {V} (m : gmap K V) k v :
  m !! k = Some v -> (S (size (delete k m)) = size m)%nat.
Proof.
  intros Hk. pose proof (map_size_insert_None k v (delete k m) (lookup_delete_eq m k)) as E.
  rewrite insert_delete_eq, insert_id in E by done. lia.
Qed.

Lemma size_alter `{Countable K} {V} (f : V -> V) k (m : gmap K V) : size (alter f k m) = size m.
Proof. by rewrite <- !(size_dom (D := gset K)), dom_alter_L. Qed.

Lemma filter_all {A} (P : A -> Prop) `{!forall x, Decision (P x)} (l : list A) :
  (forall x, x ∈ l -> P x) -> filter P l = l.
Proof.
  induction l as [|x l IH]; intros Hl; [done|].
  rewrite filter_cons_True, IH by (try intros; apply Hl; by constructor). done.
Qed.

Lemma filter_none {A} (P : A -> Prop) `{!forall x, Decision (P x)} (l : list A) :
  (forall x, x ∈ l -> ~ P x) -> filter P l = [].
Proof.
  induction l as [|x l IH]; intros Hl; [done|].
  rewrite filter_cons_False, IH by (try intros; apply Hl; by constructor). done.
Qed.

(** ** Ordered sets ([BTreeSet])

    A [BTreeSet] is a [gset] together with the order its iterator follows. *)
Section BTree.
Context {A : Type} `{Countable A} (R : relation A) `{!RelDecision R}.

Definition btree_iter (s : gset A) : list A := merge_sort R (elements s).

Definition btree_first (s : gset A) : option A := head (btree_iter s).

Lemma elem_of_btree_iter s x : x ∈ btree_iter s <-> x ∈ s.
Proof. unfold btree_iter. by rewrite merge_sort_Permutation, elem_of_elements. Qed.

Lemma NoDup_btree_iter s : NoDup (btree_iter s).
Proof. unfold btree_iter. rewrite merge_sort_Permutation. apply NoDup_elements. Qed.

Lemma length_btree_iter s : length (btree_iter s) = size s.
Proof. unfold btree_iter. by rewrite merge_sort_Permutation. Qed.

Lemma btree_first_None s : btree_first s = None <-> s = ∅.
Proof.
  unfold btree_first. rewrite <- (leibniz_equiv_iff s ∅), <- elements_empty_iff.
  pose proof (merge_sort_Permutation R (elements s)) as Hp. fold (btree_iter s) in Hp.
  destruct (btree_iter s) as [|x l] eqn:E; simpl.
  - apply Permutation_nil in Hp. by rewrite Hp.
  - split; [done|]. intros Hn. rewrite Hn in Hp. symmetry in Hp.
    by apply Permutation_nil_cons in Hp.
Qed.

Lemma btree_sorted `{!Total R, !Transitive R} s : StronglySorted R (btree_iter s).
Proof. apply (StronglySorted_merge_sort R). Qed.

Lemma btree_first_min `{!Total R, !Transitive R} s x :
  btree_first s = Some x -> x ∈ s /\ forall y, y ∈ s -> y = x \/ R x y.
Proof.
  unfold btree_first. pose proof (btree_sorted s) as Hs.
  destruct (btree_iter s) as [|a l] eqn:E; [done|]. intros [= ->].
  split; [apply elem_of_btree_iter; rewrite E; left|].
  intros y Hy. apply elem_of_btree_iter in Hy. rewrite E in Hy.
  apply elem_of_cons in Hy as [->|Hy]; [by left|right].
  apply StronglySorted_inv in Hs as [_ Hs]. by rewrite Forall_forall in Hs; apply Hs.
Qed.

End BTree.

(** The derived lexicographic order of a pair. *)
Definition lex {A B} (RA : relation A) (RB : relation B) : relation (A * B) :=
  fun x y => (RA x.1 y.1 /\ x.1 <> y.1) \/ (x.1 = y.1 /\ RB x.2 y.2).

Section Lex.
Context {A B : Type} (RA : relation A) (RB : relation B).
Context `{!EqDecision A, !RelDecision RA, !RelDecision RB}.

#[global] Instance lex_dec : RelDecision (lex RA RB).
Proof. intros x y. unfold lex. apply _. Defined.

#[global] Instance lex_total `{!Total RA, !Total RB} : Total (lex RA RB).
Proof.
  intros [a b] [a' b']. unfold lex; simpl.
  destruct (decide (a = a')) as [->|]; [destruct (total RB b b'); auto|].
  destruct (total RA a a'); auto.
Qed.

#[global] Instance lex_trans `{!Transitive RA, !AntiSymm eq RA, !Transitive RB} :
  Transitive (lex RA RB).
Proof.
  intros [a b] [a' b'] [a'' b'']. unfold lex; simpl.
  intros [[H1 N1]|[-> H1]] [[H2 N2]|[-> H2]]; auto.
  - left. split; [by etrans|]. intros ->. by apply N1, (anti_symm RA).
  - right. split; [done|]. by etrans.
Qed.

End Lex.
