(* ===== verification/Float.v ===== *)
(** * IEEE-754 arithmetic of the server

    Rust's [f32] and [f64] as the Standard Library's [spec_float] at their
    precision: comparisons, negation, [clamp], division, the conversions from
    and to integers ([as] casts saturate and send NaN to 0), [floor], [trunc]
    and [fract]; and the magnitude lemmas that bound a quotient without real
    numbers. *)

From Stdlib Require Export SpecFloat.
From S2P Require Import Prelude.

#[global] Instance spec_float_eq_dec : EqDecision spec_float.
Proof. solve_decision. Defined.

(** ** Operations at a precision *)
Definition f32 : Type := spec_float.
Definition f64 : Type := spec_float.

Definition prec32 : Z := 24.
Definition emax32 : Z := 128.
Definition prec64 : Z := 53.
Definition emax64 : Z := 1024.

(** The values a float of the format can have: mantissas are canonical. *)
Definition f32_ok (x : f32) : Prop := valid_binary prec32 emax32 x = true.
Definition f64_ok (x : f64) : Prop := valid_binary prec64 emax64 x = true.

Definition f32_div : f32 -> f32 -> f32 := SFdiv prec32 emax32.
Definition f64_div : f64 -> f64 -> f64 := SFdiv prec64 emax64.
Definition f64_mul : f64 -> f64 -> f64 := SFmul prec64 emax64.
Definition f64_sub : f64 -> f64 -> f64 := SFsub prec64 emax64.

(** [n as f32] and [n as f64] for an integer: rounds to nearest, ties to even. *)
Definition f32_of_Z (n : Z) : f32 := binary_normalize prec32 emax32 n 0 false.
Definition f64_of_Z (n : Z) : f64 := binary_normalize prec64 emax64 n 0 false.

(** [x as f32] for an [f64]. *)
Definition f32_of_f64 (x : f64) : f32 :=
  match x with
  | S754_finite s m e => binary_round prec32 emax32 s m e
  | _ => x
  end.

(** [x as f64] for an [f32]; always exact. *)
Definition f64_of_f32 (x : f32) : f64 :=
  match x with
  | S754_finite s m e => binary_round prec64 emax64 s m e
  | _ => x
  end.

Definition is_finite (x : spec_float) : bool :=
  match x with S754_zero _ | S754_finite _ _ _ => true | _ => false end.

Definition is_nan (x : spec_float) : bool :=
  match x with S754_nan => true | _ => false end.

(** [<], [>] and [<=] of floats: false whenever one side is NaN. *)
Definition flt (x y : spec_float) : bool := SFltb x y.
Definition fgt (x y : spec_float) : bool := SFltb y x.
Definition fle (x y : spec_float) : bool := SFleb x y.

(** [f32::clamp]. *)
Definition clamp (v lo hi : spec_float) : spec_float :=
  let v := if flt v lo then lo else v in
  if fgt v hi then hi else v.

(** The largest integer not above a finite float: [floor] is exact. *)
Definition floorZ (s : bool) (m : positive) (e : Z) : Z :=
  let m := if s then Z.neg m else Z.pos m in
  if decide (0 <= e) then m * 2 ^ e else m / 2 ^ (- e).

(** [trunc], toward zero. *)
Definition truncZ (s : bool) (m : positive) (e : Z) : Z :=
  let q := if decide (0 <= e) then Z.pos m * 2 ^ e else Z.pos m / 2 ^ (- e) in
  if s then - q else q.

(** [x.floor() as i32] and [x.floor() as u32]. *)
Definition floor_as_i32 (x : spec_float) : Z :=
  match x with
  | S754_zero _ | S754_nan => 0
  | S754_infinity s => if s then - 2 ^ 31 else 2 ^ 31 - 1
  | S754_finite s m e => saturateS 32 (floorZ s m e)
  end.

Definition floor_as_u32 (x : spec_float) : Z :=
  match x with
  | S754_zero _ | S754_nan => 0
  | S754_infinity s => if s then 0 else 2 ^ 32 - 1
  | S754_finite s m e => saturateU 32 (floorZ s m e)
  end.

(** [f64::trunc] and [f64::fract] ([self - self.trunc()]). *)
Definition f64_trunc (x : f64) : f64 :=
  match x with
  | S754_finite s m e => binary_normalize prec64 emax64 (truncZ s m e) 0 s
  | _ => x
  end.

Definition f64_fract (x : f64) : f64 := f64_sub x (f64_trunc x).

(** ** Magnitudes

    [digits m + e] bounds the binary magnitude of [m * 2 ^ e]; rounding raises
    it by at most one. *)
Definition mag (m : positive) (e : Z) : Z := Z.pos (digits2_pos m) + e.

(** A finite float below [2 ^ M] in absolute value. *)
Definition below (M : Z) (x : spec_float) : Prop :=
  match x with
  | S754_zero _ => True
  | S754_finite _ m e => mag m e <= M
  | _ => False
  end.

Lemma digits2_pos_bounds p :
  2 ^ (Z.pos (digits2_pos p) - 1) <= Z.pos p < 2 ^ Z.pos (digits2_pos p).
Proof.
  induction p as [p IH|p IH|]; simpl digits2_pos; [| |simpl; lia];
    rewrite Pos2Z.inj_succ; replace (Z.succ (Z.pos (digits2_pos p)) - 1)
      with (Z.succ (Z.pos (digits2_pos p) - 1)) by lia;
    rewrite !Z.pow_succ_r by lia; lia.
Qed.

Lemma Zdigits2_lt m : 0 <= m -> m < 2 ^ Zdigits2 m.
Proof. destruct m; simpl; [lia| |lia]. intros _. apply (digits2_pos_bounds p). Qed.

Lemma Zdigits2_nonneg m : 0 <= Zdigits2 m.
Proof. destruct m; simpl; lia. Qed.

Lemma Zdigits2_le m n : 0 <= n -> 0 <= m < 2 ^ n -> Zdigits2 m <= n.
Proof.
  intros Hn Hm. destruct m as [|p|p]; [done| |lia]. unfold Zdigits2.
  destruct (digits2_pos_bounds p) as [Hl _].
  destruct (decide (Z.pos (digits2_pos p) <= n)) as [|Hgt]; [done|].
  pose proof (Z.pow_le_mono_r 2 n (Z.pos (digits2_pos p) - 1)). lia.
Qed.

(** Shifting right divides, whatever the sticky bits. *)
Lemma shr_1_m mrs : 0 <= shr_m mrs -> shr_m (shr_1 mrs) = shr_m mrs / 2.
Proof.
  destruct mrs as [[|[p|p|]|p] r s]; simpl; intros; try done; try lia.
  - by rewrite (Z.div_unique (Z.pos p~1) 2 (Z.pos p) 1) by lia.
  - by rewrite (Z.div_unique (Z.pos p~0) 2 (Z.pos p) 0) by lia.
Qed.

Lemma shr_iter_m p mrs :
  0 <= shr_m mrs -> shr_m (SpecFloat.iter_pos shr_1 p mrs) = shr_m mrs / 2 ^ Z.pos p.
Proof.
  assert (Hnn : forall m q, 0 <= m -> 0 <= m / 2 ^ Z.pos q) by (intros; apply Z.div_pos; lia).
  assert (Hdd : forall m q, m / 2 ^ Z.pos q / 2 ^ Z.pos q = m / 2 ^ Z.pos q~0).
  { intros m q. rewrite Z.div_div, <- Z.pow_add_r by lia. do 2 f_equal. lia. }
  revert mrs. induction p as [p IH|p IH|]; intros mrs Hm; simpl SpecFloat.iter_pos.
  - assert (0 <= shr_m mrs / 2) by (apply Z.div_pos; lia). pose proof (shr_1_m mrs Hm) as E1.
    rewrite !IH, E1; rewrite ?IH, ?E1; auto with lia. rewrite Hdd, Z.div_div by lia.
    f_equal.
  - rewrite !IH; rewrite ?IH; auto.
  - by apply shr_1_m.
Qed.

Lemma Zdigits2_shift m n : 0 <= m -> 0 <= n -> Zdigits2 (m / 2 ^ n) <= Z.max 0 (Zdigits2 m - n).
Proof.
  intros Hm Hn. pose proof (Zdigits2_lt m Hm) as Hlt. pose proof (pow2_pos n Hn) as Hpos.
  pose proof (Z.div_pos m (2 ^ n) Hm Hpos) as Hq. apply Zdigits2_le; [lia|]. split; [done|].
  apply Z.div_lt_upper_bound; [done|]. rewrite <- Z.pow_add_r by lia.
  eapply Z.lt_le_trans; [done|]. apply Z.pow_le_mono_r; lia.
Qed.

Section Rounding.
Context (prec emax : Z) (Hprec : 0 < prec).

(** The exponents a float of magnitude [M] can have. *)
Definition top (M : Z) : Z := Z.max (M - prec) (emin prec emax).

Lemma shr_fexp_mag M m e l :
  0 <= m -> Zdigits2 m + e <= M -> emin prec emax <= M -> e <= top M ->
  let '(mrs, e') := shr_fexp prec emax m e l in
  0 <= shr_m mrs /\ Zdigits2 (shr_m mrs) + e' <= M /\ e' <= top M.
Proof.
  intros Hm Hd HM He. unfold shr_fexp, shr.
  assert (Em : shr_m (shr_record_of_loc m l) = m) by (by destruct l as [|[]]).
  pose proof (Zdigits2_nonneg m). unfold top in *.
  destruct (fexp prec emax (Zdigits2 m + e) - e) as [|p|p] eqn:En; [by rewrite Em|..|by rewrite Em].
  rewrite shr_iter_m by (by rewrite Em). rewrite Em.
  pose proof (Zdigits2_shift m (Z.pos p) Hm ltac:(lia)) as Hs.
  unfold fexp in En. split; [apply Z.div_pos; lia|]. lia.
Qed.

Lemma round_digits m l : 0 <= m -> 0 <= round_nearest_even m l /\
  Zdigits2 (round_nearest_even m l) <= Zdigits2 m + 1.
Proof.
  intros Hm. assert (Hs : Zdigits2 (m + 1) <= Zdigits2 m + 1).
  { pose proof (Zdigits2_lt m Hm). pose proof (Zdigits2_nonneg m).
    apply Zdigits2_le; [lia|]. rewrite Z.pow_add_r by lia. lia. }
  unfold round_nearest_even. repeat case_match; lia.
Qed.

Lemma round_aux_below M sx m e l :
  0 <= m -> Zdigits2 m + e <= M -> emin prec emax <= M -> e <= top M -> M + 1 <= emax ->
  emin prec emax <= emax - prec -> below (M + 1) (binary_round_aux prec emax sx m e l).
Proof.
  intros Hm Hd HM He Hmax Hmin. unfold binary_round_aux.
  pose proof (shr_fexp_mag M m e l Hm Hd HM He) as H1.
  destruct (shr_fexp prec emax m e l) as [mrs e1]. destruct H1 as (Hm1 & Hd1 & He1).
  destruct (round_digits (shr_m mrs) (loc_of_shr_record mrs) Hm1) as [Hr Hdr].
  pose proof (shr_fexp_mag (M + 1) _ e1 loc_Exact Hr) as H2. unfold top in *.
  specialize (H2 ltac:(lia) ltac:(lia) ltac:(lia)).
  destruct (shr_fexp prec emax (round_nearest_even _ _) e1 loc_Exact) as [mrs2 e2].
  destruct H2 as (Hm2 & Hd2 & He2). destruct (shr_m mrs2) as [|p|p] eqn:Ep; [done| |lia].
  case_match eqn:Hle; simpl in *; [by unfold mag|]. apply Z.leb_gt in Hle. lia.
Qed.

(** A quotient of magnitudes [a] over [b] has magnitude at most [a - b + 2]. *)
Lemma SFdiv_below M s1 m1 e1 s2 m2 e2 :
  mag m1 e1 - mag m2 e2 + 1 <= M -> emin prec emax <= M -> M + 1 <= emax ->
  emin prec emax <= emax - prec ->
  below (M + 1) (SFdiv prec emax (S754_finite s1 m1 e1) (S754_finite s2 m2 e2)).
Proof.
  intros Hmag Hmin Hmax He. unfold SFdiv, SFdiv_core_binary, mag, Zdigits2 in *.
  set (e' := Z.min _ _). set (s := e1 - e2 - e').
  assert (Hs : 0 <= s) by lia.
  assert (Em : match s with 0 => Z.pos m1 | Z.pos _ => Z.shiftl (Z.pos m1) s | Z.neg _ => 0 end
               = Z.pos m1 * 2 ^ s).
  { destruct s; [by rewrite Z.pow_0_r, Z.mul_1_r|by apply Z.shiftl_mul_pow2|lia]. }
  rewrite Em. pose proof (Z.div_eucl_eq (Z.pos m1 * 2 ^ s) (Z.pos m2) ltac:(lia)) as Hdiv.
  assert (Hq : (Z.div_eucl (Z.pos m1 * 2 ^ s) (Z.pos m2)).1 = Z.pos m1 * 2 ^ s / Z.pos m2)
    by (unfold Z.div; by destruct (Z.div_eucl _ _)).
  destruct (Z.div_eucl (Z.pos m1 * 2 ^ s) (Z.pos m2)) as [q r]. simpl in Hq. clear Hdiv Em.
  pose proof (pow2_pos s Hs) as Hp.
  assert (Hq0 : 0 <= q) by (subst q; apply Z.div_pos; lia).
  pose proof (digits2_pos_bounds m1) as [_ H1]. pose proof (digits2_pos_bounds m2) as [H2 _].
  set (d1 := Z.pos (digits2_pos m1)) in *. set (d2 := Z.pos (digits2_pos m2)) in *.
  assert (Hd : Zdigits2 q <= Z.max 0 (d1 + s - d2 + 1)).
  { apply Zdigits2_le; [lia|]. split; [done|]. subst q. apply Z.div_lt_upper_bound; [lia|].
    apply Z.lt_le_trans with (2 ^ d1 * 2 ^ s); [nia|].
    etrans; [|apply Z.mul_le_mono_nonneg_r, H2; lia].
    rewrite <- !Z.pow_add_r by lia. apply Z.pow_le_mono_r; lia. }
  apply round_aux_below; try done; unfold top, fexp in *; lia.
Qed.

End Rounding.

Lemma floorZ_bound M s m e : 0 <= M -> mag m e <= M -> - 2 ^ M <= floorZ s m e <= 2 ^ M.
Proof.
  intros HM Hmag. unfold floorZ, mag in *. pose proof (digits2_pos_bounds m) as [_ Hm].
  set (d := Z.pos (digits2_pos m)) in *. pose proof (pow2_pos M HM).
  assert (Hsign : (if s then Z.neg m else Z.pos m) = Z.pos m \/
                  (if s then Z.neg m else Z.pos m) = - Z.pos m) by (destruct s; [by right|by left]).
  set (v := if s then _ else _) in *. clearbody v. case_decide as He.
  - assert (Z.pos m * 2 ^ e <= 2 ^ M).
    { etrans; [apply Z.mul_le_mono_nonneg_r; [|apply Z.lt_le_incl, Hm]; apply pow2_pos in He; lia|].
      rewrite <- Z.pow_add_r by lia. apply Z.pow_le_mono_r; lia. }
    destruct Hsign as [-> | ->]; pose proof (pow2_pos e He); nia.
  - pose proof (pow2_pos (- e) ltac:(lia)) as Hp.
    assert (Hq : Z.pos m <= 2 ^ M * 2 ^ (- e)).
    { rewrite <- Z.pow_add_r by lia. etrans; [apply Z.lt_le_incl, Hm|]. apply Z.pow_le_mono_r; lia. }
    split; [apply Z.div_le_lower_bound|apply Z.div_le_upper_bound]; destruct Hsign as [-> | ->]; nia.
Qed.

(** ** Widening is exact

    Storing an [f32] in a [REAL] column and reading it back loses nothing. *)
Lemma iter_pos_iter {A} (f : A -> A) p x : SpecFloat.iter_pos f p x = Pos.iter f x p.
Proof.
  revert x. induction p as [p IH|p IH|]; intros x; simpl; [| |done]; rewrite !IH; [|done].
  by rewrite <- !Pos.iter_swap.
Qed.

Lemma digits_shift m d : Z.pos (digits2_pos (Pos.iter xO m d)) = Z.pos (digits2_pos m) + Z.pos d.
Proof.
  induction d as [|d IH] using Pos.peano_ind; [simpl; lia|].
  rewrite Pos.iter_succ. simpl digits2_pos. lia.
Qed.

Lemma shr_shift m d :
  SpecFloat.iter_pos shr_1 d (Build_shr_record (Z.pos (Pos.iter xO m d)) false false) =
  Build_shr_record (Z.pos m) false false.
Proof.
  rewrite iter_pos_iter. revert m. induction d as [|d IH] using Pos.peano_ind; intros m; [done|].
  rewrite Pos.iter_succ_r, Pos.iter_succ. simpl. apply IH.
Qed.

Lemma f64_of_f32_eq s m e :
  f32_ok (S754_finite s m e) ->
  exists d, Z.pos d = prec64 - Z.pos (digits2_pos m) /\
    f64_of_f32 (S754_finite s m e) = S754_finite s (Pos.iter xO m d) (e - Z.pos d).
Proof.
  unfold f32_ok, valid_binary, bounded, canonical_mantissa, fexp, emin, prec32, emax32.
  rewrite andb_true_iff, Z.eqb_eq, Z.leb_le. intros [Hc He].
  set (D := Z.pos (digits2_pos m)) in *.
  assert (HD : 1 <= D) by (unfold D; lia).
  destruct (prec64 - D) as [|d|d] eqn:Ed; [unfold prec64 in Ed; lia| |unfold prec64 in Ed; lia].
  exists d. split; [done|].
  unfold f64_of_f32, binary_round, shl_align, fexp, emin. fold D.
  replace (Z.max (D + e - prec64) (3 - emax64 - prec64)) with (e - Z.pos d)
    by (unfold prec64, emax64 in *; lia).
  replace (e - Z.pos d - e) with (Z.neg d) by lia.
  unfold binary_round_aux, shr_fexp, Zdigits2.
  rewrite digits_shift. fold D.
  assert (E : fexp prec64 emax64 (D + Z.pos d + (e - Z.pos d)) - (e - Z.pos d) = 0)
    by (unfold fexp, emin, prec64, emax64 in *; lia).
  rewrite E. simpl. rewrite digits_shift. fold D. rewrite E. simpl.
  rewrite (proj2 (Z.leb_le _ _)); [done|]. unfold prec64, emax64 in *. lia.
Qed.

Lemma f32_f64_roundtrip x : f32_ok x -> f32_of_f64 (f64_of_f32 x) = x.
Proof.
  destruct x as [| | |s m e]; [done..|]. intros Hok.
  destruct (f64_of_f32_eq s m e Hok) as (d & Hd & ->). revert Hok.
  unfold f32_ok, valid_binary, bounded, canonical_mantissa.
  rewrite andb_true_iff, Z.eqb_eq, Z.leb_le. intros [Hc He].
  unfold f32_of_f64, binary_round, shl_align.
  rewrite digits_shift, Zplus_assoc_reverse.
  replace (Z.pos d + (e - Z.pos d)) with e by lia. rewrite Hc.
  replace (e - (e - Z.pos d)) with (Z.pos d) by lia.
  unfold binary_round_aux, shr_fexp, Zdigits2. rewrite digits_shift, Zplus_assoc_reverse.
  replace (Z.pos d + (e - Z.pos d)) with e by lia. rewrite Hc.
  replace (e - (e - Z.pos d)) with (Z.pos d) by lia.
  unfold shr at 1. simpl shr_record_of_loc. rewrite shr_shift. simpl.
  replace (e - Z.pos d + Z.pos d) with e by lia. rewrite Hc, Z.sub_diag. simpl.
  by rewrite (proj2 (Z.leb_le _ _)).
Qed.

(** ** Rounding yields a value of the format *)
Section Valid.
Context (prec emax : Z) (Hprec : 0 < prec).

Lemma Zdigits2_shift_eq m n :
  0 <= m -> 0 <= n -> m / 2 ^ n <> 0 -> Zdigits2 (m / 2 ^ n) = Zdigits2 m - n.
Proof.
  intros Hm Hn Hq. pose proof (pow2_pos n Hn) as Hp.
  assert (Hq0 : 0 < m / 2 ^ n) by (pose proof (Z.div_pos m (2 ^ n) Hm Hp); lia).
  pose proof (Zdigits2_shift m n Hm Hn) as Hle.
  assert (Hge : Zdigits2 m <= Zdigits2 (m / 2 ^ n) + n).
  { pose proof (Zdigits2_nonneg (m / 2 ^ n)). apply Zdigits2_le; [lia|]. split; [done|].
    pose proof (Zdigits2_lt (m / 2 ^ n) ltac:(lia)) as Hlt. rewrite Z.pow_add_r by lia.
    pose proof (Z.mod_pos_bound m (2 ^ n) Hp). pose proof (Z.div_mod m (2 ^ n) ltac:(lia)). nia. }
  assert (1 <= Zdigits2 (m / 2 ^ n)) by (destruct (m / 2 ^ n); simpl; lia). lia.
Qed.

(** Shifting a mantissa that is not too short makes it canonical. *)
Lemma shr_fexp_canonical m e l :
  0 <= m -> e <= fexp prec emax (Zdigits2 m + e) ->
  let '(mrs, e') := shr_fexp prec emax m e l in
  0 <= shr_m mrs /\ e' = fexp prec emax (Zdigits2 m + e) /\
  (shr_m mrs <> 0 -> e' = fexp prec emax (Zdigits2 (shr_m mrs) + e')) /\
  (shr_m mrs = 0 -> Zdigits2 m + e <= e').
Proof.
  intros Hm He. unfold shr_fexp, shr.
  assert (Em : shr_m (shr_record_of_loc m l) = m) by (by destruct l as [|[]]).
  destruct (fexp prec emax (Zdigits2 m + e) - e) as [|p|p] eqn:En; [rewrite Em| |lia].
  - split_and!; [done|lia|intros _; lia|]. intros ->. simpl. lia.
  - rewrite shr_iter_m by (by rewrite Em). rewrite Em. split_and!.
    + apply Z.div_pos; [done|by apply pow2_pos].
    + lia.
    + intros Hq. rewrite Zdigits2_shift_eq by (done || lia).
      replace (_ - _ + _) with (Zdigits2 m + e) by lia. lia.
    + intros Hz. pose proof (pow2_pos (Z.pos p) ltac:(lia)) as Hp.
      apply Z.div_small_iff in Hz; [|lia]. assert (Zdigits2 m <= Z.pos p) by (apply Zdigits2_le; lia). lia.
Qed.

Lemma binary_round_aux_valid s m e l :
  0 <= m -> e <= fexp prec emax (Zdigits2 m + e) ->
  valid_binary prec emax (binary_round_aux prec emax s m e l) = true.
Proof.
  intros Hm He. unfold binary_round_aux.
  pose proof (shr_fexp_canonical m e l Hm He) as H1.
  destruct (shr_fexp prec emax m e l) as [mrs e1]. destruct H1 as (Hm1 & E1 & Hc1 & Hz1).
  set (r := round_nearest_even (shr_m mrs) (loc_of_shr_record mrs)).
  assert (Hr : r = shr_m mrs \/ r = shr_m mrs + 1) by (unfold r, round_nearest_even; repeat case_match; auto).
  assert (He1 : 0 <= r /\ e1 <= fexp prec emax (Zdigits2 r + e1)).
  { split; [lia|]. destruct (decide (shr_m mrs = 0)) as [E0|E0].
    - specialize (Hz1 E0). rewrite E0 in Hr. unfold fexp in *. destruct Hr as [-> | ->]; simpl; lia.
    - rewrite (Hc1 E0) at 1. assert (Zdigits2 (shr_m mrs) <= Zdigits2 r); [|unfold fexp; lia].
      pose proof (Zdigits2_lt r ltac:(lia)). pose proof (Zdigits2_nonneg r).
      apply Zdigits2_le; lia. }
  destruct He1 as [Hr0 He1]. pose proof (shr_fexp_canonical r e1 loc_Exact Hr0 He1) as H2.
  destruct (shr_fexp prec emax r e1 loc_Exact) as [mrs2 e2]. destruct H2 as (Hm2 & _ & Hc2 & _).
  destruct (shr_m mrs2) as [|p|p] eqn:Ep; [done| |lia].
  case_match eqn:Hle; [|done]. simpl. unfold bounded, canonical_mantissa. rewrite andb_true_iff.
  split; [|done]. apply Z.eqb_eq. symmetry. apply Hc2. lia.
Qed.

Lemma binary_round_valid s m e : valid_binary prec emax (binary_round prec emax s m e) = true.
Proof.
  unfold binary_round, shl_align.
  set (f := fexp prec emax (Z.pos (digits2_pos m) + e)).
  destruct (f - e) as [|p|p] eqn:En; apply binary_round_aux_valid; try done; unfold Zdigits2;
    [fold f; lia|fold f; lia|].
  rewrite digits_shift. replace (_ + f) with (Z.pos (digits2_pos m) + e) by lia. fold f. lia.
Qed.
End Valid.

Lemma f32_of_f64_ok x : f32_ok (f32_of_f64 x).
Proof. destruct x as [| | |s m e]; try done. by apply binary_round_valid. Qed.
