(* ===== verification/World.v ===== *)
(** * The spatial grid and area of interest ([sw-world]) and motion guards

    Models server/crates/sw-world/src/lib.rs: the grid ([Grid::cell_of] over
    IEEE [f32]), the square neighbourhood of a cell with [i32] additions, a
    player's subscription and the entity index; and
    server/crates/sw-server/src/validate.rs, the guards that keep a hostile
    position from reaching them.  A [HashSet] is a [gset], its iteration order
    unspecified ([elements]). *)

From S2P Require Import Prelude Float.

(** ** Motion guards (validate.rs) *)

(** [1.0e7f32], [1.0e4f32] and [1.0f32]: all exactly representable. *)
Definition MAX_WORLD_COORD_M : f32 := Eval vm_compute in f32_of_Z 10000000.
Definition MAX_VELOCITY_MPS : f32 := Eval vm_compute in f32_of_Z 10000.
Definition one32 : f32 := Eval vm_compute in f32_of_Z 1.

Record Motion := mkMotion {
  pos : f32 * f32 * f32;
  rot : f32 * f32 * f32 * f32;
  vel : f32 * f32 * f32
}.

Definition finite_clamped (v limit : f32) : option f32 :=
  if is_finite v then Some (clamp v (SFopp limit) limit) else None.

Definition sanitize_motion (p : f32 * f32 * f32) (r : f32 * f32 * f32 * f32) (v : f32 * f32 * f32)
    : option Motion :=
  let '(p0, p1, p2) := p in
  let '(r0, r1, r2, r3) := r in
  let '(v0, v1, v2) := v in
  p0 ← finite_clamped p0 MAX_WORLD_COORD_M;
  p1 ← finite_clamped p1 MAX_WORLD_COORD_M;
  p2 ← finite_clamped p2 MAX_WORLD_COORD_M;
  r0 ← finite_clamped r0 one32;
  r1 ← finite_clamped r1 one32;
  r2 ← finite_clamped r2 one32;
  r3 ← finite_clamped r3 one32;
  v0 ← finite_clamped v0 MAX_VELOCITY_MPS;
  v1 ← finite_clamped v1 MAX_VELOCITY_MPS;
  v2 ← finite_clamped v2 MAX_VELOCITY_MPS;
  Some (mkMotion (p0, p1, p2) (r0, r1, r2, r3) (v0, v1, v2)).

Definition string_within_limit (s : string) (max_len : Z) : bool :=
  bool_decide (Z.of_nat (String.length s) <= max_len).

(** ** Grid *)
Record Cell := mkCell { cx : Z; cz : Z }.

#[global] Instance Cell_eq_dec : EqDecision Cell.
Proof. solve_decision. Defined.

#[global] Instance Cell_countable : Countable Cell.
Proof.
  apply (inj_countable' (fun c => (cx c, cz c)) (fun p => mkCell p.1 p.2)). by intros [].
Defined.

Definition AOI_RADIUS_CELLS : Z := 2.

(** [i32::abs] wraps on [i32::MIN] in a release build. *)
Definition abs32 (z : Z) : Z := wrapS 32 (Z.abs z).

Definition chebyshev_distance (a b : Cell) : Z :=
  Z.max (abs32 (wrapS 32 (cx a - cx b))) (abs32 (wrapS 32 (cz a - cz b))).

Record Grid := mkGrid { cell_size_m : f32 }.

Definition DEFAULT_CELL_SIZE_M : f32 := Eval vm_compute in f32_of_Z 1024.

Definition grid_default : Grid := mkGrid DEFAULT_CELL_SIZE_M.

(** [Grid::new]; the assertion that fails is a panic, [None]. *)
Definition grid_new (cell_size : f32) : option Grid :=
  if fgt cell_size (S754_zero false) then Some (mkGrid cell_size) else None.

Definition cell_of (g : Grid) (x z : f32) : Cell :=
  mkCell (floor_as_i32 (f32_div x (cell_size_m g))) (floor_as_i32 (f32_div z (cell_size_m g))).

(** The inclusive range [lo..=hi]. *)
Definition zrange (lo hi : Z) : list Z :=
  (fun k => lo + Z.of_nat k) <$> seq 0 (Z.to_nat (hi - lo + 1)).

(** The loops of [cells_in_radius]: the block is pushed row by row, and the
    additions wrap. *)
Definition block_cells (center : Cell) (radius : Z) : list Cell :=
  dz ← zrange (wrapS 32 (- radius)) radius;
  (fun dx => mkCell (wrapS 32 (cx center + dx)) (wrapS 32 (cz center + dz)))
    <$> zrange (wrapS 32 (- radius)) radius.

(** [cells_in_radius]: the capacity is computed first, [i32] arithmetic cast to
    [usize]; a capacity of more than [isize::MAX] bytes (a [Cell] has 8) is a panic,
    [None]. *)
Definition cells_in_radius (center : Cell) (radius : Z) : option (list Cell) :=
  let side := wrapU 64 (wrapS 32 (wrapS 32 (2 * radius) + 1)) in
  let capacity := wrapU 64 (side * side) in
  if decide (8 * capacity <= i64_max) then Some (block_cells center radius) else None.

(** ** Subscriptions *)
Record AoiUpdate := mkAoiUpdate { added : list Cell; removed : list Cell }.

Definition aoi_default : AoiUpdate := mkAoiUpdate [] [].

Definition aoi_is_empty (u : AoiUpdate) : bool :=
  bool_decide (added u = []) && bool_decide (removed u = []).

Record Subscription := mkSubscription {
  sub_radius : Z;
  sub_center : option Cell;
  sub_cells : gset Cell
}.

(** [Subscription::new]; a negative radius panics. *)
Definition subscription_new (radius : Z) : option Subscription :=
  if decide (0 <= radius) then Some (mkSubscription radius None ∅) else None.

Definition contains (s : Subscription) (c : Cell) : bool := bool_decide (c ∈ sub_cells s).

(** [Subscription::recenter]; [None] is the panic of [cells_in_radius]. *)
Definition recenter (center : Cell) (s : Subscription) : option (AoiUpdate * Subscription) :=
  if decide (sub_center s = Some center) then Some (aoi_default, s) else
  cells ← cells_in_radius center (sub_radius s);
  let new_cells : gset Cell := list_to_set cells in
  Some (mkAoiUpdate (elements (new_cells ∖ sub_cells s)) (elements (sub_cells s ∖ new_cells)),
        mkSubscription (sub_radius s) (Some center) new_cells).

(** ** The entity index *)
Record World := mkWorld {
  w_grid : Grid;
  w_cell_of : gmap Z Cell;
  w_index : gmap Cell (gset Z)
}.

#[global] Instance World_eta : Settable World :=
  mkSettable (fun r => mkWorld (w_grid r) (w_cell_of r) (w_index r)).

Definition world_new (g : Grid) : World := mkWorld g ∅ ∅.

Definition world_len (w : World) : nat := size (w_cell_of w).

Definition world_is_empty (w : World) : bool := bool_decide (w_cell_of w = ∅).

Definition cell_of_entity (id : Z) (w : World) : option Cell := w_cell_of w !! id.

(** [set.remove(&id); if set.is_empty() { index.remove(&cell) }]. *)
Definition index_remove (id : Z) (c : Cell) (m : gmap Cell (gset Z)) : gmap Cell (gset Z) :=
  match m !! c with
  | Some set => if decide (set ∖ {[id]} = ∅) then delete c m else <[c := set ∖ {[id]}]> m
  | None => m
  end.

Definition place_in_cell (id : Z) (c : Cell) (w : World) : bool * World :=
  let old := w_cell_of w !! id in
  if decide (old = Some c) then (false, w) else
  let w := match old with
           | Some o => w <| w_index ::= index_remove id o |>
           | None => w
           end in
  (true, w <| w_index ::= fun m => <[c := {[id]} ∪ default ∅ (m !! c)]> m |>
           <| w_cell_of ::= <[id := c]> |>).

Definition place (id : Z) (x z : f32) (w : World) : bool * World :=
  place_in_cell id (cell_of (w_grid w) x z) w.

Definition world_remove (id : Z) (w : World) : World :=
  match w_cell_of w !! id with
  | Some c => w <| w_cell_of ::= delete id |> <| w_index ::= index_remove id c |>
  | None => w
  end.

Definition entities_in (c : Cell) (w : World) : list Z :=
  match w_index w !! c with Some s => elements s | None => [] end.

Definition entities_in_radius (center : Cell) (radius : Z) (w : World) : option (list Z) :=
  cells ← cells_in_radius center radius;
  Some (c ← cells; match w_index w !! c with Some s => elements s | None => [] end).

(** ** Lemmas *)
Lemma elem_of_zrange lo hi z : z ∈ zrange lo hi <-> lo <= z <= hi.
Proof.
  unfold zrange. rewrite list_elem_of_fmap. split.
  - intros (k & -> & Hk). apply elem_of_seq in Hk. lia.
  - intros Hz. exists (Z.to_nat (z - lo)). rewrite elem_of_seq. lia.
Qed.

Lemma NoDup_zrange lo hi : NoDup (zrange lo hi).
Proof.
  unfold zrange. apply NoDup_fmap_2_strong; [|apply NoDup_seq]. intros x y _ _ E. lia.
Qed.

(** A cell whose whole neighbourhood fits in [i32]. *)
Definition interior (radius : Z) (c : Cell) : Prop :=
  inS 32 (cx c - radius) /\ inS 32 (cx c + radius) /\
  inS 32 (cz c - radius) /\ inS 32 (cz c + radius).

(** The square block the area of interest is meant to be. *)
Definition within (radius : Z) (a b : Cell) : Prop :=
  Z.abs (cx b - cx a) <= radius /\ Z.abs (cz b - cz a) <= radius.

#[global] Instance within_dec r a b : Decision (within r a b).
Proof. unfold within. apply _. Defined.

Lemma interior_wrap_x r c d : interior r c -> - r <= d <= r -> wrapS 32 (cx c + d) = cx c + d.
Proof. unfold interior, inS. intros. apply wrapS_id; unfold inS; lia. Qed.

Lemma interior_wrap_z r c d : interior r c -> - r <= d <= r -> wrapS 32 (cz c + d) = cz c + d.
Proof. unfold interior, inS. intros. apply wrapS_id; unfold inS; lia. Qed.

(** The neighbourhood of such a cell has a radius whose negation does not wrap. *)
Lemma interior_radius r c : interior r c -> wrapS 32 (- r) = - r.
Proof. unfold interior, inS. intros. apply wrapS_id; unfold inS; lia. Qed.

(** The radii that panic: from [2 ^ 29] on the capacity is too large, until twice
    the radius has wrapped around far enough for it to be small again. *)
Lemma cells_in_radius_spec c r :
  inS 32 r -> - 2 ^ 29 <= r ->
  cells_in_radius c r = if decide (2 ^ 29 <= r < 2 ^ 31 - 2 ^ 29) then None else Some (block_cells c r).
Proof.
  intros Hr Hl. unfold cells_in_radius, inS, i64_max in *.
  change (2 ^ (32 - 1)) with (2 ^ 31) in *.
  set (k := if decide (r < 2 ^ 30) then 2 * r + 1 else 2 * r + 1 - 2 ^ 32).
  assert (Es : wrapS 32 (wrapS 32 (2 * r) + 1) = k).
  { unfold k, wrapS. change (2 ^ (32 - 1)) with (2 ^ 31). case_decide.
    - rewrite (Z.mod_small (2 * r + 2 ^ 31)) by lia. rewrite Z.mod_small; lia.
    - replace (2 * r + 2 ^ 31) with (2 * r - 2 ^ 31 + 1 * 2 ^ 32) by lia.
      rewrite Z.mod_add, (Z.mod_small (2 * r - 2 ^ 31)) by lia. rewrite Z.mod_small; lia. }
  rewrite Es. clear Es. assert (Ec : wrapU 64 (wrapU 64 k * wrapU 64 k) = k * k).
  { unfold wrapU. rewrite <- Z.mul_mod by lia. apply Z.mod_small. unfold k. case_decide; nia. }
  rewrite Ec. clear Ec. unfold k. destruct (decide (r < 2 ^ 30)); case_decide; case_decide; try done; exfalso; nia.
Qed.

Lemma cells_in_radius_small c r : 0 <= r < 2 ^ 29 -> cells_in_radius c r = Some (block_cells c r).
Proof. intros Hr. rewrite cells_in_radius_spec by (unfold inS; lia). rewrite decide_False by lia. done. Qed.

Lemma recenter_runs c s :
  0 <= sub_radius s < 2 ^ 29 -> exists u s', recenter c s = Some (u, s').
Proof.
  intros Hr. unfold recenter. case_decide; [by eauto|]. rewrite cells_in_radius_small by done. simpl. eauto.
Qed.

Lemma elem_of_cells r c c' :
  interior r c -> (c' ∈ block_cells c r <-> within r c c').
Proof.
  intros Hi. unfold block_cells, within. rewrite (interior_radius r c Hi). rewrite list_elem_of_bind. split.
  - intros (dz & Hc & Hdz). apply list_elem_of_fmap in Hc as (dx & -> & Hdx).
    apply elem_of_zrange in Hdx, Hdz. simpl.
    rewrite (interior_wrap_x r), (interior_wrap_z r) by done. lia.
  - intros [Hx Hz]. exists (cz c' - cz c). rewrite elem_of_zrange, list_elem_of_fmap.
    split; [|lia]. exists (cx c' - cx c). rewrite elem_of_zrange. split; [|lia].
    rewrite (interior_wrap_x r), (interior_wrap_z r) by (done || lia).
    destruct c'. simpl. f_equal; lia.
Qed.

Lemma NoDup_cells r c : interior r c -> NoDup (block_cells c r).
Proof.
  intros Hi. unfold block_cells. rewrite (interior_radius r c Hi). apply NoDup_bind; [..|apply NoDup_zrange].
  - intros z1 z2 y [H1 H2]%elem_of_zrange [H3 H4]%elem_of_zrange
      (x1 & -> & _)%list_elem_of_fmap (x2 & E & _)%list_elem_of_fmap.
    injection E as _ E. rewrite !(interior_wrap_z r) in E by (done || lia). lia.
  - intros z _. apply NoDup_fmap_2_strong; [|apply NoDup_zrange].
    intros x y Hx%elem_of_zrange Hy%elem_of_zrange E.
    injection E as E. rewrite !(interior_wrap_x r) in E by (done || lia). lia.
Qed.

(** The index and the entity map agree, and no cell keeps an empty set. *)
Record WorldInv (w : World) : Prop := {
  wi_index id c : w_cell_of w !! id = Some c <-> exists s, w_index w !! c = Some s /\ id ∈ s;
  wi_nonempty c s : w_index w !! c = Some s -> s <> ∅
}.

(** What removing an id from its cell does to the index. *)
Lemma index_remove_spec id c (m : gmap Cell (gset Z)) c' :
  (forall s, m !! c' = Some s -> s <> ∅) ->
  (forall x, (exists s, index_remove id c m !! c' = Some s /\ x ∈ s) <->
     (exists s, m !! c' = Some s /\ x ∈ s) /\ (c' = c -> x <> id)) /\
  (forall s, index_remove id c m !! c' = Some s -> s <> ∅).
Proof.
  intros Hne. unfold index_remove. destruct (m !! c) as [s|] eqn:Es.
  - destruct (decide (s ∖ {[id]} = ∅)) as [He|Hn].
    + rewrite lookup_delete. case_decide as Hd; [subst c'|].
      * split; [|done]. intros x. rewrite Es. split; [naive_solver|].
        intros [(s' & [= <-] & Hx) Hid]. specialize (Hid eq_refl). set_solver.
      * split; [naive_solver|done].
    + rewrite lookup_insert. case_decide as Hd; [subst c'|].
      * split; [|naive_solver]. intros x. rewrite Es. split.
        -- intros (s' & [= <-] & Hx). set_solver.
        -- intros [(s' & [= <-] & Hx) Hid]. exists (s ∖ {[id]}). set_solver.
      * split; [naive_solver|done].
  - split; [|done]. intros x. split; [|naive_solver]. intros (s & Hs & Hx). naive_solver.
Qed.

Lemma index_insert_spec id c (m : gmap Cell (gset Z)) c' :
  (forall s, m !! c' = Some s -> s <> ∅) ->
  let m' := <[c := {[id]} ∪ default ∅ (m !! c)]> m in
  (forall x, (exists s, m' !! c' = Some s /\ x ∈ s) <->
     (exists s, m !! c' = Some s /\ x ∈ s) \/ (c' = c /\ x = id)) /\
  (forall s, m' !! c' = Some s -> s <> ∅).
Proof.
  intros Hne m'. unfold m'. rewrite lookup_insert. case_decide as Hd; [subst c'|naive_solver].
  split.
  - intros x. split.
    + intros (s & [= <-] & Hx). destruct (m !! c); simpl in Hx; set_solver.
    + intros [(s & -> & Hx)|[_ ->]]; eexists; (split; [done|]); simpl; set_solver.
  - intros s [= <-]. set_solver.
Qed.

Lemma world_new_inv g : WorldInv (world_new g).
Proof.
  split; simpl; [|intros c s; by rewrite lookup_empty].
  intros id c. rewrite lookup_empty. split; [done|]. intros (s & Hs & _). by rewrite lookup_empty in Hs.
Qed.

Lemma world_remove_spec id w :
  WorldInv w -> WorldInv (world_remove id w) /\
  w_cell_of (world_remove id w) = delete id (w_cell_of w) /\ w_grid (world_remove id w) = w_grid w.
Proof.
  intros HI. unfold world_remove. destruct (w_cell_of w !! id) as [c|] eqn:Ec.
  - split; [|done].
    pose proof (fun c' => index_remove_spec id c (w_index w) c' (wi_nonempty w HI c')) as Hr.
    split; simpl; [|intros c' s; apply Hr].
    intros x c'. rewrite (proj1 (Hr c') x), <- (wi_index w HI), lookup_delete.
    case_decide as Hd; [subst x|].
    + split; [done|]. intros [Hx Hn]. assert (c' = c) as -> by congruence. by destruct Hn.
    + naive_solver.
  - split; [done|]. by rewrite delete_id.
Qed.

Lemma place_spec id c w :
  WorldInv w -> WorldInv (place_in_cell id c w).2 /\
  w_cell_of (place_in_cell id c w).2 = <[id := c]> (w_cell_of w) /\
  w_grid (place_in_cell id c w).2 = w_grid w /\
  ((place_in_cell id c w).1 = true <-> w_cell_of w !! id <> Some c).
Proof.
  intros HI. unfold place_in_cell. case_decide as Hold.
  { simpl. split_and!; [done|by rewrite insert_id|done|done]. }
  simpl. set (w1 := match w_cell_of w !! id with Some o => _ | None => w end).
  assert (E : w_index w1 = w_index (world_remove id w) /\ w_cell_of w1 = w_cell_of w /\
              w_grid w1 = w_grid w).
  { unfold w1, world_remove. by destruct (w_cell_of w !! id). }
  destruct E as (Ei & Ec & Eg). destruct (world_remove_spec id w HI) as (HI1 & Er & _).
  split_and!; [|by rewrite Ec|done|done].
  pose proof (fun c' => index_insert_spec id c (w_index (world_remove id w)) c'
                          (wi_nonempty _ HI1 c')) as Hs.
  split; simpl; rewrite Ei; [|intros c' s; apply Hs].
  intros x c'. rewrite (proj1 (Hs c') x), <- (wi_index _ HI1), Er, Ec, lookup_insert, lookup_delete.
  case_decide; naive_solver.
Qed.

(** ** Specifications *)

(** Operations on the index, and the plain map they are meant to maintain. *)
Inductive WorldOp :=
| Place (id : Z) (x z : f32)
| PlaceInCell (id : Z) (c : Cell)
| Remove (id : Z).

Definition world_step (op : WorldOp) (w : World) : World :=
  match op with
  | Place id x z => (place id x z w).2
  | PlaceInCell id c => (place_in_cell id c w).2
  | Remove id => world_remove id w
  end.

Definition world_run (ops : list WorldOp) (w : World) : World :=
  fold_left (fun w op => world_step op w) ops w.

Definition spec_step (g : Grid) (op : WorldOp) (m : gmap Z Cell) : gmap Z Cell :=
  match op with
  | Place id x z => <[id := cell_of g x z]> m
  | PlaceInCell id c => <[id := c]> m
  | Remove id => delete id m
  end.

Definition spec_run (g : Grid) (ops : list WorldOp) : gmap Z Cell :=
  fold_left (fun m op => spec_step g op m) ops ∅.

Lemma world_step_spec op w :
  WorldInv w -> WorldInv (world_step op w) /\
  w_cell_of (world_step op w) = spec_step (w_grid w) op (w_cell_of w) /\
  w_grid (world_step op w) = w_grid w.
Proof.
  intros HI. destruct op as [id x z|id c|id]; simpl.
  - by destruct (place_spec id (cell_of (w_grid w) x z) w HI) as (? & ? & ? & _).
  - by destruct (place_spec id c w HI) as (? & ? & ? & _).
  - by apply world_remove_spec.
Qed.

Lemma world_run_spec ops g :
  let w := world_run ops (world_new g) in WorldInv w /\ w_cell_of w = spec_run g ops.
Proof.
  unfold world_run, spec_run.
  cut (forall w m, WorldInv w -> w_cell_of w = m -> w_grid w = g ->
    WorldInv (fold_left (fun w op => world_step op w) ops w) /\
    w_cell_of (fold_left (fun w op => world_step op w) ops w) =
      fold_left (fun m op => spec_step g op m) ops m).
  { intros Hc. by apply Hc; [apply world_new_inv|..]. }
  induction ops as [|op ops IH]; intros w m HI Em Eg; simpl; [done|].
  destruct (world_step_spec op w HI) as (HI' & Em' & Eg'). apply IH; [done| |by rewrite Eg'].
  by rewrite Em', Em, Eg.
Qed.

(** A client that applies the deltas it is sent. *)
Definition apply_delta (u : AoiUpdate) (view : gset Cell) : gset Cell :=
  (view ∖ list_to_set (removed u)) ∪ list_to_set (added u).

Fixpoint recenter_all (centers : list Cell) (s : Subscription)
    : option (list AoiUpdate * Subscription) :=
  match centers with
  | [] => Some ([], s)
  | c :: centers =>
      '(u, s) ← recenter c s;
      '(us, s) ← recenter_all centers s;
      Some (u :: us, s)
  end.

Lemma recenter_spec c s u s' :
  recenter c s = Some (u, s') ->
  sub_cells s' = apply_delta u (sub_cells s) /\ sub_radius s' = sub_radius s /\
  sub_center s' = Some c /\
  (forall x, x ∈ added u -> x ∉ sub_cells s) /\ (forall x, x ∈ removed u -> x ∈ sub_cells s) /\
  NoDup (added u) /\ NoDup (removed u) /\
  ((forall c0, sub_center s = Some c0 -> sub_cells s = list_to_set (block_cells c0 (sub_radius s))) ->
   sub_cells s' = list_to_set (block_cells c (sub_radius s))).
Proof.
  unfold recenter, cells_in_radius. case_decide as Hc; [intros [= <- <-]; simpl|].
  - unfold apply_delta. simpl. split_and!; try done; try set_solver; try apply NoDup_nil_2.
  - cbv zeta. case_decide; [|done]. cbn [mbind option_bind]. intros [= <- <-]. unfold apply_delta. cbn [sub_cells sub_radius sub_center added removed].
    set (new := list_to_set _ : gset Cell). rewrite !list_to_set_elements_L.
    split_and!; try done; try apply NoDup_elements;
      try (intros x; rewrite elem_of_elements; set_solver).
    apply set_eq. intros x. rewrite elem_of_union, !elem_of_difference.
    destruct (decide (x ∈ sub_cells s)), (decide (x ∈ new)); tauto.
Qed.

(** *** Magnitudes of sanitized motion *)

(** Within [-limit, limit], in the order of the format. *)
Definition in_range (limit v : f32) : Prop :=
  fle (SFopp limit) v = true /\ fle v limit = true.

(** A limit of full precision. *)
Definition full (m : positive) (e : Z) : Prop :=
  f32_ok (S754_finite false m e) /\ mag m e = e + prec32.

Lemma f32_ok_mag s m e : f32_ok (S754_finite s m e) -> mag m e <= e + prec32.
Proof.
  unfold f32_ok, valid_binary, bounded, canonical_mantissa, fexp, mag.
  rewrite andb_true_iff, Z.eqb_eq. lia.
Qed.

Lemma in_range_below m e v :
  full m e -> f32_ok v -> in_range (S754_finite false m e) v -> below (e + prec32) v.
Proof.
  intros [_ Hf] Hv [Hlo Hhi]. destruct v as [s| | |s m' e']; [done|by destruct s|done|].
  simpl. pose proof (f32_ok_mag _ _ _ Hv) as Hm. unfold fle, SFleb, SFcompare in *. simpl in *.
  destruct s; [destruct (Z.compare_spec e e')|destruct (Z.compare_spec e' e)]; try done; lia.
Qed.

Lemma SFcompare_opp a b :
  is_finite a = true -> is_finite b = true -> SFcompare b a = CompOpp <$> SFcompare a b.
Proof.
  destruct a as [s1|?| |s1 m1 e1], b as [s2|?| |s2 m2 e2]; try done; intros _ _; simpl.
  - by destruct s2.
  - by destruct s1.
  - rewrite (Z.compare_antisym e1 e2).
    replace (Pos.compare_cont Eq m2 m1) with (CompOpp (Pos.compare_cont Eq m1 m2))
      by apply (Pos.compare_cont_antisym m1 m2 Eq).
    destruct s1, s2; try done; destruct (e1 ?= e2); simpl; try done.
Qed.

Lemma not_flt_fle a b : is_finite a = true -> is_finite b = true -> flt a b = false -> fle b a = true.
Proof.
  intros Ha Hb. unfold flt, fle, SFltb, SFleb. rewrite (SFcompare_opp a b) by done.
  destruct a, b; try done; unfold SFcompare; simpl; repeat case_match; simpl in *; congruence || done.
Qed.

Lemma clamp_in_range m e v :
  is_finite v = true -> in_range (S754_finite false m e)
    (clamp v (SFopp (S754_finite false m e)) (S754_finite false m e)).
Proof.
  intros Hv. set (hi := S754_finite false m e). set (lo := SFopp hi).
  assert (Hord : fgt lo hi = false /\ fle lo hi = true) by done.
  assert (Hrefl : fle lo lo = true /\ fle hi hi = true).
  { unfold fle, SFleb, SFcompare. simpl. rewrite Z.compare_refl.
    by rewrite (Pos.compare_cont_refl m Eq). }
  unfold clamp, in_range. destruct (flt v lo) eqn:Elo.
  - rewrite (proj1 Hord). tauto.
  - destruct (fgt v hi) eqn:Ehi; [tauto|]. split; by apply not_flt_fle.
Qed.

Lemma clamp_ok m e v :
  f32_ok (S754_finite false m e) -> f32_ok v ->
  f32_ok (clamp v (SFopp (S754_finite false m e)) (S754_finite false m e)).
Proof. intros Hl Hv. unfold clamp. by repeat case_match. Qed.

Lemma cell_coord_bound x cs :
  f32_ok x -> below 24 x -> f32_ok cs -> fle one32 cs = true ->
  - 2 ^ 25 <= floor_as_i32 (f32_div x cs) <= 2 ^ 25.
Proof.
  intros Hx Hb Hcs H1.
  assert (Hd : below 25 (f32_div x cs)).
  { destruct cs as [s|s| |s m e]; [done|by destruct s, x|done|].
    destruct x as [sx| | |sx mx ex]; [done..|]. destruct s; [done|].
    apply (SFdiv_below prec32 emax32 ltac:(done) 24); [|done..]. simpl in Hb.
    cut (1 <= mag m e); [lia|]. pose proof (f32_ok_mag _ _ _ Hcs) as Hm.
    unfold f32_ok, valid_binary, bounded, canonical_mantissa, fexp, emin in Hcs.
    rewrite andb_true_iff, Z.eqb_eq in Hcs. destruct Hcs as [Hc _]. fold (mag m e) in Hc.
    unfold fle, SFleb, SFcompare, one32 in H1. unfold prec32, emax32 in *.
    destruct (Z.compare_spec (-23) e); [lia|lia|done]. }
  unfold floor_as_i32. destruct (f32_div x cs) as [| | |s m e]; [lia|done|done|].
  pose proof (floorZ_bound 25 s m e ltac:(lia) Hd). unfold saturateS. lia.
Qed.

Lemma clamped_cell_interior g x z radius :
  f32_ok x -> is_finite x = true -> f32_ok z -> is_finite z = true ->
  f32_ok (cell_size_m g) -> fle one32 (cell_size_m g) = true -> 0 <= radius <= 2 ^ 30 ->
  interior radius (cell_of g (clamp x (SFopp MAX_WORLD_COORD_M) MAX_WORLD_COORD_M)
                             (clamp z (SFopp MAX_WORLD_COORD_M) MAX_WORLD_COORD_M)).
Proof.
  intros Hx Fx Hz Fz Hcs H1 Hr.
  assert (Hb : forall v, f32_ok v -> is_finite v = true ->
    - 2 ^ 25 <= floor_as_i32 (f32_div (clamp v (SFopp MAX_WORLD_COORD_M) MAX_WORLD_COORD_M)
                               (cell_size_m g)) <= 2 ^ 25).
  { intros v Hv Hf. apply cell_coord_bound; [by apply clamp_ok| |done|done].
    apply (in_range_below 10000000 0); [done|by apply clamp_ok|by apply clamp_in_range]. }
  pose proof (Hb x Hx Fx). pose proof (Hb z Hz Fz).
  unfold interior, cell_of, inS. cbn [cx cz]. lia.
Qed.

(** What an accepted motion's position is. *)
Lemma sanitize_pos p0 p1 p2 r v m :
  sanitize_motion (p0, p1, p2) r v = Some m ->
  is_finite p0 = true /\ is_finite p2 = true /\
  pos m = (clamp p0 (SFopp MAX_WORLD_COORD_M) MAX_WORLD_COORD_M,
           clamp p1 (SFopp MAX_WORLD_COORD_M) MAX_WORLD_COORD_M,
           clamp p2 (SFopp MAX_WORLD_COORD_M) MAX_WORLD_COORD_M).
Proof.
  destruct r as [[[r0 r1] r2] r3], v as [[v0 v1] v2]. unfold sanitize_motion, finite_clamped.
  repeat match goal with
  | |- context [if is_finite ?x then _ else _] =>
      destruct (is_finite x) eqn:?; cbn [mbind option_bind]; [|discriminate]
  end.
  by intros [= <-].
Qed.

(** ** Theorems *)

(** C30.  The index refines a plain map from entities to cells: after any
    sequence of placements and removals each entity is in the cell of its last
    placement, a query by cell returns exactly the entities placed there, and
    nothing is left of removed entities.  A query by radius, around a centre whose
    neighbourhood of that radius fits in [i32], never panics for a radius from 0 below
    [2 ^ 29] (memory permitting); when it does not panic it returns exactly the entities whose cell lies in the square,
    each once; and it panics, on the capacity of its vector, from [2 ^ 29] until
    doubling the radius wraps around. *)
Theorem world_refines_map (g : Grid) (ops : list WorldOp) (center : Cell) (r : Z) :
  let w := world_run ops (world_new g) in
  (forall id, cell_of_entity id w = spec_run g ops !! id) /\
  world_len w = size (spec_run g ops) /\
  (forall c id, id ∈ entities_in c w <-> spec_run g ops !! id = Some c) /\
  (forall c, NoDup (entities_in c w)) /\
  (spec_run g ops = ∅ -> w_index w = ∅) /\
  (interior r center ->
   (0 <= r < 2 ^ 29 -> entities_in_radius center r w <> None) /\
   (forall found, entities_in_radius center r w = Some found ->
      NoDup found /\
      (forall id, id ∈ found <-> exists c, spec_run g ops !! id = Some c /\ within r center c)) /\
   (2 ^ 29 <= r < 2 ^ 31 - 2 ^ 29 -> entities_in_radius center r w = None)).
Proof.
  intros w. destruct (world_run_spec ops g) as [HI Em]. fold w in HI, Em.
  assert (Hin : forall c id, id ∈ match w_index w !! c with Some s => elements s | None => [] end <->
    spec_run g ops !! id = Some c).
  { intros c id. rewrite <- Em, (wi_index w HI). destruct (w_index w !! c) as [s|].
    - rewrite elem_of_elements. naive_solver.
    - rewrite elem_of_nil. naive_solver. }
  unfold cell_of_entity, world_len. rewrite Em. split_and!; [done|done|apply Hin| | |].
  - intros c. unfold entities_in. case_match; [apply NoDup_elements|apply NoDup_nil_2].
  - intros He. apply map_empty. intros c. destruct (w_index w !! c) as [s|] eqn:Es; [|done].
    pose proof (wi_nonempty w HI c s Es) as Hne. apply set_choose_L in Hne as [id Hid].
    assert (Hc : w_cell_of w !! id = Some c) by (apply (wi_index w HI); eauto).
    by rewrite Em, He, lookup_empty in Hc.
  - intros Hi. unfold entities_in_radius. split; [|split].
    + intros Hr. rewrite cells_in_radius_small by done. done.
    + intros found. unfold cells_in_radius. cbv zeta. case_decide; [|done].
      cbn [mbind option_bind]. intros [= <-]. split.
      * apply NoDup_bind; [|intros; case_match; [apply NoDup_elements|apply NoDup_nil_2]
                           |by apply NoDup_cells].
        intros c1 c2 id _ _ H1%Hin H2%Hin. congruence.
      * intros id. rewrite list_elem_of_bind. setoid_rewrite Hin.
        setoid_rewrite (elem_of_cells r center); [|done]. naive_solver.
    + intros Hr. rewrite cells_in_radius_spec by (unfold inS; lia). rewrite decide_True by lia. done.
Qed.

Definition demo_world_ops : list WorldOp :=
  [PlaceInCell 1 (mkCell 0 0); PlaceInCell 2 (mkCell 2 (-2)); PlaceInCell 1 (mkCell 5 5);
   PlaceInCell 3 (mkCell 1 1); Remove 3].

Lemma world_refines_map_witness :
  entities_in_radius (mkCell 0 0) 2 (world_run demo_world_ops (world_new grid_default)) = Some [2] /\
  entities_in_radius (mkCell 0 0) (2 ^ 30) (world_run demo_world_ops (world_new grid_default)) = None /\
  (exists c, spec_run grid_default demo_world_ops !! 2 = Some c /\ within 2 (mkCell 0 0) c).
Proof.
  split; [vm_compute; reflexivity|].
  destruct (world_refines_map grid_default demo_world_ops (mkCell 0 0) 2) as (_ & _ & _ & _ & _ & H).
  destruct H as (_ & H & _); [unfold interior, inS; simpl; lia|].
  destruct (world_refines_map grid_default demo_world_ops (mkCell 0 0) (2 ^ 30)) as (_ & _ & _ & _ & _ & H').
  destruct H' as (_ & _ & H'); [unfold interior, inS; simpl; lia|]. split; [apply H'; lia|].
  apply (H [2]); [vm_compute; reflexivity|left].
Defined.

(** The deltas of a subscription are complete: a client that starts from
    nothing and applies every update holds exactly the server's cell set, which
    is the block around the last centre; an update adds no cell the client has
    and removes none it lacks; recentring on the same cell changes nothing. *)
Lemma aoi_deltas_replay (radius : Z) (s0 : Subscription) (centers : list Cell) (c : Cell) us s :
  subscription_new radius = Some s0 -> recenter_all (centers ++ [c]) s0 = Some (us, s) ->
  fold_left (fun v u => apply_delta u v) us ∅ = sub_cells s /\
  sub_cells s = list_to_set (block_cells c radius) /\ recenter c s = Some (aoi_default, s).
Proof.
  intros Hnew Hall. unfold subscription_new in Hnew. case_decide; [|done]. injection Hnew as <-.
  cut (fold_left (fun v u => apply_delta u v) us (sub_cells (mkSubscription radius None ∅)) = sub_cells s /\
    sub_center s = Some c /\
    sub_cells s = list_to_set (block_cells c (sub_radius (mkSubscription radius None ∅)))).
  { intros (Hf & Hc & Hcells). split_and!; [done|done|]. unfold recenter. by rewrite decide_True. }
  revert Hall. assert (Hs : forall c0, sub_center (mkSubscription radius None ∅) = Some c0 ->
    sub_cells (mkSubscription radius None ∅) =
      list_to_set (block_cells c0 (sub_radius (mkSubscription radius None ∅)))) by done.
  revert Hs. generalize (mkSubscription radius None ∅) as s0. revert us.
  induction centers as [|c1 centers IH]; intros us s0 Hs; simpl.
  - destruct (recenter c s0) as [[u s1]|] eqn:E; [|done]. cbn. intros [= <- <-].
    destruct (recenter_spec _ _ _ _ E) as (E1 & _ & Ec & _ & _ & _ & _ & Hb). simpl. auto.
  - destruct (recenter c1 s0) as [[u s1]|] eqn:E; [|done]. cbn.
    destruct (recenter_spec _ _ _ _ E) as (E1 & Er & Ec & _ & _ & _ & _ & Hb).
    destruct (recenter_all (centers ++ [c]) s1) as [[us' s']|] eqn:E'; [|done]. cbn. intros [= <- <-].
    simpl. rewrite <- E1, <- Er. apply (IH us'); [|done]. intros c0. rewrite Ec, Er. intros [= <-]. auto.
Qed.

Lemma aoi_deltas_replay_witness :
  exists us s, recenter_all ([mkCell 0 0] ++ [mkCell 1 0]) (mkSubscription AOI_RADIUS_CELLS None ∅) = Some (us, s) /\
    fold_left (fun v u => apply_delta u v) us ∅ = sub_cells s /\ size (sub_cells s) = 25%nat.
Proof.
  destruct (recenter_all ([mkCell 0 0] ++ [mkCell 1 0]) (mkSubscription AOI_RADIUS_CELLS None ∅))
    as [[us s]|] eqn:E; [|vm_compute in E; discriminate E].
  exists us, s. split; [done|]. destruct (aoi_deltas_replay AOI_RADIUS_CELLS (mkSubscription AOI_RADIUS_CELLS None ∅)
                [mkCell 0 0] (mkCell 1 0) us s ltac:(reflexivity) E) as (H1 & H2 & _). split; [exact H1|].
  rewrite H2. vm_compute. reflexivity.
Defined.

(** C37.  A motion that passes the guard is harmless: it is dropped exactly when
    a component is NaN or infinite; otherwise every component is finite and
    within its limit, and the cell of its position, on any grid of at least one
    metre, is within [2 ^ 25] of the origin, so that no neighbourhood of radius
    up to [2 ^ 30] wraps around. *)
Theorem sanitized_motion_safe (g : Grid) (p0 p1 p2 r0 r1 r2 r3 v0 v1 v2 : f32) (radius : Z) :
  Forall f32_ok [p0; p1; p2; r0; r1; r2; r3; v0; v1; v2] ->
  f32_ok (cell_size_m g) -> fle one32 (cell_size_m g) = true -> 0 <= radius <= 2 ^ 30 ->
  match sanitize_motion (p0, p1, p2) (r0, r1, r2, r3) (v0, v1, v2) with
  | None => ~ Forall (fun x => is_finite x = true) [p0; p1; p2; r0; r1; r2; r3; v0; v1; v2]
  | Some (mkMotion (x, y, z) (q0, q1, q2, q3) (u0, u1, u2)) =>
      Forall (fun x => is_finite x = true) [p0; p1; p2; r0; r1; r2; r3; v0; v1; v2] /\
      Forall (in_range MAX_WORLD_COORD_M) [x; y; z] /\
      Forall (in_range one32) [q0; q1; q2; q3] /\
      Forall (in_range MAX_VELOCITY_MPS) [u0; u1; u2] /\
      interior radius (cell_of g x z)
  end.
Proof.
  intros Hok Hcs H1 Hr. unfold sanitize_motion, finite_clamped.
  repeat (apply Forall_cons in Hok as [? Hok]).
  repeat match goal with
  | |- context [if is_finite ?x then _ else _] =>
      destruct (is_finite x) eqn:?; cbn [mbind option_bind];
      [|intros HF; repeat (apply Forall_cons in HF as [? HF]); congruence]
  end.
  split_and!; [by repeat constructor| | | |by apply clamped_cell_interior];
    unfold MAX_WORLD_COORD_M, one32, MAX_VELOCITY_MPS; repeat constructor; by apply clamp_in_range.
Qed.

Lemma sanitized_motion_safe_witness :
  interior AOI_RADIUS_CELLS
    (cell_of grid_default (S754_finite true 10000000 0) (S754_finite false 1 0)).
Proof.
  apply (sanitized_motion_safe grid_default
           (S754_finite true 16777215 104) (S754_zero false) (S754_finite false 8388608 (-23))
           one32 one32 one32 one32 one32 one32 one32 AOI_RADIUS_CELLS).
  - repeat constructor.
  - reflexivity.
  - reflexivity.
  - unfold AOI_RADIUS_CELLS. lia.
Defined.
