(* ===== verification/Clock.v ===== *)
(** * The world clock (clock.rs)

    Models server/crates/sw-server/src/clock.rs: the in-game day, time of day
    and moon phase, derived in [f64] arithmetic from the stored epoch. *)

From S2P Require Import Prelude Float.

(** [1200.0f64] and [1000.0f64]. *)
Definition DAY_LENGTH_SECS : f64 := Eval vm_compute in f64_of_Z 1200.
Definition millis_per_sec : f64 := Eval vm_compute in f64_of_Z 1000.
Definition LUNAR_CYCLE_DAYS : Z := 30.

Record WorldClock := mkWorldClock {
  day : Z;
  time_of_day : f32;
  moon_phase : f32
}.

Definition clock_from_epoch (epoch_ms now_ms : Z) : WorldClock :=
  let elapsed_secs := f64_div (f64_of_Z (Z.max (wrapS 64 (now_ms - epoch_ms)) 0)) millis_per_sec in
  let total_days := f64_div elapsed_secs DAY_LENGTH_SECS in
  let day := floor_as_u32 total_days in
  let time_of_day := f32_of_f64 (f64_fract total_days) in
  let moon_phase := f32_div (f32_of_Z (day mod LUNAR_CYCLE_DAYS)) (f32_of_Z LUNAR_CYCLE_DAYS) in
  mkWorldClock day time_of_day moon_phase.

(** ** Lemmas *)
Lemma floor_as_u32_in x : inU 32 (floor_as_u32 x).
Proof. unfold floor_as_u32, inU, saturateU. repeat case_match; lia. Qed.

(** One full lunar cycle of phases, checked by evaluation. *)
Lemma moon_cycle d :
  0 <= d < LUNAR_CYCLE_DAYS ->
  let p := f32_div (f32_of_Z d) (f32_of_Z LUNAR_CYCLE_DAYS) in
  fle (S754_zero false) p = true /\ flt p (f32_of_Z 1) = true /\
  (0 < d -> flt (f32_div (f32_of_Z (d - 1)) (f32_of_Z LUNAR_CYCLE_DAYS)) p = true).
Proof.
  intros Hd p. unfold p.
  set (ok := fun d => fle (S754_zero false) (f32_div (f32_of_Z d) (f32_of_Z LUNAR_CYCLE_DAYS)) &&
    flt (f32_div (f32_of_Z d) (f32_of_Z LUNAR_CYCLE_DAYS)) (f32_of_Z 1) &&
    ((d =? 0) || flt (f32_div (f32_of_Z (d - 1)) (f32_of_Z LUNAR_CYCLE_DAYS))
                   (f32_div (f32_of_Z d) (f32_of_Z LUNAR_CYCLE_DAYS)))).
  assert (Hall : forallb ok (Z.of_nat <$> seq 0 30) = true) by (vm_compute; reflexivity).
  assert (Hok : ok d = true).
  { rewrite forallb_forall in Hall. apply Hall, list_elem_of_In, list_elem_of_fmap.
    exists (Z.to_nat d). rewrite elem_of_seq. unfold LUNAR_CYCLE_DAYS in Hd. lia. }
  unfold ok in Hok. rewrite !andb_true_iff, orb_true_iff, Z.eqb_eq in Hok. split_and!; try tauto.
  intros Hpos. destruct Hok as [_ [->|?]]; [lia|done].
Qed.

(** ** Theorems *)

(** The clock is well formed at every reading: the day is a [u32], the
    moon phase lies in [[0, 1)], depends only on the day within the lunar cycle
    and grows through it; and until the epoch is reached the clock stands at
    midnight of day 0. *)
Lemma clock_well_formed (epoch_ms now_ms : Z) :
  let c := clock_from_epoch epoch_ms now_ms in
  inU 32 (day c) /\
  fle (S754_zero false) (moon_phase c) = true /\ flt (moon_phase c) (f32_of_Z 1) = true /\
  (forall epoch' now', let c' := clock_from_epoch epoch' now' in
     (day c mod LUNAR_CYCLE_DAYS = day c' mod LUNAR_CYCLE_DAYS -> moon_phase c = moon_phase c') /\
     (day c mod LUNAR_CYCLE_DAYS + 1 = day c' mod LUNAR_CYCLE_DAYS ->
      flt (moon_phase c) (moon_phase c') = true)) /\
  (wrapS 64 (now_ms - epoch_ms) <= 0 ->
   c = mkWorldClock 0 (S754_zero false) (S754_zero false)).
Proof.
  intros c.
  assert (Hmod : forall z, 0 <= z mod LUNAR_CYCLE_DAYS < LUNAR_CYCLE_DAYS)
    by (intros; apply Z.mod_pos_bound; done).
  split_and!.
  - apply floor_as_u32_in.
  - apply moon_cycle, Hmod.
  - apply moon_cycle, Hmod.
  - intros epoch' now' c'. split; [unfold c, c', clock_from_epoch; simpl; by intros ->|].
    intros E. destruct (moon_cycle (day c' mod LUNAR_CYCLE_DAYS) (Hmod _)) as (_ & _ & Hlt).
    rewrite <- E in Hlt at 2. rewrite Z.add_simpl_r in Hlt. apply Hlt.
    pose proof (Hmod (day c)). lia.
  - intros Hle. unfold c, clock_from_epoch. rewrite Z.max_r by done. vm_compute. reflexivity.
Qed.

(** Noon of the 46th day. *)
Lemma clock_well_formed_witness :
  moon_phase (clock_from_epoch 1000 54601000) = moon_phase (clock_from_epoch 0 18000000) /\
  day (clock_from_epoch 1000 54601000) = 45.
Proof.
  split; [|vm_compute; reflexivity].
  apply (clock_well_formed 1000 54601000). vm_compute. reflexivity.
Defined.
