(* ===== verification/Config.v ===== *)
(** * Server configuration (config.rs)

    Models server/crates/sw-server/src/config.rs: the configuration record with
    its defaults, its validation on every branch, argument resolution, the
    bounded accessors and the snapshot recurrence bound.  Reading and parsing
    the TOML file is the environment's ([from_file]'s parameter). *)

From S2P Require Import Prelude Float World.

Definition MAX_AOI_RADIUS_CELLS : Z := 16.
Definition MAX_CELL_SIZE_M : f32 := Eval vm_compute in f32_of_Z 1000000.
Definition MIN_CELL_SIZE_M : f32 := Eval vm_compute in f32_of_Z 1.
Definition MAX_TRADE_MIN_INTERVAL_MS : Z := 3600000.
Definition MAX_HELLO_MIN_INTERVAL_MS : Z := 250.
Definition MIN_HELLO_MIN_INTERVAL_MS : Z := 1.
Definition MAX_NEW_SESSION_MIN_INTERVAL_MS : Z := 1000.
Definition MAX_TRANSPORT_PEERS : Z := 1024.
Definition SNAPSHOT_PACKETS_PER_TICK : Z := 32.
Definition SNAPSHOT_ENTITIES_PER_PACKET : Z := 5.
Definition SNAPSHOT_VISIBILITY_CEILING : Z := 15.
Definition SNAPSHOT_CLIENT_EXPIRY_SECS : Z := 5.
Definition MAX_PLAYER_ROWS : Z := 1000000.
Definition MAX_WIRE_STRING_LEN : Z := 4096.

(** [u64] checked operations. *)
Definition checked_add64 (a b : Z) : option Z := checked_u 64 (a + b).
Definition checked_sub64 (a b : Z) : option Z := checked_u 64 (a - b).
Definition checked_mul64 (a b : Z) : option Z := checked_u 64 (a * b).
Definition checked_div64 (a b : Z) : option Z := if decide (b = 0) then None else Some (a / b).

Definition checked_div_ceil (value divisor : Z) : option Z :=
  d ← checked_sub64 divisor 1;
  s ← checked_add64 value d;
  checked_div64 s divisor.

Definition snapshot_recurrence_ticks (peers nominal_cadence_ticks : Z) : option Z :=
  if decide (peers <= 1) then Some 0 else
  if decide (nominal_cadence_ticks = 0) then None else
  recipient_round ← checked_div_ceil peers SNAPSHOT_PACKETS_PER_TICK;
  p ← checked_u 32 (peers - 1);
  let visible_players := Z.min p SNAPSHOT_VISIBILITY_CEILING in
  stable_chunks ← checked_div_ceil visible_players SNAPSHOT_ENTITIES_PER_PACKET;
  c ← checked_div_ceil nominal_cadence_ticks recipient_round;
  aligned_due_interval ← checked_mul64 c recipient_round;
  checked_mul64 aligned_due_interval stable_chunks.

Record Config := mkConfig {
  bind : string;
  db_path : string;
  tick_hz : Z;
  snapshot_hz : Z;
  clock_broadcast_secs : Z;
  aoi_radius_cells : Z;
  cell_size_m : f32;
  hello_min_interval_ms : Z;
  new_session_min_interval_ms : Z;
  max_transport_peers : Z;
  max_transport_peers_per_ip : Z;
  max_player_rows : Z;
  trade_min_interval_ms : Z;
  client_state_min_interval_ms : Z;
  chat_min_interval_ms : Z;
  econ_min_interval_ms : Z;
  moor_min_interval_ms : Z;
  max_wire_string_len : Z;
  server_name : string
}.

#[global] Instance Config_eta : Settable Config :=
  mkSettable (fun r => mkConfig (bind r) (db_path r) (tick_hz r) (snapshot_hz r)
    (clock_broadcast_secs r) (aoi_radius_cells r) (cell_size_m r) (hello_min_interval_ms r)
    (new_session_min_interval_ms r) (max_transport_peers r) (max_transport_peers_per_ip r)
    (max_player_rows r) (trade_min_interval_ms r) (client_state_min_interval_ms r)
    (chat_min_interval_ms r) (econ_min_interval_ms r) (moor_min_interval_ms r)
    (max_wire_string_len r) (server_name r)).

(** [Config::default]. *)
Definition config_default : Config :=
  mkConfig "0.0.0.0:38455" "sailwind.db" 30 4 10 AOI_RADIUS_CELLS World.DEFAULT_CELL_SIZE_M
    250 30 1024 16 10000 250 20 500 100 250 512 "Sailwind Online (dev)".

(** The reasons a configuration is refused, one per [return Err]. *)
Inductive ConfigError :=
| TickHzZero
| TickDurationZero
| TickHzNotOnWire
| SnapshotHzNotOnWire
| SnapshotHzAboveTick
| AoiRadiusOutOfRange
| CellSizeOutOfRange
| HelloIntervalOutOfRange
| NewSessionIntervalOutOfRange
| TransportPeersOutOfRange
| RecurrenceOverflow
| ExpiryOverflow
| RecurrenceTooSlow (recurrence_ticks expiry_ticks : Z)
| PeersPerIpOutOfRange
| PlayerRowsOutOfRange
| IntervalOutOfRange (name : string)
| WireStringOutOfRange
| UnknownArgument (arg : string)
| MissingValue (flag : string)
| FileError (path : string).

(** [Duration::from_secs_f64(x).is_zero()] for a positive [x]: [x] rounds to
    zero nanoseconds, ties to even. *)
Definition duration_is_zero (x : f64) : bool :=
  match x with
  | S754_finite false m e => bool_decide (2 * Z.pos m * 1000000000 * 2 ^ (Z.max e 0) <= 2 ^ (Z.max (- e) 0))
  | _ => true
  end.

(** [ticks_per_snapshot]: [u32] division; validation refuses a zero divisor
    first. *)
Definition ticks_per_snapshot (c : Config) : Z := Z.max (tick_hz c / snapshot_hz c) 1.

Fixpoint check_intervals (l : list (string * Z)) : result ConfigError unit :=
  match l with
  | [] => Ok tt
  | (name, value) :: l =>
      if decide (value > MAX_TRADE_MIN_INTERVAL_MS) then Err (IntervalOutOfRange name)
      else check_intervals l
  end.

Definition ok_or {A} (o : option A) (e : ConfigError) : result ConfigError A :=
  match o with Some a => Ok a | None => Err e end.

(** [if cond { return Err(e) }]. *)
Notation "'refuse' P 'with' e ';;' k" := (if decide P then Err e else k)
  (at level 10, P at level 99, e at level 99, k at level 200, right associativity) : sw_scope.

Definition validate (c : Config) : result ConfigError unit :=
  refuse (tick_hz c = 0) with TickHzZero ;;
  refuse (duration_is_zero (f64_div (f64_of_Z 1) (f64_of_Z (tick_hz c))) = true) with TickDurationZero ;;
  refuse (tick_hz c > 255) with TickHzNotOnWire ;;
  refuse (snapshot_hz c = 0 \/ snapshot_hz c > 255) with SnapshotHzNotOnWire ;;
  refuse (snapshot_hz c > tick_hz c) with SnapshotHzAboveTick ;;
  refuse (aoi_radius_cells c = 0 \/ aoi_radius_cells c > MAX_AOI_RADIUS_CELLS) with AoiRadiusOutOfRange ;;
  refuse (is_finite (cell_size_m c) = false \/ flt (cell_size_m c) MIN_CELL_SIZE_M = true \/
          fgt (cell_size_m c) MAX_CELL_SIZE_M = true) with CellSizeOutOfRange ;;
  refuse (~ (MIN_HELLO_MIN_INTERVAL_MS <= hello_min_interval_ms c <= MAX_HELLO_MIN_INTERVAL_MS))
    with HelloIntervalOutOfRange ;;
  refuse (~ (MIN_HELLO_MIN_INTERVAL_MS <= new_session_min_interval_ms c <= MAX_NEW_SESSION_MIN_INTERVAL_MS))
    with NewSessionIntervalOutOfRange ;;
  refuse (max_transport_peers c = 0 \/ max_transport_peers c > MAX_TRANSPORT_PEERS)
    with TransportPeersOutOfRange ;;
  let? recurrence_ticks :=
    ok_or (snapshot_recurrence_ticks (max_transport_peers c) (ticks_per_snapshot c)) RecurrenceOverflow in
  let? expiry_ticks := ok_or (checked_mul64 (tick_hz c) SNAPSHOT_CLIENT_EXPIRY_SECS) ExpiryOverflow in
  refuse (recurrence_ticks >= expiry_ticks) with (RecurrenceTooSlow recurrence_ticks expiry_ticks) ;;
  refuse (max_transport_peers_per_ip c = 0 \/ max_transport_peers_per_ip c > max_transport_peers c)
    with PeersPerIpOutOfRange ;;
  refuse (max_player_rows c = 0 \/ max_player_rows c > MAX_PLAYER_ROWS) with PlayerRowsOutOfRange ;;
  let? _ := check_intervals [("trade_min_interval_ms"%string, trade_min_interval_ms c);
              ("client_state_min_interval_ms"%string, client_state_min_interval_ms c);
              ("chat_min_interval_ms"%string, chat_min_interval_ms c);
              ("econ_min_interval_ms"%string, econ_min_interval_ms c);
              ("moor_min_interval_ms"%string, moor_min_interval_ms c)] in
  refuse (max_wire_string_len c = 0 \/ max_wire_string_len c > MAX_WIRE_STRING_LEN)
    with WireStringOutOfRange ;;
  Ok tt.

(** ** Loading *)

(** [Config::from_file]; [read] is the outcome of reading and parsing. *)
Definition from_file (read : string -> result ConfigError Config) (path : string)
    : result ConfigError Config :=
  let? cfg := read path in
  let? _ := validate cfg in
  Ok cfg.

Record Overrides := mkOverrides {
  config_path : option string;
  bind_override : option string;
  db_override : option string
}.

#[global] Instance Overrides_eta : Settable Overrides :=
  mkSettable (fun r => mkOverrides (config_path r) (bind_override r) (db_override r)).

(** The argument loop of [Config::resolve], [expect_value] included. *)
Fixpoint parse_args (args : list string) (o : Overrides) : result ConfigError Overrides :=
  match args with
  | [] => Ok o
  | flag :: rest =>
      let value (set : string -> Overrides) :=
        match rest with
        | [] => Err (MissingValue flag)
        | v :: rest => parse_args rest (set v)
        end in
      if decide (flag = "--config"%string) then value (fun v => o <| config_path := Some v |>)
      else if decide (flag = "--bind"%string) then value (fun v => o <| bind_override := Some v |>)
      else if decide (flag = "--db"%string) then value (fun v => o <| db_override := Some v |>)
      else Err (UnknownArgument flag)
  end.

Definition resolve (read : string -> result ConfigError Config) (args : list string)
    (swo_bind swo_db : option string) : result ConfigError Config :=
  let? o := parse_args args (mkOverrides None None None) in
  let? cfg := match config_path o with
              | Some p => from_file read p
              | None => Ok config_default
              end in
  let cfg := if swo_bind is Some b then cfg <| bind := b |> else cfg in
  let cfg := if swo_db is Some d then cfg <| db_path := d |> else cfg in
  let cfg := if bind_override o is Some b then cfg <| bind := b |> else cfg in
  let cfg := if db_override o is Some d then cfg <| db_path := d |> else cfg in
  let? _ := validate cfg in
  Ok cfg.

(** ** Accessors *)
Definition clampZ (lo hi v : Z) : Z := Z.max lo (Z.min v hi).

Definition aoi_radius_i32 (c : Config) : Z := Z.min (aoi_radius_cells c) MAX_AOI_RADIUS_CELLS.
Definition trade_min_interval_ms_i64 (c : Config) : Z :=
  Z.min (trade_min_interval_ms c) MAX_TRADE_MIN_INTERVAL_MS.
Definition hello_min_interval_ms_i64 (c : Config) : Z :=
  clampZ MIN_HELLO_MIN_INTERVAL_MS MAX_HELLO_MIN_INTERVAL_MS (hello_min_interval_ms c).
Definition new_session_min_interval_ms_i64 (c : Config) : Z :=
  clampZ MIN_HELLO_MIN_INTERVAL_MS MAX_NEW_SESSION_MIN_INTERVAL_MS (new_session_min_interval_ms c).
Definition source_session_min_interval_ms_i64 (c : Config) : Z :=
  Z.max (hello_min_interval_ms_i64 c)
    (saturateS 64 (saturateS 64 (new_session_min_interval_ms_i64 c * 2) + 1)).
Definition max_transport_peers_usize (c : Config) : Z :=
  clampZ 1 MAX_TRANSPORT_PEERS (max_transport_peers c).
Definition max_transport_peers_per_ip_usize (c : Config) : Z :=
  clampZ 1 (clampZ 1 MAX_TRANSPORT_PEERS (max_transport_peers c)) (max_transport_peers_per_ip c).
Definition max_player_rows_u32 (c : Config) : Z := clampZ 1 MAX_PLAYER_ROWS (max_player_rows c).
Definition client_state_min_interval_ms_i64 (c : Config) : Z :=
  Z.min (client_state_min_interval_ms c) MAX_TRADE_MIN_INTERVAL_MS.
Definition chat_min_interval_ms_i64 (c : Config) : Z :=
  Z.min (chat_min_interval_ms c) MAX_TRADE_MIN_INTERVAL_MS.
Definition econ_min_interval_ms_i64 (c : Config) : Z :=
  Z.min (econ_min_interval_ms c) MAX_TRADE_MIN_INTERVAL_MS.
Definition moor_min_interval_ms_i64 (c : Config) : Z :=
  Z.min (moor_min_interval_ms c) MAX_TRADE_MIN_INTERVAL_MS.
Definition max_wire_string_len_usize (c : Config) : Z :=
  Z.min (max_wire_string_len c) MAX_WIRE_STRING_LEN.

(** [u8::try_from(..).expect(..)]: a panic is [None]. *)
Definition tick_hz_u8 (c : Config) : option Z := checked_u 8 (tick_hz c).
Definition snapshot_hz_u8 (c : Config) : option Z := checked_u 8 (snapshot_hz c).

Definition ticks_per_clock_broadcast (c : Config) : Z :=
  Z.max (saturateU 32 (tick_hz c * clock_broadcast_secs c)) 1.

(** ** Lemmas *)

(** The [u32] fields hold [u32]s. *)
Definition typed (c : Config) : Prop :=
  Forall (inU 32) [tick_hz c; snapshot_hz c; clock_broadcast_secs c; aoi_radius_cells c;
    hello_min_interval_ms c; new_session_min_interval_ms c; max_transport_peers c;
    max_transport_peers_per_ip c; max_player_rows c; trade_min_interval_ms c;
    client_state_min_interval_ms c; chat_min_interval_ms c; econ_min_interval_ms c;
    moor_min_interval_ms c; max_wire_string_len c].

(** Every tick rate the wire can carry has a tick of at least a nanosecond. *)
Lemma tick_duration_nonzero h :
  1 <= h <= 255 -> duration_is_zero (f64_div (f64_of_Z 1) (f64_of_Z h)) = false.
Proof.
  intros Hh.
  assert (Hall : forallb (fun h => negb (duration_is_zero (f64_div (f64_of_Z 1) (f64_of_Z h))))
                   (zrange 1 255) = true) by (vm_compute; reflexivity).
  rewrite forallb_forall in Hall. apply negb_true_iff, Hall, list_elem_of_In, elem_of_zrange. lia.
Qed.

Lemma checked_div_ceil_eq v d :
  0 <= v -> 1 <= d -> v + d < 2 ^ 64 -> checked_div_ceil v d = Some ((v + d - 1) / d).
Proof.
  intros Hv Hd Hb. unfold checked_div_ceil, checked_sub64, checked_add64, checked_div64, checked_u, inU.
  rewrite decide_True by lia. simpl. rewrite decide_True by lia. simpl. rewrite decide_False by lia.
  do 2 f_equal. lia.
Qed.

(** The worst case in closed form, for the configurations that are accepted. *)
Definition div_ceil (v d : Z) : Z := (v + d - 1) / d.

Definition recurrence_spec (peers cadence : Z) : Z :=
  if decide (peers <= 1) then 0 else
  let round := div_ceil peers SNAPSHOT_PACKETS_PER_TICK in
  div_ceil cadence round * round *
  div_ceil (Z.min (peers - 1) SNAPSHOT_VISIBILITY_CEILING) SNAPSHOT_ENTITIES_PER_PACKET.

Lemma recurrence_eq peers cadence :
  0 <= peers <= MAX_TRANSPORT_PEERS -> 1 <= cadence <= 255 ->
  snapshot_recurrence_ticks peers cadence = Some (recurrence_spec peers cadence).
Proof.
  unfold MAX_TRANSPORT_PEERS. intros Hp Hc. unfold snapshot_recurrence_ticks, recurrence_spec.
  case_decide; [done|]. rewrite decide_False by lia.
  unfold SNAPSHOT_PACKETS_PER_TICK, SNAPSHOT_VISIBILITY_CEILING, SNAPSHOT_ENTITIES_PER_PACKET, div_ceil.
  rewrite checked_div_ceil_eq by lia. simpl.
  set (round := (peers + 32 - 1) / 32).
  assert (Hr : 1 <= round <= 32).
  { unfold round. split; [apply Z.div_le_lower_bound; lia|].
    apply Z.lt_succ_r, Z.div_lt_upper_bound; lia. }
  unfold checked_u at 1, inU. rewrite decide_True by lia. simpl.
  rewrite checked_div_ceil_eq by lia. simpl. rewrite checked_div_ceil_eq by lia. simpl.
  set (c := (cadence + round - 1) / round).
  assert (Hcc : 0 <= c <= 286).
  { unfold c. split; [apply Z.div_pos; lia|]. apply Z.div_le_upper_bound; [lia|]. nia. }
  set (k := (Z.min (peers - 1) 15 + 5 - 1) / 5).
  assert (Hk : 0 <= k <= 4) by (unfold k; split; [apply Z.div_pos; lia|apply Z.div_le_upper_bound; lia]).
  clearbody round c k. assert (Hm : 0 <= c * round <= 286 * 32) by nia.
  unfold checked_mul64, checked_u, inU. rewrite decide_True by lia. simpl.
  rewrite decide_True by nia. done.
Qed.

Lemma cadence_bound c :
  1 <= snapshot_hz c <= tick_hz c -> tick_hz c <= 255 -> 1 <= ticks_per_snapshot c <= 255.
Proof.
  intros Hs Ht. unfold ticks_per_snapshot. split; [lia|].
  assert (tick_hz c / snapshot_hz c <= 255) by (apply Z.div_le_upper_bound; nia). lia.
Qed.

Lemma check_intervals_ok l :
  check_intervals l = Ok tt <-> Forall (fun x => x.2 <= MAX_TRADE_MIN_INTERVAL_MS) l.
Proof.
  induction l as [|[n v] l IH]; simpl; [by split|]. rewrite Forall_cons. simpl.
  case_decide; [split; [done|lia]|]. rewrite IH. split; [split; [lia|done]|tauto].
Qed.

(** What an accepted configuration guarantees. *)
Record Valid (c : Config) : Prop := {
  v_tick : 1 <= tick_hz c <= 255;
  v_snapshot : 1 <= snapshot_hz c <= tick_hz c;
  v_radius : 1 <= aoi_radius_cells c <= MAX_AOI_RADIUS_CELLS;
  v_cell : is_finite (cell_size_m c) = true /\ fle MIN_CELL_SIZE_M (cell_size_m c) = true /\
           fle (cell_size_m c) MAX_CELL_SIZE_M = true;
  v_hello : 1 <= hello_min_interval_ms c <= MAX_HELLO_MIN_INTERVAL_MS;
  v_new_session : 1 <= new_session_min_interval_ms c <= MAX_NEW_SESSION_MIN_INTERVAL_MS;
  v_peers : 1 <= max_transport_peers_per_ip c <= max_transport_peers c;
  v_peers_max : max_transport_peers c <= MAX_TRANSPORT_PEERS;
  v_recurrence : recurrence_spec (max_transport_peers c) (ticks_per_snapshot c)
                 < SNAPSHOT_CLIENT_EXPIRY_SECS * tick_hz c;
  v_rows : 1 <= max_player_rows c <= MAX_PLAYER_ROWS;
  v_intervals : Forall (fun v => v <= MAX_TRADE_MIN_INTERVAL_MS)
    [trade_min_interval_ms c; client_state_min_interval_ms c; chat_min_interval_ms c;
     econ_min_interval_ms c; moor_min_interval_ms c];
  v_wire : 1 <= max_wire_string_len c <= MAX_WIRE_STRING_LEN
}.

(** A finite float is not below [a] exactly when [a] is not above it. *)
Lemma not_flt a b :
  is_finite a = true -> is_finite b = true -> (flt a b = false <-> fle b a = true).
Proof.
  intros Ha Hb. split; [by apply not_flt_fle|]. unfold flt, fle, SFltb, SFleb.
  rewrite (SFcompare_opp a b) by done. destruct (SFcompare a b) as [[]|]; done.
Qed.

Lemma cell_size_ok x :
  ~ (is_finite x = false \/ flt x MIN_CELL_SIZE_M = true \/ fgt x MAX_CELL_SIZE_M = true) <->
  is_finite x = true /\ fle MIN_CELL_SIZE_M x = true /\ fle x MAX_CELL_SIZE_M = true.
Proof.
  destruct (is_finite x) eqn:Hf.
  - rewrite <- (not_flt x MIN_CELL_SIZE_M), <- (not_flt MAX_CELL_SIZE_M x) by done.
    unfold fgt. fold (flt MAX_CELL_SIZE_M x).
    destruct (flt x MIN_CELL_SIZE_M), (flt MAX_CELL_SIZE_M x); naive_solver.
  - naive_solver.
Qed.

(** Pass a guard that did not fire. *)
Ltac pass_guards H :=
  repeat match type of H with
  | (if decide ?P then _ else _) = _ => destruct (decide P); [discriminate H|]
  end.

Ltac config_consts :=
  unfold MIN_HELLO_MIN_INTERVAL_MS, MAX_HELLO_MIN_INTERVAL_MS, MAX_NEW_SESSION_MIN_INTERVAL_MS,
    MAX_AOI_RADIUS_CELLS, MAX_TRANSPORT_PEERS, MAX_PLAYER_ROWS, MAX_WIRE_STRING_LEN,
    MAX_TRADE_MIN_INTERVAL_MS, SNAPSHOT_CLIENT_EXPIRY_SECS, inU in *.

Lemma validate_sound c : typed c -> validate c = Ok tt -> Valid c.
Proof.
  intros Ht Hv. unfold typed in Ht. repeat (apply Forall_cons in Ht as [? Ht]).
  unfold validate in Hv. pass_guards Hv. apply cell_size_ok in n5. config_consts.
  assert (Hcad : 1 <= ticks_per_snapshot c <= 255) by (apply cadence_bound; lia).
  rewrite recurrence_eq in Hv by (unfold MAX_TRANSPORT_PEERS; lia). cbv beta iota delta [ok_or] in Hv.
  unfold checked_mul64, checked_u, inU, SNAPSHOT_CLIENT_EXPIRY_SECS in Hv.
  rewrite (decide_True (P := 0 <= tick_hz c * 5 < 2 ^ 64)) in Hv by lia. cbv beta iota delta [ok_or] in Hv.
  pass_guards Hv. destruct (check_intervals _) as [[]|] eqn:Hci; [|discriminate Hv].
  apply check_intervals_ok in Hci. pass_guards Hv.
  repeat (apply Forall_cons in Hci as [? Hci]). config_consts. simpl in *.
  constructor; config_consts; try lia; [done|]. by repeat constructor.
Qed.

Lemma validate_complete c : Valid c -> validate c = Ok tt.
Proof.
  intros [H1 H2 H3 H4 H5 H6 H7 H8 H9 H10 H11 H12]. config_consts.
  assert (Hcad : 1 <= ticks_per_snapshot c <= 255) by (apply cadence_bound; lia).
  unfold validate. rewrite (tick_duration_nonzero (tick_hz c)) by lia. config_consts.
  do 6 (rewrite decide_False by first [lia | discriminate]).
  rewrite decide_False by (by apply cell_size_ok).
  do 3 (rewrite decide_False by lia).
  rewrite recurrence_eq by (unfold MAX_TRANSPORT_PEERS; lia).
  unfold checked_mul64, checked_u, inU. rewrite (decide_True (P := 0 <= _ * 5 < _)) by lia.
  cbv beta iota delta [ok_or].
  do 3 (rewrite decide_False by lia).
  rewrite (proj2 (check_intervals_ok _)); [by rewrite decide_False by lia|].
  repeat (apply Forall_cons in H11 as [? H11]). by repeat constructor.
Qed.

(** A configuration is accepted exactly when every field is within its documented
    range, the rates fit the wire, and the closed-form worst-case snapshot
    recurrence is below the five-second client expiry. *)
Lemma validate_exact (c : Config) : typed c -> (validate c = Ok tt <-> Valid c).
Proof. intros Ht. split; [by apply validate_sound|apply validate_complete]. Qed.

Lemma default_typed : typed config_default.
Proof.
  unfold typed. repeat (apply Forall_cons_2; [vm_compute; split; [discriminate|reflexivity]|]).
  apply Forall_nil_2.
Qed.

Lemma default_valid : Valid config_default.
Proof.
  apply validate_sound; [apply default_typed|vm_compute; reflexivity].
Qed.

(** A configuration is safe to run with: the defensive clamps of
    the accessors never change a value, the handshake fields fit a byte, the
    per-source admission interval exceeds two global intervals, the grid
    constructor does not panic, and no position a client can send makes the
    area-of-interest block wrap around. *)
Definition safe_to_run (c : Config) : Prop :=
  (aoi_radius_i32 c, hello_min_interval_ms_i64 c, new_session_min_interval_ms_i64 c,
   max_transport_peers_usize c, max_transport_peers_per_ip_usize c, max_player_rows_u32 c) =
  (aoi_radius_cells c, hello_min_interval_ms c, new_session_min_interval_ms c,
   max_transport_peers c, max_transport_peers_per_ip c, max_player_rows c) /\
  (trade_min_interval_ms_i64 c, client_state_min_interval_ms_i64 c, chat_min_interval_ms_i64 c,
   econ_min_interval_ms_i64 c, moor_min_interval_ms_i64 c, max_wire_string_len_usize c) =
  (trade_min_interval_ms c, client_state_min_interval_ms c, chat_min_interval_ms c,
   econ_min_interval_ms c, moor_min_interval_ms c, max_wire_string_len c) /\
  tick_hz_u8 c = Some (tick_hz c) /\ snapshot_hz_u8 c = Some (snapshot_hz c) /\
  2 * new_session_min_interval_ms c < source_session_min_interval_ms_i64 c /\
  exists g, grid_new (cell_size_m c) = Some g /\
    forall p0 p1 p2 r v m, f32_ok p0 -> f32_ok p2 -> sanitize_motion (p0, p1, p2) r v = Some m ->
      interior (aoi_radius_i32 c) (cell_of g (pos m).1.1 (pos m).2).

Lemma valid_config_safe (c : Config) : Valid c -> f32_ok (cell_size_m c) -> safe_to_run c.
Proof.
  intros HV Hok. unfold safe_to_run. pose proof HV as [H1 H2 H3 H4 H5 H6 H7 H8 H9 H10 H11 H12].
  repeat (apply Forall_cons in H11 as [? H11]). config_consts.
  unfold aoi_radius_i32, hello_min_interval_ms_i64, new_session_min_interval_ms_i64,
    max_transport_peers_usize, max_transport_peers_per_ip_usize, max_player_rows_u32,
    trade_min_interval_ms_i64, client_state_min_interval_ms_i64, chat_min_interval_ms_i64,
    econ_min_interval_ms_i64, moor_min_interval_ms_i64, max_wire_string_len_usize,
    source_session_min_interval_ms_i64, tick_hz_u8, snapshot_hz_u8, checked_u, clampZ.
  config_consts. split_and!.
  - repeat f_equal; lia.
  - repeat f_equal; lia.
  - by rewrite decide_True by lia.
  - by rewrite decide_True by lia.
  - unfold hello_min_interval_ms_i64, new_session_min_interval_ms_i64, clampZ, saturateS.
    config_consts. lia.
  - destruct H4 as (Hf & Hmin & Hmax). exists (mkGrid (cell_size_m c)).
    split.
    + unfold grid_new. destruct (cell_size_m c) as [s|s| |[] m e]; try done.
    + intros p0 p1 p2 r v m Hp0 Hp2 Hs. apply sanitize_pos in Hs as (F0 & F2 & ->).
      apply clamped_cell_interior; try done. lia.
Qed.

(** ** Theorems *)

(** C36.  Validation is exact and sufficient.  A configuration is accepted exactly
    when every field is within its documented range, the rates fit the wire, and
    the closed-form worst-case snapshot recurrence is below the five-second client
    expiry; and an accepted one is safe to run with: the defensive clamps of the
    accessors never change a value, the handshake fields fit a byte, the
    per-source admission interval exceeds two global intervals, the grid
    constructor does not panic, and no position a client can send makes the
    area-of-interest block wrap around. *)
Theorem validated_config_runs (c : Config) :
  typed c -> f32_ok (cell_size_m c) ->
  (validate c = Ok tt <-> Valid c) /\ (validate c = Ok tt -> safe_to_run c).
Proof.
  intros Ht Hf. pose proof (validate_exact c Ht) as He. split; [done|].
  intros Hv. by apply valid_config_safe; [apply He|].
Qed.

Lemma validated_config_runs_witness :
  Valid config_default /\
  2 * new_session_min_interval_ms config_default < source_session_min_interval_ms_i64 config_default.
Proof.
  destruct (validated_config_runs config_default default_typed) as [H1 H2]; [vm_compute; reflexivity|].
  assert (E : validate config_default = Ok tt) by (vm_compute; reflexivity).
  split; [apply H1, E|]. destruct (H2 E) as (_ & _ & _ & _ & H & _). exact H.
Defined.
