(* ===== verification/Econ.v ===== *)
(** * The gold ledger and the shared port market ([sw-econ])

    Models server/crates/sw-econ/src/lib.rs: the [LedgerStore] and
    [MarketStore] traits as classes of operations, the policy layers
    [Ledger::apply] and [Market::apply] over any store, and the in-memory
    stores.  What a store promises is a second class ([LedgerStoreSpec],
    [MarketStoreSpec]) that relates it to an abstract [View]; the theorems on
    [apply] are proved once against that interface, and the stores discharge
    it (the SQLite adapters do so in EconStore.v). *)

From S2P Require Import Prelude.

(** ** Operations *)
Module Ledger.

Record Txn := mkTxn {
  txn_id : Z;
  amount_gold : Z;
  kind : Z;
  note : string
}.

Record LedgerAck := mkLedgerAck {
  ack_txn_id : Z;
  accepted : bool;
  new_balance : Z;
  reason : string
}.

Record RecordedTxn := mkRecordedTxn {
  rec_player : Z;
  rec_new_balance : Z
}.

#[global] Instance Txn_eq_dec : EqDecision Txn.
Proof. solve_decision. Defined.

(** The [LedgerStore] trait.  Reads may fail as well as writes, and every
    operation returns the store it leaves behind. *)
Class LedgerStore (S E : Type) := {
  balance : Z -> S -> result E Z * S;
  lookup_txn : Z -> S -> result E (option RecordedTxn) * S;
  commit : Z -> Txn -> Z -> S -> result E unit * S
}.

(** [Ledger::apply]. *)
Definition apply {S E} `{LedgerStore S E} (player : Z) (txn : Txn) (store : S)
    : result E LedgerAck * S :=
  try! recorded, store := lookup_txn txn.(txn_id) store in
  match recorded with
  | Some r =>
      (Ok (mkLedgerAck txn.(txn_id) true r.(rec_new_balance)
             "duplicate (idempotent replay)"), store)
  | None =>
      try! bal, store := balance player store in
      match checked_add_s 64 bal txn.(amount_gold) with
      | Some nb =>
          if decide (nb >= 0) then
            try! _, store := commit player txn nb store in
            (Ok (mkLedgerAck txn.(txn_id) true nb ""), store)
          else
            (Ok (mkLedgerAck txn.(txn_id) false bal "insufficient funds"), store)
      | None =>
          (Ok (mkLedgerAck txn.(txn_id) false bal "amount out of range"), store)
      end
  end.

(** [MemStore], the in-memory store; it never fails. *)
Record MemStore := mkMemStore {
  balances : gmap Z Z;
  txns : gmap Z RecordedTxn;
  log : list (Z * Txn * Z)
}.

#[global] Instance MemStore_eta : Settable MemStore :=
  mkSettable (fun r => mkMemStore (balances r) (txns r) (log r)).

Definition mem_new : MemStore := mkMemStore ∅ ∅ [].

Definition mem_balance (player : Z) (s : MemStore) : Z := default 0 (balances s !! player).

Definition mem_lookup_txn (id : Z) (s : MemStore) : option RecordedTxn := txns s !! id.

Definition mem_commit (player : Z) (txn : Txn) (nb : Z) (s : MemStore) : MemStore :=
  s <| balances ::= <[player := nb]> |>
    <| txns ::= <[txn.(txn_id) := mkRecordedTxn player nb]> |>
    <| log ::= fun l => l ++ [(player, txn, nb)] |>.

#[global] Instance mem_ledger_store : LedgerStore MemStore Empty_set := {
  balance p s := (Ok (mem_balance p s), s);
  lookup_txn id s := (Ok (mem_lookup_txn id s), s);
  commit p t nb s := (Ok tt, mem_commit p t nb s)
}.

(** ** Specification

    The abstract state of a ledger: the gold of every player, and the player
    and amount of every committed transaction. *)
Record Entry := mkEntry {
  e_player : Z;
  e_amount : Z
}.

Record View := mkView {
  v_gold : gmap Z Z;
  v_log : gmap Z Entry
}.

Definition gold_of (v : View) (p : Z) : Z := default 0 (v_gold v !! p).

Definition record_txn (v : View) (p : Z) (t : Txn) (nb : Z) : View :=
  mkView (<[p := nb]> (v_gold v))
         (<[t.(txn_id) := mkEntry p t.(amount_gold)]> (v_log v)).

(** The abstract ledger; [replay] is what the store remembers of the
    transaction's id. *)
Definition spec_apply (replay : option RecordedTxn) (v : View) (p : Z) (t : Txn)
    : LedgerAck * View :=
  match replay with
  | Some r => (mkLedgerAck t.(txn_id) true (rec_new_balance r)
                 "duplicate (idempotent replay)", v)
  | None =>
      let nb := gold_of v p + t.(amount_gold) in
      if decide (inS 64 nb) then
        if decide (0 <= nb) then
          (mkLedgerAck t.(txn_id) true nb "", record_txn v p t nb)
        else (mkLedgerAck t.(txn_id) false (gold_of v p) "insufficient funds", v)
      else (mkLedgerAck t.(txn_id) false (gold_of v p) "amount out of range", v)
  end.

(** What a store promises to the policy layer.  [admits v p t] is the condition
    under which the store can record [t] for [p] (the in-memory store always
    can; the database needs a row for the player), and [valid_id] the
    transaction ids it can tell apart. *)
Class LedgerStoreSpec (S E : Type) `{LedgerStore S E} := {
  view : S -> View;
  replay : S -> Z -> option RecordedTxn;
  valid_id : Z -> Prop;
  admits : View -> Z -> Txn -> Prop;
  admits_valid v p t : admits v p t -> valid_id t.(txn_id);
  admits_record v p q t t' nb : admits v p t -> admits (record_txn v q t' nb) p t;
  replay_log s id : valid_id id -> (replay s id = None <-> v_log (view s) !! id = None);
  balance_spec p s r s' : balance p s = (r, s') ->
    view s' = view s /\ replay s' = replay s /\
    forall b t, r = Ok b -> admits (view s) p t -> b = gold_of (view s) p;
  lookup_spec id s r s' : lookup_txn id s = (r, s') ->
    view s' = view s /\ replay s' = replay s /\
    forall o, r = Ok o -> o = replay s id;
  commit_spec p t nb s r s' : commit p t nb s = (r, s') ->
    admits (view s) p t -> v_log (view s) !! t.(txn_id) = None ->
    match r with
    | Ok _ => view s' = record_txn (view s) p t nb /\
              replay s' t.(txn_id) = Some (mkRecordedTxn p nb)
    | Err _ => view s' = view s /\ replay s' = replay s
    end
}.

(** The further promise the module documentation makes, that a replay returns
    the original result: a commit leaves what other ids read back alone. *)
Class OriginalReplay (S E : Type) `{LedgerStoreSpec S E} :=
  commit_keeps_replay p t nb s r s' id :
    commit p t nb s = (r, s') -> id <> t.(txn_id) -> replay s' id = replay s id.

(** The books balance: a player's gold is the sum of the amounts committed for
    that player, and is a nonnegative [i64]. *)
Definition amount_for (p : Z) (e : Entry) : Z :=
  if decide (e_player e = p) then e_amount e else 0.

Definition log_total (p : Z) (l : gmap Z Entry) : Z :=
  map_fold (fun _ e acc => amount_for p e + acc) 0 l.

Definition wf_view (v : View) : Prop :=
  forall p, gold_of v p = log_total p (v_log v) /\ 0 <= gold_of v p <= i64_max.

(** A session of the ledger: any requests, in any order, by any players; a
    request that fails leaves the store it left behind. *)
Fixpoint run {S E} `{LedgerStore S E} (ops : list (Z * Txn)) (s : S) : S :=
  match ops with
  | [] => s
  | (p, t) :: ops => run ops (apply p t s).2
  end.

(** ** Lemmas *)
Lemma log_total_insert p id e l :
  l !! id = None -> log_total p (<[id := e]> l) = amount_for p e + log_total p l.
Proof.
  intros. unfold log_total.
  by rewrite (map_fold_insert_L (fun _ e acc => amount_for p e + acc)) by (try done; intros; lia).
Qed.

Lemma gold_of_record v p q t nb :
  gold_of (record_txn v p t nb) q = if decide (p = q) then nb else gold_of v q.
Proof.
  unfold gold_of, record_txn; simpl. rewrite lookup_insert. by case_decide.
Qed.

Lemma record_txn_wf v p t nb :
  wf_view v -> v_log v !! txn_id t = None ->
  nb = gold_of v p + amount_gold t -> 0 <= nb <= i64_max ->
  wf_view (record_txn v p t nb).
Proof.
  intros Hwf Hfresh -> Hnb q. rewrite gold_of_record. simpl.
  rewrite log_total_insert by done. unfold amount_for; simpl.
  destruct (Hwf q), (Hwf p). case_decide; subst; lia.
Qed.

Section WithStore.
Context {S E : Type} {LS : LedgerStore S E} {LSS : LedgerStoreSpec S E}.
Implicit Types (s : S) (p : Z) (t : Txn).

(** Case analysis of [apply]: either it fails and nothing changed, or it
    answers as the abstract ledger does. *)
Lemma apply_cases p t s r s' :
  apply p t s = (r, s') -> admits (view s) p t ->
  match r with
  | Ok ack => spec_apply (replay s (txn_id t)) (view s) p t = (ack, view s')
  | Err _ => view s' = view s /\ replay s' = replay s
  end.
Proof.
  unfold apply, spec_apply. intros Happ Hadm.
  destruct (lookup_txn (txn_id t) s) as [rl s1] eqn:El.
  apply lookup_spec in El as (V1 & R1 & El).
  destruct rl as [o|]; [|by simplify_eq]. rewrite (El o eq_refl) in *.
  destruct (replay s (txn_id t)) eqn:Er; [by simplify_eq/=; rewrite V1|].
  destruct (balance p s1) as [rb s2] eqn:Eb.
  apply balance_spec in Eb as (V2 & R2 & Eb). rewrite V1 in V2, Eb. rewrite R1 in R2.
  destruct rb as [b|]; [|by simplify_eq]. rewrite (Eb b t eq_refl Hadm) in *.
  unfold checked_add_s in Happ. case_decide; [|by simplify_eq/=; rewrite V2].
  destruct (decide (gold_of (view s) p + amount_gold t >= 0));
    (destruct (decide (0 <= gold_of (view s) p + amount_gold t)); [|try lia]);
    try lia; [|by simplify_eq/=; rewrite V2].
  destruct (commit _ _ _ _) as [rc s3] eqn:Ec.
  apply commit_spec in Ec; rewrite ?V2 in *; [|done|by apply replay_log; [eapply admits_valid|]].
  rewrite R2 in Ec. destruct rc; simplify_eq/=; destruct Ec as [-> ?]; done.
Qed.

(** What may happen to the view in one request: nothing, or one entry. *)
Lemma apply_view_step p t s r s' :
  apply p t s = (r, s') -> admits (view s) p t ->
  view s' = view s \/
  (v_log (view s) !! txn_id t = None /\ exists nb,
     0 <= nb /\ inS 64 nb /\ nb = gold_of (view s) p + amount_gold t /\
     view s' = record_txn (view s) p t nb).
Proof.
  intros H Ha. apply apply_cases in H; [|done].
  destruct r as [ack|]; [|left; apply H]. revert H. unfold spec_apply.
  destruct (replay s (txn_id t)) eqn:Eq;
    [intros; simplify_eq/=; by left|].
  apply replay_log in Eq; [|by eapply admits_valid].
  repeat case_decide; intros; simplify_eq/=; [|by left..].
  right. split; [done|]. eauto 10.
Qed.

Lemma apply_admits p q t t' s :
  admits (view s) p t -> admits (view s) q t' -> admits (view (apply p t s).2) q t'.
Proof.
  intros Hp Hq. destruct (apply p t s) as [r s'] eqn:Eq; simpl.
  apply apply_view_step in Eq as [->|(_ & nb & _ & _ & _ & ->)];
    [done| |done]. by apply admits_record.
Qed.

Lemma apply_wf p t s :
  admits (view s) p t -> wf_view (view s) -> wf_view (view (apply p t s).2).
Proof.
  intros Ha Hwf. destruct (apply p t s) as [r s'] eqn:Eq; simpl.
  apply apply_view_step in Eq as [->|(Hf & nb & H0 & Hin & Hnb & ->)]; [done| |done].
  apply record_txn_wf; [done..|]. unfold inS, i64_max in *. lia.
Qed.

(** A committed entry is never rewritten and never removed. *)
Lemma apply_log_grows p t s id e :
  admits (view s) p t -> v_log (view s) !! id = Some e ->
  v_log (view (apply p t s).2) !! id = Some e.
Proof.
  intros Ha Hl. destruct (apply p t s) as [r s'] eqn:Eq; simpl.
  apply apply_view_step in Eq as [->|(Hf & nb & _ & _ & _ & ->)]; [done| |done].
  simpl. rewrite lookup_insert_ne; [done|congruence].
Qed.

Lemma run_induction (P : View -> Prop) ops s :
  (forall p t s, admits (view s) p t -> P (view s) -> P (view (apply p t s).2)) ->
  Forall (fun o => admits (view s) o.1 o.2) ops -> P (view s) -> P (view (run ops s)).
Proof.
  intros Hstep. revert s. induction ops as [|[p t] ops IH]; intros s Hops HP; [done|].
  apply Forall_cons in Hops as [Hp Hops]; simpl in *.
  apply IH; [|by apply Hstep]. eapply Forall_impl; [done|].
  intros o Ho. by apply apply_admits.
Qed.

Lemma apply_accept_logged p t s ack s' :
  apply p t s = (Ok ack, s') -> admits (view s) p t -> accepted ack = true ->
  exists e, v_log (view s') !! txn_id t = Some e.
Proof.
  intros Happ Ha Hacc. apply apply_cases in Happ; [|done]. revert Happ.
  unfold spec_apply. destruct (replay s (txn_id t)) eqn:Eq.
  - intros [= <- Hv]. rewrite <- Hv.
    destruct (v_log (view s) !! txn_id t) eqn:El; [eauto|].
    apply replay_log in El; [congruence|by eapply admits_valid].
  - repeat case_decide; intros [= <- Hv]; try discriminate Hacc.
    rewrite <- Hv; simpl. rewrite lookup_insert_eq. eauto.
Qed.

(** The store side of a request: only reads, or one commit of a fresh id. *)
Lemma apply_effect p t s r s' :
  apply p t s = (r, s') -> admits (view s) p t ->
  replay s' = replay s \/
  exists nb s2, replay s (txn_id t) = None /\ replay s2 = replay s /\
    commit p t nb s2 = (Ok tt, s') /\
    replay s' (txn_id t) = Some (mkRecordedTxn p nb) /\
    r = Ok (mkLedgerAck (txn_id t) true nb "").
Proof.
  unfold apply. intros Happ Hadm.
  destruct (lookup_txn (txn_id t) s) as [rl s1] eqn:El.
  apply lookup_spec in El as (V1 & R1 & El).
  destruct rl as [o|]; [|left; by simplify_eq]. rewrite (El o eq_refl) in *.
  destruct (replay s (txn_id t)) eqn:Er; [left; by simplify_eq/=|].
  destruct (balance p s1) as [rb s2] eqn:Eb.
  apply balance_spec in Eb as (V2 & R2 & _). rewrite V1 in V2. rewrite R1 in R2.
  destruct rb as [b|]; [|left; by simplify_eq].
  destruct (checked_add_s _ _ _) as [nb|]; [|left; by simplify_eq].
  case_decide; [|left; by simplify_eq].
  destruct (commit p t nb s2) as [rc s3] eqn:Ec. pose proof Ec as Ec'.
  apply commit_spec in Ec; rewrite ?V2; [|done|by apply replay_log; [eapply admits_valid|]].
  destruct rc as [[]|]; simplify_eq/=; destruct Ec as [_ Ec].
  - right. eauto 10.
  - left. congruence.
Qed.

Lemma apply_accept_replay p t s ack s' :
  apply p t s = (Ok ack, s') -> admits (view s) p t -> accepted ack = true ->
  exists r, replay s' (txn_id t) = Some r /\ rec_new_balance r = new_balance ack.
Proof.
  intros Happ Ha Hacc. pose proof Happ as Hc. apply apply_cases in Hc; [|done].
  apply apply_effect in Happ as [Hr|(nb & s2 & _ & _ & _ & Hr & [= ->])]; [|eauto|done].
  rewrite Hr. revert Hc. unfold spec_apply.
  destruct (replay s (txn_id t)) as [r|] eqn:Eq; [intros [= <- _]; eauto|].
  apply replay_log in Eq; [|by eapply admits_valid].
  repeat case_decide; intros [= <- Hv]; try discriminate Hacc.
  exfalso. assert (Hn : replay s' (txn_id t) = None).
  { rewrite Hr. by apply replay_log; [eapply admits_valid|]. }
  apply replay_log in Hn; [|by eapply admits_valid]. rewrite <- Hv in Hn. simpl in Hn.
  by rewrite lookup_insert_eq in Hn.
Qed.

Lemma run_admits ops s p t :
  Forall (fun o => admits (view s) o.1 o.2) ops -> admits (view s) p t ->
  admits (view (run ops s)) p t.
Proof.
  intros. apply (run_induction (fun v => admits v p t)); [|done..].
  intros. by apply apply_admits.
Qed.

Lemma run_log_grows ops s id e :
  Forall (fun o => admits (view s) o.1 o.2) ops ->
  v_log (view s) !! id = Some e -> v_log (view (run ops s)) !! id = Some e.
Proof.
  intros. apply (run_induction (fun v => v_log v !! id = Some e)); [|done..].
  intros. by apply apply_log_grows.
Qed.

Lemma run_keeps_replay `{!OriginalReplay S E} ops s id r :
  Forall (fun o => admits (view s) o.1 o.2) ops ->
  replay s id = Some r -> replay (run ops s) id = Some r.
Proof.
  revert s. induction ops as [|[p t] ops IH]; intros s Hops Hr; [done|].
  apply Forall_cons in Hops as [Hp Hops]; simpl in *. apply IH.
  - eapply Forall_impl; [done|]. intros o Ho. by apply apply_admits.
  - destruct (apply p t s) as [ra s'] eqn:Ea; simpl.
    apply apply_effect in Ea as [->|(nb & s2 & Hn & H2 & Hc & _)]; [done| |done].
    rewrite (commit_keeps_replay _ _ _ _ _ _ _ Hc), H2; [done|congruence].
Qed.

End WithStore.

(** The in-memory store keeps its promises.  The amount of a recorded
    transaction is read off the log it appends to. *)
Definition last_amount (id : Z) (l : list (Z * Txn * Z)) : Z :=
  foldl (fun acc x => if decide (txn_id x.1.2 = id) then amount_gold x.1.2 else acc) 0 l.

Definition mem_view (s : MemStore) : View :=
  mkView (balances s)
    (map_imap (fun id r => Some (mkEntry (rec_player r) (last_amount id (log s)))) (txns s)).

Lemma last_amount_snoc id l x :
  last_amount id (l ++ [x]) =
    if decide (txn_id x.1.2 = id) then amount_gold x.1.2 else last_amount id l.
Proof. unfold last_amount. by rewrite foldl_app. Qed.

Lemma mem_commit_view p t nb s :
  mem_view (mem_commit p t nb s) = record_txn (mem_view s) p t nb.
Proof.
  unfold mem_view, record_txn. f_equal. apply map_eq. intros id. simpl.
  rewrite lookup_insert, !map_lookup_imap, lookup_insert, last_amount_snoc; simpl.
  repeat case_decide; simpl; by subst.
Qed.

#[global, program] Instance mem_ledger_spec : LedgerStoreSpec MemStore Empty_set := {
  view := mem_view;
  replay s id := txns s !! id;
  valid_id _ := True;
  admits _ _ _ := True
}.
Next Obligation. done. Qed.
Next Obligation. done. Qed.
Next Obligation.
  intros s id _. simpl. rewrite map_lookup_imap. by destruct (txns s !! id).
Qed.
Next Obligation. intros; simplify_eq/=. split_and!; [done..|]. by intros ? ? [= <-]. Qed.
Next Obligation. intros; simplify_eq/=. split_and!; [done..|]. by intros ? [= <-]. Qed.
Next Obligation.
  intros; simplify_eq/=. split; [apply mem_commit_view|]. apply lookup_insert_eq.
Qed.

#[global] Instance mem_original_replay : OriginalReplay MemStore Empty_set.
Proof. intros p t nb s r s' id [= <- <-] Hid. simpl. by rewrite lookup_insert_ne. Qed.

(** ** Theorems *)

(** C18.  Refinement: over any store that keeps its promises, [Ledger::apply]
    answers and moves exactly as the abstract ledger does on every branch
    (replay, acceptance, insufficient funds, overflow), and a request that ends
    in a store error leaves both the balances and the replay record as they
    were. *)
Theorem ledger_apply_refines {S E} {LS : LedgerStore S E} {LSS : LedgerStoreSpec S E}
    (p : Z) (t : Txn) (s : S) :
  admits (view s) p t ->
  match apply p t s with
  | (Ok ack, s') => spec_apply (replay s (txn_id t)) (view s) p t = (ack, view s')
  | (Err _, s') => view s' = view s /\ replay s' = replay s
  end.
Proof.
  intros Ha. destruct (apply p t s) as [r s'] eqn:Eq.
  apply apply_cases in Eq; [|done]. by destruct r.
Qed.

Definition demo_ops : list (Z * Txn) :=
  [(1, mkTxn 1 100 0 "sale"); (1, mkTxn 2 (-30) 0 "rum"); (2, mkTxn 1 7 0 "");
   (1, mkTxn 3 (-500) 0 "ship"); (2, mkTxn 4 i64_max 0 ""); (2, mkTxn 5 1 0 "")].

Lemma ledger_apply_refines_witness :
  let s := run demo_ops mem_new in
  let t := mkTxn 9 (-70) 0 "" in
  match apply 1 t s with
  | (Ok ack, s') => spec_apply (replay s (txn_id t)) (view s) 1 t = (ack, view s')
  | (Err _, s') => view s' = view s /\ replay s' = replay s
  end /\ (apply 1 t s).1 = Ok (mkLedgerAck 9 true 0 "").
Proof.
  split; [exact (ledger_apply_refines 1 (mkTxn 9 (-70) 0 "") (run demo_ops mem_new) I)|].
  vm_compute. reflexivity.
Defined.

(** C11.  Conservation: whatever requests are applied, by whomever and in
    whatever order, with store errors anywhere among them, every player's gold
    stays a nonnegative [i64] equal to the sum of the amounts of the distinct
    transactions committed for that player. *)
Theorem ledger_run_conserves {S E} {LS : LedgerStore S E} {LSS : LedgerStoreSpec S E}
    (ops : list (Z * Txn)) (s : S) :
  Forall (fun o => admits (view s) o.1 o.2) ops ->
  wf_view (view s) -> wf_view (view (run ops s)).
Proof. apply run_induction. intros. by apply apply_wf. Qed.

Lemma mem_new_wf : wf_view (view mem_new).
Proof.
  intros p. split; [done|]. change (gold_of (view mem_new) p) with 0. unfold i64_max. lia.
Qed.

Lemma ledger_run_conserves_witness :
  wf_view (view (run demo_ops mem_new)) /\
  gold_of (view (run demo_ops mem_new)) 1 = 70 /\
  gold_of (view (run demo_ops mem_new)) 2 = i64_max.
Proof.
  split; [|split; vm_compute; reflexivity].
  apply (ledger_run_conserves demo_ops mem_new); [by repeat constructor|apply mem_new_wf].
Defined.

(** Exactly once: after a transaction is accepted, and after any further
    requests, submitting its id again (even for another player or amount) never
    touches a balance or the log, and is acknowledged as accepted whenever it
    is answered at all. *)
Lemma ledger_applies_once {S E} {LS : LedgerStore S E} {LSS : LedgerStoreSpec S E}
    (p q : Z) (t t' : Txn) (s s1 : S) (ack : LedgerAck) (ops : list (Z * Txn)) :
  apply p t s = (Ok ack, s1) -> accepted ack = true -> admits (view s) p t ->
  Forall (fun o => admits (view s1) o.1 o.2) ops -> admits (view s1) q t' ->
  txn_id t' = txn_id t ->
  view (apply q t' (run ops s1)).2 = view (run ops s1) /\
  forall ack', (apply q t' (run ops s1)).1 = Ok ack' -> accepted ack' = true.
Proof.
  intros Happ Hacc Hp Hops Hq Hid.
  eapply apply_accept_logged in Happ as [e He]; [|done..].
  apply (run_log_grows ops) in He; [|done].
  destruct (apply q t' (run ops s1)) as [r s3] eqn:Eq; simpl.
  apply apply_cases in Eq; [|by apply run_admits]. revert Eq. unfold spec_apply.
  destruct (replay _ _) eqn:Er; [|apply replay_log in Er; [congruence|by eapply admits_valid]].
  destruct r; [|naive_solver]. by intros [= <- <-]; split; [|intros ? [= <-]].
Qed.

Lemma ledger_applies_once_witness :
  let s1 := (apply 1 (mkTxn 1 100 0 "sale") mem_new).2 in
  view (apply 2 (mkTxn 1 999 0 "") (run demo_ops s1)).2 = view (run demo_ops s1) /\
  forall ack', (apply 2 (mkTxn 1 999 0 "") (run demo_ops s1)).1 = Ok ack' -> accepted ack' = true.
Proof.
  apply (ledger_applies_once 1 2 (mkTxn 1 100 0 "sale") (mkTxn 1 999 0 "") mem_new _
           (mkLedgerAck 1 true 100 "") demo_ops);
    try reflexivity; try exact I; by repeat constructor.
Defined.

(** Original result: over a store whose commits leave the other recorded
    results alone (the in-memory store is one), a replay after any further
    requests returns the balance of the original acknowledgement. *)
Lemma ledger_replays_original {S E} {LS : LedgerStore S E} {LSS : LedgerStoreSpec S E}
    {OR : OriginalReplay S E}
    (p q : Z) (t t' : Txn) (s s1 s3 : S) (ack ack' : LedgerAck) (ops : list (Z * Txn)) :
  apply p t s = (Ok ack, s1) -> accepted ack = true -> admits (view s) p t ->
  Forall (fun o => admits (view s1) o.1 o.2) ops -> admits (view s1) q t' ->
  txn_id t' = txn_id t -> apply q t' (run ops s1) = (Ok ack', s3) ->
  new_balance ack' = new_balance ack.
Proof.
  intros Happ Hacc Hp Hops Hq Hid Hre.
  eapply apply_accept_replay in Happ as (r & Hr & <-); [|done..].
  apply (run_keeps_replay ops) in Hr; [|done].
  apply apply_cases in Hre; [|by apply run_admits]. revert Hre. unfold spec_apply.
  rewrite Hid, Hr. by intros [= <- _].
Qed.

Lemma ledger_replays_original_witness :
  let s1 := (apply 1 (mkTxn 1 100 0 "sale") mem_new).2 in
  match apply 1 (mkTxn 1 100 0 "sale") (run demo_ops s1) with
  | (Ok ack', _) => new_balance ack' = 100
  | (Err _, _) => False
  end.
Proof.
  intros s1.
  destruct (apply 1 (mkTxn 1 100 0 "sale") (run demo_ops s1)) as [[ack'|[]] s3] eqn:E.
  apply (ledger_replays_original 1 1 (mkTxn 1 100 0 "sale") (mkTxn 1 100 0 "sale")
           mem_new s1 s3 (mkLedgerAck 1 true 100 "") ack' demo_ops);
    try reflexivity; try exact I; try exact E; by repeat constructor.
Defined.

End Ledger.

(** ** The shared port market *)
Module Market.

Record Trade := mkTrade {
  txn_id : Z;
  port_id : Z;
  item_id : Z;
  qty : Z;
  unit_price : Z
}.

Record MarketAck := mkMarketAck {
  ack_txn_id : Z;
  accepted : bool;
  ack_port_id : Z;
  ack_item_id : Z;
  stock : Z;
  price : Z;
  reason : string
}.

Record RecordedTrade := mkRecordedTrade {
  rec_port_id : Z;
  rec_item_id : Z;
  rec_stock : Z;
  rec_price : Z
}.

(** The [MarketStore] trait. *)
Class MarketStore (S E : Type) := {
  state : Z -> Z -> S -> result E (Z * Z) * S;
  lookup_trade : Z -> S -> result E (option RecordedTrade) * S;
  commit : Trade -> Z -> Z -> S -> result E unit * S
}.

(** [Market::reject]. *)
Definition reject (t : Trade) (stock price : Z) (reason : string) : MarketAck :=
  mkMarketAck t.(txn_id) false t.(port_id) t.(item_id) stock price reason.

(** [Market::apply]. *)
Definition apply {S E} `{MarketStore S E} (t : Trade) (store : S)
    : result E MarketAck * S :=
  try! recorded, store := lookup_trade t.(txn_id) store in
  match recorded with
  | Some r =>
      (Ok (mkMarketAck t.(txn_id) true r.(rec_port_id) r.(rec_item_id)
             r.(rec_stock) r.(rec_price) "duplicate (idempotent replay)"), store)
  | None =>
      try! (st, pr), store := state t.(port_id) t.(item_id) store in
      if decide (t.(unit_price) < 0) then (Ok (reject t st pr "invalid price"), store)
      else
        match checked_add_s 64 st t.(qty) with
        | Some ns =>
            if decide (ns >= 0) then
              let np := t.(unit_price) in
              try! _, store := commit t ns np store in
              (Ok (mkMarketAck t.(txn_id) true t.(port_id) t.(item_id) ns np ""), store)
            else (Ok (reject t st pr "insufficient stock"), store)
        | None => (Ok (reject t st pr "quantity out of range"), store)
        end
  end.

(** [MemMarketStore]. *)
Record MemMarketStore := mkMemMarketStore {
  mstate : gmap (Z * Z) (Z * Z);
  trades : gmap Z RecordedTrade;
  mlog : list (Trade * Z * Z)
}.

#[global] Instance MemMarketStore_eta : Settable MemMarketStore :=
  mkSettable (fun r => mkMemMarketStore (mstate r) (trades r) (mlog r)).

Definition mem_market_new : MemMarketStore := mkMemMarketStore ∅ ∅ [].

Definition mem_state (port item : Z) (s : MemMarketStore) : Z * Z :=
  default (0, 0) (mstate s !! (port, item)).

Definition mem_lookup_trade (id : Z) (s : MemMarketStore) : option RecordedTrade :=
  trades s !! id.

Definition mem_market_commit (t : Trade) (ns np : Z) (s : MemMarketStore) : MemMarketStore :=
  s <| mstate ::= <[(t.(port_id), t.(item_id)) := (ns, np)]> |>
    <| trades ::= <[t.(txn_id) := mkRecordedTrade t.(port_id) t.(item_id) ns np]> |>
    <| mlog ::= fun l => l ++ [(t, ns, np)] |>.

#[global] Instance mem_market_store : MarketStore MemMarketStore Empty_set := {
  state port item s := (Ok (mem_state port item s), s);
  lookup_trade id s := (Ok (mem_lookup_trade id s), s);
  commit t ns np s := (Ok tt, mem_market_commit t ns np s)
}.

(** *** Specification *)
Record View := mkView {
  v_state : gmap (Z * Z) (Z * Z);
  v_trades : gmap Z RecordedTrade
}.

Definition state_of (v : View) (k : Z * Z) : Z * Z := default (0, 0) (v_state v !! k).

Definition record_trade (v : View) (t : Trade) (ns : Z) : View :=
  mkView (<[(port_id t, item_id t) := (ns, unit_price t)]> (v_state v))
         (<[txn_id t := mkRecordedTrade (port_id t) (item_id t) ns (unit_price t)]> (v_trades v)).

Definition spec_apply (v : View) (t : Trade) : MarketAck * View :=
  match v_trades v !! txn_id t with
  | Some r => (mkMarketAck (txn_id t) true (rec_port_id r) (rec_item_id r)
                 (rec_stock r) (rec_price r) "duplicate (idempotent replay)", v)
  | None =>
      let '(st, pr) := state_of v (port_id t, item_id t) in
      let ns := st + qty t in
      if decide (unit_price t < 0) then (reject t st pr "invalid price", v)
      else if decide (inS 64 ns) then
        if decide (0 <= ns) then
          (mkMarketAck (txn_id t) true (port_id t) (item_id t) ns (unit_price t) "",
           record_trade v t ns)
        else (reject t st pr "insufficient stock", v)
      else (reject t st pr "quantity out of range", v)
  end.

(** What a market store promises. *)
Class MarketStoreSpec (S E : Type) `{MarketStore S E} := {
  view : S -> View;
  state_spec port item s r s' : state port item s = (r, s') ->
    view s' = view s /\ forall x, r = Ok x -> x = state_of (view s) (port, item);
  lookup_trade_spec id s r s' : lookup_trade id s = (r, s') ->
    view s' = view s /\ forall o, r = Ok o -> o = v_trades (view s) !! id;
  commit_spec t ns s r s' : commit t ns (unit_price t) s = (r, s') ->
    v_trades (view s) !! txn_id t = None ->
    view s' = (if r is Ok _ then record_trade (view s) t ns else view s)
}.

Definition wf_view (v : View) : Prop :=
  forall k, 0 <= (state_of v k).1 <= i64_max /\ 0 <= (state_of v k).2.

(** A session of the market with its transcript. *)
Fixpoint run {S E} `{MarketStore S E} (ops : list Trade) (s : S)
    : list (Trade * result E MarketAck) * S :=
  match ops with
  | [] => ([], s)
  | t :: ops =>
      let '(r, s) := apply t s in
      let '(tr, s) := run ops s in ((t, r) :: tr, s)
  end.

(** The quantity a transcript line moved at [(port, item)]: that of a trade
    accepted for the first time (a replay carries its own reason). *)
Definition moved {E} (k : Z * Z) (x : Trade * result E MarketAck) : Z :=
  match x.2 with
  | Ok ack =>
      if accepted ack && String.eqb (reason ack) "" &&
         bool_decide ((port_id x.1, item_id x.1) = k)
      then qty x.1 else 0
  | Err _ => 0
  end.

Definition total_moved {E} (k : Z * Z) (tr : list (Trade * result E MarketAck)) : Z :=
  foldr (fun x acc => moved k x + acc) 0 tr.

(** *** Lemmas *)
Lemma state_of_record v t ns k :
  state_of (record_trade v t ns) k =
    if decide ((port_id t, item_id t) = k) then (ns, unit_price t) else state_of v k.
Proof. unfold state_of, record_trade; simpl. rewrite lookup_insert. by case_decide. Qed.

(** One abstract step: wellformedness, and the stock moves by what the
    acknowledgement says. *)
Lemma spec_apply_step v t ack v' :
  spec_apply v t = (ack, v') -> wf_view v ->
  wf_view v' /\
  forall (E : Type) k,
    (state_of v' k).1 = (state_of v k).1 + moved (E:=E) k (t, Ok ack).
Proof.
  unfold spec_apply. intros Hs Hwf.
  destruct (v_trades v !! txn_id t).
  { simplify_eq/=. split; [done|]. intros. unfold moved; simpl. lia. }
  destruct (state_of v (port_id t, item_id t)) as [st pr] eqn:Est.
  repeat case_decide; simplify_eq/=;
    try (split; [done|]; intros; unfold moved; simpl; lia).
  split.
  - intros k. rewrite state_of_record. case_decide; [|apply Hwf]. subst.
    simpl. unfold inS, i64_max in *. lia.
  - intros E k. rewrite state_of_record. unfold moved; simpl.
    case_decide; subst; simpl.
    + rewrite bool_decide_eq_true_2 by done. rewrite Est. simpl. lia.
    + rewrite bool_decide_eq_false_2 by done. lia.
Qed.

Section WithStore.
Context {S E : Type} {MS : MarketStore S E} {MSS : MarketStoreSpec S E}.

Lemma market_cases (t : Trade) (s : S) r s' :
  apply t s = (r, s') ->
  match r with
  | Ok ack => spec_apply (view s) t = (ack, view s')
  | Err _ => view s' = view s
  end.
Proof.
  unfold apply, spec_apply. intros Happ.
  destruct (lookup_trade (txn_id t) s) as [rl s1] eqn:El.
  apply lookup_trade_spec in El as [V1 El].
  destruct rl as [o|]; [|by simplify_eq]. rewrite (El o eq_refl) in *.
  destruct (v_trades (view s) !! txn_id t) eqn:Er; [by simplify_eq/=; rewrite V1|].
  destruct (state (port_id t) (item_id t) s1) as [rs s2] eqn:Es.
  apply state_spec in Es as [V2 Es]. rewrite V1 in V2, Es.
  destruct rs as [[st pr]|]; [|by simplify_eq]. rewrite <- (Es _ eq_refl).
  destruct (decide (unit_price t < 0)); [by simplify_eq/=; rewrite V2|].
  unfold checked_add_s in Happ. case_decide; [|by simplify_eq/=; rewrite V2].
  destruct (decide (st + qty t >= 0));
    (destruct (decide (0 <= st + qty t)); [|try lia]); try lia;
    [|by simplify_eq/=; rewrite V2].
  destruct (commit _ _ _ _) as [rc s3] eqn:Ec.
  apply commit_spec in Ec; rewrite ?V2 in *; [|done].
  destruct rc; simplify_eq/=; by rewrite Ec.
Qed.

Lemma apply_step (t : Trade) (s : S) r s' :
  apply t s = (r, s') -> wf_view (view s) ->
  wf_view (view s') /\
  forall k, (state_of (view s') k).1 = (state_of (view s) k).1 + moved k (t, r).
Proof.
  intros Happ Hwf. apply market_cases in Happ. destruct r as [ack|].
  - apply spec_apply_step in Happ as [? H]; [|done]. split; [done|]. intros k. apply H.
  - rewrite Happ. split; [done|]. intros. unfold moved; simpl. lia.
Qed.

Lemma apply_keeps_trade (t : Trade) (s : S) id r :
  v_trades (view s) !! id = Some r -> v_trades (view (apply t s).2) !! id = Some r.
Proof.
  intros Hr. destruct (apply t s) as [ra s'] eqn:Ea; simpl.
  apply market_cases in Ea. destruct ra; [|by rewrite Ea].
  revert Ea. unfold spec_apply.
  destruct (v_trades (view s) !! txn_id t) eqn:Et; [by intros [= _ <-]|].
  destruct (state_of _ _). repeat case_decide; intros [= _ <-]; try done.
  simpl. rewrite lookup_insert_ne; [done|congruence].
Qed.

Lemma run_keeps_trade (ops : list Trade) (s : S) id r :
  v_trades (view s) !! id = Some r -> v_trades (view (run ops s).2) !! id = Some r.
Proof.
  revert s. induction ops as [|t ops IH]; intros s Hr; [done|]. simpl.
  apply (apply_keeps_trade t) in Hr. destruct (apply t s) as [ra s']; simpl in *.
  apply IH in Hr. by destruct (run ops s').
Qed.

Lemma apply_accept_trade (t : Trade) (s : S) ack s' :
  apply t s = (Ok ack, s') -> accepted ack = true ->
  v_trades (view s') !! txn_id t =
    Some (mkRecordedTrade (ack_port_id ack) (ack_item_id ack) (stock ack) (price ack)).
Proof.
  intros Ha Hacc. apply market_cases in Ha. revert Ha. unfold spec_apply.
  destruct (v_trades (view s) !! txn_id t) as [r|] eqn:Et.
  { intros [= <- <-]. simpl. rewrite Et. by destruct r. }
  destruct (state_of _ _). repeat case_decide; intros [= <- <-]; try discriminate Hacc.
  simpl. by rewrite lookup_insert_eq.
Qed.

End WithStore.

#[global, program] Instance mem_market_spec : MarketStoreSpec MemMarketStore Empty_set := {
  view s := mkView (mstate s) (trades s)
}.
Next Obligation. intros; simplify_eq/=. split; [done|]. by intros ? [= <-]. Qed.
Next Obligation. intros; simplify_eq/=. split; [done|]. by intros ? [= <-]. Qed.
Next Obligation. intros; simplify_eq/=. done. Qed.

(** *** Theorems *)

(** C21.  The market conserves goods: over any store that keeps its promises,
    from any well-formed state, after any sequence of trades (store errors
    included) every port's stock is its initial stock plus exactly the
    quantities of the trades acknowledged as newly accepted, is never negative
    and never exceeds [i64::MAX], and no price is negative. *)
Theorem market_run_conserves {S E} {MS : MarketStore S E} {MSS : MarketStoreSpec S E}
    (ops : list Trade) (s : S) :
  wf_view (view s) ->
  wf_view (view (run ops s).2) /\
  forall k, (state_of (view (run ops s).2) k).1 =
            (state_of (view s) k).1 + total_moved k (run ops s).1.
Proof.
  revert s. induction ops as [|t ops IH]; intros s Hwf; simpl.
  { split; [done|]. intros; lia. }
  destruct (apply t s) as [r s1] eqn:Ea. apply apply_step in Ea as [Hwf1 Hk]; [|done].
  specialize (IH s1 Hwf1). destruct (run ops s1) as [tr s2]; simpl in *.
  destruct IH as [Hwf2 Hk2]. split; [done|]. intros k. rewrite Hk2, Hk. lia.
Qed.

Definition demo_trades : list Trade :=
  [mkTrade 1 10 5 30 100; mkTrade 2 10 5 (-12) 90; mkTrade 2 10 5 (-12) 90;
   mkTrade 3 10 5 (-100) 80; mkTrade 4 11 5 7 (-1); mkTrade 5 10 6 3 0].

Lemma market_run_conserves_witness :
  let s' := (run demo_trades mem_market_new).2 in
  (wf_view (view s') /\
   forall k, (state_of (view s') k).1 =
     (state_of (view mem_market_new) k).1 + total_moved k (run demo_trades mem_market_new).1)
  /\ state_of (view s') (10, 5) = (18, 90).
Proof.
  split; [|vm_compute; reflexivity].
  apply (market_run_conserves demo_trades mem_market_new).
  intros k. unfold i64_max. split; [split|]; vm_compute; discriminate.
Defined.

(** Exactly once: once a trade is accepted, then after any further trades
    a request with the same id, whatever it asks for, changes nothing and, if
    answered, is answered with the port, item, stock and price of the original
    acknowledgement. *)
Lemma market_replays_original {S E} {MS : MarketStore S E} {MSS : MarketStoreSpec S E}
    (t t' : Trade) (s s1 : S) (ack : MarketAck) (ops : list Trade) :
  apply t s = (Ok ack, s1) -> accepted ack = true -> txn_id t' = txn_id t ->
  let s2 := (run ops s1).2 in
  view (apply t' s2).2 = view s2 /\
  forall ack', (apply t' s2).1 = Ok ack' ->
    ack' = mkMarketAck (txn_id t) true (ack_port_id ack) (ack_item_id ack)
             (stock ack) (price ack) "duplicate (idempotent replay)".
Proof.
  intros Ha Hacc Hid s2.
  apply apply_accept_trade in Ha; [|done].
  apply (run_keeps_trade ops) in Ha.
  destruct (apply t' s2) as [r s3] eqn:Eq; simpl. apply market_cases in Eq.
  revert Eq. unfold spec_apply. fold s2 in Ha. rewrite Hid, Ha.
  destruct r as [ack2|]; [|intros ->; split; [done|discriminate]].
  intros [= <- <-]. split; [done|]. by intros ? [= <-].
Qed.

Lemma market_replays_original_witness :
  let s1 := (apply (mkTrade 1 10 5 30 100) mem_market_new).2 in
  let s2 := (run demo_trades s1).2 in
  view (apply (mkTrade 1 99 9 1 1) s2).2 = view s2 /\
  forall ack', (apply (mkTrade 1 99 9 1 1) s2).1 = Ok ack' ->
    ack' = mkMarketAck 1 true 10 5 30 100 "duplicate (idempotent replay)".
Proof.
  apply (market_replays_original (mkTrade 1 10 5 30 100) (mkTrade 1 99 9 1 1)
           mem_market_new _ (mkMarketAck 1 true 10 5 30 100 "") demo_trades);
    [vm_compute|..]; reflexivity.
Defined.

End Market.
