(* ===== verification/RateLimit.v ===== *)
(** * Minimum-interval throttles ([sw-server], ratelimit.rs)

    The three limiters of server/crates/sw-server/src/ratelimit.rs: the
    process-wide gate, the per-key limiter whose keys are cleared on
    disconnect, and the bounded limiter that evicts only cooled-down keys. *)

From S2P Require Import Prelude.

(** ** Operations *)

(** [now.saturating_sub(last) < min_interval] on [i64] milliseconds. *)
Definition cooling (min_interval last now : Z) : bool :=
  bool_decide (saturateS 64 (now - last) < min_interval).

Record GlobalRateLimiter := mkGlobal {
  g_min_interval_ms : Z;
  g_last : option Z
}.

Definition global_new (min_interval_ms : Z) : GlobalRateLimiter :=
  mkGlobal min_interval_ms None.

Definition global_allow (now_ms : Z) (l : GlobalRateLimiter) : bool * GlobalRateLimiter :=
  if decide (g_min_interval_ms l <= 0) then (true, l)
  else if (if g_last l is Some last then cooling (g_min_interval_ms l) last now_ms else false)
  then (false, l)
  else (true, mkGlobal (g_min_interval_ms l) (Some now_ms)).

Record RateLimiter := mkLimiter {
  min_interval_ms : Z;
  last : gmap Z Z
}.

#[global] Instance RateLimiter_eta : Settable RateLimiter :=
  mkSettable (fun r => mkLimiter (min_interval_ms r) (last r)).

Definition limiter_new (interval : Z) : RateLimiter := mkLimiter interval ∅.

Definition limiter_allow (key now_ms : Z) (l : RateLimiter) : bool * RateLimiter :=
  if decide (min_interval_ms l <= 0) then (true, l)
  else
    match last l !! key with
    | None => (true, l <| last ::= <[key := now_ms]> |>)
    | Some t =>
        if cooling (min_interval_ms l) t now_ms then (false, l)
        else (true, l <| last ::= <[key := now_ms]> |>)
    end.

Definition limiter_clear (key : Z) (l : RateLimiter) : RateLimiter :=
  l <| last ::= delete key |>.

(** The bounded limiter.  [oldest] is a [BTreeSet] of (time, key) in the
    derived order; [key_le] is the order of the keys. *)
Section Bounded.
Context {K : Type} `{Countable K} (key_le : relation K) `{!RelDecision key_le}.

Record BoundedRateLimiter := mkBounded {
  b_min_interval_ms : Z;
  max_keys : nat;
  b_last : gmap K Z;
  oldest : gset (Z * K)
}.

#[global] Instance BoundedRateLimiter_eta : Settable BoundedRateLimiter :=
  mkSettable (fun r => mkBounded (b_min_interval_ms r) (max_keys r) (b_last r) (oldest r)).

Definition bounded_new (interval : Z) (cap : nat) : BoundedRateLimiter :=
  mkBounded interval cap ∅ ∅.

Definition bounded_insert (key : K) (now_ms : Z) (l : BoundedRateLimiter)
    : BoundedRateLimiter :=
  l <| b_last ::= <[key := now_ms]> |> <| oldest ::= union {[(now_ms, key)]} |>.

Definition bounded_allow (key : K) (now_ms : Z) (l : BoundedRateLimiter)
    : bool * BoundedRateLimiter :=
  if decide (b_min_interval_ms l <= 0) then (true, l)
  else
    match b_last l !! key with
    | Some last_ms =>
        if cooling (b_min_interval_ms l) last_ms now_ms then (false, l)
        else (true, bounded_insert key now_ms
                      (l <| oldest ::= (.∖ {[(last_ms, key)]}) |>))
    | None =>
        if decide (max_keys l <= size (b_last l))%nat then
          match btree_first (lex Z.le key_le) (oldest l) with
          | None => (false, l)
          | Some (oldest_ms, oldest_key) =>
              if cooling (b_min_interval_ms l) oldest_ms now_ms then (false, l)
              else (true, bounded_insert key now_ms
                            (l <| oldest ::= (.∖ {[(oldest_ms, oldest_key)]}) |>
                               <| b_last ::= delete oldest_key |>))
          end
        else (true, bounded_insert key now_ms l)
    end.

(** ** Specification *)

(** The index is exact and the map bounded. *)
Definition bounded_wf (l : BoundedRateLimiter) : Prop :=
  (size (b_last l) <= max_keys l)%nat /\
  forall t k, (t, k) ∈ oldest l <-> b_last l !! k = Some t.

(** The admissions of a run of attempts, in order. *)
Fixpoint bounded_run (ops : list (K * Z)) (l : BoundedRateLimiter)
    : list (K * Z) * BoundedRateLimiter :=
  match ops with
  | [] => ([], l)
  | (k, now) :: ops =>
      let '(ok, l) := bounded_allow k now l in
      let '(adm, l) := bounded_run ops l in
      ((if ok then [(k, now)] else []) ++ adm, l)
  end.

(** Every two admissions of one key are at least [interval] apart. *)
Definition spaced (interval : Z) (adm : list (K * Z)) : Prop :=
  forall i j k t t', (i < j)%nat -> adm !! i = Some (k, t) -> adm !! j = Some (k, t') ->
    interval <= t' - t.

End Bounded.

Arguments BoundedRateLimiter K {_ _}.

(** ** Lemmas *)
Lemma cooling_spec interval t now :
  0 < interval -> inS 64 interval ->
  cooling interval t now = bool_decide (now - t < interval).
Proof.
  intros. unfold cooling. apply bool_decide_ext. by apply saturateS_lt.
Qed.

Lemma bounded_new_wf {K : Type} `{Countable K} (interval : Z) (cap : nat) :
  bounded_wf (bounded_new (K:=K) interval cap).
Proof. split; simpl; [rewrite map_size_empty; lia|]. set_solver. Qed.

Section BoundedLemmas.
Context {K : Type} `{Countable K} (key_le : relation K).
Context `{!RelDecision key_le, !Total key_le, !Transitive key_le}.
Implicit Types (l : BoundedRateLimiter K) (k : K).

Lemma bounded_insert_wf l k now :
  (forall t k', (t, k') ∈ oldest l <-> b_last l !! k' = Some t /\ k' <> k) ->
  (size (delete k (b_last l)) < max_keys l)%nat ->
  bounded_wf (bounded_insert k now l).
Proof.
  intros Hidx Hsz. split; simpl.
  - rewrite <- insert_delete_eq, map_size_insert_None by apply lookup_delete_eq. lia.
  - intros t k'. rewrite elem_of_union, elem_of_singleton, Hidx, lookup_insert.
    case_decide; subst; naive_solver.
Qed.

Lemma bounded_allow_wf l k now :
  bounded_wf l -> bounded_wf (bounded_allow key_le k now l).2.
Proof.
  intros [Hsz Hidx]. unfold bounded_allow.
  case_decide; [done|]. destruct (b_last l !! k) as [t0|] eqn:Ek.
  - destruct (cooling _ _ _); [done|]. apply bounded_insert_wf; simpl.
    + intros t k'. rewrite elem_of_difference, elem_of_singleton, Hidx.
      split; [|naive_solver]. intros [Hl Hn]. split; [done|]. intros ->. congruence.
    + pose proof (size_delete_Some _ _ _ Ek). lia.
  - case_decide.
    + destruct (btree_first _ _) as [[t0 k0]|] eqn:Ef; [|done].
      destruct (cooling _ _ _); [done|].
      apply (btree_first_min (lex Z.le key_le)) in Ef as [Hin _]. apply Hidx in Hin.
      apply bounded_insert_wf; simpl.
      * intros t k'. rewrite elem_of_difference, elem_of_singleton, Hidx, lookup_delete.
        case_decide; subst; [naive_solver|]. split; [|naive_solver].
        intros [Hl Hn]. split; [done|]. intros ->. congruence.
      * rewrite delete_id by (rewrite lookup_delete; by case_decide).
        pose proof (size_delete_Some _ _ _ Hin). lia.
    + apply bounded_insert_wf.
      * intros t k'. rewrite Hidx. split; [|naive_solver]. intros. split; [done|].
        intros ->. congruence.
      * rewrite delete_id by done. lia.
Qed.

(** What one attempt does to the recorded times, when the interval is live. *)
Lemma bounded_allow_step l k now ok l' :
  bounded_wf l -> 0 < b_min_interval_ms l -> inS 64 (b_min_interval_ms l) ->
  bounded_allow key_le k now l = (ok, l') ->
  b_min_interval_ms l' = b_min_interval_ms l /\
  (if ok then
     b_last l' !! k = Some now /\
     (forall t, b_last l !! k = Some t -> b_min_interval_ms l <= now - t) /\
     (forall k', k' <> k -> b_last l' !! k' = b_last l !! k' \/
        (b_last l' !! k' = None /\
         forall t, b_last l !! k' = Some t -> b_min_interval_ms l <= now - t))
   else l' = l).
Proof.
  intros [Hsz Hidx] Hpos Hin. unfold bounded_allow. rewrite decide_False by lia.
  destruct (b_last l !! k) as [t0|] eqn:Ek.
  - rewrite cooling_spec by done. case_bool_decide; intros; simplify_eq/=; [done|].
    split; [done|]. rewrite lookup_insert_eq. split; [done|]. split.
    + intros t [= <-]. lia.
    + intros k' Hne. left. by rewrite lookup_insert_ne.
  - case_decide.
    + destruct (btree_first _ _) as [[t0 k0]|] eqn:Ef; [|intros; by simplify_eq].
      rewrite cooling_spec by done. case_bool_decide; intros; simplify_eq/=; [done|].
      apply (btree_first_min (lex Z.le key_le)) in Ef as [Hmem _]. apply Hidx in Hmem.
      split; [done|]. rewrite lookup_insert_eq. split; [done|]. split; [done|].
      intros k' Hne. rewrite lookup_insert_ne, lookup_delete by done.
      case_decide; [right|by left]. subst. split; [done|]. intros t Ht. simplify_eq. lia.
    + intros; simplify_eq/=. split; [done|]. rewrite lookup_insert_eq.
      split; [done|]. split; [done|]. intros k' Hne. left. by rewrite lookup_insert_ne.
Qed.

(** History invariant: every past admission is either covered by a recorded
    time or has already cooled down. *)
Definition covers l (now : Z) (adm : list (K * Z)) : Prop :=
  forall k t, (k, t) ∈ adm ->
    (exists t', b_last l !! k = Some t' /\ t <= t') \/
    (b_last l !! k = None /\ b_min_interval_ms l <= now - t).

Lemma spaced_snoc interval (adm : list (K * Z)) k now :
  spaced interval adm -> (forall t, (k, t) ∈ adm -> interval <= now - t) ->
  spaced interval (adm ++ [(k, now)]).
Proof.
  intros Hs Hk i j k' t t' Hij Hi Hj.
  apply lookup_snoc_Some in Hj as [[Hj Ej]|[-> [= -> ->]]].
  - rewrite lookup_app_l in Hi by lia. exact (Hs i j k' t t' Hij Hi Ej).
  - rewrite lookup_app_l in Hi by lia. apply Hk, list_elem_of_lookup. eauto.
Qed.

Lemma bounded_run_spaced ops l adm now :
  bounded_wf l -> 0 < b_min_interval_ms l -> inS 64 (b_min_interval_ms l) ->
  Sorted Z.le (now :: ops.*2) -> covers l now adm -> spaced (b_min_interval_ms l) adm ->
  spaced (b_min_interval_ms l) (adm ++ (bounded_run key_le ops l).1).
Proof.
  revert l adm now. induction ops as [|[k now'] ops IH];
    intros l adm now Hwf Hpos Hin Hsort Hcov Hsp; simpl; [by rewrite app_nil_r|].
  apply Sorted_inv in Hsort as [Hsort Hhd]. apply HdRel_inv in Hhd. simpl in Hhd.
  pose proof (bounded_allow_wf l k now' Hwf) as Hwf'.
  destruct (bounded_allow key_le k now' l) as [ok l'] eqn:Ea; simpl in Hwf'.
  apply bounded_allow_step in Ea as [Ei Ea]; [|done..].
  destruct (bounded_run key_le ops l') as [adm' l''] eqn:Er; simpl.
  rewrite app_assoc. rewrite <- Ei in *.
  replace adm' with (bounded_run key_le ops l').1 by (by rewrite Er).
  destruct ok; [destruct Ea as (Hk & Hold & Hoth)|subst l'; rewrite app_nil_r].
  - apply (IH l' _ now'); [done..| |].
    + intros k' t Hin'. apply elem_of_app in Hin' as [Hin'|Hin'].
      * destruct (decide (k' = k)) as [->|Hne].
        { left. exists now'. split; [done|].
          destruct (Hcov _ _ Hin') as [(t' & Ht' & ?)|[_ ?]]; [|lia].
          specialize (Hold _ Ht'). lia. }
        destruct (Hcov _ _ Hin') as [(t' & Ht' & ?)|[Ht' ?]];
          destruct (Hoth k' Hne) as [Heq|[Heq Hc]]; rewrite Heq.
        { left. eauto. }
        { right. split; [done|]. specialize (Hc _ Ht'). lia. }
        { right. split; [done|lia]. }
        { right. split; [done|lia]. }
      * apply list_elem_of_singleton in Hin' as [= -> ->]. left. eauto with lia.
    + apply spaced_snoc; [done|]. intros t Hin'.
      destruct (Hcov _ _ Hin') as [(t' & Ht' & ?)|[_ ?]]; [|lia].
      specialize (Hold _ Ht'). lia.
  - apply (IH l adm now'); [done..| |done].
    intros k' t Hin'. destruct (Hcov _ _ Hin') as [?|[? ?]]; [by left|].
    right. split; [done|lia].
Qed.

Lemma bounded_run_wf ops l : bounded_wf l -> bounded_wf (bounded_run key_le ops l).2.
Proof.
  revert l. induction ops as [|[k now] ops IH]; intros l Hwf; [done|]. simpl.
  apply (bounded_allow_wf l k now) in Hwf.
  destruct (bounded_allow key_le k now l) as [ok l']; simpl in *.
  apply IH in Hwf. by destruct (bounded_run key_le ops l').
Qed.

Lemma bounded_run_cap ops l : max_keys (bounded_run key_le ops l).2 = max_keys l.
Proof.
  revert l. induction ops as [|[k now] ops IH]; intros l; [done|]. simpl.
  assert (Hc : max_keys (bounded_allow key_le k now l).2 = max_keys l).
  { unfold bounded_allow. repeat case_match; done. }
  destruct (bounded_allow key_le k now l) as [ok l']; simpl in *.
  specialize (IH l'). destruct (bounded_run key_le ops l'); simpl in *. congruence.
Qed.

Lemma bounded_run_interval ops l : b_min_interval_ms (bounded_run key_le ops l).2 = b_min_interval_ms l.
Proof.
  revert l. induction ops as [|[k now] ops IH]; intros l; [done|]. simpl.
  assert (Hc : b_min_interval_ms (bounded_allow key_le k now l).2 = b_min_interval_ms l).
  { unfold bounded_allow. repeat case_match; done. }
  destruct (bounded_allow key_le k now l) as [ok l']; simpl in *.
  specialize (IH l'). destruct (bounded_run key_le ops l'); simpl in *. congruence.
Qed.

End BoundedLemmas.

(** The history of the per-key limiter, whose keys are cleared. *)
Inductive LimiterOp :=
| OpAllow (key now_ms : Z)
| OpClear (key : Z).

Fixpoint limiter_run (ops : list LimiterOp) (l : RateLimiter)
    : list LimiterOp * RateLimiter :=
  match ops with
  | [] => ([], l)
  | OpAllow k now :: ops =>
      let '(ok, l) := limiter_allow k now l in
      let '(h, l) := limiter_run ops l in
      ((if ok then [OpAllow k now] else []) ++ h, l)
  | OpClear k :: ops =>
      let '(h, l) := limiter_run ops (limiter_clear k l) in (OpClear k :: h, l)
  end.

(** Two admissions of a key with no clear of that key between them are at
    least [interval] apart. *)
Definition spaced_between_clears (interval : Z) (h : list LimiterOp) : Prop :=
  forall i j k t t', (i < j)%nat -> h !! i = Some (OpAllow k t) ->
    h !! j = Some (OpAllow k t') ->
    (forall m, (i < m < j)%nat -> h !! m <> Some (OpClear k)) -> interval <= t' - t.

Definition tracks (l : RateLimiter) (h : list LimiterOp) : Prop :=
  forall i k t, h !! i = Some (OpAllow k t) ->
    (forall m, (i < m)%nat -> h !! m <> Some (OpClear k)) ->
    exists t', last l !! k = Some t' /\ t <= t'.

Lemma limiter_allow_step k now l ok l' :
  0 < min_interval_ms l -> inS 64 (min_interval_ms l) ->
  limiter_allow k now l = (ok, l') ->
  if ok then l' = l <| last ::= <[k := now]> |> /\
             forall t, last l !! k = Some t -> min_interval_ms l <= now - t
  else l' = l /\ exists t, last l !! k = Some t /\ now - t < min_interval_ms l.
Proof.
  intros Hpos Hin. unfold limiter_allow. rewrite decide_False by lia.
  destruct (last l !! k) as [t|] eqn:Ek; [rewrite cooling_spec by done; case_bool_decide|];
    intros; simplify_eq/=; split; eauto; intros ? [= <-]; lia.
Qed.

Lemma tracks_allow l h k now :
  0 < min_interval_ms l -> tracks l h ->
  (forall t, last l !! k = Some t -> min_interval_ms l <= now - t) ->
  tracks (l <| last ::= <[k := now]> |>) (h ++ [OpAllow k now]).
Proof.
  intros Hpos Htr Hold i k' t Hi Hcl. simpl. rewrite lookup_insert.
  apply lookup_snoc_Some in Hi as [[Hi Ei]|[-> [= -> ->]]].
  - destruct (Htr i k' t Ei) as (t' & Ht' & Hle).
    { intros m Hm Hc. apply (Hcl m Hm). rewrite lookup_app_l; [done|].
      by apply lookup_lt_Some in Hc. }
    case_decide; subst; [|by eauto]. exists now. split; [done|].
    specialize (Hold _ Ht'). lia.
  - rewrite decide_True by done. eauto with lia.
Qed.

Lemma tracks_clear l h k : tracks l h -> tracks (limiter_clear k l) (h ++ [OpClear k]).
Proof.
  intros Htr i k' t Hi Hcl. simpl.
  apply lookup_snoc_Some in Hi as [[Hi Ei]|[_ ?]]; [|done].
  rewrite lookup_delete_ne.
  - apply (Htr i k' t Ei). intros m Hm Hc. apply (Hcl m Hm).
    rewrite lookup_app_l; [done|]. by apply lookup_lt_Some in Hc.
  - intros ->. apply (Hcl (length h)); [lia|]. by apply list_lookup_middle.
Qed.

Lemma spaced_clears_snoc interval l h x :
  spaced_between_clears interval h -> tracks l h ->
  (forall k now, x = OpAllow k now ->
     forall t, last l !! k = Some t -> interval <= now - t) ->
  spaced_between_clears interval (h ++ [x]).
Proof.
  intros Hs Htr Hx i j k t t' Hij Hi Hj Hcl.
  rewrite lookup_app_l in Hi by (apply lookup_lt_Some in Hj; rewrite length_app in Hj; simpl in Hj; lia).
  apply lookup_snoc_Some in Hj as [[Hj Ej]|[-> ->]].
  - apply (Hs i j k t t' Hij Hi Ej). intros m Hm Hc. apply (Hcl m Hm).
    rewrite lookup_app_l by lia. done.
  - destruct (Htr i k t Hi) as (t0 & Ht0 & Hle).
    { intros m Hm Hc. pose proof (lookup_lt_Some _ _ _ Hc). apply (Hcl m); [lia|].
      by rewrite lookup_app_l. }
    specialize (Hx k t' eq_refl t0 Ht0). lia.
Qed.

Lemma limiter_run_cons x ops l :
  (limiter_run (x :: ops) l).1 =
  match x with
  | OpAllow k now =>
      let '(ok, l) := limiter_allow k now l in
      (if ok then [x] else []) ++ (limiter_run ops l).1
  | OpClear k => x :: (limiter_run ops (limiter_clear k l)).1
  end.
Proof.
  destruct x as [k now|k]; simpl.
  - destruct (limiter_allow k now l) as [ok l']. by destruct (limiter_run ops l').
  - by destruct (limiter_run ops _).
Qed.

Lemma limiter_run_spaced ops l h :
  0 < min_interval_ms l -> inS 64 (min_interval_ms l) -> tracks l h ->
  spaced_between_clears (min_interval_ms l) h ->
  spaced_between_clears (min_interval_ms l) (h ++ (limiter_run ops l).1).
Proof.
  revert l h. induction ops as [|[k now|k] ops IH]; intros l h Hpos Hin Htr Hs;
    [by rewrite app_nil_r|rewrite limiter_run_cons..].
  - destruct (limiter_allow k now l) as [ok l'] eqn:Ea.
    apply limiter_allow_step in Ea; [|done..].
    destruct ok; [destruct Ea as [-> Hold]|destruct Ea as [-> _]; by apply IH].
    rewrite app_assoc.
    specialize (IH (l <| last ::= <[k := now]> |>) (h ++ [OpAllow k now]) Hpos Hin).
    simpl in IH |- *. apply IH.
    + by apply tracks_allow.
    + eapply spaced_clears_snoc; [done..|]. by intros ? ? [= -> ->].
  - rewrite cons_middle, app_assoc.
    specialize (IH (limiter_clear k l) (h ++ [OpClear k]) Hpos Hin).
    simpl in IH |- *. apply IH; [by apply tracks_clear|by eapply spaced_clears_snoc].
Qed.

(** The bounded limiter never tracks more than [max_keys] keys and, on a
    clock that does not run backwards, never admits the same key twice within
    one interval: evicting entries to stay bounded loses no protection. *)
Lemma bounded_limiter_safe {K : Type} `{Countable K} (key_le : relation K)
    `{!RelDecision key_le, !Total key_le, !Transitive key_le}
    (interval : Z) (cap : nat) (ops : list (K * Z)) :
  0 < interval -> inS 64 interval -> Sorted Z.le ops.*2 ->
  let '(admitted, l) := bounded_run key_le ops (bounded_new interval cap) in
  spaced interval admitted /\ (size (b_last l) <= cap)%nat.
Proof.
  intros Hpos Hin Hsort. destruct (bounded_run _ _ _) as [adm l] eqn:Er.
  split.
  - pose proof (bounded_run_spaced key_le ops (bounded_new interval cap) []
                  (default 0 (head ops.*2))) as Hr.
    rewrite Er in Hr. apply Hr; try done.
    + apply bounded_new_wf.
    + destruct ops as [|[k t] ops]; [by repeat constructor|].
      simpl in *. constructor; [done|]. constructor. lia.
    + intros k t Hk. by apply elem_of_nil in Hk.
  - pose proof (bounded_run_wf key_le ops _ (bounded_new_wf interval cap)) as [Hsz _].
    pose proof (bounded_run_cap key_le ops (bounded_new interval cap)) as Hcap.
    rewrite Er in Hsz, Hcap. simpl in *. by rewrite Hcap in Hsz.
Qed.

Definition demo_attempts : list (Z * Z) :=
  [(1, 0); (2, 10); (3, 20); (1, 90); (1, 100); (3, 130); (2, 150); (9, 210)].

(** The per-key limiter spaces admissions: in any interleaving of attempts
    and disconnect clears, and on any clock (even one that runs backwards), two
    admissions of one key with no clear of it in between are at least one
    interval apart. *)
Lemma limiter_spacing (interval : Z) (ops : list LimiterOp) :
  0 < interval -> inS 64 interval ->
  spaced_between_clears interval (limiter_run ops (limiter_new interval)).1.
Proof.
  intros Hpos Hin.
  apply (limiter_run_spaced ops (limiter_new interval) []); [done..| |].
  - intros i k t Hi. by rewrite lookup_nil in Hi.
  - intros i j k t t' _ Hi. by rewrite lookup_nil in Hi.
Qed.

(** The bounded limiter admits [k] at [now]: its own cooldown is over, or it is new
    and there is room or the oldest tracked entry has cooled down. *)
Definition may_admit {K : Type} `{Countable K} (l : BoundedRateLimiter K) (k : K) (now : Z) : Prop :=
  match b_last l !! k with
  | Some t => b_min_interval_ms l <= now - t
  | None => (size (b_last l) < max_keys l)%nat \/
            exists k0 t0, b_last l !! k0 = Some t0 /\
              (forall k1 t1, b_last l !! k1 = Some t1 -> t0 <= t1) /\
              b_min_interval_ms l <= now - t0
  end.

Lemma bounded_allow_exact {K : Type} `{Countable K} (key_le : relation K)
    `{!RelDecision key_le, !Total key_le, !Transitive key_le}
    (l : BoundedRateLimiter K) (k : K) (now : Z) :
  bounded_wf l -> 0 < b_min_interval_ms l -> inS 64 (b_min_interval_ms l) ->
  let '(ok, l') := bounded_allow key_le k now l in
  (ok = true <-> may_admit l k now) /\ (ok = false -> l' = l).
Proof.
  intros [Hsz Hidx] Hpos Hin. unfold bounded_allow, may_admit. rewrite decide_False by lia.
  destruct (b_last l !! k) as [t|] eqn:Ek.
  { rewrite cooling_spec by done. case_bool_decide; split; try done; split; (done || lia). }
  case_decide as Hfull; [|split; [|done]; split; [left; lia|done]].
  destruct (btree_first _ _) as [[t0 k0]|] eqn:Ef.
  - apply (btree_first_min (lex Z.le key_le)) in Ef as [Hmem Hmin].
    apply Hidx in Hmem. assert (Hle : forall k1 t1, b_last l !! k1 = Some t1 -> t0 <= t1).
    { intros k1 t1 H1. apply Hidx in H1. destruct (Hmin _ H1) as [[= -> ->]|[[? ?]|[? ?]]];
        simpl in *; lia. }
    rewrite cooling_spec by done. case_bool_decide as Hc; split; try done; split; try done.
    + intros [?|(k1 & t1 & H1 & _ & ?)]; [lia|]. specialize (Hle _ _ H1). lia.
    + intros _. right. exists k0, t0. split_and!; [done..|lia].
  - apply btree_first_None in Ef. split; [|done]. split; [done|].
    intros [?|(k1 & t1 & H1 & _)]; [lia|]. apply Hidx in H1. set_solver.
Qed.

(** ** Theorems *)

(** C22.  Rate limits hold under any traffic and are exact.  The bounded limiter
    never tracks more than [max_keys] keys and, on a clock that does not run
    backwards, never admits the same key twice within one interval: evicting entries
    to stay bounded loses no protection.  After any traffic, an attempt is admitted
    exactly when its own cooldown is over, or its key is new and either there is room
    or the oldest tracked entry has cooled down; a refused attempt changes nothing.
    The per-key limiter, in any interleaving of attempts and disconnect clears and on
    any clock (even one that runs backwards), admits a key twice with no clear of it
    in between only at least one interval apart. *)
Theorem limiters_space_admissions {K : Type} `{Countable K} (key_le : relation K)
    `{!RelDecision key_le, !Total key_le, !Transitive key_le}
    (interval : Z) (cap : nat) (attempts : list (K * Z)) (ops : list LimiterOp) :
  0 < interval -> inS 64 interval -> Sorted Z.le attempts.*2 ->
  (let '(admitted, l) := bounded_run key_le attempts (bounded_new interval cap) in
   spaced interval admitted /\ (size (b_last l) <= cap)%nat /\
   forall k now, let '(ok, l') := bounded_allow key_le k now l in
     (ok = true <-> may_admit l k now) /\ (ok = false -> l' = l)) /\
  spaced_between_clears interval (limiter_run ops (limiter_new interval)).1.
Proof.
  intros Hpos Hin Hs. split; [|by apply limiter_spacing].
  pose proof (bounded_limiter_safe key_le interval cap attempts Hpos Hin Hs) as Hb.
  pose proof (bounded_run_wf key_le attempts _ (bounded_new_wf interval cap)) as Hwf.
  pose proof (bounded_run_interval key_le attempts (bounded_new interval cap)) as Hi.
  destruct (bounded_run key_le attempts _) as [admitted l]. destruct Hb as [H1 H2]. cbn [snd] in Hwf, Hi.
  split; [exact H1|split; [exact H2|]]. intros k now.
  apply (bounded_allow_exact key_le l k now Hwf); by rewrite Hi.
Qed.

Definition demo_bounded : BoundedRateLimiter Z :=
  (bounded_run Z.le demo_attempts (bounded_new 100 2)).2.

Lemma demo_decisions :
  (bounded_allow Z.le 7 230 demo_bounded).1 = true /\ (bounded_allow Z.le 7 229 demo_bounded).1 = false.
Proof. split; vm_compute; reflexivity. Qed.

Lemma limiters_space_admissions_witness :
  (bounded_run Z.le demo_attempts (bounded_new 100 2)).1 = [(1, 0); (2, 10); (1, 100); (3, 130); (9, 210)] /\
  (may_admit demo_bounded 7 230 /\ ~ may_admit demo_bounded 7 229) /\
  spaced_between_clears 100
    (limiter_run [OpAllow 7 0; OpAllow 7 50; OpAllow 7 (-5); OpAllow 7 100; OpClear 7; OpAllow 7 101]
       (limiter_new 100)).1.
Proof.
  split; [vm_compute; reflexivity|].
  destruct (limiters_space_admissions Z.le 100 2 demo_attempts
    [OpAllow 7 0; OpAllow 7 50; OpAllow 7 (-5); OpAllow 7 100; OpClear 7; OpAllow 7 101]) as [H1 H2];
    [lia|unfold inS; lia|simpl; repeat constructor; lia|].
  split; [|exact H2].
  change (bounded_run Z.le demo_attempts (bounded_new 100 2)) with
    ((bounded_run Z.le demo_attempts (bounded_new 100 2)).1, demo_bounded) in H1.
  destruct H1 as (_ & _ & H1). pose proof demo_decisions as [Ey En].
  pose proof (H1 7 230) as Hy. pose proof (H1 7 229) as Hn. clear H1.
  destruct (bounded_allow Z.le 7 230 demo_bounded) as [b1 l1].
  destruct (bounded_allow Z.le 7 229 demo_bounded) as [b2 l2]. cbn [fst] in Ey, En.
  rewrite Ey in Hy. rewrite En in Hn. split; [apply (proj1 Hy); reflexivity|].
  intros Hm. discriminate (proj2 (proj1 Hn) Hm).
Defined.
