(* ===== verification/Wire.v ===== *)
(** * LiteNetLib wire format ([sw-net], protocol.rs)

    The packet header, the ConnectRequest and ConnectAccept handshake packets,
    the [NetDataWriter] string, and the Ping, Pong, Disconnect, Unreliable and
    control packets of server/crates/sw-net/src/protocol.rs, byte for byte.  A
    byte is a [Z] in 0..255 and a packet a list of bytes. *)

From S2P Require Import Prelude.
From Stdlib Require Import Ascii.

(** ** Little-endian integers and strings *)

(** [to_le_bytes] of an integer of [n] bytes, signed or not. *)
Fixpoint le_bytes (n : nat) (z : Z) : list Z :=
  match n with
  | O => []
  | S n => z mod 256 :: le_bytes n (z / 256)
  end.

(** [from_le_bytes] of an unsigned integer. *)
Fixpoint le_value (l : list Z) : Z :=
  match l with
  | [] => 0
  | b :: l => b + 256 * le_value l
  end.

Definition u16_from_le (l : list Z) : Z := le_value l.
Definition i32_from_le (l : list Z) : Z := wrapS 32 (le_value l).
Definition i64_from_le (l : list Z) : Z := wrapS 64 (le_value l).

(** [buf[a..b]] for [a <= b <= buf.len()], which every use below checks. *)
Definition slice {A} (a b : nat) (buf : list A) : list A := take (b - a) (drop a buf).

Definition byte_ok (b : Z) : Prop := 0 <= b < 256.

(** A Rust [String] is its byte sequence. *)
Fixpoint bytes_of_string (s : string) : list Z :=
  match s with
  | EmptyString => []
  | String a s => Z.of_N (N_of_ascii a) :: bytes_of_string s
  end.

Fixpoint string_of_bytes (l : list Z) : string :=
  match l with
  | [] => EmptyString
  | b :: l => String (ascii_of_N (Z.to_N b)) (string_of_bytes l)
  end.

Definition between (a b x : Z) : bool := (a <=? x) && (x <=? b).

(** [str::from_utf8]: well-formed UTF-8 (no overlong forms, no surrogates,
    nothing above U+10FFFF). *)
Fixpoint utf8_valid (l : list Z) : bool :=
  match l with
  | [] => true
  | b0 :: l1 =>
      if b0 <? 0x80 then utf8_valid l1 else
      match l1 with
      | [] => false
      | b1 :: l2 =>
          if between 0xC2 0xDF b0 then between 0x80 0xBF b1 && utf8_valid l2 else
          match l2 with
          | [] => false
          | b2 :: l3 =>
              if between 0xE0 0xEF b0 then
                (if b0 =? 0xE0 then between 0xA0 0xBF b1
                 else if b0 =? 0xED then between 0x80 0x9F b1
                 else between 0x80 0xBF b1)
                && between 0x80 0xBF b2 && utf8_valid l3
              else
              match l3 with
              | [] => false
              | b3 :: l4 =>
                  if between 0xF0 0xF4 b0 then
                    (if b0 =? 0xF0 then between 0x90 0xBF b1
                     else if b0 =? 0xF4 then between 0x80 0x8F b1
                     else between 0x80 0xBF b1)
                    && between 0x80 0xBF b2 && between 0x80 0xBF b3 && utf8_valid l4
                  else false
              end
          end
      end
  end.

(** ** Constants *)
Definition PROTOCOL_ID : Z := 13.
Definition MAX_CONNECTION_NUMBER : Z := 4.
Definition MTU : Z := 1024.
Definition HEADER_SIZE : Z := 1.
Definition CONNECT_REQUEST_HEADER_SIZE : nat := 18.
Definition CONNECT_ACCEPT_SIZE : nat := 15.
Definition PING_SIZE : nat := 3.
Definition PONG_SIZE : nat := 11.
Definition DISCONNECT_SIZE : nat := 9.

Module property.
Definition UNRELIABLE : Z := 0.
Definition CHANNELED : Z := 1.
Definition ACK : Z := 2.
Definition PING : Z := 3.
Definition PONG : Z := 4.
Definition CONNECT_REQUEST : Z := 5.
Definition CONNECT_ACCEPT : Z := 6.
Definition DISCONNECT : Z := 7.
Definition UNCONNECTED_MESSAGE : Z := 8.
Definition MTU_CHECK : Z := 9.
Definition MTU_OK : Z := 10.
Definition BROADCAST : Z := 11.
Definition MERGED : Z := 12.
Definition SHUTDOWN_OK : Z := 13.
Definition PEER_NOT_FOUND : Z := 14.
Definition INVALID_PROTOCOL : Z := 15.
Definition NAT_MESSAGE : Z := 16.
Definition EMPTY : Z := 17.
End property.

Definition PROPERTY_MASK : Z := 0x1F.
Definition CONNECTION_NUMBER_MASK : Z := 0x60.
Definition CONNECTION_NUMBER_SHIFT : Z := 5.
Definition FRAGMENTED_FLAG : Z := 0x80.

(** ** The header byte *)
Record Header := mkHeader {
  h_property : Z;
  h_connection_number : Z;
  h_fragmented : bool
}.

#[global] Instance Header_eq_dec : EqDecision Header.
Proof. solve_decision. Defined.

Definition from_byte (b : Z) : Header :=
  mkHeader (Z.land b PROPERTY_MASK)
    (Z.shiftr (Z.land b CONNECTION_NUMBER_MASK) CONNECTION_NUMBER_SHIFT)
    (negb (Z.land b FRAGMENTED_FLAG =? 0)).

(** [u8] shifts drop the bits that leave the byte. *)
Definition to_byte (h : Header) : Z :=
  Z.lor
    (Z.lor (Z.land (h_property h) PROPERTY_MASK)
       (Z.land (wrapU 8 (Z.shiftl (h_connection_number h) CONNECTION_NUMBER_SHIFT))
          CONNECTION_NUMBER_MASK))
    (if h_fragmented h then FRAGMENTED_FLAG else 0).

Definition plain (p : Z) : Header := mkHeader p 0 false.

Definition connected (p connection_number : Z) : Header :=
  mkHeader p connection_number false.

(** ** Parsers *)
Record ConnectRequest := mkConnectRequest {
  cr_connection_number : Z;
  cr_protocol_id : Z;
  cr_connect_time : Z;
  cr_peer_id : Z;
  cr_connect_data : list Z
}.

Definition parse_connect_request (buf : list Z) : option ConnectRequest :=
  if decide (length buf < CONNECT_REQUEST_HEADER_SIZE)%nat then None else
  let header := from_byte (nth 0 buf 0) in
  if decide (h_property header <> property.CONNECT_REQUEST) then None else
  if decide (h_connection_number header >= MAX_CONNECTION_NUMBER) then None else
  let protocol_id := i32_from_le (slice 1 5 buf) in
  let connect_time := i64_from_le (slice 5 13 buf) in
  let peer_id := i32_from_le (slice 13 17 buf) in
  let addr_size := nth (CONNECT_REQUEST_HEADER_SIZE - 1) buf 0 in
  if decide (addr_size <> 16 /\ addr_size <> 28) then None else
  let data_start := (CONNECT_REQUEST_HEADER_SIZE + Z.to_nat addr_size)%nat in
  if decide (length buf < data_start)%nat then None else
  Some (mkConnectRequest (h_connection_number header) protocol_id connect_time peer_id
          (drop data_start buf)).

Definition read_litenet_string (data : list Z) : option string :=
  if decide (length data < 2)%nat then None else
  let raw := u16_from_le (slice 0 2 data) in
  if decide (raw = 0) then Some EmptyString else
  let n := Z.to_nat (raw - 1) in
  if decide (length data < 2 + n)%nat then None else
  let s := slice 2 (2 + n) data in
  if utf8_valid s then Some (string_of_bytes s) else None.

Definition read_sequence (buf : list Z) : option Z :=
  if decide (length buf < 3)%nat then None else Some (u16_from_le (slice 1 3 buf)).

Definition read_disconnect_time (buf : list Z) : option Z :=
  if decide (length buf < DISCONNECT_SIZE)%nat then None
  else Some (i64_from_le (slice 1 9 buf)).

(** ** Builders *)
Definition write_litenet_string (s : string) : list Z :=
  let bytes := bytes_of_string s in
  match bytes with
  | [] => le_bytes 2 0
  | _ => le_bytes 2 (wrapU 16 (len bytes + 1)) ++ bytes
  end.

Definition build_connect_accept (connect_time connection_number local_peer_id : Z)
    (reused : bool) : list Z :=
  [to_byte (plain property.CONNECT_ACCEPT)] ++ le_bytes 8 connect_time ++
  [connection_number] ++ [if reused then 1 else 0] ++ le_bytes 4 local_peer_id.

Definition build_unreliable (connection_number : Z) (data : list Z) : list Z :=
  to_byte (connected property.UNRELIABLE connection_number) :: data.

Definition build_ping (connection_number sequence : Z) : list Z :=
  to_byte (connected property.PING connection_number) :: le_bytes 2 sequence.

Definition build_pong (connection_number sequence time_ticks : Z) : list Z :=
  to_byte (connected property.PONG connection_number) ::
  le_bytes 2 sequence ++ le_bytes 8 time_ticks.

Definition build_disconnect (connection_number connect_time : Z) : list Z :=
  to_byte (connected property.DISCONNECT connection_number) :: le_bytes 8 connect_time.

Definition build_control (p : Z) : list Z := [to_byte (plain p)].

Definition build_connect_request (connection_number connect_time peer_id addr_size : Z)
    (connect_data : list Z) : list Z :=
  [to_byte (mkHeader property.CONNECT_REQUEST connection_number false)] ++
  le_bytes 4 PROTOCOL_ID ++ le_bytes 8 connect_time ++ le_bytes 4 peer_id ++
  [addr_size] ++ replicate (Z.to_nat addr_size) 0 ++ connect_data.

(** ** Lemmas *)
Lemma length_le_bytes n z : length (le_bytes n z) = n.
Proof. revert z. induction n; intros; simpl; [done|]. by rewrite IHn. Qed.

Lemma le_bytes_ok n z : Forall byte_ok (le_bytes n z).
Proof.
  revert z. induction n; intros z; simpl; constructor; [|done].
  apply Z.mod_pos_bound. lia.
Qed.

Lemma le_value_bytes n z : le_value (le_bytes n z) = z mod 256 ^ Z.of_nat n.
Proof.
  revert z. induction n as [|n IH]; intros z; simpl; [by rewrite Z.mod_1_r|].
  rewrite IH, Nat2Z.inj_succ, Z.pow_succ_r by lia.
  rewrite Z.rem_mul_r by lia. done.
Qed.

Lemma u16_le_roundtrip z : inU 16 z -> u16_from_le (le_bytes 2 z) = z.
Proof. intros. unfold u16_from_le. rewrite le_value_bytes. apply Z.mod_small. done. Qed.

Lemma i32_le_roundtrip z : inS 32 z -> i32_from_le (le_bytes 4 z) = z.
Proof. intros. unfold i32_from_le. rewrite le_value_bytes. by apply (wrapS_wrapU 32). Qed.

Lemma i64_le_roundtrip z : inS 64 z -> i64_from_le (le_bytes 8 z) = z.
Proof. intros. unfold i64_from_le. rewrite le_value_bytes. by apply (wrapS_wrapU 64). Qed.

Lemma i64_from_le_in l : inS 64 (i64_from_le l).
Proof. by apply wrapS_in. Qed.

Lemma slice_app_r {A} (a b : nat) (l k : list A) :
  (length l <= a)%nat -> slice a b (l ++ k) = slice (a - length l) (b - length l) k.
Proof.
  intros. unfold slice. rewrite drop_app_ge by done. f_equal. lia.
Qed.

Lemma slice_app_l {A} (b : nat) (l k : list A) : length l = b -> slice 0 b (l ++ k) = l.
Proof. intros <-. unfold slice. by rewrite Nat.sub_0_r, drop_0, take_app_length. Qed.

Lemma bytes_of_string_ok s : Forall byte_ok (bytes_of_string s).
Proof.
  induction s as [|a s IH]; simpl; constructor; [|done].
  pose proof (N_ascii_bounded a). unfold byte_ok. lia.
Qed.

Lemma string_of_bytes_of_string s : string_of_bytes (bytes_of_string s) = s.
Proof.
  induction s as [|a s IH]; simpl; [done|]. by rewrite N2Z.id, ascii_N_embedding, IH.
Qed.

Lemma length_bytes_of_string s : length (bytes_of_string s) = String.length s.
Proof. induction s; simpl; congruence. Qed.

(** The 256 header bytes, checked by computation. *)
Lemma byte_cases (P : Z -> bool) :
  forallb P (seqZ 0 256) = true -> forall b, byte_ok b -> P b = true.
Proof.
  intros H b Hb. rewrite forallb_forall in H. apply H.
  apply list_elem_of_In, elem_of_seqZ. unfold byte_ok in Hb. lia.
Qed.

Lemma to_byte_from_byte b : byte_ok b -> to_byte (from_byte b) = b.
Proof.
  intros Hb. apply Z.eqb_eq.
  apply (byte_cases (fun b => to_byte (from_byte b) =? b)); [|done].
  vm_compute. reflexivity.
Qed.

Definition header_ok (h : Header) : Prop :=
  0 <= h_property h < 32 /\ 0 <= h_connection_number h < MAX_CONNECTION_NUMBER.

Lemma header_cases (P : Header -> bool) :
  forallb (fun p => forallb (fun c => P (mkHeader p c true) && P (mkHeader p c false))
                      (seqZ 0 4)) (seqZ 0 32) = true ->
  forall h, header_ok h -> P h = true.
Proof.
  intros H [p c f] [Hp Hc]; simpl in Hp, Hc. unfold MAX_CONNECTION_NUMBER in Hc.
  rewrite forallb_forall in H.
  specialize (H p ltac:(apply list_elem_of_In, elem_of_seqZ; lia)). cbv beta in H.
  rewrite forallb_forall in H.
  specialize (H c ltac:(apply list_elem_of_In, elem_of_seqZ; lia)). cbv beta in H.
  apply andb_prop in H. destruct f; apply H.
Qed.

Definition header_stable (h : Header) : bool := bool_decide (from_byte (to_byte h) = h).

Lemma from_byte_to_byte h : header_ok h -> from_byte (to_byte h) = h.
Proof.
  intros Hh. pose proof (header_cases header_stable ltac:(vm_compute; reflexivity) h Hh) as H.
  by apply bool_decide_eq_true_1 in H.
Qed.

Lemma to_byte_ok h : header_ok h -> byte_ok (to_byte h).
Proof.
  intros Hh. unfold byte_ok.
  pose proof (header_cases (fun h => (0 <=? to_byte h) && (to_byte h <? 256))
                ltac:(vm_compute; reflexivity) h Hh) as H. cbv beta in H. lia.
Qed.

Lemma from_byte_conn b : byte_ok b -> 0 <= h_connection_number (from_byte b) < 4.
Proof.
  intros Hb.
  pose proof (byte_cases (fun b => (0 <=? h_connection_number (from_byte b)) &&
                            (h_connection_number (from_byte b) <? 4))
                ltac:(vm_compute; reflexivity) b Hb) as H. cbv beta in H. lia.
Qed.

Lemma le_bytes_value l n : Forall byte_ok l -> length l = n -> le_bytes n (le_value l) = l.
Proof.
  intros Hl. revert n. induction Hl as [|b l Hb Hl IH]; intros n <-; simpl; [done|].
  unfold byte_ok in Hb. f_equal.
  - rewrite (Z.mul_comm 256), Z.mod_add by lia. apply Z.mod_small. lia.
  - rewrite (Z.mul_comm 256), Z.div_add, Z.div_small, Z.add_0_l by lia. by apply IH.
Qed.

Lemma le_bytes_mod n z : le_bytes n (z mod 256 ^ Z.of_nat n) = le_bytes n z.
Proof.
  rewrite <- le_value_bytes. apply le_bytes_value; [apply le_bytes_ok|apply length_le_bytes].
Qed.

Lemma le_bytes_wrapS n w z : w = 8 * Z.of_nat n -> 0 < w -> le_bytes n (wrapS w z) = le_bytes n z.
Proof.
  intros Hw Hpos. assert (E : 256 ^ Z.of_nat n = 2 ^ w).
  { rewrite Hw. change 256 with (2 ^ 8). by rewrite <- Z.pow_mul_r by lia. }
  rewrite <- le_bytes_mod, <- (le_bytes_mod n z), E. f_equal.
  unfold wrapS. rewrite Zminus_mod, Zmod_mod, <- Zminus_mod. f_equal. lia.
Qed.

Lemma slice_split {A} (a b : nat) (l : list A) :
  (a <= b)%nat -> drop a l = slice a b l ++ drop b l.
Proof.
  intros. unfold slice. rewrite <- (take_drop (b - a) (drop a l)) at 1.
  f_equal. rewrite drop_drop. f_equal. lia.
Qed.

Lemma length_slice {A} (a b : nat) (l : list A) :
  (a <= b <= length l)%nat -> length (slice a b l) = (b - a)%nat.
Proof. intros. unfold slice. rewrite length_take, length_drop. lia. Qed.

Lemma Forall_slice {A} (P : A -> Prop) a b l : Forall P l -> Forall P (slice a b l).
Proof. intros. by apply Forall_take, Forall_drop. Qed.

Lemma slice_le_bytes (a b : nat) (l : list Z) :
  Forall byte_ok l -> (a <= b <= length l)%nat ->
  slice a b l = le_bytes (b - a) (le_value (slice a b l)).
Proof.
  intros. symmetry. apply le_bytes_value; [by apply Forall_slice|by apply length_slice].
Qed.

Lemma nth_slice (a : nat) (l : list Z) : (a < length l)%nat -> slice a (S a) l = [nth a l 0].
Proof.
  intros Ha. unfold slice. replace (S a - a)%nat with 1%nat by lia.
  destruct (lookup_lt_is_Some_2 l a Ha) as [x Hx].
  rewrite (drop_S l x a Hx). simpl. rewrite take_0. f_equal.
  rewrite nth_lookup, Hx. done.
Qed.

(** The fixed part of the ConnectRequest, cut at its fields. *)
Lemma request_layout (buf : list Z) :
  (18 <= length buf)%nat ->
  buf = [nth 0 buf 0] ++ slice 1 5 buf ++ slice 5 13 buf ++ slice 13 17 buf ++
        [nth 17 buf 0] ++ drop 18 buf.
Proof.
  intros Hl. rewrite <- !nth_slice by lia.
  rewrite <- (slice_split 17 18), <- (slice_split 13 17), <- (slice_split 5 13),
    <- (slice_split 1 5), <- (slice_split 0 1) by lia. done.
Qed.

(** The parser on a request given field by field. *)
Lemma parse_fields b0 p4 t8 i4 a rest :
  length p4 = 4%nat -> length t8 = 8%nat -> length i4 = 4%nat ->
  parse_connect_request ([b0] ++ p4 ++ t8 ++ i4 ++ [a] ++ rest) =
  if decide (h_property (from_byte b0) = property.CONNECT_REQUEST /\
             h_connection_number (from_byte b0) < MAX_CONNECTION_NUMBER /\
             (a = 16 \/ a = 28) /\ a <= len rest)
  then Some (mkConnectRequest (h_connection_number (from_byte b0)) (i32_from_le p4)
               (i64_from_le t8) (i32_from_le i4) (drop (Z.to_nat a) rest))
  else None.
Proof.
  intros H4 H8 H4'.
  do 5 (destruct p4 as [|? p4]; try discriminate H4).
  do 9 (destruct t8 as [|? t8]; try discriminate H8).
  do 5 (destruct i4 as [|? i4]; try discriminate H4').
  unfold parse_connect_request, CONNECT_REQUEST_HEADER_SIZE. cbn [app].
  rewrite decide_False by (cbn [length]; lia).
  cbn [nth Nat.sub].
  change (slice 1 5 _) with [z; z0; z1; z2].
  change (slice 5 13 _) with [z3; z4; z5; z6; z7; z8; z9; z10].
  change (slice 13 17 _) with [z11; z12; z13; z14].
  change (drop (18 + Z.to_nat a) _) with (drop (Z.to_nat a) rest).
  unfold len. cbn [length].
  repeat case_decide; try done; try lia; exfalso; (try naive_solver lia).
Qed.

(** ** Round trips of the single formats *)

(** The header byte round-trips in both directions: decoding any of the
    256 bytes and encoding the result gives the byte back, and every header
    with a 5-bit property and a 2-bit connection number survives encoding. *)
Lemma header_roundtrip :
  (forall b, byte_ok b -> to_byte (from_byte b) = b) /\
  (forall h, header_ok h -> byte_ok (to_byte h) /\ from_byte (to_byte h) = h).
Proof.
  split; [apply to_byte_from_byte|].
  intros h Hh. split; [by apply to_byte_ok|by apply from_byte_to_byte].
Qed.

(** A ConnectRequest built as the client builds it is parsed back to its
    fields exactly when its address size is one of the two LiteNetLib knows
    (16 or 28); any other size is refused. *)
Lemma connect_request_roundtrip (connection_number connect_time peer_id addr_size : Z)
    (data : list Z) :
  0 <= connection_number < MAX_CONNECTION_NUMBER -> inS 64 connect_time ->
  inS 32 peer_id -> byte_ok addr_size ->
  parse_connect_request
    (build_connect_request connection_number connect_time peer_id addr_size data) =
  if decide (addr_size = 16 \/ addr_size = 28) then
    Some (mkConnectRequest connection_number PROTOCOL_ID connect_time peer_id data)
  else None.
Proof.
  intros Hc Ht Hp Ha. unfold build_connect_request.
  rewrite parse_fields by apply length_le_bytes.
  rewrite from_byte_to_byte, !i32_le_roundtrip, i64_le_roundtrip by
    (try done; unfold inS, PROTOCOL_ID, header_ok, property.CONNECT_REQUEST; simpl; lia).
  rewrite drop_app_length' by (by rewrite length_replicate).
  rewrite len_app. unfold len, byte_ok in *. rewrite length_replicate. cbn [h_property h_connection_number].
  repeat case_decide; try done; naive_solver lia.
Qed.

(** [buf] is, byte for byte, a connect-request header, the little-endian fields
    of [r], an address of 16 or 28 bytes preceded by its size, and the connect
    data; the connection number fits its two bits and the integers their
    width. *)
Definition request_encodes (buf : list Z) (r : ConnectRequest) : Prop :=
  exists h addr,
    buf = [to_byte h] ++ le_bytes 4 (cr_protocol_id r) ++ le_bytes 8 (cr_connect_time r) ++
          le_bytes 4 (cr_peer_id r) ++ [len addr] ++ addr ++ cr_connect_data r /\
    h_property h = property.CONNECT_REQUEST /\
    h_connection_number h = cr_connection_number r /\
    0 <= cr_connection_number r < MAX_CONNECTION_NUMBER /\
    (len addr = 16 \/ len addr = 28) /\
    inS 32 (cr_protocol_id r) /\ inS 64 (cr_connect_time r) /\ inS 32 (cr_peer_id r).

(** The parser accepts only what the format describes. *)
Lemma parse_connect_request_sound (buf : list Z) (r : ConnectRequest) :
  Forall byte_ok buf -> parse_connect_request buf = Some r -> request_encodes buf r.
Proof.
  intros Hb Hp. assert (Hl : (18 <= length buf)%nat).
  { unfold parse_connect_request in Hp. case_decide as Hd; [done|].
    unfold CONNECT_REQUEST_HEADER_SIZE in Hd. lia. }
  pose proof (request_layout buf Hl) as Hlay. rewrite Hlay in Hp.
  rewrite parse_fields in Hp by (apply length_slice; lia).
  case_decide as Hd; [|done]. destruct Hd as (Hprop & Hconn & Ha & Hlen). injection Hp as <-.
  assert (Hb0 : byte_ok (nth 0 buf 0)) by (apply (Forall_nth byte_ok 0 buf); [done|lia]).
  exists (from_byte (nth 0 buf 0)), (take (Z.to_nat (nth 17 buf 0)) (drop 18 buf)).
  assert (Hla : len (take (Z.to_nat (nth 17 buf 0)) (drop 18 buf)) = nth 17 buf 0).
  { unfold len in *. rewrite length_take. lia. }
  cbn [cr_protocol_id cr_connect_time cr_peer_id cr_connect_data cr_connection_number].
  split_and!; try done; try apply wrapS_in; try lia.
  - rewrite Hla, to_byte_from_byte by done. unfold i32_from_le, i64_from_le.
    rewrite !le_bytes_wrapS by (simpl; lia).
    change 4%nat with (5 - 1)%nat at 1. rewrite <- (slice_le_bytes 1 5) by (done || lia).
    change 8%nat with (13 - 5)%nat at 1. rewrite <- (slice_le_bytes 5 13) by (done || lia).
    change 4%nat with (17 - 13)%nat at 1. rewrite <- (slice_le_bytes 13 17) by (done || lia).
    rewrite take_drop. exact Hlay.
  - by apply from_byte_conn.
Qed.

(** [NetDataWriter] strings round-trip: every valid UTF-8 string shorter
    than 65535 bytes is read back from its encoding, whatever follows it in the
    datagram. *)
Lemma litenet_string_roundtrip (s : string) (rest : list Z) :
  utf8_valid (bytes_of_string s) = true -> len (bytes_of_string s) < 65535 ->
  read_litenet_string (write_litenet_string s ++ rest) = Some s.
Proof.
  intros Hu Hl. unfold write_litenet_string, read_litenet_string.
  destruct (bytes_of_string s) as [|b l] eqn:Eb.
  { destruct s; [|discriminate Eb]. done. }
  assert (Hr : inU 16 (len (b :: l) + 1)) by (unfold inU; pose proof (len_nonneg (b :: l)); lia).
  rewrite wrapU_id by done. rewrite <- app_assoc.
  rewrite decide_False by (rewrite length_app, length_le_bytes; lia).
  rewrite slice_app_l by apply length_le_bytes. rewrite u16_le_roundtrip by done.
  rewrite decide_False by (pose proof (len_nonneg (b :: l)); lia).
  replace (Z.to_nat (len (b :: l) + 1 - 1)) with (length (b :: l)) by (unfold len; lia).
  rewrite decide_False by (rewrite !length_app, length_le_bytes; lia).
  rewrite slice_app_r by (rewrite length_le_bytes; lia). rewrite length_le_bytes.
  rewrite slice_app_l by lia. rewrite Hu. f_equal.
  rewrite <- Eb. apply string_of_bytes_of_string.
Qed.

(** Session packets carry their session: the Unreliable, Ping, Pong and Disconnect packets decode to their
    property and that connection number with the fragment bit clear, have
    exactly their fixed size, and give back their payload, sequence number and
    connect time. *)
Definition session_packets_carry (cn seq ticks time : Z) (data : list Z) : Prop :=
  from_byte (nth 0 (build_unreliable cn data) 0) = connected property.UNRELIABLE cn /\
  drop 1 (build_unreliable cn data) = data /\
  from_byte (nth 0 (build_ping cn seq) 0) = connected property.PING cn /\
  length (build_ping cn seq) = PING_SIZE /\ read_sequence (build_ping cn seq) = Some seq /\
  from_byte (nth 0 (build_pong cn seq ticks) 0) = connected property.PONG cn /\
  length (build_pong cn seq ticks) = PONG_SIZE /\
  read_sequence (build_pong cn seq ticks) = Some seq /\
  i64_from_le (slice 3 11 (build_pong cn seq ticks)) = ticks /\
  from_byte (nth 0 (build_disconnect cn time) 0) = connected property.DISCONNECT cn /\
  length (build_disconnect cn time) = DISCONNECT_SIZE /\
  read_disconnect_time (build_disconnect cn time) = Some time.

Lemma session_packets_decode (cn seq ticks time : Z) (data : list Z) :
  0 <= cn < MAX_CONNECTION_NUMBER -> inU 16 seq -> inS 64 ticks -> inS 64 time ->
  session_packets_carry cn seq ticks time data.
Proof.
  intros Hcn Hs Htk Ht.
  assert (Hh : forall p, 0 <= p < 32 -> from_byte (to_byte (connected p cn)) = connected p cn).
  { intros p Hp. by apply from_byte_to_byte. }
  unfold session_packets_carry, build_unreliable, build_ping, build_pong, build_disconnect, read_sequence,
    read_disconnect_time. cbn [nth drop].
  rewrite !Hh by (vm_compute; split; congruence).
  cbn [length]. rewrite !length_app, !length_le_bytes.
  rewrite !decide_False by (unfold DISCONNECT_SIZE; lia).
  split_and!; try done.
  - change (Some (u16_from_le (slice 0 2 (le_bytes 2 seq))) = Some seq).
    change (slice 0 2 (le_bytes 2 seq)) with (le_bytes 2 seq). by rewrite u16_le_roundtrip.
  - change (Some (u16_from_le (le_bytes 2 seq)) = Some seq). by rewrite u16_le_roundtrip.
  - change (i64_from_le (le_bytes 8 ticks) = ticks). by apply i64_le_roundtrip.
  - change (Some (i64_from_le (le_bytes 8 time)) = Some time). by rewrite i64_le_roundtrip.
Qed.

(** ** Theorems *)

(** C31.  The packets of a session round-trip.  The header byte does so in both directions, for all 256 bytes
    and for every header with a 5-bit property and a 2-bit connection number;
    the Unreliable, Ping, Pong and Disconnect packets of every live connection
    number decode to their property and number with the fragment bit clear and
    give back their payload, sequence number, time stamp and connect time, the last
    three having exactly their fixed size; and every valid UTF-8 string shorter than 65535 bytes is
    read back from its [NetDataWriter] encoding, whatever follows it in the
    datagram. *)
Theorem wire_packets_roundtrip (b : Z) (h : Header) (cn seq ticks time : Z) (data : list Z)
    (s : string) (rest : list Z) :
  byte_ok b -> header_ok h ->
  0 <= cn < MAX_CONNECTION_NUMBER -> inU 16 seq -> inS 64 ticks -> inS 64 time ->
  utf8_valid (bytes_of_string s) = true -> len (bytes_of_string s) < 65535 ->
  to_byte (from_byte b) = b /\
  byte_ok (to_byte h) /\ from_byte (to_byte h) = h /\
  session_packets_carry cn seq ticks time data /\
  read_litenet_string (write_litenet_string s ++ rest) = Some s.
Proof.
  intros Hb Hh Hc Hs Htk Ht Hu Hl. split_and!.
  - by apply header_roundtrip.
  - by apply header_roundtrip.
  - by apply header_roundtrip.
  - by apply session_packets_decode.
  - by apply litenet_string_roundtrip.
Qed.

Lemma wire_packets_roundtrip_witness :
  to_byte (from_byte 173) = 173 /\
  read_sequence (build_pong 2 65535 (-1)) = Some 65535 /\
  read_disconnect_time (build_disconnect 2 (- 2 ^ 63)) = Some (- 2 ^ 63) /\
  read_litenet_string (write_litenet_string "sailwind-online" ++ [0; 255]) = Some "sailwind-online"%string.
Proof.
  destruct (wire_packets_roundtrip 173 (connected property.PING 3) 2 65535 (-1) (- 2 ^ 63) []
              "sailwind-online" [0; 255])
    as (H0 & _ & _ & (_ & _ & _ & _ & _ & _ & _ & H1 & _ & _ & _ & H2) & H3);
    [unfold byte_ok; lia|vm_compute; split_and!; congruence|unfold MAX_CONNECTION_NUMBER; lia
    |unfold inU; lia|unfold inS; lia|unfold inS; lia|reflexivity|reflexivity|].
  split; [exact H0|split; [exact H1|split; [exact H2|exact H3]]].
Defined.

(** C35.  The connect-request parser is exact.  A request built as the client
    builds it is parsed back to its fields when its address size is one of the
    two LiteNetLib knows (16 or 28), and any other size is refused; conversely
    an accepted datagram is byte for byte the encoding of the fields the parser
    reports. *)
Theorem connect_request_codec (cn connect_time peer_id addr_size : Z) (data buf : list Z) :
  0 <= cn < MAX_CONNECTION_NUMBER -> inS 64 connect_time -> inS 32 peer_id ->
  byte_ok addr_size -> Forall byte_ok buf ->
  parse_connect_request (build_connect_request cn connect_time peer_id addr_size data) =
    (if decide (addr_size = 16 \/ addr_size = 28) then
       Some (mkConnectRequest cn PROTOCOL_ID connect_time peer_id data)
     else None) /\
  forall r, parse_connect_request buf = Some r -> request_encodes buf r.
Proof.
  intros Hc Ht Hp Ha Hb. split.
  - by apply connect_request_roundtrip.
  - intros r. by apply parse_connect_request_sound.
Qed.

Lemma connect_request_codec_witness :
  parse_connect_request (build_connect_request 3 (-5) 42 28 [1; 2; 3]) =
    Some (mkConnectRequest 3 13 (-5) 42 [1; 2; 3]) /\
  request_encodes (build_connect_request 1 7 2 16 [9]) (mkConnectRequest 1 13 7 2 [9]).
Proof.
  destruct (connect_request_codec 3 (-5) 42 28 [1; 2; 3] (build_connect_request 1 7 2 16 [9]))
    as [H1 H2]; [unfold MAX_CONNECTION_NUMBER; lia|unfold inS; lia|unfold inS; lia
    |unfold byte_ok; lia|vm_compute; repeat constructor; discriminate|].
  split; [exact H1|]. apply H2. vm_compute. reflexivity.
Defined.
