(* ===== verification/Host.v ===== *)
(** * The UDP host ([sw-net], lib.rs)

    Models server/crates/sw-net/src/lib.rs: the peer table with its slot
    allocator, per-IP counters and reconnect watermarks, the datagram handlers
    and the bounded poll.  The socket is the environment: each poll is given
    the results of the successive [peek_from]/[recv_from] calls, arbitrary and
    in any order, and every [send_to] is recorded in [tx].  An [Instant] is a
    number of nanoseconds of the monotonic clock. *)

From S2P Require Import Prelude Wire.

(** ** Addresses *)
Inductive IpAddr :=
| IpV4 (a : Z)
| IpV6 (a : Z).

Inductive SocketAddr :=
| SockV4 (ip port : Z)
| SockV6 (ip port flowinfo scope_id : Z).

#[global] Instance IpAddr_eq_dec : EqDecision IpAddr.
Proof. solve_decision. Defined.

#[global] Instance SocketAddr_eq_dec : EqDecision SocketAddr.
Proof. solve_decision. Defined.

#[global] Instance IpAddr_countable : Countable IpAddr.
Proof.
  apply (inj_countable'
    (fun i => match i with IpV4 a => inl a | IpV6 a => inr a end)
    (fun x : Z + Z => match x with inl a => IpV4 a | inr a => IpV6 a end)).
  by intros [].
Defined.

#[global] Instance SocketAddr_countable : Countable SocketAddr.
Proof.
  apply (inj_countable'
    (fun s => match s with
              | SockV4 i p => inl (i, p)
              | SockV6 i p f c => inr (i, p, f, c)
              end)
    (fun x : (Z * Z) + (Z * Z * Z * Z) =>
       match x with
       | inl (i, p) => SockV4 i p
       | inr (i, p, f, c) => SockV6 i p f c
       end)).
  by intros [].
Defined.

(** [SocketAddr::ip]. *)
Definition addr_ip (a : SocketAddr) : IpAddr :=
  match a with SockV4 i _ => IpV4 i | SockV6 i _ _ _ => IpV6 i end.

(** ** Constants *)
Definition MAX_POLL_PACKETS : nat := 128.
Definition MAX_POLL_BYTES : Z := 256 * 1024.
Definition MAX_POLL_SOCKET_EVENTS : nat := MAX_POLL_PACKETS * 2.
Definition MAX_POLL_TIMEOUT_EVENTS : nat := 64.
Definition MAX_POLL_MAINTENANCE_SCANS : nat := 512.
Definition MAX_POLL_KEEPALIVE_SENDS : nat := MAX_POLL_MAINTENANCE_SCANS.
Definition MAX_POLL_WATERMARK_CLEANUPS : nat := MAX_POLL_MAINTENANCE_SCANS.
Definition MAX_POLL_EVENTS : nat := MAX_POLL_SOCKET_EVENTS + MAX_POLL_TIMEOUT_EVENTS.

Definition nanos_per_sec : Z := 1000000000.
Definition DEFAULT_TIMEOUT : Z := 5 * nanos_per_sec.
Definition PING_INTERVAL : Z := 1 * nanos_per_sec.
Definition DEFAULT_MAX_PEERS : Z := 1024.
Definition DEFAULT_MAX_PEERS_PER_IP : Z := 16.
Definition UNIX_EPOCH_TICKS : Z := 621355968000000000.

(** [Instant::saturating_duration_since] and [Instant::checked_add]: an
    instant holds its seconds in an [i64]. *)
Definition since (now earlier : Z) : Z := Z.max 0 (now - earlier).

Definition instant_add (t d : Z) : option Z :=
  if decide (t + d < 2 ^ 63 * nanos_per_sec) then Some (t + d) else None.

(** ** Data *)
Inductive DisconnectReason := Remote | Timeout | Shutdown.

Inductive Event :=
| Connected (id : Z)
| Data (id : Z) (payload : list Z)
| Disconnected (id : Z) (reason : DisconnectReason).

Record PollWork := mkPollWork {
  packets : nat;
  bytes : Z;
  socket_events : nat;
  timeout_events : nat;
  maintenance_scans : nat;
  keepalive_sends : nat;
  watermark_cleanups : nat
}.

#[global] Instance PollWork_eta : Settable PollWork :=
  mkSettable (fun r => mkPollWork (packets r) (bytes r) (socket_events r) (timeout_events r)
    (maintenance_scans r) (keepalive_sends r) (watermark_cleanups r)).

Definition work_default : PollWork := mkPollWork 0 0 0 0 0 0 0.

Record Peer := mkPeer {
  p_id : Z;
  p_slot : nat;
  p_addr : SocketAddr;
  p_connect_time : Z;
  p_connection_number : Z;
  p_local_peer_id : Z;
  p_last_recv : Z;
  p_last_ping_sent : Z;
  p_ping_seq : Z;
  p_ping_sent_at : option Z;
  p_rtt : option Z
}.

#[global] Instance Peer_eta : Settable Peer :=
  mkSettable (fun r => mkPeer (p_id r) (p_slot r) (p_addr r) (p_connect_time r)
    (p_connection_number r) (p_local_peer_id r) (p_last_recv r) (p_last_ping_sent r)
    (p_ping_seq r) (p_ping_sent_at r) (p_rtt r)).

Record ReconnectWatermark := mkWatermark {
  w_connect_time : Z;
  w_expires_at : Z;
  w_generation : Z
}.

#[global] Instance ReconnectWatermark_eta : Settable ReconnectWatermark :=
  mkSettable (fun r => mkWatermark (w_connect_time r) (w_expires_at r) (w_generation r)).

Record Host := mkHost {
  peers : gmap SocketAddr Peer;
  peer_slots : list (option SocketAddr);
  free_peer_slots : list nat;
  available_free_peer_slots : nat;
  peers_per_ip : gmap IpAddr nat;
  reconnect_watermarks : gmap SocketAddr ReconnectWatermark;
  reconnect_watermark_order : list (SocketAddr * Z);
  next_reconnect_watermark_generation : Z;
  maintenance_cursor : nat;
  connect_key : string;
  timeout : Z;
  max_peers : nat;
  max_peers_per_ip : nat;
  tx : list (SocketAddr * list Z)
}.

#[global] Instance Host_eta : Settable Host :=
  mkSettable (fun r => mkHost (peers r) (peer_slots r) (free_peer_slots r)
    (available_free_peer_slots r) (peers_per_ip r) (reconnect_watermarks r)
    (reconnect_watermark_order r) (next_reconnect_watermark_generation r)
    (maintenance_cursor r) (connect_key r) (timeout r) (max_peers r) (max_peers_per_ip r)
    (tx r)).

(** ** Operations *)

(** [Host::bind_with_limits], the socket calls apart: the limits it refuses and
    the state it starts from. *)
Definition bind_with_limits (key : string) (limit limit_per_ip : Z) : result string Host :=
  if decide (limit = 0 \/ limit > 65535 \/ limit_per_ip = 0 \/ limit_per_ip > limit)
  then Err "peer limits must be nonzero, global must not exceed 65535, and per-IP must not exceed global"%string
  else Ok (mkHost ∅ [] [] 0 ∅ ∅ [] 0 0 key DEFAULT_TIMEOUT
             (Z.to_nat limit) (Z.to_nat limit_per_ip) []).

Definition bind (key : string) : result string Host :=
  bind_with_limits key DEFAULT_MAX_PEERS DEFAULT_MAX_PEERS_PER_IP.

Definition send_to (a : SocketAddr) (packet : list Z) (h : Host) : Host :=
  h <| tx ::= fun l => l ++ [(a, packet)] |>.

(** [Host::peer_addr]: [usize::try_from(peer).ok()?.checked_sub(1)?]. *)
Definition peer_addr (peer : Z) (h : Host) : option SocketAddr :=
  if decide (peer < 1) then None else
  match peer_slots h !! Z.to_nat (peer - 1) with
  | Some (Some addr) =>
      match peers h !! addr with
      | Some p => if decide (p_id p = peer) then Some addr else None
      | None => None
      end
  | _ => None
  end.

Definition peer_count (h : Host) : nat := size (peers h).

Definition rtt (peer : Z) (h : Host) : option Z :=
  match peer_addr peer h with
  | Some addr => match peers h !! addr with Some p => p_rtt p | None => None end
  | None => None
  end.

Definition insert_peer (p : Peer) (h : Host) : Host :=
  h <| peers_per_ip ::= fun m => <[addr_ip (p_addr p) := S (default O (m !! addr_ip (p_addr p)))]> m |>
    <| peers ::= <[p_addr p := p]> |>
    <| peer_slots ::= <[p_slot p := Some (p_addr p)]> |>.

Definition allocate_peer_slot (h : Host) : option nat * Host :=
  if decide (length (peer_slots h) < max_peers h)%nat then
    (Some (length (peer_slots h)), h <| peer_slots ::= fun l => l ++ [None] |>)
  else
    match available_free_peer_slots h with
    | S n =>
        (head (free_peer_slots h),
         h <| available_free_peer_slots := n |> <| free_peer_slots ::= tail |>)
    | O => (None, h)
    end.

Definition remove_peer_at (addr : SocketAddr) (h : Host) : option Peer * Host :=
  match peers h !! addr with
  | None => (None, h)
  | Some p0 =>
      let slot := p_slot p0 in
      let ip := addr_ip addr in
      match peers_per_ip h !! ip with
      | None => (None, h)
      | Some count =>
          let h := if decide (1 < count)%nat
                   then h <| peers_per_ip ::= <[ip := (count - 1)%nat]> |>
                   else h <| peers_per_ip ::= delete ip |> in
          (Some p0,
           h <| peers ::= delete addr |>
             <| peer_slots ::= <[slot := None]> |>
             <| free_peer_slots ::= fun l => l ++ [slot] |>)
      end
  end.

Definition record_reconnect_watermark (addr : SocketAddr) (connect_time now : Z) (h : Host)
    : Host :=
  let h := if decide (next_reconnect_watermark_generation h = u64_max)
           then h <| reconnect_watermarks := ∅ |> <| reconnect_watermark_order := [] |>
                  <| next_reconnect_watermark_generation := 0 |>
           else h in
  let h := h <| next_reconnect_watermark_generation ::= fun g => g + 1 |> in
  let generation := next_reconnect_watermark_generation h in
  let h :=
    if decide (length (reconnect_watermark_order h) = max_peers h) then
      match reconnect_watermark_order h with
      | (oldest_addr, oldest_generation) :: order =>
          let h := h <| reconnect_watermark_order := order |> in
          match reconnect_watermarks h !! oldest_addr with
          | Some w =>
              if decide (w_generation w = oldest_generation)
              then h <| reconnect_watermarks ::= delete oldest_addr |> else h
          | None => h
          end
      | [] => h
      end
    else h in
  let expires_at := default now (instant_add now (timeout h)) in
  let w :=
    match reconnect_watermarks h !! addr with
    | Some w => mkWatermark (Z.max (w_connect_time w) connect_time) expires_at generation
    | None => mkWatermark connect_time expires_at generation
    end in
  h <| reconnect_watermarks ::= <[addr := w]> |>
    <| reconnect_watermark_order ::= fun l => l ++ [(addr, generation)] |>.

(** The loop of [expire_reconnect_watermarks]; the fuel is the cleanups left in
    this poll's budget. *)
Fixpoint expire_loop (fuel : nat) (now : Z) (h : Host) (work : PollWork) : Host * PollWork :=
  match fuel with
  | O => (h, work)
  | S fuel =>
      match reconnect_watermark_order h with
      | [] => (h, work)
      | (addr, generation) :: order =>
          let continue h :=
            expire_loop fuel now (h <| reconnect_watermark_order := order |>)
              (work <| watermark_cleanups ::= S |>) in
          match reconnect_watermarks h !! addr with
          | Some w =>
              if decide (w_generation w = generation) then
                if decide (w_expires_at w > now) then (h, work)
                else continue (h <| reconnect_watermarks ::= delete addr |>)
              else continue h
          | None => continue h
          end
      end
  end.

Definition expire_reconnect_watermarks (now : Z) (h : Host) (work : PollWork)
    : Host * PollWork :=
  expire_loop (MAX_POLL_WATERMARK_CLEANUPS - watermark_cleanups work) now h work.

(** [dotnet_ticks_now], given the wall clock reading: nanoseconds since the
    Unix epoch, or [None] before it. *)
Definition dotnet_ticks (wall : option Z) : Z :=
  match wall with
  | Some nanos => wrapS 64 (UNIX_EPOCH_TICKS + wrapS 64 (nanos / 100))
  | None => UNIX_EPOCH_TICKS
  end.

Definition handle_ping (data : list Z) (addr : SocketAddr) (now : Z) (wall : option Z)
    (h : Host) : Host :=
  match read_sequence data with
  | None => h
  | Some seq =>
      match peers h !! addr with
      | None => h
      | Some p =>
          send_to (p_addr p) (build_pong (p_connection_number p) seq (dotnet_ticks wall))
            (h <| peers ::= <[addr := p <| p_last_recv := now |>]> |>)
      end
  end.

Definition handle_pong (data : list Z) (addr : SocketAddr) (now : Z) (h : Host) : Host :=
  match read_sequence data with
  | None => h
  | Some seq =>
      match peers h !! addr with
      | None => h
      | Some p =>
          let p := p <| p_last_recv := now |> in
          let p :=
            if decide (seq = p_ping_seq p) then
              match p_ping_sent_at p with
              | Some sent => p <| p_ping_sent_at := None |> <| p_rtt := Some (since now sent) |>
              | None => p
              end
            else p in
          h <| peers ::= <[addr := p]> |>
      end
  end.

Definition handle_disconnect (data : list Z) (addr : SocketAddr) (h : Host)
    (events : list Event) : Host * list Event :=
  match read_disconnect_time data with
  | None => (h, events)
  | Some time =>
      match peers h !! addr with
      | None => (h, events)
      | Some p =>
          if decide (p_connect_time p <> time) then (h, events) else
          let h := send_to addr (build_control property.SHUTDOWN_OK) h in
          let h := (remove_peer_at addr h).2 in
          (h, events ++ [Disconnected (p_id p) Remote])
      end
  end.

(** The tail of [handle_connect_request], once the request may be admitted. *)
Definition accept_connect_request (req : ConnectRequest) (addr : SocketAddr) (now : Z)
    (replaced_existing : bool) (h : Host) (events : list Event) : Host * list Event :=
  match allocate_peer_slot h with
  | (None, h) =>
      ((if replaced_existing
        then record_reconnect_watermark addr (cr_connect_time req) now h else h), events)
  | (Some slot, h) =>
      let id := Z.of_nat slot + 1 in
      let local_peer_id := Z.of_nat slot in
      let h := send_to addr
                 (build_connect_accept (cr_connect_time req) (cr_connection_number req)
                    local_peer_id false) h in
      let h := insert_peer
                 (mkPeer id slot addr (cr_connect_time req) (cr_connection_number req)
                    local_peer_id now now 0 None None) h in
      (h <| reconnect_watermarks ::= delete addr |>, events ++ [Connected id])
  end.

Definition handle_connect_request (data : list Z) (addr : SocketAddr) (now : Z)
    (h : Host) (events : list Event) : Host * list Event :=
  match parse_connect_request data with
  | None => (h, events)
  | Some req =>
      if decide (cr_protocol_id req <> PROTOCOL_ID) then
        (send_to addr (build_control property.INVALID_PROTOCOL) h, events) else
      if decide (read_litenet_string (cr_connect_data req) <> Some (connect_key h))
      then (h, events) else
      match peers h !! addr with
      | Some existing =>
          if decide (cr_connect_time req < p_connect_time existing) then (h, events) else
          if decide (p_connect_time existing = cr_connect_time req) then
            (send_to addr
               (build_connect_accept (p_connect_time existing) (p_connection_number existing)
                  (p_local_peer_id existing) false) h, events)
          else
            let h := (remove_peer_at addr h).2 in
            accept_connect_request req addr now true h
              (events ++ [Disconnected (p_id existing) Remote])
      | None =>
          let enter h :=
            if decide (max_peers h <= size (peers h) \/
                       max_peers_per_ip h <= default O (peers_per_ip h !! addr_ip addr))%nat
            then (h, events)
            else accept_connect_request req addr now false h events in
          match reconnect_watermarks h !! addr with
          | Some w =>
              if decide (cr_connect_time req < w_connect_time w) then (h, events) else
              enter (h <| reconnect_watermarks ::=
                            <[addr := w <| w_connect_time := Z.max (w_connect_time w) (cr_connect_time req) |>]> |>)
          | None => enter h
          end
      end
  end.

Definition handle_datagram (data : list Z) (addr : SocketAddr) (now : Z) (wall : option Z)
    (h : Host) (events : list Event) : Host * list Event :=
  match data with
  | [] => (h, events)
  | b0 :: payload =>
      let header := from_byte b0 in
      if h_fragmented header then (h, events) else
      if decide (h_property header = property.CONNECT_REQUEST) then
        handle_connect_request data addr now h events
      else
        match peers h !! addr with
        | None => (h, events)
        | Some p =>
            if decide (h_connection_number header <> p_connection_number p) then (h, events) else
            if decide (h_property header = property.UNRELIABLE) then
              (h <| peers ::= <[addr := p <| p_last_recv := now |>]> |>,
               events ++ [Data (p_id p) payload])
            else if decide (h_property header = property.PING) then
              (handle_ping data addr now wall h, events)
            else if decide (h_property header = property.PONG) then
              (handle_pong data addr now h, events)
            else if decide (h_property header = property.DISCONNECT) then
              handle_disconnect data addr h events
            else (h, events)
        end
  end.

(** The environment of one iteration of [drain_socket]: what [peek_from] and
    then [recv_from] return, and the wall clock while the datagram is handled. *)
Inductive PeekResult := PeekOk (n : Z) | PeekWouldBlock | PeekReset | PeekErr.

Inductive RecvResult := RecvOk (data : list Z) (addr : SocketAddr)
| RecvWouldBlock | RecvReset | RecvErr.

Record SockStep := mkSockStep {
  s_peek : PeekResult;
  s_recv : RecvResult;
  s_wall : option Z
}.

(** [drain_socket]; a socket with nothing more to say would block. *)
Fixpoint drain_socket (script : list SockStep) (now : Z) (h : Host) (events : list Event)
    (work : PollWork) : Host * list Event * PollWork :=
  match script with
  | [] => (h, events, work)
  | step :: script =>
      if decide (packets work < MAX_POLL_PACKETS)%nat then
        if decide (bytes work < MAX_POLL_BYTES) then
          let remaining_bytes := MAX_POLL_BYTES - bytes work in
          match s_peek step with
          | PeekOk n =>
              if decide (n > remaining_bytes) then (h, events, work) else
              match s_recv step with
              | RecvOk data addr =>
                  let work := work <| packets ::= S |> <| bytes ::= Z.add (len data) |> in
                  if decide (len data > MTU) then drain_socket script now h events work
                  else
                    let '(h, events) := handle_datagram data addr now (s_wall step) h events in
                    drain_socket script now h events work
              | RecvWouldBlock => (h, events, work)
              | RecvReset => drain_socket script now h events (work <| packets ::= S |>)
              | RecvErr => (h, events, work)
              end
          | PeekWouldBlock => (h, events, work)
          | PeekReset => drain_socket script now h events (work <| packets ::= S |>)
          | PeekErr => (h, events, work)
          end
        else (h, events, work)
      else (h, events, work)
  end.

(** One iteration of the loop of [process_peer_maintenance]. *)
Definition maintenance_step (slot_count : nat) (now : Z) (h : Host) (events : list Event)
    (work : PollWork) : Host * list Event * PollWork :=
  let slot := if decide (slot_count <= maintenance_cursor h)%nat then O
              else maintenance_cursor h in
  let h := h <| maintenance_cursor := S slot |> in
  let work := work <| maintenance_scans ::= S |> in
  match peer_slots h !! slot with
  | Some (Some addr) =>
      let expired := if peers h !! addr is Some p
                     then bool_decide (since now (p_last_recv p) > timeout h) else false in
      if expired then
        if decide (timeout_events work < MAX_POLL_TIMEOUT_EVENTS)%nat then
          match remove_peer_at addr h with
          | (Some p, h) => (h, events ++ [Disconnected (p_id p) Timeout],
                            work <| timeout_events ::= S |>)
          | (None, h) => (h, events, work)
          end
        else (h, events, work)
      else if decide (MAX_POLL_KEEPALIVE_SENDS <= keepalive_sends work)%nat then
        (h, events, work)
      else
        match peers h !! addr with
        | None => (h, events, work)
        | Some p =>
            if decide (since now (p_last_ping_sent p) < PING_INTERVAL) then (h, events, work)
            else
              let p := p <| p_ping_seq ::= fun s => wrapU 16 (s + 1) |>
                         <| p_last_ping_sent := now |> <| p_ping_sent_at := Some now |> in
              (send_to (p_addr p) (build_ping (p_connection_number p) (p_ping_seq p))
                 (h <| peers ::= <[addr := p]> |>),
               events, work <| keepalive_sends ::= S |>)
        end
  | _ => (h, events, work)
  end.

Fixpoint maintenance_loop (n slot_count : nat) (now : Z) (h : Host) (events : list Event)
    (work : PollWork) : Host * list Event * PollWork :=
  match n with
  | O => (h, events, work)
  | S n =>
      let '(h, events, work) := maintenance_step slot_count now h events work in
      maintenance_loop n slot_count now h events work
  end.

Definition process_peer_maintenance (now : Z) (h : Host) (events : list Event)
    (work : PollWork) : Host * list Event * PollWork :=
  let slot_count := length (peer_slots h) in
  if decide (slot_count = O) then (h <| maintenance_cursor := O |>, events, work)
  else maintenance_loop (Nat.min slot_count MAX_POLL_MAINTENANCE_SCANS) slot_count now h events work.

Definition poll_with_work (script : list SockStep) (now : Z) (h : Host)
    : list Event * PollWork * Host :=
  let h := h <| available_free_peer_slots := length (free_peer_slots h) |> in
  let '(h, work) := expire_reconnect_watermarks now h work_default in
  let '(h, events, work) := drain_socket script now h [] work in
  let work := work <| socket_events := length events |> in
  let '(h, events, work) := process_peer_maintenance now h events work in
  (events, work, h).

Definition poll (script : list SockStep) (now : Z) (h : Host) : list Event * Host :=
  let '(events, _, h) := poll_with_work script now h in (events, h).

(** [Host::send_unreliable]; [io] is what the final [send_to] returns. *)
Definition send_unreliable (peer : Z) (payload : list Z) (io : result string unit) (h : Host)
    : result string unit * Host :=
  if decide (len payload > MTU - HEADER_SIZE) then
    (Err "payload exceeds MTU; fragmentation is not supported at init-0"%string, h)
  else
    match peer_addr peer h with
    | None => (Ok tt, h)
    | Some addr =>
        match peers h !! addr with
        | None => (Ok tt, h)
        | Some p =>
            (io, send_to addr (build_unreliable (p_connection_number p) payload) h)
        end
    end.

Definition disconnect (peer : Z) (h : Host) : bool * Host :=
  match peer_addr peer h with
  | None => (false, h)
  | Some addr =>
      match remove_peer_at addr h with
      | (None, h) => (false, h)
      | (Some p, h) =>
          (true, send_to (p_addr p) (build_disconnect (p_connection_number p) (p_connect_time p)) h)
      end
  end.

(** [Host::shutdown]; the map is walked in an unspecified order. *)
Definition shutdown (h : Host) : list Event * Host :=
  let live := (map_to_list (peers h)).*2 in
  let events := (fun p => Disconnected (p_id p) Shutdown) <$> live in
  let packets := (fun p => (p_addr p, build_disconnect (p_connection_number p) (p_connect_time p)))
                   <$> live in
  (events,
   mkHost ∅ [] [] 0 ∅ ∅ [] 0 0 (connect_key h) (timeout h) (max_peers h) (max_peers_per_ip h)
     (tx h ++ packets)).
