(* ===== verification/HostInv.v ===== *)
(** * Invariants of the UDP host

    The peer table of Host.v: its well-formedness invariant, the session
    protocol its event stream obeys, the bounds of one poll and the admission
    rules, proved for every behaviour of the socket. *)

From S2P Require Import Prelude Wire Host.

(** ** Specification *)

(** Live peers of one source IP. *)
Definition ip_count (ip : IpAddr) (m : gmap SocketAddr Peer) : nat :=
  size (filter (fun a => addr_ip a = ip) (dom m : gset SocketAddr)).

(** An entry of the peer table agrees with its key, its slot and the ids
    derived from it. *)
Definition peer_ok (slots : list (option SocketAddr)) (a : SocketAddr) (p : Peer) : Prop :=
  p_addr p = a /\ p_id p = Z.of_nat (p_slot p) + 1 /\
  p_local_peer_id p = Z.of_nat (p_slot p) /\ slots !! p_slot p = Some (Some a).

(** The peer table: slots and peers are in bijection, the free list is exactly
    the set of empty slots, the per-IP counters count, and every limit holds. *)
Record TableInv (h : Host) : Prop := {
  inv_limits : (1 <= max_peers_per_ip h <= max_peers h)%nat /\ Z.of_nat (max_peers h) <= 65535;
  inv_slots_len : (length (peer_slots h) <= max_peers h)%nat;
  inv_peer a p : peers h !! a = Some p -> peer_ok (peer_slots h) a p;
  inv_slot i a : peer_slots h !! i = Some (Some a) ->
    exists p, peers h !! a = Some p /\ p_slot p = i;
  inv_free i : i ∈ free_peer_slots h <-> peer_slots h !! i = Some None;
  inv_free_nodup : NoDup (free_peer_slots h);
  inv_count : (size (peers h) + length (free_peer_slots h) = length (peer_slots h))%nat;
  inv_avail : (available_free_peer_slots h <= length (free_peer_slots h))%nat;
  inv_ip ip : default O (peers_per_ip h !! ip) = ip_count ip (peers h);
  inv_ip_pos ip n : peers_per_ip h !! ip = Some n -> (0 < n)%nat;
  inv_ip_max ip : (ip_count ip (peers h) <= max_peers_per_ip h)%nat
}.

(** The reconnect watermarks: each is backed by an entry of the expiry queue,
    whose length is bounded by the peer limit. *)
Record WatermarkInv (h : Host) : Prop := {
  inv_order_len : (length (reconnect_watermark_order h) <= max_peers h)%nat;
  inv_order_in a w : reconnect_watermarks h !! a = Some w ->
    (a, w_generation w) ∈ reconnect_watermark_order h;
  inv_generation : 0 <= next_reconnect_watermark_generation h <= u64_max
}.

Definition HostInv (h : Host) : Prop := TableInv h /\ WatermarkInv h.

(** Ids of the live peers. *)
Definition live_ids (h : Host) : gset Z :=
  list_to_set ((fun kv : SocketAddr * Peer => p_id kv.2) <$> map_to_list (peers h)).

(** The session protocol a consumer of the events relies on: a peer connects
    before it sends data or disconnects, and never connects twice in a row. *)
Definition observe (live : gset Z) (e : Event) : option (gset Z) :=
  match e with
  | Connected i => if decide (i ∈ live) then None else Some ({[i]} ∪ live)
  | Data i _ => if decide (i ∈ live) then Some live else None
  | Disconnected i _ => if decide (i ∈ live) then Some (live ∖ {[i]}) else None
  end.

Fixpoint observe_all (live : gset Z) (events : list Event) : option (gset Z) :=
  match events with
  | [] => Some live
  | e :: events =>
      match observe live e with
      | Some live => observe_all live events
      | None => None
      end
  end.

Definition event_id (e : Event) : Z :=
  match e with Connected i | Data i _ | Disconnected i _ => i end.

(** Once a batch reports a peer disconnected, it does not mention its id
    again: no reused slot can be mistaken for the peer that left. *)
Definition no_alias (events : list Event) : Prop :=
  forall i j id r e, (i < j)%nat -> events !! i = Some (Disconnected id r) ->
    events !! j = Some e -> event_id e <> id.

(** The free slots a poll may reuse, and those it retired itself. *)
Definition retired (h : Host) (events : list Event) : Prop :=
  forall id r, Disconnected id r ∈ events ->
    exists s, s ∈ drop (available_free_peer_slots h) (free_peer_slots h) /\ id = Z.of_nat s + 1.

(** Everything a poll maintains between two datagrams. *)
Record PollInv (live0 : gset Z) (h : Host) (events : list Event) : Prop := {
  pi_table : TableInv h;
  pi_marks : WatermarkInv h;
  pi_observe : observe_all live0 events = Some (live_ids h);
  pi_retired : retired h events;
  pi_alias : no_alias events
}.

(** ** Lemmas *)
Lemma elem_of_live_ids h i :
  i ∈ live_ids h <-> exists a p, peers h !! a = Some p /\ p_id p = i.
Proof.
  unfold live_ids. rewrite elem_of_list_to_set, list_elem_of_fmap. split.
  - intros ([a p] & -> & Hin). apply elem_of_map_to_list in Hin. eauto.
  - intros (a & p & Hp & <-). exists (a, p). split; [done|]. by apply elem_of_map_to_list.
Qed.

Lemma elem_of_drop {A} n (l : list A) x : x ∈ drop n l -> x ∈ l.
Proof. rewrite <- (take_drop n l) at 2. rewrite elem_of_app. by right. Qed.

Lemma ip_count_insert_new ip a p m :
  m !! a = None ->
  ip_count ip (<[a := p]> m) = ((if decide (addr_ip a = ip) then 1 else 0) + ip_count ip m)%nat.
Proof.
  intros Ha. unfold ip_count. rewrite dom_insert_L.
  assert (Hd : a ∉ (dom m : gset SocketAddr)) by (by apply not_elem_of_dom). case_decide.
  - rewrite <- (size_singleton (C := gset SocketAddr) a), <- size_union by set_solver.
    f_equal. apply set_eq. intros x. set_solver.
  - rewrite Nat.add_0_l. f_equal. apply set_eq. intros x. set_solver.
Qed.

Lemma ip_count_dom ip m m' : dom m = dom m' -> ip_count ip m = ip_count ip m'.
Proof. unfold ip_count. by intros ->. Qed.

Lemma ip_count_delete ip a p m :
  m !! a = Some p ->
  ip_count ip m = ((if decide (addr_ip a = ip) then 1 else 0) + ip_count ip (delete a m))%nat.
Proof.
  intros Ha. rewrite <- (ip_count_insert_new ip a p) by apply lookup_delete_eq.
  by rewrite insert_delete_eq, insert_id.
Qed.

Lemma no_alias_snoc events e :
  no_alias events -> (forall r, Disconnected (event_id e) r ∉ events) ->
  no_alias (events ++ [e]).
Proof.
  intros Ha Hn i j id r e' Hij Hi Hj.
  rewrite lookup_app_l in Hi
    by (apply lookup_lt_Some in Hj; rewrite length_app in Hj; simpl in Hj; lia).
  apply lookup_snoc_Some in Hj as [[Hj Ej]|[-> ->]].
  - exact (Ha i j id r e' Hij Hi Ej).
  - intros <-. apply (Hn r). apply list_elem_of_lookup. eauto.
Qed.

Lemma observe_all_snoc live events e live1 :
  observe_all live events = Some live1 ->
  observe_all live (events ++ [e]) = observe live1 e.
Proof.
  revert live. induction events as [|x events IH]; intros live; simpl.
  - intros [= ->]. by destruct (observe live1 e).
  - destruct (observe live x); [apply IH|done].
Qed.

(** A peer's slot holds it alone, so ids and addresses determine each other. *)
Lemma inv_slot_inj h a b p q :
  TableInv h -> peers h !! a = Some p -> peers h !! b = Some q -> p_slot p = p_slot q -> a = b.
Proof.
  intros HI Ha Hb E.
  apply (inv_peer _ HI) in Ha as (_ & _ & _ & Ha). apply (inv_peer _ HI) in Hb as (_ & _ & _ & Hb).
  rewrite E in Ha. congruence.
Qed.

Lemma inv_id_inj h a b p q :
  TableInv h -> peers h !! a = Some p -> peers h !! b = Some q -> p_id p = p_id q -> a = b.
Proof.
  intros HI Ha Hb E. eapply inv_slot_inj; [done..|].
  apply (inv_peer _ HI) in Ha as (_ & Ia & _). apply (inv_peer _ HI) in Hb as (_ & Ib & _). lia.
Qed.

Lemma inv_live_not_free h a p :
  TableInv h -> peers h !! a = Some p -> p_slot p ∉ free_peer_slots h.
Proof.
  intros HI Ha. rewrite (inv_free _ HI). apply (inv_peer _ HI) in Ha as (_ & _ & _ & ->). done.
Qed.

(** A live peer has not been reported disconnected by the current batch. *)
Lemma live_not_retired h events a p r :
  TableInv h -> retired h events -> peers h !! a = Some p -> Disconnected (p_id p) r ∉ events.
Proof.
  intros HI Hr Ha Hin. apply Hr in Hin as (s & Hs & E).
  pose proof (inv_live_not_free _ _ _ HI Ha) as Hn. apply Hn.
  apply (inv_peer _ HI) in Ha as (_ & Ia & _).
  replace (p_slot p) with s by lia. by eapply elem_of_drop.
Qed.

(** The fields no handler of the peer table writes. *)
Definition same_config (h h' : Host) : Prop :=
  max_peers h' = max_peers h /\ max_peers_per_ip h' = max_peers_per_ip h /\
  connect_key h' = connect_key h /\ timeout h' = timeout h.

Definition same_marks (h h' : Host) : Prop :=
  reconnect_watermarks h' = reconnect_watermarks h /\
  reconnect_watermark_order h' = reconnect_watermark_order h /\
  next_reconnect_watermark_generation h' = next_reconnect_watermark_generation h /\
  max_peers h' = max_peers h.

Definition same_table (h h' : Host) : Prop :=
  peers h' = peers h /\ peer_slots h' = peer_slots h /\
  free_peer_slots h' = free_peer_slots h /\
  available_free_peer_slots h' = available_free_peer_slots h /\
  peers_per_ip h' = peers_per_ip h /\
  max_peers h' = max_peers h /\ max_peers_per_ip h' = max_peers_per_ip h.

Lemma marks_frame h h' : same_marks h h' -> WatermarkInv h -> WatermarkInv h'.
Proof.
  intros (E1 & E2 & E3 & E4) [H1 H2 H3].
  constructor; [by rewrite E2, E4|intros a w; rewrite E1, E2; apply H2|by rewrite E3].
Qed.

Lemma table_frame h h' : same_table h h' -> TableInv h -> TableInv h'.
Proof.
  intros (E1 & E2 & E3 & E4 & E5 & E6 & E7) [].
  constructor; rewrite ?E1, ?E2, ?E3, ?E4, ?E5, ?E6, ?E7; done.
Qed.

Lemma live_ids_ext h h' : peers h' = peers h -> live_ids h' = live_ids h.
Proof. unfold live_ids. by intros ->. Qed.

Lemma poll_marks live h h' events :
  same_table h h' -> WatermarkInv h' -> PollInv live h events -> PollInv live h' events.
Proof.
  intros Ht Hm [H1 H2 H3 H4 H5]. pose proof Ht as (E1 & _ & E3 & E4 & _). constructor; try done.
  - by eapply table_frame.
  - by rewrite (live_ids_ext h h').
  - unfold retired. by rewrite E3, E4.
Qed.

Lemma poll_frame live h h' events :
  same_table h h' -> same_marks h h' -> PollInv live h events -> PollInv live h' events.
Proof.
  intros Ht Hm HP. eapply poll_marks; [done| |done]. by eapply marks_frame, pi_marks.
Qed.

(** *** Refreshing a live peer *)
Definition same_identity (p p' : Peer) : Prop :=
  p_addr p' = p_addr p /\ p_slot p' = p_slot p /\ p_id p' = p_id p /\
  p_local_peer_id p' = p_local_peer_id p.

Lemma table_touch h a p p' :
  TableInv h -> peers h !! a = Some p -> same_identity p p' ->
  TableInv (h <| peers ::= <[a := p']> |>).
Proof.
  intros HI Ha (Ea & Es & Ei & El). destruct HI as [? ? Hp Hs ? ? ? ? Hip ? Hmax].
  assert (Hdom : dom (<[a := p']> (peers h)) = (dom (peers h) : gset _)).
  { rewrite dom_insert_L. apply elem_of_dom_2 in Ha. set_solver. }
  constructor; simpl; try done.
  - intros b q. rewrite lookup_insert. case_decide; [|apply Hp].
    intros [= <-]. subst b. destruct (Hp _ _ Ha) as (? & ? & ? & ?).
    unfold peer_ok. rewrite Ea, Es, Ei, El. done.
  - intros i b Hi. destruct (Hs i b Hi) as (q & Hq & <-). rewrite lookup_insert.
    case_decide; [|eauto]. subst b. rewrite Ha in Hq. injection Hq as <-. eauto.
  - by rewrite map_size_insert_Some.
  - intros ip. rewrite Hip. by apply ip_count_dom.
  - intros ip. by rewrite (ip_count_dom _ _ _ Hdom).
Qed.

Lemma live_ids_touch h a p p' :
  peers h !! a = Some p -> p_id p' = p_id p ->
  live_ids (h <| peers ::= <[a := p']> |>) = live_ids h.
Proof.
  intros Ha Ei. apply set_eq. intros i. rewrite !elem_of_live_ids. simpl. split.
  - intros (b & q & Hb & <-). rewrite lookup_insert in Hb.
    case_decide; [injection Hb as <-; subst b; rewrite Ei|]; eauto.
  - intros (b & q & Hb & <-). destruct (decide (a = b)) as [->|Hne].
    + exists b, p'. rewrite lookup_insert_eq. split; [done|]. congruence.
    + exists b, q. by rewrite lookup_insert_ne.
Qed.

Lemma poll_touch live h events a p p' :
  PollInv live h events -> peers h !! a = Some p -> same_identity p p' ->
  PollInv live (h <| peers ::= <[a := p']> |>) events.
Proof.
  intros [H1 H2 H3 H4 H5] Ha Hs. constructor; [by eapply table_touch|..]; try done.
  - by eapply marks_frame, H2.
  - erewrite live_ids_touch; [done..|apply Hs].
Qed.

Lemma poll_data live h events a p d :
  PollInv live h events -> peers h !! a = Some p ->
  PollInv live h (events ++ [Data (p_id p) d]).
Proof.
  intros [H1 H2 H3 H4 H5] Ha. constructor; try done.
  - rewrite (observe_all_snoc _ _ _ _ H3). simpl. rewrite decide_True; [done|].
    apply elem_of_live_ids. eauto.
  - intros id r Hin. apply elem_of_app in Hin as [Hin|Hin]; [by eapply H4|].
    by apply list_elem_of_singleton in Hin.
  - apply no_alias_snoc; [done|]. intros r. by eapply live_not_retired.
Qed.

(** *** Removing a peer *)
Lemma counter_decrement (m : gmap IpAddr nat) ip n :
  m !! ip = Some n -> (0 < n)%nat ->
  let m' := if decide (1 < n)%nat then <[ip := (n - 1)%nat]> m else delete ip m in
  (forall ip', default O (m' !! ip') =
     if decide (ip = ip') then (n - 1)%nat else default O (m !! ip')) /\
  ((forall ip' k, m !! ip' = Some k -> (0 < k)%nat) ->
   forall ip' k, m' !! ip' = Some k -> (0 < k)%nat).
Proof.
  intros Hm Hn m'. unfold m'. split.
  - intros ip'. case_decide as Hd; [rewrite lookup_insert|rewrite lookup_delete];
      case_decide; simpl; lia || done.
  - intros Hpos ip' k. case_decide; [rewrite lookup_insert|rewrite lookup_delete];
      case_decide; intros Hk; try done; try (injection Hk as <-; lia); by eapply Hpos.
Qed.

Lemma remove_peer_at_eq h a p n :
  peers h !! a = Some p -> peers_per_ip h !! addr_ip a = Some n ->
  remove_peer_at a h =
    (Some p, h <| peers_per_ip := (if decide (1 < n)%nat
                                   then <[addr_ip a := (n - 1)%nat]> (peers_per_ip h)
                                   else delete (addr_ip a) (peers_per_ip h)) |>
               <| peers ::= delete a |> <| peer_slots ::= <[p_slot p := None]> |>
               <| free_peer_slots ::= fun l => l ++ [p_slot p] |>).
Proof. intros Ha Hn. unfold remove_peer_at. rewrite Ha, Hn. by case_decide. Qed.

Lemma remove_peer_at_spec h a p :
  TableInv h -> peers h !! a = Some p ->
  exists h', remove_peer_at a h = (Some p, h') /\ TableInv h' /\
    peers h' = delete a (peers h) /\
    free_peer_slots h' = free_peer_slots h ++ [p_slot p] /\
    available_free_peer_slots h' = available_free_peer_slots h /\
    length (peer_slots h') = length (peer_slots h) /\
    same_marks h h' /\ same_config h h' /\ tx h' = tx h /\
    maintenance_cursor h' = maintenance_cursor h.
Proof.
  intros HI Ha.
  pose proof (fun ip => ip_count_delete ip a p (peers h) Ha) as Hc.
  assert (Hn : exists n, peers_per_ip h !! addr_ip a = Some n).
  { pose proof (inv_ip h HI (addr_ip a)) as Hip. specialize (Hc (addr_ip a)).
    rewrite decide_True in Hc by done. destruct (peers_per_ip h !! addr_ip a); [eauto|].
    simpl in Hip. lia. }
  destruct Hn as [n Hn]. eexists. split; [by apply remove_peer_at_eq|].
  destruct (counter_decrement _ _ _ Hn (inv_ip_pos h HI _ _ Hn)) as [Hdef Hpos'].
  assert (Hslot : peer_slots h !! p_slot p = Some (Some a)) by (by apply (inv_peer h HI)).
  assert (Hlt := lookup_lt_Some _ _ _ Hslot).
  assert (Hnf := inv_live_not_free _ _ _ HI Ha).
  assert (Hinj : forall b q, peers h !! b = Some q -> b <> a -> p_slot q <> p_slot p).
  { intros b q Hb Hne E. apply Hne. by eapply inv_slot_inj. }
  destruct HI as [Hlim Hlen Hp Hs Hf Hnd Hcnt Hav Hip Hpos Hmax].
  split_and!; try done; [|by simpl; rewrite length_insert].
  constructor; simpl; try done.
  - by rewrite length_insert.
  - intros b q. rewrite lookup_delete_Some. intros [Hne Hq].
    destruct (Hp _ _ Hq) as (? & ? & ? & ?). unfold peer_ok.
    rewrite list_lookup_insert_ne; [done|]. intros E. by eapply Hinj.
  - intros i b Hi. destruct (decide (i = p_slot p)) as [->|Hne].
    { by rewrite list_lookup_insert_eq in Hi. }
    rewrite list_lookup_insert_ne in Hi by done. destruct (Hs _ _ Hi) as (q & Hq & <-).
    exists q. rewrite lookup_delete_ne; [done|]. intros ->. congruence.
  - intros i. rewrite elem_of_app, list_elem_of_singleton, Hf.
    destruct (decide (i = p_slot p)) as [->|Hne].
    + rewrite list_lookup_insert_eq by done. naive_solver.
    + rewrite list_lookup_insert_ne by done. naive_solver.
  - apply NoDup_app. split_and!; [done| |by apply NoDup_singleton].
    intros x Hx ->%list_elem_of_singleton. done.
  - rewrite length_app, length_insert. simpl.
    pose proof (size_delete_Some _ _ _ Ha). lia.
  - rewrite length_app. lia.
  - intros ip. rewrite Hdef. specialize (Hc ip). pose proof (Hip (addr_ip a)) as Hia.
    rewrite Hn in Hia. simpl in Hia.
    destruct (decide (addr_ip a = ip)) as [<-|]; [lia|]. rewrite Hip. lia.
  - apply Hpos'. apply Hpos.
  - intros ip. specialize (Hc ip). specialize (Hmax ip). lia.
Qed.

Lemma live_ids_delete h h' a p :
  TableInv h -> peers h !! a = Some p -> peers h' = delete a (peers h) ->
  live_ids h' = live_ids h ∖ {[p_id p]}.
Proof.
  intros HI Ha E. apply set_eq. intros i.
  rewrite elem_of_difference, elem_of_singleton, !elem_of_live_ids, E. split.
  - intros (b & q & Hb & <-). apply lookup_delete_Some in Hb as [Hne Hb].
    split; [eauto|]. intros Hi. apply Hne. by eapply inv_id_inj.
  - intros [(b & q & Hb & <-) Hne]. exists b, q. rewrite lookup_delete_ne; [done|].
    intros ->. congruence.
Qed.

Lemma poll_remove live h events a p r :
  PollInv live h events -> peers h !! a = Some p ->
  PollInv live (remove_peer_at a h).2 (events ++ [Disconnected (p_id p) r]).
Proof.
  intros [H1 H2 H3 H4 H5] Ha.
  destruct (remove_peer_at_spec h a p H1 Ha)
    as (h' & -> & H1' & Ep & Ef & Eav & _ & Hm & _). simpl. constructor; [done|..].
  - by eapply marks_frame.
  - rewrite (observe_all_snoc _ _ _ _ H3). simpl.
    rewrite decide_True by (apply elem_of_live_ids; eauto).
    by rewrite (live_ids_delete h h' a p).
  - intros id r' Hin. rewrite Ef, Eav, drop_app_le by apply (inv_avail h H1).
    apply elem_of_app in Hin as [Hin|Hin].
    + destruct (H4 _ _ Hin) as (s & Hs & ->). exists s. rewrite elem_of_app. auto.
    + apply list_elem_of_singleton in Hin. injection Hin as -> ->.
      exists (p_slot p). rewrite elem_of_app, list_elem_of_singleton.
      split; [by right|]. by destruct (inv_peer h H1 _ _ Ha) as (_ & ? & _).
  - apply no_alias_snoc; [done|]. intros r'. by apply (live_not_retired h events a p).
Qed.

(** *** Admitting a peer *)

(** A slot between its allocation and the insertion of its peer. *)
Record Allocated (h h1 : Host) (slot : nat) : Prop := {
  al_slot : peer_slots h1 !! slot = Some None;
  al_other i : i <> slot -> peer_slots h1 !! i = peer_slots h !! i;
  al_vacant a : peer_slots h !! slot <> Some (Some a);
  al_len : (length (peer_slots h1) <= max_peers h)%nat;
  al_free i : i ∈ free_peer_slots h1 <-> peer_slots h1 !! i = Some None /\ i <> slot;
  al_nodup : NoDup (free_peer_slots h1);
  al_count : (S (size (peers h)) + length (free_peer_slots h1) = length (peer_slots h1))%nat;
  al_avail : (available_free_peer_slots h1 <= length (free_peer_slots h1))%nat;
  al_retired : drop (available_free_peer_slots h1) (free_peer_slots h1) =
               drop (available_free_peer_slots h) (free_peer_slots h);
  al_fresh : slot ∉ drop (available_free_peer_slots h) (free_peer_slots h);
  al_peers : peers h1 = peers h;
  al_ip : peers_per_ip h1 = peers_per_ip h;
  al_marks : same_marks h h1;
  al_config : same_config h h1
}.

Lemma allocate_spec h slot h1 :
  TableInv h -> allocate_peer_slot h = (Some slot, h1) -> Allocated h h1 slot.
Proof.
  intros HI. unfold allocate_peer_slot.
  pose proof (inv_free h HI) as Hf. pose proof (inv_free_nodup h HI) as Hnd.
  pose proof (inv_count h HI) as Hc. pose proof (inv_avail h HI) as Hav.
  pose proof (inv_slots_len h HI) as Hlen.
  case_decide as Hd; [intros [= <- <-]|].
  - assert (Hout : peer_slots h !! length (peer_slots h) = None) by (by apply lookup_ge_None).
    constructor; simpl; try done.
    + by apply list_lookup_middle.
    + intros i Hi. destruct (decide (i < length (peer_slots h))%nat).
      * by rewrite lookup_app_l.
      * rewrite !lookup_ge_None_2; [done|lia|]. rewrite length_app. simpl. lia.
    + by rewrite Hout.
    + rewrite length_app. simpl. lia.
    + intros i. rewrite Hf. split.
      * intros Hi. pose proof (lookup_lt_Some _ _ _ Hi).
        rewrite lookup_app_l by done. split; [done|lia].
      * intros [Hi Hne]. apply lookup_snoc_Some in Hi as [[_ Hi]|[-> _]]; done.
    + rewrite length_app. simpl. lia.
    + intros Hin. apply elem_of_drop, Hf in Hin. congruence.
  - destruct (available_free_peer_slots h) as [|n] eqn:Ea; [done|].
    destruct (free_peer_slots h) as [|s rest] eqn:Ef; [simpl in Hav; lia|].
    intros [= <- <-]. simpl in *. apply NoDup_cons in Hnd as [Hs Hnd].
    assert (Hslot : peer_slots h !! s = Some None) by (apply Hf; left).
    constructor; simpl; rewrite ?Ea, ?Ef; simpl; try done; try lia.
    + intros a. congruence.
    + intros i. rewrite <- Hf, elem_of_cons. split; [|naive_solver].
      intros Hi. split; [by right|]. by intros ->.
    + intros Hin. by apply elem_of_drop in Hin.
Qed.

Lemma table_admit h h1 slot p :
  TableInv h -> Allocated h h1 slot -> peers h !! p_addr p = None ->
  (ip_count (addr_ip (p_addr p)) (peers h) < max_peers_per_ip h)%nat ->
  p_slot p = slot -> p_id p = Z.of_nat slot + 1 -> p_local_peer_id p = Z.of_nat slot ->
  TableInv (insert_peer p h1).
Proof.
  intros HI HA Ha Hip Es Ei El.
  pose proof (fun ip => ip_count_insert_new ip (p_addr p) p (peers h) Ha) as Hcnt.
  pose proof (lookup_lt_Some _ _ _ (al_slot _ _ _ HA)) as Hlt.
  destruct (al_config _ _ _ HA) as (Em & Emi & _).
  constructor; simpl; rewrite ?Em, ?Emi, ?(al_peers _ _ _ HA), ?(al_ip _ _ _ HA), ?Es.
  - apply (inv_limits h HI).
  - rewrite length_insert. apply (al_len _ _ _ HA).
  - intros b q. rewrite lookup_insert. case_decide as Hd.
    + intros [= <-]. subst b. unfold peer_ok. rewrite Es, list_lookup_insert_eq by done. done.
    + intros Hq. destruct (inv_peer h HI _ _ Hq) as (? & ? & ? & Hsl). unfold peer_ok.
      assert (p_slot q <> slot) by (intros E; rewrite E in Hsl; by eapply al_vacant).
      rewrite list_lookup_insert_ne, (al_other _ _ _ HA) by done. done.
  - intros i b Hi. destruct (decide (i = slot)) as [->|Hne].
    + rewrite list_lookup_insert_eq in Hi by done. injection Hi as <-.
      exists p. by rewrite lookup_insert_eq.
    + rewrite list_lookup_insert_ne, (al_other _ _ _ HA) in Hi by done.
      destruct (inv_slot h HI _ _ Hi) as (q & Hq & <-). exists q.
      rewrite lookup_insert_ne by congruence. done.
  - intros i. rewrite (al_free _ _ _ HA). destruct (decide (i = slot)) as [->|Hne].
    + rewrite list_lookup_insert_eq by done. naive_solver.
    + rewrite list_lookup_insert_ne by done. naive_solver.
  - apply (al_nodup _ _ _ HA).
  - rewrite map_size_insert_None, length_insert by done. apply (al_count _ _ _ HA).
  - apply (al_avail _ _ _ HA).
  - intros ip. rewrite lookup_insert, Hcnt. pose proof (inv_ip h HI ip) as Hi.
    pose proof (inv_ip h HI (addr_ip (p_addr p))) as Hi'.
    destruct (decide (addr_ip (p_addr p) = ip)) as [<-|]; [simpl; lia|]. by rewrite Hi.
  - intros ip n. rewrite lookup_insert. case_decide; [intros [= <-]; lia|apply (inv_ip_pos h HI)].
  - intros ip. rewrite Hcnt.
    destruct (decide (addr_ip (p_addr p) = ip)) as [<-|]; [lia|]. apply (inv_ip_max h HI).
Qed.

Lemma live_ids_insert h h' p :
  peers h !! p_addr p = None -> peers h' = <[p_addr p := p]> (peers h) ->
  live_ids h' = {[p_id p]} ∪ live_ids h.
Proof.
  intros Ha E. apply set_eq. intros i.
  rewrite elem_of_union, elem_of_singleton, !elem_of_live_ids, E. split.
  - intros (b & q & Hb & <-). rewrite lookup_insert in Hb.
    case_decide; [injection Hb as <-; by left|right; eauto].
  - intros [->|(b & q & Hb & <-)].
    + exists (p_addr p), p. by rewrite lookup_insert_eq.
    + exists b, q. rewrite lookup_insert_ne; [done|]. congruence.
Qed.

Lemma poll_admit live h events h1 slot p :
  PollInv live h events -> allocate_peer_slot h = (Some slot, h1) ->
  peers h !! p_addr p = None ->
  (ip_count (addr_ip (p_addr p)) (peers h) < max_peers_per_ip h)%nat ->
  p_slot p = slot -> p_id p = Z.of_nat slot + 1 -> p_local_peer_id p = Z.of_nat slot ->
  PollInv live (insert_peer p h1) (events ++ [Connected (p_id p)]).
Proof.
  intros [H1 H2 H3 H4 H5] Hal Ha Hip Es Ei El.
  pose proof (allocate_spec _ _ _ H1 Hal) as HA. constructor.
  - by eapply table_admit.
  - eapply marks_frame, H2. apply (al_marks _ _ _ HA).
  - rewrite (observe_all_snoc _ _ _ _ H3). simpl. rewrite decide_False.
    + erewrite <- (live_ids_insert h (insert_peer p h1)); [done..|].
      simpl. by rewrite (al_peers _ _ _ HA).
    + rewrite elem_of_live_ids. intros (b & q & Hq & E).
      destruct (inv_peer h H1 _ _ Hq) as (_ & Hid & _ & Hsl).
      replace (p_slot q) with slot in Hsl by lia. by eapply al_vacant.
  - intros id r Hin. simpl. rewrite (al_retired _ _ _ HA).
    apply elem_of_app in Hin as [Hin|Hin]; [by eapply H4|].
    by apply list_elem_of_singleton in Hin.
  - apply no_alias_snoc; [done|]. intros r Hin. simpl in Hin.
    destruct (H4 _ _ Hin) as (s & Hs & E). apply (al_fresh _ _ _ HA).
    by replace slot with s by lia.
Qed.

(** *** Watermarks *)
Lemma same_table_refl h : same_table h h.
Proof. by repeat split. Qed.

Lemma same_table_trans h h1 h2 : same_table h h1 -> same_table h1 h2 -> same_table h h2.
Proof. unfold same_table. intros. destruct_and!. split_and!; congruence. Qed.

Lemma same_config_trans h h1 h2 : same_config h h1 -> same_config h1 h2 -> same_config h h2.
Proof. unfold same_config. intros. destruct_and!. split_and!; congruence. Qed.

#[export] Hint Resolve same_table_refl : sw.

(** Dropping the head of the queue keeps every watermark backed when the one
    it backs, if any, is dropped with it. *)
Lemma marks_pop h a g order :
  WatermarkInv h -> reconnect_watermark_order h = (a, g) :: order ->
  WatermarkInv (h <| reconnect_watermark_order := order |>
                  <| reconnect_watermarks ::= delete a |>) /\
  ((forall w, reconnect_watermarks h !! a = Some w -> w_generation w <> g) ->
   WatermarkInv (h <| reconnect_watermark_order := order |>)).
Proof.
  intros [Hl Hin Hg] E. rewrite E in Hl, Hin. simpl in Hl. split.
  - constructor; simpl; [lia| |done]. intros b w Hb. apply lookup_delete_Some in Hb as [Hne Hb].
    apply Hin in Hb. apply elem_of_cons in Hb as [Hb|Hb]; [congruence|done].
  - intros Hne. constructor; simpl; [lia| |done]. intros b w Hb. pose proof (Hin _ _ Hb) as Hb'.
    apply elem_of_cons in Hb' as [[= -> <-]|Hb']; [|done]. by apply Hne in Hb.
Qed.

Lemma marks_push h a w :
  (length (reconnect_watermark_order h) < max_peers h)%nat ->
  (forall b v, reconnect_watermarks h !! b = Some v ->
     (b, w_generation v) ∈ reconnect_watermark_order h) ->
  0 <= next_reconnect_watermark_generation h <= u64_max ->
  WatermarkInv (h <| reconnect_watermarks ::= <[a := w]> |>
                  <| reconnect_watermark_order ::= fun l => l ++ [(a, w_generation w)] |>).
Proof.
  intros Hl Hin Hg. constructor; simpl; [rewrite length_app; simpl; lia| |done].
  intros b v. rewrite lookup_insert, elem_of_app, list_elem_of_singleton.
  case_decide; [intros [= <-]; subst; by right|]. intros Hb. left. by apply Hin.
Qed.

(** The queue once [record_reconnect_watermark] has made room in it. *)
Definition make_room (h : Host) : Host :=
  if decide (length (reconnect_watermark_order h) = max_peers h) then
    match reconnect_watermark_order h with
    | (a, g) :: order =>
        let h := h <| reconnect_watermark_order := order |> in
        match reconnect_watermarks h !! a with
        | Some w => if decide (w_generation w = g)
                    then h <| reconnect_watermarks ::= delete a |> else h
        | None => h
        end
    | [] => h
    end
  else h.

Lemma make_room_spec h :
  WatermarkInv h -> (0 < max_peers h)%nat ->
  WatermarkInv (make_room h) /\
  (length (reconnect_watermark_order (make_room h)) < max_peers h)%nat /\
  same_table h (make_room h) /\ same_config h (make_room h) /\
  next_reconnect_watermark_generation (make_room h) = next_reconnect_watermark_generation h.
Proof.
  intros HW Hpos. unfold make_room. pose proof (inv_order_len h HW) as Hl. case_decide as Hd.
  2: { split_and!; try done. lia. }
  destruct (reconnect_watermark_order h) as [|[a g] order] eqn:Eo; [simpl in Hd; lia|].
  destruct (marks_pop h a g order HW Eo) as [H1 H2]. simpl in Hl, Hd. simpl.
  destruct (reconnect_watermarks h !! a) as [w|] eqn:Ew; [case_decide as Hg|].
  - split_and!; first [done | simpl; lia].
  - split_and!; try (first [done | simpl; lia]). apply H2. intros w' E. congruence.
  - split_and!; try (first [done | simpl; lia]). apply H2. done.
Qed.

Lemma record_watermark_spec addr t now h :
  WatermarkInv h -> (0 < max_peers h)%nat ->
  let h' := record_reconnect_watermark addr t now h in
  WatermarkInv h' /\ same_table h h' /\ same_config h h'.
Proof.
  intros HW Hpos. unfold record_reconnect_watermark.
  set (h1 := if decide (_ = u64_max) then _ else h).
  assert (H1 : WatermarkInv h1 /\ next_reconnect_watermark_generation h1 < u64_max /\
               same_table h h1 /\ same_config h h1).
  { unfold h1. pose proof (inv_generation h HW). case_decide; split_and!; try done; simpl; try lia.
    constructor; simpl; [lia|intros ? ?; by rewrite lookup_empty|]. unfold u64_max. lia. }
  clearbody h1. destruct H1 as (HW1 & Hg & Ht & Hc).
  set (h2 := h1 <| next_reconnect_watermark_generation ::= _ |>).
  assert (HW2 : WatermarkInv h2).
  { destruct HW1. constructor; simpl; [done..|]. lia. }
  assert (Hm2 : max_peers h2 = max_peers h) by apply Hc.
  cbv zeta. fold (make_room h2).
  destruct (make_room_spec h2 HW2) as (HW3 & Hl & Ht3 & Hc3 & Hg3); [lia|].
  set (h3 := make_room h2) in *. clearbody h3.
  assert (Hm3 : max_peers h3 = max_peers h2) by apply Hc3.
  split; [|split].
  - set (w := match reconnect_watermarks h3 !! addr with Some _ => _ | None => _ end).
    replace (next_reconnect_watermark_generation h2) with (w_generation w)
      by (unfold w; by case_match).
    apply marks_push; [lia|apply (inv_order_in h3 HW3)|apply (inv_generation h3 HW3)].
  - eapply same_table_trans; [|apply Ht3]. eapply same_table_trans; [apply Ht|done].
  - eapply same_config_trans; [|apply Hc3]. eapply same_config_trans; [apply Hc|done].
Qed.

Lemma expire_loop_spec fuel now h work :
  WatermarkInv h ->
  let '(h', work') := expire_loop fuel now h work in
  WatermarkInv h' /\ same_table h h' /\ same_config h h' /\
  (watermark_cleanups work' <= fuel + watermark_cleanups work)%nat /\
  work' = work <| watermark_cleanups := watermark_cleanups work' |>.
Proof.
  revert h work. induction fuel as [|fuel IH]; intros h work HW.
  { simpl. split_and!; first [done | by destruct work]. }
  assert (Hstop : WatermarkInv h /\ same_table h h /\ same_config h h /\
    (watermark_cleanups work <= S fuel + watermark_cleanups work)%nat /\
    work = work <| watermark_cleanups := watermark_cleanups work |>).
  { split_and!; first [done | lia | by destruct work]. }
  assert (Hgo : forall h1, same_table h h1 -> same_config h h1 -> WatermarkInv h1 ->
    let '(h', work') := expire_loop fuel now h1 (work <| watermark_cleanups ::= S |>) in
    WatermarkInv h' /\ same_table h h' /\ same_config h h' /\
    (watermark_cleanups work' <= S fuel + watermark_cleanups work)%nat /\
    work' = work <| watermark_cleanups := watermark_cleanups work' |>).
  { intros h1 Ht Hc HW1. specialize (IH h1 (work <| watermark_cleanups ::= S |>) HW1).
    destruct (expire_loop _ _ _ _) as [h' work']. destruct IH as (? & Ht' & Hc' & Hn & E).
    simpl in Hn. split_and!; [done|by eapply same_table_trans|by eapply same_config_trans|lia|].
    rewrite E. by destruct work. }
  simpl. destruct (reconnect_watermark_order h) as [|[a g] order] eqn:Eo; [done|].
  destruct (marks_pop h a g order HW Eo) as [H1 H2].
  destruct (reconnect_watermarks h !! a) as [w|] eqn:Ew; [case_decide as Hg; [case_decide|]|].
  - exact Hstop.
  - apply Hgo; done.
  - apply Hgo; [done..|]. apply H2. intros w' E. congruence.
  - apply Hgo; [done..|]. apply H2. done.
Qed.

(** *** The datagram handlers *)
Lemma same_config_refl h : same_config h h.
Proof. by repeat split. Qed.

#[export] Hint Resolve same_config_refl : sw.

(** What every handler keeps: the poll's invariant and the configuration. *)
Definition keeps (live : gset Z) (h : Host) (r : Host * list Event) : Prop :=
  PollInv live r.1 r.2 /\ same_config h r.1.

Lemma keeps_trans live h h1 r : same_config h h1 -> keeps live h1 r -> keeps live h r.
Proof. intros Hc [HP Hc']. split; [done|]. by eapply same_config_trans. Qed.

Lemma keeps_refl live h events : PollInv live h events -> keeps live h (h, events).
Proof. by split; [|apply same_config_refl]. Qed.

Lemma poll_send live h events a d :
  PollInv live h events -> PollInv live (send_to a d h) events.
Proof. by apply poll_frame. Qed.

#[export] Hint Resolve keeps_refl poll_send : sw.

Lemma handle_ping_keeps live data a now wall h events :
  PollInv live h events -> keeps live h (handle_ping data a now wall h, events).
Proof.
  intros HP. unfold handle_ping. destruct (read_sequence data); [|auto with sw].
  destruct (peers h !! a) as [p|] eqn:Ep; [|auto with sw].
  split; [|done]. apply poll_send. by eapply poll_touch.
Qed.

Lemma handle_pong_keeps live data a now h events :
  PollInv live h events -> keeps live h (handle_pong data a now h, events).
Proof.
  intros HP. unfold handle_pong. destruct (read_sequence data); [|auto with sw].
  destruct (peers h !! a) as [p|] eqn:Ep; [|auto with sw].
  split; [|done]. eapply poll_touch; [done..|].
  case_decide; [|done]. by case_match.
Qed.

Lemma remove_keeps live h events a p r :
  PollInv live h events -> peers h !! a = Some p ->
  keeps live h ((remove_peer_at a h).2, events ++ [Disconnected (p_id p) r]).
Proof.
  intros HP Ha. split; [by apply poll_remove|].
  destruct (remove_peer_at_spec h a p (pi_table _ _ _ HP) Ha)
    as (h' & -> & _ & _ & _ & _ & _ & _ & Hc & _). done.
Qed.

Lemma handle_disconnect_keeps live data a h events :
  PollInv live h events -> keeps live h (handle_disconnect data a h events).
Proof.
  intros HP. unfold handle_disconnect. destruct (read_disconnect_time data); [|auto with sw].
  destruct (peers h !! a) as [p|] eqn:Ep; [|auto with sw].
  case_decide; [auto with sw|].
  eapply keeps_trans; [|apply remove_keeps; [by apply poll_send|done]]. done.
Qed.

Lemma poll_forget live h events a :
  PollInv live h events -> PollInv live (h <| reconnect_watermarks ::= delete a |>) events.
Proof.
  intros HP. apply (poll_marks live h); [done| |done]. destruct (pi_marks _ _ _ HP) as [Hl Hin Hg].
  constructor; simpl; [done| |done]. intros b w Hb. apply lookup_delete_Some in Hb as [_ Hb]. auto.
Qed.

Lemma accept_keeps live req a now replaced h events :
  PollInv live h events -> peers h !! a = None ->
  (ip_count (addr_ip a) (peers h) < max_peers_per_ip h)%nat ->
  keeps live h (accept_connect_request req a now replaced h events).
Proof.
  intros HP Ha Hip. unfold accept_connect_request.
  destruct (allocate_peer_slot h) as [[slot|] h1] eqn:Eal.
  - pose proof (allocate_spec _ _ _ (pi_table _ _ _ HP) Eal) as HA.
    split; [|apply (al_config _ _ _ HA)]. apply poll_forget.
    set (p := mkPeer _ _ _ _ _ _ _ _ _ _ _).
    apply (poll_frame live (insert_peer p h1)); [done..|].
    by apply (poll_admit live h events h1 slot p).
  - assert (h1 = h) as ->.
    { revert Eal. unfold allocate_peer_slot. case_decide; [done|].
      destruct (available_free_peer_slots h) as [|n] eqn:En; [congruence|].
      destruct (free_peer_slots h) eqn:Ef; [|done].
      pose proof (inv_avail h (pi_table _ _ _ HP)) as Hav. rewrite Ef, En in Hav. simpl in Hav. lia. }
    destruct replaced; [|auto with sw].
    destruct (record_watermark_spec a (cr_connect_time req) now h) as (HW & Ht & Hc).
    + apply (pi_marks _ _ _ HP).
    + pose proof (inv_limits h (pi_table _ _ _ HP)). lia.
    + split; [|done]. by apply (poll_marks live h).
Qed.

Lemma handle_connect_keeps live data a now h events :
  PollInv live h events -> keeps live h (handle_connect_request data a now h events).
Proof.
  intros HP. unfold handle_connect_request.
  destruct (parse_connect_request data) as [req|]; [|auto with sw].
  case_decide; [split; [by apply poll_send|done]|]. case_decide; [auto with sw|].
  destruct (peers h !! a) as [p|] eqn:Ep.
  - case_decide; [auto with sw|]. case_decide; [split; [by apply poll_send|done]|].
    pose proof (remove_keeps _ _ _ _ _ Remote HP Ep) as [HP' Hc'].
    eapply keeps_trans; [apply Hc'|].
    destruct (remove_peer_at_spec h a p (pi_table _ _ _ HP) Ep)
      as (h' & E & _ & Ep' & _ & _ & _ & _ & Hc & _).
    rewrite E in HP' |- *. simpl in *. apply accept_keeps; [done| |].
    + rewrite Ep'. apply lookup_delete_eq.
    + rewrite Ep'. destruct Hc as (_ & -> & _).
      pose proof (inv_ip_max h (pi_table _ _ _ HP) (addr_ip a)) as Hm.
      rewrite (ip_count_delete _ a p _ Ep), decide_True in Hm by done. lia.
  - assert (Hadmit : forall h1, PollInv live h1 events -> same_config h h1 -> peers h1 = peers h ->
      keeps live h (if decide (max_peers h1 <= size (peers h1) \/
                       max_peers_per_ip h1 <= default O (peers_per_ip h1 !! addr_ip a))%nat
                    then (h1, events)
                    else accept_connect_request req a now false h1 events)).
    { intros h1 HP1 Hc1 E1. eapply keeps_trans; [done|]. case_decide as Hd; [auto with sw|].
      apply accept_keeps; [done|by rewrite E1|].
      rewrite (inv_ip h1 (pi_table _ _ _ HP1)) in Hd. lia. }
    destruct (reconnect_watermarks h !! a) as [w|] eqn:Ew; [|by apply Hadmit; auto with sw].
    case_decide; [auto with sw|]. apply Hadmit; [|done..].
    apply (poll_marks live h); [done| |done]. destruct (pi_marks _ _ _ HP) as [Hl Hin Hg].
    constructor; simpl; [done| |done].
    intros b v. rewrite lookup_insert. case_decide; [|apply Hin].
    intros [= <-]. subst b. by apply (Hin a w).
Qed.

Lemma handle_datagram_keeps live data a now wall h events :
  PollInv live h events -> keeps live h (handle_datagram data a now wall h events).
Proof.
  intros HP. unfold handle_datagram. destruct data as [|b0 payload]; [auto with sw|].
  destruct (h_fragmented _); [auto with sw|].
  case_decide; [by apply handle_connect_keeps|].
  destruct (peers h !! a) as [p|] eqn:Ep; [|auto with sw].
  case_decide; [auto with sw|]. case_decide; [|case_decide; [|case_decide; [|case_decide]]].
  - split; [|done]. eapply (poll_touch live h _ a p); [by eapply poll_data|done..].
  - by apply handle_ping_keeps.
  - by apply handle_pong_keeps.
  - by apply handle_disconnect_keeps.
  - auto with sw.
Qed.

(** *** The poll *)

(** The kernel delivers the datagram it let the host peek at. *)
Definition coherent (step : SockStep) : Prop :=
  match s_peek step, s_recv step with
  | PeekOk n, RecvOk data _ => len data = n
  | _, _ => True
  end.

Lemma handle_datagram_grows data a now wall h events :
  exists new, (handle_datagram data a now wall h events).2 = events ++ new /\ (length new <= 2)%nat.
Proof.
  assert (H0 : exists new, events = events ++ new /\ (length new <= 2)%nat)
    by (exists []; rewrite app_nil_r; simpl; split; [done|lia]).
  assert (H1 : forall e, exists new, events ++ [e] = events ++ new /\ (length new <= 2)%nat)
    by (intros e; exists [e]; simpl; split; [done|lia]).
  assert (Ha : forall req b h events, (accept_connect_request req a now b h events).2 = events \/
    exists e, (accept_connect_request req a now b h events).2 = events ++ [e]).
  { intros. unfold accept_connect_request. repeat case_match; simpl; eauto. }
  unfold handle_datagram, handle_connect_request, handle_disconnect.
  repeat (case_match; simpl; try done);
    match goal with
    | |- context [accept_connect_request ?r a now ?b ?h ?ev] =>
        destruct (Ha r b h ev) as [->|[? ->]]; try done; rewrite <- ?app_assoc;
          (exists [_]; simpl; split; [done|lia]) || (eexists [_; _]; simpl; split; [done|lia])
    end.
Qed.

Definition socket_budget (work : PollWork) (events : list Event) : Prop :=
  (packets work <= MAX_POLL_PACKETS)%nat /\ (length events <= 2 * packets work)%nat.

(** The counters [drain_socket] does not write. *)
Definition same_maintenance (w w' : PollWork) : Prop :=
  timeout_events w' = timeout_events w /\ maintenance_scans w' = maintenance_scans w /\
  keepalive_sends w' = keepalive_sends w /\ watermark_cleanups w' = watermark_cleanups w.

Lemma drain_socket_spec live script now h events work :
  PollInv live h events -> socket_budget work events ->
  let '(h', events', work') := drain_socket script now h events work in
  keeps live h (h', events') /\ socket_budget work' events' /\ same_maintenance work work'.
Proof.
  revert h events work. induction script as [|step script IH]; intros h events work HP HB;
    [by split; [apply keeps_refl|]|].
  assert (Hstop : keeps live h (h, events) /\ socket_budget work events /\ same_maintenance work work)
    by (split; [by apply keeps_refl|done]).
  assert (Hgo : forall h1 events1 work1, keeps live h (h1, events1) ->
    socket_budget work1 events1 -> same_maintenance work work1 ->
    let '(h', events', work') := drain_socket script now h1 events1 work1 in
    keeps live h (h', events') /\ socket_budget work' events' /\ same_maintenance work work').
  { intros h1 events1 work1 [HP1 Hc1] HB1 Hm. specialize (IH h1 events1 work1 HP1 HB1).
    destruct (drain_socket _ _ _ _ _) as [[h' events'] work']. destruct IH as (Hk & HB' & Hm').
    split; [by eapply keeps_trans|]. split; [done|].
    unfold same_maintenance in *. destruct_and!. split_and!; congruence. }
  unfold socket_budget in HB. simpl. case_decide as Hp; [|done]. case_decide as Hb; [|done].
  destruct (s_peek step) as [n| | |]; [|done|apply Hgo; [by apply keeps_refl| |done]|done].
  2: { unfold socket_budget. simpl. lia. }
  case_decide as Hn; [done|].
  destruct (s_recv step) as [data a| | |]; [|done|apply Hgo; [by apply keeps_refl| |done]|done].
  2: { unfold socket_budget. simpl. lia. }
  case_decide.
  { apply Hgo; [by apply keeps_refl| |done]. unfold socket_budget. simpl. lia. }
  pose proof (handle_datagram_keeps live data a now (s_wall step) h events HP) as Hk.
  destruct (handle_datagram_grows data a now (s_wall step) h events) as (new & E & Hnew).
  destruct (handle_datagram _ _ _ _ _ _) as [h1 events1]. simpl in E. subst events1.
  apply Hgo; [done| |done]. unfold socket_budget. rewrite length_app. simpl. lia.
Qed.

Lemma drain_socket_bytes script now h events work :
  Forall coherent script -> bytes work <= MAX_POLL_BYTES ->
  bytes (drain_socket script now h events work).2 <= MAX_POLL_BYTES.
Proof.
  intros Hs. revert h events work.
  induction Hs as [|step script Hc Hs IH]; intros h events work HB; [done|].
  unfold coherent in Hc. simpl. case_decide; [|done]. case_decide; [|done].
  destruct (s_peek step); [|done|by apply IH|done]. case_decide; [done|].
  destruct (s_recv step); [|done|by apply IH|done]. case_decide; [apply IH; simpl; lia|].
  destruct (handle_datagram _ _ _ _ _ _). apply IH. simpl. lia.
Qed.

(** Peers a maintenance scan may report, and the keepalives it may send. *)
Definition maintenance_budget (work : PollWork) : Prop :=
  (timeout_events work <= MAX_POLL_TIMEOUT_EVENTS)%nat /\
  (keepalive_sends work <= maintenance_scans work)%nat.

(** The counters maintenance does not write, and the one event per timeout. *)
Definition maintenance_effect (n : nat) (events events' : list Event) (w w' : PollWork) : Prop :=
  packets w' = packets w /\ bytes w' = bytes w /\ socket_events w' = socket_events w /\
  watermark_cleanups w' = watermark_cleanups w /\
  maintenance_scans w' = (n + maintenance_scans w)%nat /\
  (length events' + timeout_events w = length events + timeout_events w')%nat.

Lemma maintenance_step_spec live count now h events work :
  PollInv live h events -> maintenance_budget work ->
  let '(h', events', work') := maintenance_step count now h events work in
  keeps live h (h', events') /\ maintenance_budget work' /\
  maintenance_effect 1 events events' work work'.
Proof.
  intros HP HB. unfold maintenance_step.
  set (slot := if decide (count <= maintenance_cursor h)%nat then _ else _).
  set (h0 := h <| maintenance_cursor := S slot |>).
  assert (HP0 : PollInv live h0 events) by (by apply (poll_frame live h)).
  assert (Hc0 : same_config h h0) by done. clearbody h0. clear HP.
  unfold maintenance_budget, maintenance_effect in *.
  assert (Hk0 : keeps live h (h0, events)) by (by eapply keeps_trans; [|apply keeps_refl]).
  destruct (peer_slots h0 !! slot) as [[a|]|]; [|split; [done|simpl; lia]..].
  destruct (peers h0 !! a) as [p|] eqn:Ep.
  2: { case_decide; (split; [done|simpl; lia]). }
  case_bool_decide; [case_decide as Ht|].
  - pose proof (remove_keeps _ _ _ _ _ Timeout HP0 Ep) as Hk.
    destruct (remove_peer_at_spec h0 a p (pi_table _ _ _ HP0) Ep) as (h' & E & _).
    rewrite E in Hk |- *. split; [by eapply keeps_trans|].
    rewrite length_app. simpl in *. lia.
  - split; [done|simpl; lia].
  - case_decide; [split; [done|simpl; lia]|]. case_decide; [split; [done|simpl; lia]|].
    split; [|simpl in *; lia]. split; [|done]. apply poll_send. by eapply poll_touch.
Qed.

Lemma maintenance_loop_spec live n count now h events work :
  PollInv live h events -> maintenance_budget work ->
  let '(h', events', work') := maintenance_loop n count now h events work in
  keeps live h (h', events') /\ maintenance_budget work' /\
  maintenance_effect n events events' work work'.
Proof.
  revert h events work. induction n as [|n IH]; intros h events work HP HB; simpl.
  { split; [by apply keeps_refl|]. split; [done|]. by repeat split. }
  pose proof (maintenance_step_spec live count now h events work HP HB) as Hs.
  destruct (maintenance_step _ _ _ _ _) as [[h1 events1] work1].
  destruct Hs as ([HP1 Hc1] & HB1 & He1). specialize (IH h1 events1 work1 HP1 HB1).
  destruct (maintenance_loop _ _ _ _ _ _) as [[h' events'] work'].
  destruct IH as (Hk & HB' & He'). split; [by eapply keeps_trans|]. split; [done|].
  unfold maintenance_effect in *. lia.
Qed.

Lemma live_poll_start h :
  HostInv h ->
  PollInv (live_ids h) (h <| available_free_peer_slots := length (free_peer_slots h) |>) [].
Proof.
  intros [[] HW]. constructor; [by constructor| |done|..].
  - by apply (marks_frame h).
  - by intros id r Hin%not_elem_of_nil.
  - by intros i j id r e _ Hi.
Qed.

Definition poll_bounds (work : PollWork) (events : list Event) : Prop :=
  (packets work <= MAX_POLL_PACKETS)%nat /\
  (socket_events work <= MAX_POLL_SOCKET_EVENTS)%nat /\
  (timeout_events work <= MAX_POLL_TIMEOUT_EVENTS)%nat /\
  (maintenance_scans work <= MAX_POLL_MAINTENANCE_SCANS)%nat /\
  (keepalive_sends work <= MAX_POLL_KEEPALIVE_SENDS)%nat /\
  (watermark_cleanups work <= MAX_POLL_WATERMARK_CLEANUPS)%nat /\
  (length events = socket_events work + timeout_events work)%nat /\
  (length events <= MAX_POLL_EVENTS)%nat.

Ltac unfold_limits :=
  unfold MAX_POLL_EVENTS, MAX_POLL_SOCKET_EVENTS, MAX_POLL_KEEPALIVE_SENDS,
    MAX_POLL_WATERMARK_CLEANUPS, MAX_POLL_MAINTENANCE_SCANS, MAX_POLL_TIMEOUT_EVENTS,
    MAX_POLL_PACKETS in *.

Lemma poll_spec script now h :
  HostInv h ->
  let '(events, work, h') := poll_with_work script now h in
  keeps (live_ids h) h (h', events) /\ poll_bounds work events /\
  (Forall coherent script -> bytes work <= MAX_POLL_BYTES).
Proof.
  intros HI. unfold poll_with_work, expire_reconnect_watermarks.
  pose proof (live_poll_start h HI) as HP.
  set (h0 := h <| available_free_peer_slots := _ |>) in *.
  assert (Hc0 : same_config h h0) by done. clearbody h0.
  pose proof (expire_loop_spec (MAX_POLL_WATERMARK_CLEANUPS - 0) now h0 work_default
                (pi_marks _ _ _ HP)) as He.
  destruct (expire_loop _ _ _ _) as [h1 work1]. destruct He as (HW & Ht & Hc1 & Hn & Ew).
  assert (HP1 : PollInv (live_ids h) h1 []) by (by apply (poll_marks _ h0)).
  pose proof (drain_socket_spec _ script now h1 [] work1 HP1) as Hd.
  pose proof (drain_socket_bytes script now h1 [] work1) as Hby.
  destruct (drain_socket _ _ _ _ _) as [[h2 events2] work2].
  destruct Hd as ([HP2 Hc2] & HB2 & Hm2).
  { rewrite Ew. unfold socket_budget. simpl. lia. }
  assert (Hby' : Forall coherent script -> bytes work2 <= MAX_POLL_BYTES).
  { intros Hs. apply Hby; [done|]. by rewrite Ew. }
  unfold process_peer_maintenance.
  unfold same_maintenance in Hm2. rewrite Ew in Hm2. simpl in Hm2, Hn.
  unfold socket_budget in HB2.
  assert (Hc : same_config h h2) by (eapply same_config_trans, same_config_trans; done).
  case_decide.
  - split_and!.
    + split; [|done]. by apply (poll_frame _ h2).
    + unfold poll_bounds. simpl. unfold_limits. lia.
    + done.
  - set (work3 := work2 <| socket_events := length events2 |>).
    pose proof (maintenance_loop_spec _ (length (peer_slots h2) `min` MAX_POLL_MAINTENANCE_SCANS)
      (length (peer_slots h2)) now h2 events2 work3 HP2) as Hl.
    destruct (maintenance_loop _ _ _ _ _ _) as [[h3 events3] work4].
    destruct Hl as (Hk & HB & He).
    { unfold maintenance_budget. simpl. lia. }
    split; [by eapply keeps_trans|]. unfold maintenance_budget in HB.
    unfold maintenance_effect in He. simpl in He.
    split; [unfold poll_bounds; unfold_limits; lia|]. destruct He as (_ & -> & _). done.
Qed.

(** *** Silent peers *)

(** The peer in a slot, if any, was heard from within the timeout. *)
Definition responsive (now : Z) (h : Host) (i : nat) : Prop :=
  forall a p, peer_slots h !! i = Some (Some a) -> peers h !! a = Some p ->
    since now (p_last_recv p) <= timeout h.

Definition norm (count c : nat) : nat := if decide (count <= c)%nat then O else c.

Lemma maintenance_step_responsive live count now h events work :
  PollInv live h events ->
  let '(h', events', work') := maintenance_step count now h events work in
  maintenance_cursor h' = S (norm count (maintenance_cursor h)) /\
  length (peer_slots h') = length (peer_slots h) /\
  (timeout_events work <= timeout_events work')%nat /\
  (forall i, responsive now h i -> responsive now h' i) /\
  ((timeout_events work' < MAX_POLL_TIMEOUT_EVENTS)%nat ->
   responsive now h' (norm count (maintenance_cursor h))).
Proof.
  intros HP. unfold maintenance_step. fold (norm count (maintenance_cursor h)).
  set (slot := norm _ _). set (h0 := h <| maintenance_cursor := S slot |>).
  assert (HT : TableInv h0) by (by apply (table_frame h), (pi_table _ _ _ HP)).
  assert (Hr : forall i, responsive now h i -> responsive now h0 i) by done.
  assert (Hcur : maintenance_cursor h0 = S slot) by done.
  assert (Hlen : length (peer_slots h0) = length (peer_slots h)) by done.
  clearbody h0. clear HP.
  destruct (peer_slots h0 !! slot) as [[a|]|] eqn:Es.
  2,3: split_and!; try done; intros _ b p Hb; congruence.
  destruct (inv_slot h0 HT _ _ Es) as (p & Ep & Esl). rewrite Ep.
  case_bool_decide as Hsil; [case_decide as Ht|].
  - destruct (remove_peer_at_spec h0 a p HT Ep)
      as (h' & E & HT' & Ep' & Ef & _ & El & _ & Hc & _ & Ecur).
    assert (Hsub : forall i b, peer_slots h' !! i = Some (Some b) ->
      b <> a /\ i <> slot /\ peer_slots h0 !! i = Some (Some b)).
    { intros i b Hi. destruct (inv_slot h' HT' _ _ Hi) as (q & Hq & Eq).
      rewrite Ep' in Hq. apply lookup_delete_Some in Hq as [Hne Hq].
      destruct (inv_peer h0 HT _ _ Hq) as (_ & _ & _ & Hs0). rewrite Eq in Hs0.
      split_and!; [done| |done]. intros ->. congruence. }
    rewrite E. split_and!; try (simpl; congruence || lia).
    + intros i Hi b q Hb Hq. apply Hsub in Hb as (Hne & _ & Hb). rewrite Ep' in Hq.
      apply lookup_delete_Some in Hq as [_ Hq]. destruct Hc as (_ & _ & _ & ->).
      by eapply Hr.
    + intros _ b q Hb. by apply Hsub in Hb as (_ & ? & _).
  - split_and!; try first [done | simpl; lia].
  - assert (Hclean : responsive now h0 slot).
    { intros b q Hb Hq. replace q with p by congruence. lia. }
    case_decide; [done|]. case_decide; [done|]. split_and!; try done.
    + intros i Hi b q Hb. simpl. rewrite lookup_insert. case_decide; [|by eapply Hr].
      intros [= <-]. subst b. simpl in *. by eapply Hr.
    + intros _ b q Hb. simpl. rewrite lookup_insert. case_decide; [|by eapply Hclean].
      intros [= <-]. subst b. simpl in *. by eapply Hclean.
Qed.

Lemma norm_mod count c : (0 < count)%nat -> (norm count c < count)%nat.
Proof. unfold norm. case_decide; lia. Qed.

Lemma norm_S count s : (s < count)%nat -> norm count (S s) = (S s mod count)%nat.
Proof.
  intros Hs. unfold norm. case_decide.
  - replace (S s) with count by lia. by rewrite Nat.Div0.mod_same.
  - symmetry. apply Nat.mod_small. lia.
Qed.

(** The cursor makes a loop of [n] steps visit the [n] slots that follow it,
    cyclically. *)
Lemma maintenance_loop_responsive live n count now h events work :
  PollInv live h events -> maintenance_budget work ->
  length (peer_slots h) = count -> (0 < count)%nat ->
  let '(h', events', work') := maintenance_loop n count now h events work in
  length (peer_slots h') = count /\
  (timeout_events work <= timeout_events work')%nat /\
  ((timeout_events work' < MAX_POLL_TIMEOUT_EVENTS)%nat ->
   forall i, responsive now h i \/
     (exists k, (k < n)%nat /\ i = ((norm count (maintenance_cursor h) + k) mod count)%nat) ->
   responsive now h' i).
Proof.
  revert h events work. induction n as [|n IH]; intros h events work HP HB Hlen Hpos; simpl.
  { split_and!; [done..|]. intros _ i [Hi|(k & Hk & _)]; [done|lia]. }
  pose proof (maintenance_step_spec live count now h events work HP HB) as Hs.
  pose proof (maintenance_step_responsive live count now h events work HP) as Hr.
  destruct (maintenance_step _ _ _ _ _) as [[h1 events1] work1].
  destruct Hs as ([HP1 Hc1] & HB1 & _). destruct Hr as (Ecur & El & Ht1 & Hkeep & Hslot).
  simpl in HP1. specialize (IH h1 events1 work1 HP1 HB1 ltac:(lia) Hpos).
  destruct (maintenance_loop _ _ _ _ _ _) as [[h' events'] work'].
  destruct IH as (El' & Ht' & IH). split_and!; [done|lia|].
  intros Hlt i Hi. apply IH; [done|]. destruct Hi as [Hi|(k & Hk & ->)]; [left; auto|].
  set (s := norm count (maintenance_cursor h)) in *.
  pose proof (norm_mod count (maintenance_cursor h) Hpos) as Hsl. fold s in Hsl.
  destruct k as [|k].
  - left. rewrite Nat.add_0_r, Nat.mod_small by done. apply Hslot. lia.
  - right. exists k. split; [lia|]. rewrite Ecur, norm_S by done.
    rewrite Nat.Div0.add_mod_idemp_l. f_equal. lia.
Qed.

Lemma cyclic_cover count s i :
  (s < count)%nat -> (i < count)%nat -> exists k, (k < count)%nat /\ i = ((s + k) mod count)%nat.
Proof.
  intros Hs Hi. destruct (decide (s <= i)%nat).
  - exists (i - s)%nat. split; [lia|]. rewrite Nat.mod_small; lia.
  - exists (i + count - s)%nat. split; [lia|].
    replace (s + (i + count - s))%nat with (i + 1 * count)%nat by lia.
    by rewrite Nat.Div0.mod_add, Nat.mod_small.
Qed.

(** *** Whole operations *)
Lemma peer_addr_spec id h a :
  TableInv h -> (peer_addr id h = Some a <-> exists p, peers h !! a = Some p /\ p_id p = id).
Proof.
  intros HT. unfold peer_addr. split.
  - case_decide; [done|]. destruct (peer_slots h !! _) as [[b|]|]; [|done..].
    destruct (peers h !! b) as [p|] eqn:Ep; [|done]. case_decide; [|done]. intros [= <-]. eauto.
  - intros (p & Hp & <-). destruct (inv_peer h HT _ _ Hp) as (_ & Ei & _ & Hs).
    rewrite decide_False by lia. replace (Z.to_nat (p_id p - 1)) with (p_slot p) by lia.
    by rewrite Hs, Hp, decide_True.
Qed.

Lemma peer_addr_None id h : TableInv h -> id ∉ live_ids h -> peer_addr id h = None.
Proof.
  intros HT Hn. destruct (peer_addr id h) as [a|] eqn:E; [|done].
  apply peer_addr_spec in E as (p & Hp & <-); [|done]. destruct Hn. apply elem_of_live_ids. eauto.
Qed.

Lemma disconnect_gone id h : TableInv h -> id ∉ live_ids h -> disconnect id h = (false, h).
Proof. intros HT Hn. unfold disconnect. by rewrite (peer_addr_None id h). Qed.

Lemma disconnect_inv id h : HostInv h -> HostInv (disconnect id h).2.
Proof.
  intros [HT HW]. unfold disconnect. destruct (peer_addr id h) as [a|]; [|by split].
  destruct (peers h !! a) as [p|] eqn:Ep.
  - destruct (remove_peer_at_spec h a p HT Ep) as (h' & -> & HT' & _ & _ & _ & _ & Hm & _). simpl.
    split; [by apply (table_frame h')|]. apply (marks_frame h'); [done|]. by apply (marks_frame h).
  - unfold remove_peer_at. rewrite Ep. by split.
Qed.

Lemma send_unreliable_inv id payload io h :
  HostInv h -> HostInv (send_unreliable id payload io h).2.
Proof.
  intros [HT HW]. unfold send_unreliable. case_decide; [by split|].
  repeat (case_match; [|by split]). split; [by apply (table_frame h)|by apply (marks_frame h)].
Qed.

Lemma empty_inv key limit limit_ip t tx :
  (1 <= limit_ip <= limit)%nat -> Z.of_nat limit <= 65535 ->
  HostInv (mkHost ∅ [] [] 0 ∅ ∅ [] 0 0 key t limit limit_ip tx).
Proof.
  intros Hl Hm. split; constructor; simpl; try done; try lia.
  - by intros i; rewrite elem_of_nil.
  - apply NoDup_nil_2.
  - unfold ip_count. intros. rewrite dom_empty_L, filter_empty_L, size_empty; [lia|apply _..].
Qed.

(** *** Admission *)

(** What a datagram must carry to be admitted. *)
Definition valid_request (key : string) (data : list Z) : bool :=
  match parse_connect_request data with
  | Some req => bool_decide (cr_protocol_id req = PROTOCOL_ID) &&
                bool_decide (read_litenet_string (cr_connect_data req) = Some key)
  | None => false
  end.

(** The host read a valid connect request in full. *)
Definition admits_step (key : string) (step : SockStep) : Prop :=
  exists n data a, s_peek step = PeekOk n /\ s_recv step = RecvOk data a /\
    len data <= MTU /\ valid_request key data.

Lemma handle_datagram_connected data a now wall h events id :
  Connected id ∈ (handle_datagram data a now wall h events).2 ->
  Connected id ∈ events \/ valid_request (connect_key h) data.
Proof.
  assert (Hsnoc : forall e, (forall i, e <> Connected i) ->
    Connected id ∈ events ++ [e] -> Connected id ∈ events).
  { intros e He [Hin|Hin]%elem_of_app; [done|]. apply list_elem_of_singleton in Hin. by destruct (He id). }
  unfold handle_datagram. destruct data as [|b0 payload] eqn:Ed; [by left|].
  destruct (h_fragmented _); [by left|]. case_decide.
  - unfold handle_connect_request, valid_request. rewrite <- Ed.
    destruct (parse_connect_request data) as [req|]; [|by left].
    destruct (decide (cr_protocol_id req <> PROTOCOL_ID)) as [|Hp]; [by left|].
    destruct (decide (read_litenet_string (cr_connect_data req) <> Some (connect_key h)))
      as [|Hk]; [by left|].
    intros _. right. apply dec_stable in Hp, Hk. by rewrite !bool_decide_true.
  - destruct (peers h !! a) as [p|]; [|by left]. case_decide; [by left|].
    case_decide; [intros Hin; left; by eapply Hsnoc, Hin|]. do 2 (case_decide; [by left|]).
    case_decide; [|by left]. unfold handle_disconnect.
    repeat case_match; simpl; auto. intros Hin. left. by eapply Hsnoc, Hin.
Qed.

Lemma drain_connected live script now h events work id :
  PollInv live h events ->
  Connected id ∈ (drain_socket script now h events work).1.2 ->
  Connected id ∈ events \/ exists step, step ∈ script /\ admits_step (connect_key h) step.
Proof.
  revert h events work. induction script as [|step script IH]; intros h events work HP; [by left|].
  assert (Hmore : forall P Q, (P \/ exists s, s ∈ script /\ admits_step (connect_key h) s) ->
    (P -> Q \/ admits_step (connect_key h) step) ->
    Q \/ exists s, s ∈ step :: script /\ admits_step (connect_key h) s).
  { intros P Q [HPp|(s & Hs & Ha)] HPQ.
    - destruct (HPQ HPp) as [?|Ha]; [by left|right]. exists step. split; [left|done].
    - right. exists s. split; [by right|done]. }
  simpl. case_decide; [|by left]. case_decide; [|by left].
  destruct (s_peek step) as [n| | |] eqn:Epk; [|by left| |by left].
  2: { intros Hin. eapply Hmore; [by eapply IH|]. by left. }
  case_decide; [by left|].
  destruct (s_recv step) as [data a| | |] eqn:Erv; [|by left| |by left].
  2: { intros Hin. eapply Hmore; [by eapply IH|]. by left. }
  case_decide; [intros Hin; eapply Hmore; [by eapply IH|]; by left|].
  pose proof (handle_datagram_keeps live data a now (s_wall step) h events HP) as [HP1 Hc1].
  pose proof (handle_datagram_connected data a now (s_wall step) h events id) as Hd.
  destruct (handle_datagram _ _ _ _ _ _) as [h1 events1]. simpl in *.
  destruct Hc1 as (_ & _ & Ek & _). intros Hin. eapply Hmore.
  - rewrite <- Ek. by eapply IH.
  - intros Hin1. destruct (Hd Hin1) as [?|Hv]; [by left|right].
    exists n, data, a. split_and!; [done..|lia|done].
Qed.

Lemma maintenance_connected n count now h events work id :
  Connected id ∈ (maintenance_loop n count now h events work).1.2 -> Connected id ∈ events.
Proof.
  revert h events work. induction n as [|n IH]; intros h events work; [done|]. simpl.
  destruct (maintenance_step _ _ _ _ _) as [[h1 events1] work1] eqn:E.
  intros Hin%IH. revert E Hin. unfold maintenance_step.
  repeat case_match; intros [= <- <- <-]; try done;
    rewrite elem_of_app, list_elem_of_singleton; by intros [?|?].
Qed.

Lemma poll_inv script now h : HostInv h -> HostInv (poll script now h).2.
Proof.
  intros HI. pose proof (poll_spec script now h HI) as Hp. unfold poll.
  destruct (poll_with_work script now h) as [[events work] h']. simpl.
  destruct Hp as [[[HT HW _ _ _] _] _]. by split.
Qed.

(** ** Theorems *)

(** The states a host can be driven to: any interleaving of polls with
    arbitrary sockets, sends, local disconnects and shutdowns. *)
Inductive reachable : Host -> Prop :=
| reach_bind key limit limit_ip h :
    0 <= limit -> 0 <= limit_ip ->
    bind_with_limits key limit limit_ip = Ok h -> reachable h
| reach_poll script now h : reachable h -> reachable (poll script now h).2
| reach_send id payload io h : reachable h -> reachable (send_unreliable id payload io h).2
| reach_disconnect id h : reachable h -> reachable (disconnect id h).2
| reach_shutdown h : reachable h -> reachable (shutdown h).2.

(** C13.  Whatever the network sends and however the caller interleaves the
    operations, the peer table stays well formed: slots, addresses and ids are
    in bijection, the free list is exactly the empty slots without duplicates,
    the per-IP counters are exact, the global and per-IP limits hold, and the
    reconnect watermarks stay bounded by the peer limit. *)
Theorem host_reachable_inv (h : Host) : reachable h -> HostInv h.
Proof.
  induction 1 as [key limit limit_ip h Hl Hi E|script now h _ IH| | |h _ IH].
  - unfold bind_with_limits in E. case_decide as Hd; [done|]. injection E as <-.
    apply empty_inv; lia.
  - by apply poll_inv.
  - by apply send_unreliable_inv.
  - by apply disconnect_inv.
  - pose proof (inv_limits h (proj1 IH)). unfold shutdown. simpl. apply empty_inv; lia.
Qed.

(** A host with room for two peers, its first two clients and their requests. *)
Definition demo_client (port : Z) : SocketAddr := SockV4 2130706433 port.

Definition demo_request (time : Z) (key : string) : list Z :=
  build_connect_request 1 time 0 16 (write_litenet_string key).

Definition demo_step (port : Z) (data : list Z) : SockStep :=
  mkSockStep (PeekOk (len data)) (RecvOk data (demo_client port)) None.

Definition demo_host : Host :=
  mkHost ∅ [] [] 0 ∅ ∅ [] 0 0 "sail"%string DEFAULT_TIMEOUT 2 2 [].

Definition demo_script : list SockStep :=
  [demo_step 7000 (demo_request 5 "sail"); demo_step 7001 (demo_request 6 "sail")].

Lemma demo_inv : HostInv (poll demo_script 0 demo_host).2.
Proof. apply poll_inv, empty_inv; simpl; lia. Qed.

Lemma host_reachable_inv_witness :
  HostInv (poll demo_script 0 demo_host).2 /\
  peer_count (poll demo_script 0 demo_host).2 = 2%nat.
Proof.
  split; [|vm_compute; reflexivity].
  apply host_reachable_inv, reach_poll, (reach_bind "sail" 2 2); [lia|lia|vm_compute; reflexivity].
Defined.

(** C14.  The events of a poll obey the session protocol: a peer is reported
    connected before its data and its disconnection, never twice, and after the
    batch the peers reported connected are exactly the live ones.  Within the
    batch an id reported disconnected is never used again, so a reused slot
    cannot be mistaken for the peer that left. *)
Theorem poll_session_protocol (script : list SockStep) (now : Z) (h : Host) :
  HostInv h ->
  let '(events, h') := poll script now h in
  observe_all (live_ids h) events = Some (live_ids h') /\ no_alias events.
Proof.
  intros HI. pose proof (poll_spec script now h HI) as Hp. unfold poll.
  destruct (poll_with_work script now h) as [[events work] h'].
  by destruct Hp as [[[_ _ Ho _ Ha] _] _].
Qed.

Lemma poll_session_protocol_witness :
  let '(events, h') := poll demo_script 0 demo_host in
  observe_all ∅ events = Some (live_ids h') /\ no_alias events.
Proof.
  apply (poll_session_protocol demo_script 0 demo_host). apply empty_inv; simpl; lia.
Defined.

(** One poll does bounded work whatever the socket holds: at most 128
    packets, 320 events of which 64 timeouts, 512 slots scanned, 512 keepalives
    and 512 watermark cleanups; and at most 256 KiB are read when the kernel
    delivers the datagrams it let the host peek at. *)
Lemma poll_work_bounded (script : list SockStep) (now : Z) (h : Host) :
  HostInv h ->
  let '(events, work, _) := poll_with_work script now h in
  poll_bounds work events /\ (Forall coherent script -> bytes work <= MAX_POLL_BYTES).
Proof.
  intros HI. pose proof (poll_spec script now h HI) as Hp.
  destruct (poll_with_work script now h) as [[events work] h'].
  by destruct Hp as (_ & Hb & Hby).
Qed.

(** No peer is admitted without presenting the protocol version and the
    connect key: every [Connected] event of a poll comes with a datagram of that
    poll, within the MTU, that parses as a connect request carrying both. *)
Lemma poll_admission (script : list SockStep) (now : Z) (h : Host) (id : Z) :
  HostInv h -> Connected id ∈ (poll script now h).1 ->
  exists step, step ∈ script /\ admits_step (connect_key h) step.
Proof.
  intros HI. pose proof (live_poll_start h HI) as HP.
  unfold poll, poll_with_work, expire_reconnect_watermarks, process_peer_maintenance.
  set (h0 := h <| available_free_peer_slots := _ |>) in *.
  assert (Hk0 : connect_key h0 = connect_key h) by done. clearbody h0.
  pose proof (expire_loop_spec (MAX_POLL_WATERMARK_CLEANUPS - watermark_cleanups work_default)
                now h0 work_default (pi_marks _ _ _ HP)) as He.
  destruct (expire_loop _ _ _ _) as [h1 work1]. destruct He as (HW & Ht & Hc1 & _).
  assert (HP1 : PollInv (live_ids h) h1 []) by (by apply (poll_marks _ h0)).
  pose proof (drain_connected _ script now h1 [] work1 id HP1) as Hd.
  destruct (drain_socket _ _ _ _ _) as [[h2 events2] work2]. simpl in Hd.
  replace (connect_key h1) with (connect_key h) in Hd
    by (destruct Hc1 as (_ & _ & -> & _); done).
  assert (Hfin : Connected id ∈ events2 -> exists step, step ∈ script /\ admits_step (connect_key h) step)
    by (intros Hin; destruct (Hd Hin) as [Hn|?]; [by apply not_elem_of_nil in Hn|done]).
  case_decide; [done|].
  match goal with |- context [maintenance_loop ?n ?c now h2 events2 ?w] =>
    pose proof (maintenance_connected n c now h2 events2 w id) as Hm;
    destruct (maintenance_loop n c now h2 events2 w) as [[h3 events3] work3]
  end. simpl in *. auto.
Qed.

(** Silent peers are reaped: when the table has at most 512 slots and the
    poll did not exhaust its 64 timeout events, every peer left after the poll
    was heard from within the timeout.  (The cursor makes the bounded scan visit
    every slot, wherever it starts.) *)
Lemma poll_reaps_silent_peers (script : list SockStep) (now : Z) (h h' : Host)
    (events : list Event) (work : PollWork) :
  HostInv h -> poll_with_work script now h = (events, work, h') ->
  (length (peer_slots h') <= MAX_POLL_MAINTENANCE_SCANS)%nat ->
  (timeout_events work < MAX_POLL_TIMEOUT_EVENTS)%nat ->
  forall a p, peers h' !! a = Some p -> since now (p_last_recv p) <= timeout h'.
Proof.
  intros HI Hpoll. pose proof (poll_spec script now h HI) as Hall. rewrite Hpoll in Hall.
  destruct Hall as [[[HT' _ _ _ _] _] _]. simpl in HT'. pose proof (live_poll_start h HI) as HP.
  revert Hpoll. unfold poll_with_work, expire_reconnect_watermarks, process_peer_maintenance.
  set (h0 := h <| available_free_peer_slots := _ |>) in *. clearbody h0.
  pose proof (expire_loop_spec (MAX_POLL_WATERMARK_CLEANUPS - watermark_cleanups work_default)
                now h0 work_default (pi_marks _ _ _ HP)) as He.
  destruct (expire_loop _ _ _ _) as [h1 work1]. destruct He as (HW & Ht & _ & _ & Ew).
  assert (HP1 : PollInv (live_ids h) h1 []) by (by apply (poll_marks _ h0)).
  pose proof (drain_socket_spec _ script now h1 [] work1 HP1) as Hd.
  destruct (drain_socket _ _ _ _ _) as [[h2 events2] work2].
  destruct Hd as ([HP2 _] & _ & (Em1 & Em2 & Em3 & _)).
  { rewrite Ew. unfold socket_budget. simpl. lia. }
  rewrite Ew in Em1, Em2, Em3. simpl in Em1, Em2, Em3, HP2. case_decide as Hz.
  { intros [= <- <- <-] _ _ a p Hp. destruct (inv_peer _ HT' a p Hp) as (_ & _ & _ & Hs).
    apply lookup_lt_Some in Hs. simpl in Hs. lia. }
  set (w0 := work2 <| socket_events := length events2 |>).
  pose proof (maintenance_loop_responsive _ (length (peer_slots h2) `min` MAX_POLL_MAINTENANCE_SCANS)
    (length (peer_slots h2)) now h2 events2 w0 HP2) as Hl.
  destruct (maintenance_loop _ _ _ _ _ _) as [[h3 events3] work3].
  destruct Hl as (El & _ & Hr); [unfold maintenance_budget; simpl; lia|done|lia|].
  intros [= <- <- <-] Hlen Hto a p Hp. destruct (inv_peer _ HT' a p Hp) as (_ & _ & _ & Hs).
  eapply (Hr Hto (p_slot p)); [|done..]. right. apply lookup_lt_Some in Hs.
  rewrite Nat.min_l by lia. apply cyclic_cover; [apply norm_mod; lia|lia].
Qed.

(** A delayed or replayed request: not newer than the session of its address, or
    older than the address's reconnect watermark. *)
Definition stale_request (h : Host) (a : SocketAddr) (req : ConnectRequest) : Prop :=
  match peers h !! a with
  | Some p => cr_connect_time req <= p_connect_time p
  | None => exists w, reconnect_watermarks h !! a = Some w /\ cr_connect_time req < w_connect_time w
  end.

(** Such a request is inert: it is dropped, or only answered again. *)
Lemma stale_connect_inert (data : list Z) (req : ConnectRequest) (a : SocketAddr) (now : Z)
    (h : Host) (events : list Event) :
  parse_connect_request data = Some req -> stale_request h a req ->
  let '(h', events') := handle_connect_request data a now h events in
  events' = events /\ same_table h h' /\ same_marks h h' /\
  (exists l, tx h' = tx h ++ l /\ (length l <= 1)%nat).
Proof.
  unfold stale_request. intros Hp Hs. unfold handle_connect_request. rewrite Hp.
  assert (H0 : exists l, tx h = tx h ++ l /\ (length l <= 1)%nat)
    by (exists []; rewrite app_nil_r; simpl; split; [done|lia]).
  assert (H1 : forall x, exists l, tx h ++ [x] = tx h ++ l /\ (length l <= 1)%nat)
    by (intros x; exists [x]; simpl; split; [done|lia]).
  case_decide; [split_and!; done || apply H1|].
  case_decide; [split_and!; done || apply H0|].
  destruct (peers h !! a) as [p|] eqn:Ep.
  - case_decide; [split_and!; done || apply H0|].
    rewrite decide_True by lia. split_and!; done || apply H1.
  - destruct Hs as (w & -> & Hlt). rewrite decide_True by done. split_and!; done || apply H0.
Qed.

(** C33.  A poll is bounded and still reaps.  Whatever the socket holds, one poll
    handles at most 128 packets, reports at most 320 events of which 64 timeouts,
    scans 512 slots, sends 512 keepalives and cleans 512 watermarks, and reads at
    most 256 KiB when the kernel delivers the datagrams it let the host peek at.
    And when the table has at most 512 slots and the poll did not exhaust its 64
    timeout events, every peer left after it was heard from within the timeout:
    the cursor makes the bounded scan visit every slot, wherever it starts. *)
Theorem poll_bounded_and_reaps (script : list SockStep) (now : Z) (h : Host) :
  HostInv h ->
  let '(events, work, h') := poll_with_work script now h in
  poll_bounds work events /\
  (Forall coherent script -> bytes work <= MAX_POLL_BYTES) /\
  ((length (peer_slots h') <= MAX_POLL_MAINTENANCE_SCANS)%nat ->
   (timeout_events work < MAX_POLL_TIMEOUT_EVENTS)%nat ->
   forall a p, peers h' !! a = Some p -> since now (p_last_recv p) <= timeout h').
Proof.
  intros HI. pose proof (poll_work_bounded script now h HI) as Hb.
  pose proof (fun h' events work => poll_reaps_silent_peers script now h h' events work HI) as Hr.
  destruct (poll_with_work script now h) as [[events work] h'].
  destruct Hb as [Hb Hby]. split_and!; [done..|]. by apply (Hr h' events work).
Qed.

(** After 6 seconds of silence the first of the two peers of [demo_script] is
    reaped, and the second, which sent a ping, stays. *)
Lemma reaping_poll :
  let '(events, work, h2) :=
    poll_with_work [demo_step 7001 (build_ping 1 9)] (6 * nanos_per_sec) (poll demo_script 0 demo_host).2 in
  (events, timeout_events work, length (peer_slots h2)) = ([Disconnected 1 Timeout], 1%nat, 2%nat).
Proof. vm_compute. reflexivity. Qed.

Lemma poll_bounded_and_reaps_witness :
  let h1 := (poll demo_script 0 demo_host).2 in
  let '(events, work, h2) := poll_with_work [demo_step 7001 (build_ping 1 9)] (6 * nanos_per_sec) h1 in
  events = [Disconnected 1 Timeout] /\ poll_bounds work events /\
  forall a p, peers h2 !! a = Some p -> since (6 * nanos_per_sec) (p_last_recv p) <= timeout h2.
Proof.
  pose proof (poll_bounded_and_reaps [demo_step 7001 (build_ping 1 9)] (6 * nanos_per_sec) _ demo_inv) as H.
  pose proof reaping_poll as E. intros h1. fold h1 in H, E.
  destruct (poll_with_work _ _ h1) as [[events work] h2]. injection E as E1 E2 E3.
  destruct H as (H1 & _ & H3). split; [exact E1|split; [exact H1|]].
  apply H3; rewrite ?E2, ?E3; unfold_limits; lia.
Defined.

(** C32.  Admission is guarded.  No peer is admitted without presenting the
    protocol version and the connect key: in every poll, each [Connected] event
    comes with a datagram of that poll, within the MTU, that parses as a connect
    request carrying both.  And in every state a delayed or replayed request (not
    newer than the session of its address, or older than the address's reconnect
    watermark) is inert: handling it changes no peer, slot, counter or watermark,
    reports no event, and sends at most one answer. *)
Theorem admission_guarded (h : Host) :
  HostInv h ->
  (forall script now id, Connected id ∈ (poll script now h).1 ->
     exists step, step ∈ script /\ admits_step (connect_key h) step) /\
  (forall now data req a events,
     parse_connect_request data = Some req -> stale_request h a req ->
     let '(h', events') := handle_connect_request data a now h events in
     events' = events /\ same_table h h' /\ same_marks h h' /\
     (exists l, tx h' = tx h ++ l /\ (length l <= 1)%nat)).
Proof.
  intros HI. split; [intros script now id Hc; by eapply poll_admission|].
  intros now data req a events Hp Hs. by apply (stale_connect_inert data req).
Qed.

Lemma admission_guarded_witness :
  (exists step, step ∈ demo_script /\ admits_step "sail"%string step) /\
  let h1 := (poll demo_script 0 demo_host).2 in
  let '(h', events') := handle_connect_request (demo_request 4 "sail") (demo_client 7000) 0 h1 [] in
  events' = [] /\ same_table h1 h' /\ same_marks h1 h' /\
  (exists l, tx h' = tx h1 ++ l /\ (length l <= 1)%nat).
Proof.
  split.
  - apply (proj1 (admission_guarded demo_host ltac:(apply empty_inv; simpl; lia)) demo_script 0 1).
    replace (poll demo_script 0 demo_host).1 with [Connected 1; Connected 2]
      by (vm_compute; reflexivity). left.
  - eapply (proj2 (admission_guarded _ demo_inv)); [vm_compute; reflexivity|vm_compute; discriminate].
Defined.

(** [send_unreliable] and [disconnect] address exactly the live peer of
    the id they are given.  An oversized payload is refused and nothing is sent;
    an unknown id sends nothing; otherwise one datagram goes to the peer's
    address, within the MTU, carrying its connection number.  [disconnect]
    returns whether the peer was live, removes it and no other, and a second
    call does nothing. *)
Lemma peer_operations (id : Z) (payload : list Z) (io : result string unit) (h : Host) :
  HostInv h ->
  let '(r, h1) := send_unreliable id payload io h in
  let '(gone, h2) := disconnect id h in
  (if decide (id ∈ live_ids h) then
     exists a p, peers h !! a = Some p /\ p_id p = id /\
       (if decide (len payload > MTU - HEADER_SIZE) then (exists e, r = Err e) /\ h1 = h
        else r = io /\ peers h1 = peers h /\
             exists pkt, tx h1 = tx h ++ [(a, pkt)] /\ len pkt <= MTU /\
               pkt = build_unreliable (p_connection_number p) payload) /\
       gone = true /\ peers h2 = delete a (peers h) /\ live_ids h2 = live_ids h ∖ {[id]} /\
       tx h2 = tx h ++ [(a, build_disconnect (p_connection_number p) (p_connect_time p))]
   else h1 = h /\ gone = false /\ h2 = h) /\
  disconnect id h2 = (false, h2).
Proof.
  intros HI. pose proof (disconnect_inv id h HI) as HI2. destruct HI as [HT HW].
  destruct (decide (id ∈ live_ids h)) as [Hin|Hin].
  - apply elem_of_live_ids in Hin as (a & p & Ha & Hid).
    assert (Epa : peer_addr id h = Some a) by (apply peer_addr_spec; eauto).
    destruct (remove_peer_at_spec h a p HT Ha) as (h' & Er & _ & Ep & _ & _ & _ & _ & _ & Etx & _).
    pose proof (live_ids_delete h h' a p HT Ha Ep) as El. rewrite Hid in El.
    destruct (inv_peer h HT a p Ha) as (Eaddr & _).
    unfold send_unreliable. unfold disconnect in HI2 |- * at 1. rewrite Epa, Er in HI2 |- *.
    rewrite Ha, Eaddr in *. simpl in HI2.
    assert (Hlive : live_ids (send_to a (build_disconnect (p_connection_number p) (p_connect_time p)) h')
                    = live_ids h ∖ {[id]}) by (rewrite <- El; by apply live_ids_ext).
    case_decide as Hlen.
    + split; [|apply disconnect_gone; [apply HI2|rewrite Hlive; set_solver]].
      exists a, p. split_and!; try done; [eauto|]. simpl. by rewrite Etx.
    + split; [|apply disconnect_gone; [apply HI2|rewrite Hlive; set_solver]].
      exists a, p. split_and!; try done; [|simpl; by rewrite Etx].
      eexists. split_and!; [done| |done]. unfold build_unreliable, HEADER_SIZE in *.
      autorewrite with sw_len. unfold MTU in *. lia.
  - pose proof (disconnect_gone id h HT Hin) as Ed. rewrite Ed.
    unfold send_unreliable. rewrite (peer_addr_None id h HT Hin). by case_decide.
Qed.

Lemma peer_operations_witness :
  let h := (poll demo_script 0 demo_host).2 in
  (disconnect 1 h).1 = true /\ live_ids (disconnect 1 h).2 = live_ids h ∖ {[1]}.
Proof.
  intros h.
  pose proof (peer_operations 1 [7] (Ok tt) h demo_inv) as Hop.
  destruct (send_unreliable 1 [7] (Ok tt) h) as [r h1]. destruct (disconnect 1 h) as [gone h2].
  destruct Hop as [Hop _]. rewrite decide_True in Hop by (vm_compute; reflexivity).
  destruct Hop as (a & p & _ & _ & _ & -> & _ & E & _). split; [reflexivity|exact E].
Defined.
