(* ===== verification/Persist.v ===== *)
(** * The SQLite persistence layer ([sw-persist])

    Models server/crates/sw-persist/src/lib.rs.  The tables are finite maps
    keyed by their primary key.  Every SQL statement may fail: [faults] is the
    environment's script, one entry consumed per statement, [true] meaning that
    SQLite reports an error and the statement has no effect.  A transaction that
    does not commit is rolled back.  Prepared queries fail as a whole. *)

From S2P Require Import Prelude Float.

(** The library's errors; [AssertionFailed] is not one of them but the panic of a
    [debug_assert_eq!] in a debug build. *)
Inductive Error :=
| SqliteFailure
| ConstraintViolation
| ToSqlConversionFailure
| IntegralValueOutOfRange
| QueryReturnedNoRows
| InvalidParameterName (msg : string)
| AssertionFailed.

Definition SCHEMA_VERSION : Z := 2.
Definition MAX_MOORINGS_PAGE_ROWS : Z := 8.

(** ** Tables *)
Record PlayerRow := mkPlayerRow {
  pl_id : Z;
  pl_name : string;
  pl_token_hash : string;
  pl_gold : Z;
  pl_created_at : Z;
  pl_last_seen : Z
}.

#[global] Instance PlayerRow_eta : Settable PlayerRow :=
  mkSettable (fun r => mkPlayerRow (pl_id r) (pl_name r) (pl_token_hash r) (pl_gold r)
    (pl_created_at r) (pl_last_seen r)).

Inductive PlayerAdmission :=
| PlayerAdmitted (player : PlayerRow)
| CapacityReached.

(** [MooringRow]; a row of the table holds the seven [REAL] columns as [f64]. *)
Record MooringRow := mkMooringRow {
  mo_boat_id : Z;
  mo_owner : Z;
  mo_cell_x : Z;
  mo_cell_z : Z;
  mo_pos : f32 * f32 * f32;
  mo_rot : f32 * f32 * f32 * f32;
  mo_name : string;
  mo_created_at : Z
}.

Record LedgerRow := mkLedgerRow {
  lr_player_id : Z;
  lr_amount : Z;
  lr_kind : Z;
  lr_note : string;
  lr_applied_at : Z
}.

Record TradeRow := mkTradeRow {
  tr_port_id : Z;
  tr_item_id : Z;
  tr_stock : Z;
  tr_price : Z;
  tr_applied_at : Z
}.

Record StoredMooring := mkStoredMooring {
  sm_owner : Z;
  sm_cell_x : Z;
  sm_cell_z : Z;
  sm_pos : f64 * f64 * f64;
  sm_rot : f64 * f64 * f64 * f64;
  sm_name : string;
  sm_created_at : Z
}.

Record Tables := mkTables {
  user_version : Z;
  has_v1 : bool;
  has_v2 : bool;
  players : gmap Z PlayerRow;
  player_seq : Z;
  moorings : gmap Z StoredMooring;
  ledger : gmap Z LedgerRow;
  world : gmap string string;
  market : gmap (Z * Z) (Z * Z);
  market_trades : gmap Z TradeRow
}.

#[global] Instance Tables_eta : Settable Tables :=
  mkSettable (fun r => mkTables (user_version r) (has_v1 r) (has_v2 r) (players r) (player_seq r)
    (moorings r) (ledger r) (world r) (market r) (market_trades r)).

Record Db := mkDb {
  tables : Tables;
  faults : list bool
}.

#[global] Instance Db_eta : Settable Db := mkSettable (fun r => mkDb (tables r) (faults r)).

(** ** Statements and transactions *)
Definition M (A : Type) : Type := Db -> result Error A * Db.

(** One statement: it fails as the environment decides, or runs [body] on the
    tables; a failing [body] (a constraint) leaves the tables alone. *)
Definition stmt {A} (body : Tables -> result Error A * Tables) : M A := fun db =>
  let rest := tail (faults db) in
  match faults db with
  | true :: _ => (Err SqliteFailure, mkDb (tables db) rest)
  | _ =>
      match body (tables db) with
      | (Ok a, t) => (Ok a, mkDb t rest)
      | (Err e, _) => (Err e, mkDb (tables db) rest)
      end
  end.

Definition query {A} (f : Tables -> result Error A) : M A := stmt (fun t => (f t, t)).

Definition exec (f : Tables -> Tables) : M unit := stmt (fun t => (Ok tt, f t)).

(** [Transaction]: BEGIN, the body, COMMIT; an error anywhere drops the
    transaction, which rolls the tables back. *)
Definition transaction {A} (body : M A) : M A := fun db0 =>
  try! _, db := exec (fun t => t) db0 in
  match body db with
  | (Ok a, db) =>
      match exec (fun t => t) db with
      | (Ok _, db) => (Ok a, db)
      | (Err e, db) => (Err e, db <| tables := tables db0 |>)
      end
  | (Err e, db) => (Err e, db <| tables := tables db0 |>)
  end.

(** ** Schema *)
Definition empty_tables : Tables := mkTables 0 false false ∅ 0 ∅ ∅ ∅ ∅ ∅.

(** The two migrations; [CREATE TABLE] refuses an existing table. *)
Definition MIGRATION_V1 (t : Tables) : result Error unit * Tables :=
  if has_v1 t then (Err SqliteFailure, t) else
  (Ok tt, t <| has_v1 := true |> <| players := ∅ |> <| player_seq := 0 |> <| moorings := ∅ |>
            <| ledger := ∅ |> <| world := ∅ |> <| user_version := 1 |>).

Definition MIGRATION_V2 (t : Tables) : result Error unit * Tables :=
  if has_v2 t then (Err SqliteFailure, t) else
  (Ok tt, t <| has_v2 := true |> <| market := ∅ |> <| market_trades := ∅ |> <| user_version := 2 |>).

Definition schema_version : M Z := query (fun t => Ok (user_version t)).

(** [debug] is whether the build has debug assertions. *)
Definition migrate (debug : bool) : M unit := fun db =>
  try! version, db := schema_version db in
  let check version db :=
    if debug && negb (version =? SCHEMA_VERSION) then (Err AssertionFailed, db) else (Ok tt, db) in
  let second version db :=
    if decide (version < 2) then try! _, db := stmt MIGRATION_V2 db in check 2 db
    else check version db in
  if decide (version < 1) then try! _, db := stmt MIGRATION_V1 db in second 1 db
  else second version db.

(** [Db::open] on an existing file: the pragmas, then the migrations. *)
Definition init (debug : bool) : M unit := fun db =>
  try! _, db := exec (fun t => t) db in migrate debug db.

(** ** Players *)

(** The row of a token, by the [UNIQUE] index. *)
Definition by_token (token_hash : string) (t : Tables) : option PlayerRow :=
  head (filter (fun r => pl_token_hash r = token_hash) (map_to_list (players t)).*2).

(** [INSERT ... RETURNING] with an [AUTOINCREMENT] key. *)
Definition insert_player (name token_hash : string) (now : Z) (t : Tables)
    : result Error PlayerRow * Tables :=
  if decide (player_seq t = i64_max) then (Err SqliteFailure, t) else
  if decide (by_token token_hash t <> None) then (Err ConstraintViolation, t) else
  let id := player_seq t + 1 in
  let row := mkPlayerRow id name token_hash 0 now now in
  (Ok row, t <| players ::= <[id := row]> |> <| player_seq := id |>).

Definition refresh_player (id : Z) (name : string) (now : Z) (t : Tables) : Tables :=
  t <| players ::= alter (fun r => r <| pl_name := name |> <| pl_last_seen := now |>) id |>.

(** The conflicting insert has already drawn its key, so the sequence advances
    (and runs out) on a refresh too. *)
Definition upsert_player_by_token (token_hash name : string) (now : Z) : M PlayerRow :=
  stmt (fun t =>
    match by_token token_hash t with
    | Some r =>
        if decide (player_seq t = i64_max) then (Err SqliteFailure, t) else
        (Ok (r <| pl_name := name |> <| pl_last_seen := now |>),
         refresh_player (pl_id r) name now t <| player_seq := player_seq t + 1 |>)
    | None => insert_player name token_hash now t
    end).

Definition player (id : Z) : M (option PlayerRow) := query (fun t => Ok (players t !! id)).

Definition admit_player_by_token (token_hash name : string) (now max_rows : Z)
    : M PlayerAdmission :=
  transaction (fun db =>
    try! existing_id, db := query (fun t => Ok (pl_id <$> by_token token_hash t)) db in
    match existing_id with
    | Some id =>
        try! _, db := exec (refresh_player id name now) db in
        try! row, db := query (fun t => match players t !! id with
                                        | Some r => Ok r
                                        | None => Err QueryReturnedNoRows
                                        end) db in
        (Ok (PlayerAdmitted row), db)
    | None =>
        try! count, db := query (fun t => Ok (Z.of_nat (size (players t)))) db in
        if decide (count >= max_rows) then (Ok CapacityReached, db) else
        try! row, db := stmt (insert_player name token_hash now) db in
        (Ok (PlayerAdmitted row), db)
    end).

Definition player_identities (limit : Z) : M (list (string * Z)) :=
  query (fun t =>
    Ok (omap (fun id => (fun r => (pl_token_hash r, id)) <$> players t !! id)
          (take (Z.to_nat limit) (btree_iter Z.le (dom (players t)))))).

Definition player_balance (id : Z) : M Z :=
  query (fun t => Ok (default 0 (pl_gold <$> players t !! id))).

Definition touch_last_seen (id now : Z) : M unit :=
  exec (fun t => t <| players ::= alter (fun r => r <| pl_last_seen := now |>) id |>).

(** ** Ledger *)
Definition lookup_txn (txn_id : Z) : M (option (Z * Z)) :=
  query (fun t => Ok (
    match ledger t !! txn_id with
    | Some l => (fun p => (lr_player_id l, pl_gold p)) <$> players t !! lr_player_id l
    | None => None
    end)).

Definition commit_txn (txn_id player_id amount kind : Z) (note : string)
    (applied_at new_balance : Z) : M unit :=
  transaction (fun db =>
    try! _, db := stmt (fun t =>
      match ledger t !! txn_id with
      | Some _ => (Err ConstraintViolation, t)
      | None => (Ok tt, t <| ledger ::= <[txn_id := mkLedgerRow player_id amount kind note applied_at]> |>)
      end) db in
    exec (fun t => t <| players ::= alter (fun r => r <| pl_gold := new_balance |>) player_id |>) db).

(** ** Market *)
Definition market_state (port_id item_id : Z) : M (option (Z * Z)) :=
  query (fun t => Ok (market t !! (port_id, item_id))).

(** Binding a [u64] above [i64::MAX] is refused before the statement runs. *)
Definition bind_u64 {A} (v : Z) (k : M A) : M A := fun db =>
  if decide (v > i64_max) then (Err ToSqlConversionFailure, db) else k db.

(** A column read as [u32]. *)
Definition get_u32 (v : Z) : result Error Z :=
  if decide (inU 32 v) then Ok v else Err IntegralValueOutOfRange.

Definition lookup_trade (txn_id : Z) : M (option (Z * Z * Z * Z)) :=
  bind_u64 txn_id (query (fun t =>
    match market_trades t !! txn_id with
    | Some r =>
        let? port := get_u32 (tr_port_id r) in
        let? item := get_u32 (tr_item_id r) in
        Ok (Some (port, item, tr_stock r, tr_price r))
    | None => Ok None
    end)).

(** The parameters are bound when the first statement runs, inside the
    transaction. *)
Definition commit_trade (txn_id port_id item_id new_stock new_price applied_at : Z) : M unit :=
  transaction (fun db =>
    try! _, db := bind_u64 txn_id (stmt (fun t =>
      match market_trades t !! txn_id with
      | Some _ => (Err ConstraintViolation, t)
      | None => (Ok tt, t <| market_trades ::=
                          <[txn_id := mkTradeRow port_id item_id new_stock new_price applied_at]> |>)
      end)) db in
    exec (fun t => t <| market ::= <[(port_id, item_id) := (new_stock, new_price)]> |>) db).

(** ** Moorings *)

(** SQLite stores a NaN as NULL, which the [NOT NULL] columns refuse. *)
Definition has_nan (m : MooringRow) : bool :=
  let '(p0, p1, p2) := mo_pos m in
  let '(r0, r1, r2, r3) := mo_rot m in
  is_nan p0 || is_nan p1 || is_nan p2 || is_nan r0 || is_nan r1 || is_nan r2 || is_nan r3.

(** A [REAL] column stores small integral values as integers, which have one
    zero: the sign of a zero is lost, every other value is kept. *)
Definition plus_zero (x : spec_float) : spec_float :=
  match x with S754_zero _ => S754_zero false | _ => x end.

Definition real_col (x : f32) : f64 := plus_zero (f64_of_f32 x).

Definition stored (m : MooringRow) (created_at : Z) : StoredMooring :=
  let '(p0, p1, p2) := mo_pos m in
  let '(r0, r1, r2, r3) := mo_rot m in
  mkStoredMooring (mo_owner m) (mo_cell_x m) (mo_cell_z m)
    (real_col p0, real_col p1, real_col p2)
    (real_col r0, real_col r1, real_col r2, real_col r3)
    (mo_name m) created_at.

(** On conflict every column but [created_at] is replaced. *)
Definition upsert_mooring (m : MooringRow) : M unit :=
  stmt (fun t =>
    if has_nan m then (Err ConstraintViolation, t) else
    let created := match moorings t !! mo_boat_id m with
                   | Some old => sm_created_at old
                   | None => mo_created_at m
                   end in
    (Ok tt, t <| moorings ::= <[mo_boat_id m := stored m created]> |>)).

(** [mooring_from_row]. *)
Definition mooring_from_row (boat_id : Z) (r : StoredMooring) : MooringRow :=
  let '(p0, p1, p2) := sm_pos r in
  let '(r0, r1, r2, r3) := sm_rot r in
  mkMooringRow boat_id (sm_owner r) (sm_cell_x r) (sm_cell_z r)
    (f32_of_f64 p0, f32_of_f64 p1, f32_of_f64 p2)
    (f32_of_f64 r0, f32_of_f64 r1, f32_of_f64 r2, f32_of_f64 r3)
    (sm_name r) (sm_created_at r).

(** The rows of a cell in [boat_id] order. *)
Definition cell_rows (cell_x cell_z : Z) (t : Tables) : list MooringRow :=
  omap (fun id =>
    match moorings t !! id with
    | Some r => if decide (sm_cell_x r = cell_x /\ sm_cell_z r = cell_z)
                then Some (mooring_from_row id r) else None
    | None => None
    end) (btree_iter Z.le (dom (moorings t))).

Definition moorings_in_cell (cell_x cell_z : Z) : M (list MooringRow) :=
  query (fun t => Ok (cell_rows cell_x cell_z t)).

Definition moorings_in_cell_after (cell_x cell_z : Z) (after_boat_id : option Z) (limit : Z)
    : M (list MooringRow) := fun db =>
  if decide (1 <= limit <= MAX_MOORINGS_PAGE_ROWS) then
    match after_boat_id with
    | Some after =>
        query (fun t => Ok (take (Z.to_nat limit)
                              (filter (fun r => after < mo_boat_id r) (cell_rows cell_x cell_z t)))) db
    | None => query (fun t => Ok (take (Z.to_nat limit) (cell_rows cell_x cell_z t))) db
    end
  else (Err (InvalidParameterName "mooring page limit must be in 1..=8"), db).

Definition mooring_count : M Z := query (fun t => Ok (Z.of_nat (size (moorings t)))).

(** ** World key/value *)
Definition world_get (key : string) : M (option string) := query (fun t => Ok (world t !! key)).

Definition world_set (key value : string) : M unit :=
  exec (fun t => t <| world ::= <[key := value]> |>).

Definition world_get_or_init (key dflt : string) : M string := fun db =>
  try! v, db := world_get key db in
  match v with
  | Some v => (Ok v, db)
  | None => try! _, db := world_set key dflt db in (Ok dflt, db)
  end.

(** ** Lemmas *)

(** What running a statement can do. *)
Lemma stmt_cases {A} (body : Tables -> result Error A * Tables) db r db' :
  stmt body db = (r, db') ->
  match r with
  | Ok a => exists t, body (tables db) = (Ok a, t) /\ tables db' = t
  | Err _ => tables db' = tables db
  end.
Proof.
  unfold stmt. intros Hs. destruct (faults db) as [|[] ?]; simplify_eq/=; try done;
    destruct (body (tables db)) as [[a|e] t]; simplify_eq/=; eauto.
Qed.

Lemma query_cases {A} (f : Tables -> result Error A) db r db' :
  query f db = (r, db') -> tables db' = tables db /\ (forall a, r = Ok a -> f (tables db) = Ok a).
Proof.
  unfold query. intros Hs. apply stmt_cases in Hs. destruct r as [a|e].
  - destruct Hs as (t & [= -> <-] & ->). split; [done|]. by intros ? [= <-].
  - split; [done|]. by intros ? [=].
Qed.

Lemma exec_cases f db r db' :
  exec f db = (r, db') -> tables db' = (if r is Ok _ then f (tables db) else tables db).
Proof.
  unfold exec. intros Hs. apply stmt_cases in Hs. destruct r; [|done]. by destruct Hs as (t & [= _ <-] & ->).
Qed.

(** Without faults a statement just runs. *)
Lemma stmt_run {A} (body : Tables -> result Error A * Tables) t :
  stmt body (mkDb t []) =
    match body t with (Ok a, t') => (Ok a, mkDb t' []) | (Err e, _) => (Err e, mkDb t []) end.
Proof. done. Qed.

(** Transactions are atomic. *)
Lemma transaction_cases {A} (body : M A) db r db' :
  transaction body db = (r, db') ->
  match r with
  | Ok a => exists db1 db2, tables db1 = tables db /\ body db1 = (Ok a, db2) /\
                            tables db' = tables db2
  | Err _ => tables db' = tables db
  end.
Proof.
  unfold transaction. destruct (exec _ db) as [r1 db1] eqn:E1. apply exec_cases in E1.
  destruct r1 as [u|e]; [|intros [= <- <-]; done].
  destruct (body db1) as [[a|e] db2] eqn:Eb; [|intros [= <- <-]; done].
  destruct (exec _ db2) as [[u2|e2] db3] eqn:E3; intros [= <- <-]; [|done].
  apply exec_cases in E3. eauto.
Qed.

(** The players table: keys agree with the rows, ids come from the sequence and
    tokens are unique. *)
Record PlayersInv (t : Tables) : Prop := {
  pi_key id r : players t !! id = Some r -> pl_id r = id /\ 1 <= id <= player_seq t;
  pi_token id id' r r' : players t !! id = Some r -> players t !! id' = Some r' ->
    pl_token_hash r = pl_token_hash r' -> id = id';
  pi_seq : 0 <= player_seq t <= i64_max
}.

Lemma by_token_spec tok t r :
  PlayersInv t ->
  (by_token tok t = Some r <-> exists id, players t !! id = Some r /\ pl_token_hash r = tok).
Proof.
  intros HI. unfold by_token. set (l := filter _ _).
  assert (Hin : forall r, r ∈ l <-> exists id, players t !! id = Some r /\ pl_token_hash r = tok).
  { intros x. unfold l. rewrite list_elem_of_filter, list_elem_of_fmap. split.
    - intros (Ht & [id y] & -> & Hy). apply elem_of_map_to_list in Hy. eauto.
    - intros (id & Hx & <-). split; [done|]. exists (id, x). by rewrite elem_of_map_to_list. }
  rewrite <- Hin. destruct l as [|x l'] eqn:El; [rewrite elem_of_nil; done|]. simpl.
  split; [intros [= ->]; left|]. intros Hr. f_equal.
  destruct (proj1 (Hin x) ltac:(left)) as (i & Hi & Ti).
  destruct (proj1 (Hin r) Hr) as (j & Hj & Tj).
  assert (i = j) by (eapply (pi_token t HI); [done..|congruence]). congruence.
Qed.

Lemma by_token_None tok t id r :
  PlayersInv t -> by_token tok t = None -> players t !! id = Some r -> pl_token_hash r <> tok.
Proof.
  intros HI Hn Hr Ht. assert (by_token tok t = Some r) by (apply by_token_spec; eauto). congruence.
Qed.

Lemma refresh_inv id name now t : PlayersInv t -> PlayersInv (refresh_player id name now t).
Proof.
  intros [Hk Ht Hs].
  assert (Hl : forall i r, players (refresh_player id name now t) !! i = Some r ->
    exists r0, players t !! i = Some r0 /\ pl_id r = pl_id r0 /\ pl_token_hash r = pl_token_hash r0).
  { intros i r. unfold refresh_player. simpl. rewrite lookup_alter. case_decide; [|eauto].
    destruct (players t !! id) as [r0|] eqn:E; simpl; [|done]. subst. intros [= <-]. eauto. }
  constructor; [| |done].
  - intros i r Hr. destruct (Hl _ _ Hr) as (r0 & H0 & -> & _). by apply Hk.
  - intros i j r r' Hi Hj E. destruct (Hl _ _ Hi) as (r0 & H0 & _ & E0).
    destruct (Hl _ _ Hj) as (r1 & H1 & _ & E1). eapply Ht; [done..|congruence].
Qed.

Lemma insert_player_spec name tok now t r t' :
  PlayersInv t -> by_token tok t = None -> insert_player name tok now t = (r, t') ->
  match r with
  | Ok row => row = mkPlayerRow (player_seq t + 1) name tok 0 now now /\
      players t !! pl_id row = None /\
      t' = t <| players ::= <[pl_id row := row]> |> <| player_seq := pl_id row |> /\ PlayersInv t'
  | Err _ => t' = t
  end.
Proof.
  intros HI Hn. unfold insert_player. case_decide as Hmax; [by intros [= <- <-]|].
  rewrite decide_False by (intros Hc; by apply Hc). intros [= <- <-]. simpl.
  assert (Hf : players t !! (player_seq t + 1) = None).
  { destruct (players t !! (player_seq t + 1)) as [x|] eqn:Ex; [|done].
    apply (pi_key t HI) in Ex. lia. }
  pose proof (pi_seq t HI) as Hs. split_and!; try done. constructor; simpl.
  - intros i r. rewrite lookup_insert. case_decide; [intros [= <-]; simpl; lia|].
    intros Hr. apply (pi_key t HI) in Hr. lia.
  - intros i j r r'. rewrite !lookup_insert.
    repeat case_decide; intros Hi Hj E; simplify_eq/=; [done|..].
    + by destruct (by_token_None _ _ _ _ HI Hn Hj).
    + by destruct (by_token_None _ _ _ _ HI Hn Hi).
    + by eapply (pi_token t HI).
  - unfold i64_max in *. lia.
Qed.

(** The outcome of an admission, in terms of the tables before and after. *)
Definition admission_ok (tok name : string) (now max_rows : Z) (t t' : Tables)
    (r : result Error PlayerAdmission) : Prop :=
  match r with
  | Err _ => t' = t
  | Ok CapacityReached => t' = t /\ by_token tok t = None /\ max_rows <= Z.of_nat (size (players t))
  | Ok (PlayerAdmitted row) =>
      by_token tok t' = Some row /\ pl_name row = name /\ pl_last_seen row = now /\
      (forall id, id <> pl_id row -> players t' !! id = players t !! id) /\
      match by_token tok t with
      | Some old => pl_id row = pl_id old /\ pl_gold row = pl_gold old /\
          pl_created_at row = pl_created_at old /\ size (players t') = size (players t)
      | None => pl_gold row = 0 /\ pl_created_at row = now /\ players t !! pl_id row = None /\
          size (players t') = S (size (players t)) /\ Z.of_nat (size (players t')) <= max_rows
      end
  end.

Lemma refresh_ok tok name now max_rows t old row :
  PlayersInv t -> by_token tok t = Some old ->
  players (refresh_player (pl_id old) name now t) !! pl_id old = Some row ->
  admission_ok tok name now max_rows t (refresh_player (pl_id old) name now t) (Ok (PlayerAdmitted row)).
Proof.
  intros HI Hold Hrow. pose proof (refresh_inv (pl_id old) name now t HI) as HI'.
  pose proof (proj1 (by_token_spec _ _ _ HI) Hold) as (id & Hid & Htok).
  destruct (pi_key t HI _ _ Hid) as [<- _].
  assert (Erow : row = old <| pl_name := name |> <| pl_last_seen := now |>).
  { revert Hrow. unfold refresh_player. simpl. rewrite lookup_alter_eq, Hid. by intros [= <-]. }
  assert (Eid : pl_id row = pl_id old) by (by rewrite Erow).
  simpl. rewrite Hold, Eid. rewrite Erow at 2 3 4 5. simpl. split_and!; try done.
  - apply by_token_spec; [done|]. exists (pl_id old). split; [done|]. by rewrite Erow.
  - intros i Hi. by rewrite lookup_alter_ne.
  - apply size_alter.
Qed.

Lemma admit_cases tok name now max_rows db r db' :
  PlayersInv (tables db) -> admit_player_by_token tok name now max_rows db = (r, db') ->
  PlayersInv (tables db') /\ admission_ok tok name now max_rows (tables db) (tables db') r.
Proof.
  intros HI Hadm. unfold admit_player_by_token in Hadm. apply transaction_cases in Hadm.
  destruct r as [adm|e]; [|by rewrite Hadm].
  destruct Hadm as (db1 & db2 & E1 & Hb & ->). rewrite <- E1 in HI |- *. clear E1.
  destruct (query _ db1) as [[o|?] db3] eqn:Eq; [|done].
  apply query_cases in Eq as [E3 Hq]. specialize (Hq o eq_refl). injection Hq as <-.
  destruct (by_token tok (tables db1)) as [old|] eqn:Hold; simpl in Hb.
  - destruct (exec _ db3) as [[u|?] db4] eqn:Eu; [|done]. apply exec_cases in Eu. rewrite E3 in Eu.
    destruct (query _ db4) as [[row|?] db5] eqn:Er; [|done].
    apply query_cases in Er as [E5 Hq]. specialize (Hq row eq_refl). injection Hb as <- <-.
    rewrite E5, Eu in *. case_match eqn:Hrow; [|done]. injection Hq as ->.
    split; [by apply refresh_inv|by apply refresh_ok].
  - destruct (query _ db3) as [[n|?] db4] eqn:Ec; [|done].
    apply query_cases in Ec as [E4 Hq]. specialize (Hq n eq_refl). injection Hq as <-.
    rewrite E3 in *. case_decide as Hcap.
    { injection Hb as <- <-. rewrite E4. split; [done|]. simpl. split_and!; [done|done|lia]. }
    destruct (stmt _ db4) as [[row|?] db5] eqn:Ei; [|done]. injection Hb as <- <-.
    apply stmt_cases in Ei as (t & Hi & ->). rewrite E4 in Hi.
    apply insert_player_spec in Hi as (Erow & Hf & -> & HI'); [|done..].
    split; [done|]. simpl. rewrite Hold. rewrite Erow in *. simpl in *. split_and!; try done.
    + apply by_token_spec; [done|]. exists (player_seq (tables db1) + 1). simpl. by rewrite lookup_insert_eq.
    + intros i Hne. by rewrite lookup_insert_ne.
    + by apply map_size_insert_None.
    + rewrite map_size_insert_None by done. lia.
Qed.

(** *** Mooring pages *)
Lemma elem_of_cell_rows cell_x cell_z t m :
  m ∈ cell_rows cell_x cell_z t <->
  exists r, moorings t !! mo_boat_id m = Some r /\ sm_cell_x r = cell_x /\ sm_cell_z r = cell_z /\
    m = mooring_from_row (mo_boat_id m) r.
Proof.
  assert (Hid : forall id r, mo_boat_id (mooring_from_row id r) = id).
  { intros id r. unfold mooring_from_row. by destruct (sm_pos r) as [[] ?], (sm_rot r) as [[[] ?] ?]. }
  unfold cell_rows. rewrite list_elem_of_omap. split.
  - intros (id & _ & Hm). destruct (moorings t !! id) as [r|] eqn:Er; [|done].
    case_decide as Hc; [|done]. injection Hm as <-. exists r. rewrite Hid. tauto.
  - intros (r & Hr & Hx & Hz & Em). exists (mo_boat_id m). rewrite elem_of_btree_iter, elem_of_dom, Hr.
    split; [done|]. rewrite decide_True by done. by rewrite <- Em.
Qed.

(** Strictly increasing boat ids. *)
Definition ids_sorted (l : list MooringRow) : Prop :=
  StronglySorted (fun a b => mo_boat_id a < mo_boat_id b) l.

Lemma cell_rows_sorted cell_x cell_z t : ids_sorted (cell_rows cell_x cell_z t).
Proof.
  unfold ids_sorted, cell_rows.
  assert (Hid : forall id r, mo_boat_id (mooring_from_row id r) = id).
  { intros id r. unfold mooring_from_row. by destruct (sm_pos r) as [[] ?], (sm_rot r) as [[[] ?] ?]. }
  pose proof (btree_sorted Z.le (dom (moorings t) : gset Z)) as Hs.
  pose proof (NoDup_btree_iter Z.le (dom (moorings t) : gset Z)) as Hnd.
  induction (btree_iter Z.le (dom (moorings t))) as [|id l IH]; simpl; [constructor|].
  apply StronglySorted_inv in Hs as [Hs Hall]. apply NoDup_cons in Hnd as [Hn Hnd].
  specialize (IH Hs Hnd). destruct (moorings t !! id) as [r|]; [|done]. case_decide; [|done].
  constructor; [done|]. apply Forall_forall. intros m Hm.
  apply list_elem_of_omap in Hm as (id' & Hin & Hm).
  destruct (moorings t !! id') as [r'|]; [|done]. case_decide; [|done]. injection Hm as <-.
  rewrite !Hid. rewrite Forall_forall in Hall. specialize (Hall _ Hin).
  assert (id <> id') by (intros ->; done). lia.
Qed.

(** Keyset pagination, as the hydration loop drives it: read a page, continue
    after its last boat, stop at an empty page. *)
Fixpoint read_pages (fuel : nat) (cell_x cell_z limit : Z) (after : option Z) (db : Db)
    : result Error (list (list MooringRow)) :=
  match fuel with
  | O => Ok []
  | S fuel =>
      let? rows := (moorings_in_cell_after cell_x cell_z after limit db).1 in
      match last rows with
      | None => Ok []
      | Some r =>
          let? rest := read_pages fuel cell_x cell_z limit (Some (mo_boat_id r)) db in
          Ok (rows :: rest)
      end
  end.

Lemma ids_sorted_app l1 l2 :
  ids_sorted (l1 ++ l2) ->
  ids_sorted l2 /\ forall a b, a ∈ l1 -> b ∈ l2 -> mo_boat_id a < mo_boat_id b.
Proof.
  induction l1 as [|x l1 IH]; simpl; intros Hs; [split; [done|]; by intros a b Ha%not_elem_of_nil|].
  apply StronglySorted_inv in Hs as [Hs Hall]. destruct (IH Hs) as [H2 Hlt]. split; [done|].
  intros a b [->|Ha]%elem_of_cons Hb; [|by apply Hlt].
  rewrite Forall_forall in Hall. apply Hall, elem_of_app. by right.
Qed.

(** Resuming after the last row of a prefix reads the rest. *)
Lemma filter_after l1 l2 r :
  ids_sorted (l1 ++ l2) -> last l1 = Some r ->
  filter (fun m => mo_boat_id r < mo_boat_id m) (l1 ++ l2) = l2.
Proof.
  intros Hs Hr. apply last_Some in Hr as [l0 ->].
  destruct (ids_sorted_app _ _ Hs) as [_ Hlt].
  assert (Hle : forall m, m ∈ l0 ++ [r] -> mo_boat_id m <= mo_boat_id r).
  { intros m [Hm| ->%list_elem_of_singleton]%elem_of_app; [|lia].
    rewrite <- app_assoc in Hs. destruct (ids_sorted_app _ _ Hs) as [_ H0].
    specialize (H0 m r Hm ltac:(left)). lia. }
  rewrite filter_app, filter_none, filter_all; [done| |].
  - intros m Hm. apply Hlt; [|done]. apply elem_of_app. right. left.
  - intros m Hm. specialize (Hle m Hm). lia.
Qed.

Lemma page_eq cell_x cell_z limit t l1 l2 after :
  1 <= limit <= MAX_MOORINGS_PAGE_ROWS -> cell_rows cell_x cell_z t = l1 ++ l2 ->
  after = mo_boat_id <$> last l1 ->
  moorings_in_cell_after cell_x cell_z after limit (mkDb t []) =
    (Ok (take (Z.to_nat limit) l2), mkDb t []).
Proof.
  intros Hl E ->. pose proof (cell_rows_sorted cell_x cell_z t) as Hs.
  unfold moorings_in_cell_after. rewrite decide_True by done.
  destruct (last l1) as [r|] eqn:Er; simpl; unfold query; rewrite stmt_run, E.
  - rewrite E in Hs. by rewrite (filter_after l1 l2 r).
  - apply last_None in Er. by subst l1.
Qed.

Lemma read_pages_spec fuel cell_x cell_z limit t l1 l2 :
  1 <= limit <= MAX_MOORINGS_PAGE_ROWS -> cell_rows cell_x cell_z t = l1 ++ l2 ->
  (length l2 < fuel)%nat ->
  exists pages, read_pages fuel cell_x cell_z limit (mo_boat_id <$> last l1) (mkDb t []) = Ok pages /\
    concat pages = l2 /\ Forall (fun p => 1 <= len p <= limit) pages.
Proof.
  intros Hl. revert l1 l2. induction fuel as [|fuel IH]; intros l1 l2 E Hf; [lia|]. simpl.
  rewrite (page_eq _ _ _ _ l1 l2) by done. cbn [fst].
  destruct l2 as [|x l2].
  { rewrite take_nil. simpl. exists []. by split_and!. }
  destruct (last (take (Z.to_nat limit) (x :: l2))) as [r|] eqn:Er.
  2: { apply last_None in Er. destruct (Z.to_nat limit) eqn:En; [lia|done]. }
  set (pg := take (Z.to_nat limit) (x :: l2)) in *.
  assert (Hsplit : x :: l2 = pg ++ drop (Z.to_nat limit) (x :: l2)) by (symmetry; apply take_drop).
  assert (Hlast : last (l1 ++ pg) = Some r) by (by rewrite last_app, Er).
  destruct (IH (l1 ++ pg) (drop (Z.to_nat limit) (x :: l2))) as (pages & Hp & Hc & Hb).
  - rewrite E, Hsplit at 1. by rewrite <- app_assoc.
  - rewrite length_drop. simpl in *. lia.
  - rewrite Hlast in Hp. simpl in Hp. rewrite Hp. exists (pg :: pages). split; [done|]. split.
    + simpl. by rewrite Hc, <- Hsplit.
    + constructor; [|done]. unfold len, pg. rewrite length_take. simpl length. lia.
Qed.

(** ** Theorems *)

(** C20.  Player admission is atomic and bounded: whatever statement fails, a
    failed admission leaves the database as it was; a new identity is created
    (with a fresh id, zero gold, one more row) only below the row ceiling and
    refused without effect at it; a known identity keeps its id, its gold and
    its creation time; no other row is touched; and tokens, keys and ids stay
    consistent. *)
Theorem admit_player_spec (tok name : string) (now max_rows : Z) (db : Db) :
  PlayersInv (tables db) ->
  let '(r, db') := admit_player_by_token tok name now max_rows db in
  PlayersInv (tables db') /\ admission_ok tok name now max_rows (tables db) (tables db') r.
Proof.
  intros HI. destruct (admit_player_by_token _ _ _ _ _) as [r db'] eqn:E.
  by eapply admit_cases.
Qed.

(** A fresh database after both migrations, and one with two players. *)
Definition demo_tables : Tables := (init true (mkDb empty_tables [])).2.(tables).

Definition demo_db : Db :=
  (admit_player_by_token "t2" "Bo" 6 2 (admit_player_by_token "t1" "Al" 5 2 (mkDb demo_tables [])).2).2.

Lemma demo_tables_inv : PlayersInv demo_tables.
Proof.
  assert (E : players demo_tables = ∅) by (vm_compute; reflexivity).
  constructor; rewrite ?E; [intros id r; by rewrite lookup_empty| |vm_compute; split; discriminate].
  intros id id' r r'. by rewrite lookup_empty.
Qed.

Lemma demo_db_inv : PlayersInv (tables demo_db).
Proof.
  assert (H0 : PlayersInv (tables (mkDb demo_tables []))) by apply demo_tables_inv.
  unfold demo_db.
  destruct (admit_player_by_token "t1" "Al" 5 2 (mkDb demo_tables [])) as [r1 db1] eqn:E1.
  apply admit_cases in E1 as [H1 _]; [|done]. simpl.
  destruct (admit_player_by_token "t2" "Bo" 6 2 db1) as [r2 db2] eqn:E2.
  by apply admit_cases in E2 as [H2 _].
Qed.

Lemma admit_player_spec_witness :
  let '(r, db') := admit_player_by_token "t3" "Cy" 7 2 demo_db in
  PlayersInv (tables db') /\ admission_ok "t3" "Cy" 7 2 (tables demo_db) (tables db') r /\
  r = Ok CapacityReached.
Proof.
  pose proof (admit_player_spec "t3" "Cy" 7 2 demo_db demo_db_inv) as H.
  assert (E : (admit_player_by_token "t3" "Cy" 7 2 demo_db).1 = Ok CapacityReached)
    by (vm_compute; reflexivity).
  destruct (admit_player_by_token "t3" "Cy" 7 2 demo_db) as [r db'].
  destruct H as [H1 H2]. split; [exact H1|split; [exact H2|exact E]].
Defined.

(** Reading bounded pages of a cell one after the other returns every mooring of
    the cell exactly once in boat order, in pages of at most [limit] rows and none
    empty, and terminates within one read per row plus one. *)
Definition pages_complete (cell_x cell_z limit : Z) (t : Tables) : Prop :=
  exists pages,
    read_pages (S (length (cell_rows cell_x cell_z t))) cell_x cell_z limit None (mkDb t []) = Ok pages /\
    concat pages = cell_rows cell_x cell_z t /\
    Forall (fun p => 1 <= len p <= limit) pages /\
    ids_sorted (concat pages) /\
    (forall m, m ∈ concat pages <->
       exists r, moorings t !! mo_boat_id m = Some r /\ sm_cell_x r = cell_x /\ sm_cell_z r = cell_z /\
         m = mooring_from_row (mo_boat_id m) r).

Lemma mooring_pages_complete (cell_x cell_z limit : Z) (t : Tables) :
  1 <= limit <= MAX_MOORINGS_PAGE_ROWS -> pages_complete cell_x cell_z limit t.
Proof.
  intros Hl.
  destruct (read_pages_spec (S (length (cell_rows cell_x cell_z t))) cell_x cell_z limit t
              [] (cell_rows cell_x cell_z t)) as (pages & Hp & Hc & Hb); [done|done|lia|].
  exists pages. rewrite Hc. split_and!; try done; [apply cell_rows_sorted|].
  intros m. apply elem_of_cell_rows.
Qed.

Definition demo_mooring (id : Z) : MooringRow :=
  mkMooringRow id 1 0 0 (f32_of_Z 3, S754_zero false, S754_finite false 11184811 (-25))
    (S754_zero false, S754_zero false, S754_zero false, f32_of_Z 1) "Sloop" 9.

Definition moored : Tables :=
  (upsert_mooring (demo_mooring 4) (upsert_mooring (demo_mooring 2)
    (upsert_mooring (demo_mooring 7) (mkDb demo_tables [])).2).2).2.(tables).

(** The seven floats of a mooring are [f32] values. *)
Definition mooring_floats_ok (m : MooringRow) : Prop :=
  let '(p0, p1, p2) := mo_pos m in let '(r0, r1, r2, r3) := mo_rot m in
  Forall f32_ok [p0; p1; p2; r0; r1; r2; r3].

(** The row a mooring is read back as: a negative zero of the pose has lost its
    sign, and [created_at] is the boat's first. *)
Definition as_read (m : MooringRow) (created : Z) : MooringRow :=
  let '(p0, p1, p2) := mo_pos m in
  let '(r0, r1, r2, r3) := mo_rot m in
  mkMooringRow (mo_boat_id m) (mo_owner m) (mo_cell_x m) (mo_cell_z m)
    (plus_zero p0, plus_zero p1, plus_zero p2)
    (plus_zero r0, plus_zero r1, plus_zero r2, plus_zero r3) (mo_name m) created.

(** Every other value of a column survives the trip through [f64]. *)
Lemma real_col_back x : f32_ok x -> f32_of_f64 (real_col x) = plus_zero x.
Proof.
  intros Hx. unfold real_col. destruct x as [s|s| |s m e]; [done..|].
  assert (E : plus_zero (f64_of_f32 (S754_finite s m e)) = f64_of_f32 (S754_finite s m e)).
  { destruct (f64_of_f32_eq s m e Hx) as (d & _ & ->). done. }
  rewrite E. by apply f32_f64_roundtrip.
Qed.

(** A mooring is stored faithfully: without faults, an upsert of a mooring with
    no NaN followed by a read of its cell returns it, its pose bit for bit apart
    from the sign of a zero, except that a replaced boat keeps its original
    creation time, and no other boat changes; a NaN is refused and nothing is
    written. *)
Definition upsert_faithful (m : MooringRow) (t : Tables) : Prop :=
  let '(r, db) := upsert_mooring m (mkDb t []) in
  if has_nan m then r = Err ConstraintViolation /\ tables db = t
  else
    r = Ok tt /\
    (forall id, id <> mo_boat_id m -> moorings (tables db) !! id = moorings t !! id) /\
    exists created, (forall old, moorings t !! mo_boat_id m = Some old -> created = sm_created_at old) /\
      (moorings t !! mo_boat_id m = None -> created = mo_created_at m) /\
      as_read m created ∈ cell_rows (mo_cell_x m) (mo_cell_z m) (tables db).

Lemma mooring_roundtrip (m : MooringRow) (t : Tables) :
  mooring_floats_ok m -> upsert_faithful m t.
Proof.
  unfold mooring_floats_ok, upsert_faithful. intros Hok. unfold upsert_mooring. rewrite stmt_run. destruct (has_nan m); [done|]. simpl.
  set (created := match moorings t !! mo_boat_id m with Some old => _ | None => _ end).
  split; [done|]. split; [intros id Hid; by rewrite lookup_insert_ne|]. exists created.
  unfold created. split; [by intros old ->|]. split; [by intros ->|]. fold created. clearbody created.
  apply elem_of_cell_rows. simpl. exists (stored m created).
  destruct m as [id owner x z [[p0 p1] p2] [[[r0 r1] r2] r3] name ca]. simpl in *.
  rewrite lookup_insert_eq. split_and!; try done. repeat (apply Forall_cons in Hok as [? Hok]).
  unfold mooring_from_row, as_read. simpl. by rewrite !real_col_back.
Qed.

(** C34.  Moorings are kept faithfully.  An upsert of a mooring with no NaN,
    without faults, is read back from its cell with its pose bit for bit apart from
    the sign of a zero (a [REAL] column has one zero, so [-0.0] is read as [0.0]),
    except that a replaced boat keeps its original creation time, and no other boat
    changes; a NaN is refused and nothing is written.  And whatever was written, reading bounded pages of a
    cell one after the other returns every mooring of it exactly once in boat
    order, none of the pages empty or over the limit, within one read per row
    plus one. *)
Theorem moorings_kept (m : MooringRow) (cell_x cell_z limit : Z) (t : Tables) :
  mooring_floats_ok m -> 1 <= limit <= MAX_MOORINGS_PAGE_ROWS ->
  upsert_faithful m t /\
  pages_complete cell_x cell_z limit (tables (upsert_mooring m (mkDb t [])).2).
Proof. intros Hm Hl. split; [by apply mooring_roundtrip|by apply mooring_pages_complete]. Qed.

Lemma moorings_kept_witness :
  (exists created,
    mkMooringRow 7 1 0 0 (mo_pos (demo_mooring 7)) (mo_rot (demo_mooring 7)) "Sloop" created
      ∈ cell_rows 0 0 (tables (upsert_mooring (demo_mooring 7) (mkDb moored [])).2)) /\
  exists pages,
    read_pages 4 0 0 2 None (mkDb moored []) = Ok pages /\ map (map mo_boat_id) pages = [[2; 4]; [7]] /\
    concat pages = cell_rows 0 0 moored.
Proof.
  destruct (moorings_kept (demo_mooring 7) 0 0 2 moored) as [H1 (pages & Hp & Hc & _)];
    [repeat constructor|unfold MAX_MOORINGS_PAGE_ROWS; lia|]. split.
  - unfold upsert_faithful in H1.
    destruct (upsert_mooring (demo_mooring 7) (mkDb moored [])) as [r db].
    destruct H1 as (_ & _ & created & _ & _ & H). exists created. exact H.
  - exists pages. vm_compute in Hp. injection Hp as <-.
    split; [vm_compute; reflexivity|split; [vm_compute; reflexivity|exact Hc]].
Defined.

(** C38.  Opening a database is idempotent and additive: an empty file gets both
    schema versions; a version-1 database keeps every row of its tables and gains
    an empty market; a database of version 2 or more is not changed; and a failure
    during opening never loses a row.  Without failures opening succeeds, and it
    does so in a release build also for a database of a version above the one the
    code knows, which is left as it is and used unchecked; in a build with debug
    assertions that database, and only it, panics. *)
Theorem init_migrates (debug : bool) (t : Tables) (fs : list bool) :
  0 <= user_version t ->
  (has_v1 t = bool_decide (1 <= user_version t)) -> (has_v2 t = bool_decide (2 <= user_version t)) ->
  let '(r, db) := init debug (mkDb t fs) in
  (fs = [] -> r = if debug && (SCHEMA_VERSION <? user_version t) then Err AssertionFailed else Ok tt) /\
  (r = Ok tt -> has_v1 (tables db) = true /\ has_v2 (tables db) = true /\
     user_version (tables db) = Z.max (user_version t) SCHEMA_VERSION /\
     (debug = true -> user_version (tables db) = SCHEMA_VERSION)) /\
  (r = Err AssertionFailed -> debug = true /\ SCHEMA_VERSION < user_version t) /\
  (SCHEMA_VERSION <= user_version t -> tables db = t) /\
  (1 <= user_version t ->
     players (tables db) = players t /\ player_seq (tables db) = player_seq t /\
     moorings (tables db) = moorings t /\ ledger (tables db) = ledger t /\
     world (tables db) = world t) /\
  (user_version t = 1 -> r = Ok tt -> market (tables db) = ∅ /\ market_trades (tables db) = ∅).
Proof.
  intros H0 H1 H2. unfold init, migrate, schema_version, query, exec, SCHEMA_VERSION.
  destruct t as [v h1 h2 ps seq ms lg wd mk mt]. simpl in *. subst h1 h2.
  destruct (decide (v = 0)) as [->|]; [|destruct (decide (v = 1)) as [->|]].
  - rewrite !bool_decide_false by lia.
    destruct debug, fs as [|[] [|[] [|[] [|[] ?]]]]; unfold stmt; simpl; split_and!; intros;
      try done; simpl in *; lia.
  - rewrite bool_decide_true, bool_decide_false by lia.
    destruct debug, fs as [|[] [|[] [|[] ?]]]; unfold stmt; simpl; split_and!; intros;
      try done; simpl in *; lia.
  - rewrite !bool_decide_true by lia.
    destruct fs as [|[] [|[] ?]]; unfold stmt; simpl; rewrite ?decide_False by lia; simpl;
      destruct debug; simpl; destruct (v =? 2) eqn:Ev; simpl; destruct (2 <? v) eqn:El; simpl;
      split_and!; intros; try done; repeat split; intros; simpl in *; try done; lia.
Qed.

Lemma init_migrates_witness :
  let v1 := mkTables 1 true false {[1 := mkPlayerRow 1 "Al" "t1" 50 0 0]} 1 ∅ ∅ ∅ ∅ ∅ in
  let v3 := mkTables 3 true true {[1 := mkPlayerRow 1 "Al" "t1" 50 0 0]} 1 ∅ ∅ ∅ ∅ ∅ in
  players (tables (init false (mkDb v1 [false; false; true])).2) = players v1 /\
  (init false (mkDb v1 [false; false; true])).1 = Err SqliteFailure /\
  init false (mkDb v3 []) = (Ok tt, mkDb v3 []) /\ (init true (mkDb v3 [])).1 = Err AssertionFailed.
Proof.
  intros v1 v3. split; [|split; [|split]].
  - pose proof (init_migrates false v1 [false; false; true]) as H.
    destruct (init false (mkDb v1 [false; false; true])) as [r db].
    destruct H as (_ & _ & _ & _ & H & _);
      [vm_compute; discriminate|vm_compute; reflexivity|vm_compute; reflexivity|].
    apply H. vm_compute. discriminate.
  - vm_compute. reflexivity.
  - vm_compute. reflexivity.
  - pose proof (init_migrates true v3 []) as H. destruct (init true (mkDb v3 [])) as [r db].
    destruct H as (H & _); [vm_compute; discriminate|vm_compute; reflexivity|vm_compute; reflexivity|].
    apply H. reflexivity.
Defined.
