(* ===== verification/EconStore.v ===== *)
(** * The economy over the database (econ_store.rs)

    Models server/crates/sw-server/src/econ_store.rs: the adapters that run
    [sw_econ::Ledger] and [sw_econ::Market] against the SQLite tables, and shows
    that they keep the promises the policy layer relies on (the classes of
    Econ.v), with statement failures anywhere. *)

From S2P Require Import Prelude Econ Persist.

(** ** Adapters *)
Record DbLedgerStore := mkDbLedgerStore { dl_db : Db; dl_now_ms : Z }.

Definition db_ledger_new (db : Db) (now_ms : Z) : DbLedgerStore := mkDbLedgerStore db now_ms.

(** Run a database operation through the adapter. *)
Definition with_db {A} (m : M A) (s : DbLedgerStore) : result Error A * DbLedgerStore :=
  let '(r, db) := m (dl_db s) in (r, mkDbLedgerStore db (dl_now_ms s)).

(** Ids are [u64] on the wire and [i64] in the database. *)
Definition db_balance (player : Z) (s : DbLedgerStore) : result Error Z * DbLedgerStore :=
  with_db (player_balance (wrapS 64 player)) s.

Definition db_lookup_txn (txn_id : Z) (s : DbLedgerStore)
    : result Error (option Ledger.RecordedTxn) * DbLedgerStore :=
  try! o, s := with_db (Persist.lookup_txn (wrapS 64 txn_id)) s in
  (Ok ((fun x : Z * Z => Ledger.mkRecordedTxn (wrapU 64 x.1) x.2) <$> o), s).

Definition db_commit (player : Z) (t : Ledger.Txn) (new_balance : Z) (s : DbLedgerStore)
    : result Error unit * DbLedgerStore :=
  with_db (commit_txn (wrapS 64 (Ledger.txn_id t)) (wrapS 64 player) (Ledger.amount_gold t)
             (Ledger.kind t) (Ledger.note t) (dl_now_ms s) new_balance) s.

#[global] Instance db_ledger_store : Ledger.LedgerStore DbLedgerStore Error := {
  Ledger.balance := db_balance;
  Ledger.lookup_txn := db_lookup_txn;
  Ledger.commit := db_commit
}.

Record DbMarketStore := mkDbMarketStore { dm_db : Db; dm_now_ms : Z }.

Definition with_market {A} (m : M A) (s : DbMarketStore) : result Error A * DbMarketStore :=
  let '(r, db) := m (dm_db s) in (r, mkDbMarketStore db (dm_now_ms s)).

Definition db_market_state (port item : Z) (s : DbMarketStore)
    : result Error (Z * Z) * DbMarketStore :=
  try! o, s := with_market (market_state port item) s in (Ok (default (0, 0) o), s).

Definition db_lookup_trade (txn_id : Z) (s : DbMarketStore)
    : result Error (option Market.RecordedTrade) * DbMarketStore :=
  try! o, s := with_market (Persist.lookup_trade txn_id) s in
  (Ok ((fun x : Z * Z * Z * Z =>
          let '(port, item, stock, price) := x in Market.mkRecordedTrade port item stock price)
         <$> o), s).

Definition db_market_commit (t : Market.Trade) (new_stock new_price : Z) (s : DbMarketStore)
    : result Error unit * DbMarketStore :=
  with_market (commit_trade (Market.txn_id t) (Market.port_id t) (Market.item_id t)
                 new_stock new_price (dm_now_ms s)) s.

#[global] Instance db_market_store : Market.MarketStore DbMarketStore Error := {
  Market.state := db_market_state;
  Market.lookup_trade := db_lookup_trade;
  Market.commit := db_market_commit
}.

(** ** The abstract ledger in the tables *)

(** The [u64] an [i64] key is cast to, extended to an injection of [Z]. *)
Definition u64_key (id : Z) : Z :=
  if decide (2 ^ 63 <= id) then id + 2 ^ 63
  else if decide (0 <= id) then id
  else if decide (- 2 ^ 63 <= id) then id + 2 ^ 64 else id + 2 ^ 63.

#[global] Instance u64_key_inj : Inj (=) (=) u64_key.
Proof. intros a b. unfold u64_key. repeat case_decide; lia. Qed.

Lemma u64_key_wrapS p : inU 64 p -> u64_key (wrapS 64 p) = p.
Proof.
  unfold inU. intros Hp. destruct (decide (p < 2 ^ 63)).
  - rewrite wrapS_id by (unfold inS; lia). unfold u64_key. repeat case_decide; lia.
  - assert (E : wrapS 64 p = p - 2 ^ 64).
    { unfold wrapS. rewrite <- (Z_mod_plus_full _ (-1)), Z.mod_small; lia. }
    rewrite E. unfold u64_key. repeat case_decide; lia.
Qed.

(** Committed entries: ledger rows whose player exists (the join of the
    lookup). *)
Definition entry_of (t : Tables) (l : LedgerRow) : option Ledger.Entry :=
  match players t !! lr_player_id l with
  | Some _ => Some (Ledger.mkEntry (u64_key (lr_player_id l)) (lr_amount l))
  | None => None
  end.

Definition tables_view (t : Tables) : Ledger.View :=
  Ledger.mkView (kmap u64_key (pl_gold <$> players t)) (kmap u64_key (omap (entry_of t) (ledger t))).

Definition tables_replay (t : Tables) (id : Z) : option Ledger.RecordedTxn :=
  match ledger t !! wrapS 64 id with
  | Some l => (fun p => Ledger.mkRecordedTxn (wrapU 64 (lr_player_id l)) (pl_gold p))
                <$> players t !! lr_player_id l
  | None => None
  end.

Lemma view_gold t p :
  inU 64 p -> Ledger.v_gold (tables_view t) !! p = pl_gold <$> players t !! wrapS 64 p.
Proof.
  intros Hp. simpl. rewrite <- (u64_key_wrapS p) at 1 by done.
  by rewrite lookup_kmap, lookup_fmap by apply _.
Qed.

Lemma view_log t id :
  inU 64 id -> Ledger.v_log (tables_view t) !! id = ledger t !! wrapS 64 id ≫= entry_of t.
Proof.
  intros Hp. simpl. rewrite <- (u64_key_wrapS id) at 1 by done.
  by rewrite lookup_kmap, lookup_omap by apply _.
Qed.

(** What a committed transaction does to the tables, and to the view. *)
Definition commit_effect (txn_id player_id amount kind : Z) (note : string) (at_ms nb : Z)
    (t : Tables) : Tables :=
  t <| ledger ::= <[txn_id := mkLedgerRow player_id amount kind note at_ms]> |>
    <| players ::= alter (fun r => r <| pl_gold := nb |>) player_id |>.

Lemma commit_txn_cases txn_id player_id amount kind note at_ms nb db r db' :
  commit_txn txn_id player_id amount kind note at_ms nb db = (r, db') ->
  match r with
  | Ok _ => ledger (tables db) !! txn_id = None /\
            tables db' = commit_effect txn_id player_id amount kind note at_ms nb (tables db)
  | Err _ => tables db' = tables db
  end.
Proof.
  intros Hc. apply transaction_cases in Hc. destruct r as [u|e]; [|done].
  destruct Hc as (db1 & db2 & <- & Hb & ->).
  destruct (stmt _ db1) as [[u1|e1] db3] eqn:Es; [|done].
  apply stmt_cases in Es as (t & Hl & E3). apply exec_cases in Hb. rewrite Hb, E3.
  destruct (ledger (tables db1) !! txn_id); [done|]. injection Hl as _ <-. done.
Qed.

Lemma entry_of_commit a b amount kind note at_ms nb t l :
  is_Some (players t !! b) ->
  entry_of (commit_effect a b amount kind note at_ms nb t) l = entry_of t l.
Proof.
  intros Hb. unfold entry_of, commit_effect. simpl. rewrite lookup_alter.
  case_decide as Hd; [|done]. subst. destruct Hb as [r Hr]. by rewrite Hr.
Qed.

Lemma commit_view p (t : Ledger.Txn) nb at_ms tb :
  inU 64 p -> inU 64 (Ledger.txn_id t) -> is_Some (players tb !! wrapS 64 p) ->
  ledger tb !! wrapS 64 (Ledger.txn_id t) = None ->
  tables_view (commit_effect (wrapS 64 (Ledger.txn_id t)) (wrapS 64 p) (Ledger.amount_gold t)
    (Ledger.kind t) (Ledger.note t) at_ms nb tb) = Ledger.record_txn (tables_view tb) p t nb.
Proof.
  intros Hp Ht Hpl Hl. unfold tables_view, Ledger.record_txn. simpl. f_equal.
  - transitivity (<[u64_key (wrapS 64 p) := nb]> (kmap u64_key (pl_gold <$> players tb) : gmap Z Z));
      [|by rewrite u64_key_wrapS].
    rewrite <- kmap_insert by apply _. f_equal.
    apply map_eq. intros i. rewrite lookup_insert, !lookup_fmap, lookup_alter.
    case_decide; [|done]. subst. destruct Hpl as [r Hr]. by rewrite Hr.
  - transitivity (<[u64_key (wrapS 64 (Ledger.txn_id t)) := Ledger.mkEntry p (Ledger.amount_gold t)]>
                    (kmap u64_key (omap (entry_of tb) (ledger tb)) : gmap Z Ledger.Entry));
      [|by rewrite u64_key_wrapS].
    rewrite <- kmap_insert by apply _. f_equal. apply map_eq. intros i.
    rewrite lookup_omap, lookup_insert. simpl. rewrite lookup_insert.
    case_decide; simpl.
    + rewrite entry_of_commit by done. unfold entry_of. simpl.
      destruct Hpl as [r ->]. by rewrite u64_key_wrapS.
    + rewrite lookup_omap. destruct (ledger tb !! i); simpl; [|done]. by rewrite entry_of_commit.
Qed.

Lemma with_db_cases {A} (m : M A) s r s' :
  with_db m s = (r, s') -> exists db', m (dl_db s) = (r, db') /\ dl_db s' = db'.
Proof.
  unfold with_db. destruct (m (dl_db s)) as [r0 db'] eqn:Em. intros [= <- <-]. eauto.
Qed.

Lemma tables_replay_log t id :
  inU 64 id -> (tables_replay t id = None <-> Ledger.v_log (tables_view t) !! id = None).
Proof.
  intros Hid. rewrite view_log by done. unfold tables_replay.
  destruct (ledger t !! wrapS 64 id) as [l|]; simpl; [|done]. unfold entry_of.
  by destruct (players t !! lr_player_id l).
Qed.

Lemma db_commit_cases p t nb s r s' :
  db_commit p t nb s = (r, s') -> inU 64 p -> inU 64 (Ledger.txn_id t) ->
  is_Some (players (tables (dl_db s)) !! wrapS 64 p) ->
  match r with
  | Ok _ =>
      tables_view (tables (dl_db s')) = Ledger.record_txn (tables_view (tables (dl_db s))) p t nb /\
      tables_replay (tables (dl_db s')) (Ledger.txn_id t) = Some (Ledger.mkRecordedTxn p nb)
  | Err _ => tables (dl_db s') = tables (dl_db s)
  end.
Proof.
  intros Hc Hp Ht Hpl. apply with_db_cases in Hc as (db' & Hc & ->).
  apply commit_txn_cases in Hc. destruct r as [u|e]; [|done]. destruct Hc as [Hl ->].
  split; [by apply commit_view|]. unfold tables_replay, commit_effect. simpl.
  rewrite lookup_insert_eq. simpl. rewrite lookup_alter_eq. destruct Hpl as [row Hrow].
  rewrite Hrow. simpl. by rewrite wrapU_wrapS.
Qed.

(** The database keeps the promises of a ledger store for players that have a
    row. *)
#[global, program] Instance db_ledger_spec : Ledger.LedgerStoreSpec DbLedgerStore Error := {
  Ledger.view s := tables_view (tables (dl_db s));
  Ledger.replay s := tables_replay (tables (dl_db s));
  Ledger.valid_id id := inU 64 id;
  Ledger.admits v p t := inU 64 p /\ inU 64 (Ledger.txn_id t) /\ is_Some (Ledger.v_gold v !! p)
}.
Next Obligation. by intros v p t (? & ? & ?). Qed.
Next Obligation.
  intros v p q t t' nb (? & ? & ?). simpl. split_and!; [done..|].
  rewrite lookup_insert. case_decide; [eauto|done].
Qed.
Next Obligation. intros s id Hid. by apply tables_replay_log. Qed.
Next Obligation.
  intros p s r s' Hb. apply with_db_cases in Hb as (db' & Hb & ->).
  apply query_cases in Hb as [-> Hb]. split_and!; [done..|]. intros b t -> (Hp & _ & _).
  specialize (Hb b eq_refl). injection Hb as <-. unfold Ledger.gold_of. by rewrite view_gold.
Qed.
Next Obligation.
  intros id s r s' Hl. simpl in Hl. unfold db_lookup_txn in Hl.
  destruct (with_db _ s) as [r1 s1] eqn:Ew. apply with_db_cases in Ew as (db' & Hq & Ed).
  apply query_cases in Hq as [Et Hq]. rewrite <- Ed in Et.
  destruct r1 as [o|e]; injection Hl as <- <-; rewrite Et; (split_and!; [done..|]); [|done].
  intros o' [= <-]. specialize (Hq o eq_refl). injection Hq as <-. unfold tables_replay.
  destruct (ledger _ !! _) as [l|]; simpl; [|done]. by destruct (players _ !! _).
Qed.
Next Obligation.
  intros p t nb s r s' Hc (Hp & Ht & Hpl) _. simpl in *.
  pose proof (view_gold (tables (dl_db s)) p Hp) as Hg. simpl in Hg. rewrite Hg in Hpl.
  apply fmap_is_Some in Hpl.
  apply db_commit_cases in Hc; [|done..]. destruct r; [done|]. by rewrite Hc.
Qed.

Lemma with_market_cases {A} (m : M A) s r s' :
  with_market m s = (r, s') -> exists db', m (dm_db s) = (r, db') /\ dm_db s' = db'.
Proof.
  unfold with_market. destruct (m (dm_db s)) as [r0 db'] eqn:Em. intros [= <- <-]. eauto.
Qed.

Definition recorded (r : TradeRow) : Market.RecordedTrade :=
  Market.mkRecordedTrade (tr_port_id r) (tr_item_id r) (tr_stock r) (tr_price r).

Lemma commit_trade_cases id port item ns np at_ms db r db' :
  commit_trade id port item ns np at_ms db = (r, db') ->
  match r with
  | Ok _ => market_trades (tables db) !! id = None /\
      market_trades (tables db') = <[id := mkTradeRow port item ns np at_ms]> (market_trades (tables db)) /\
      market (tables db') = <[(port, item) := (ns, np)]> (market (tables db))
  | Err _ => tables db' = tables db
  end.
Proof.
  intros Hc. apply transaction_cases in Hc. destruct r as [u|e]; [|done].
  destruct Hc as (db1 & db2 & <- & Hb & ->). unfold bind_u64 in Hb. case_decide; [done|].
  destruct (stmt _ db1) as [[u1|e1] db3] eqn:Es; [|done].
  apply stmt_cases in Es as (t & Hl & E3). apply exec_cases in Hb. rewrite Hb, E3.
  destruct (market_trades (tables db1) !! id); [done|]. by injection Hl as _ <-.
Qed.

(** The database keeps the promises of a market store. *)
#[global, program] Instance db_market_spec : Market.MarketStoreSpec DbMarketStore Error := {
  Market.view s := Market.mkView (market (tables (dm_db s)))
                     (recorded <$> market_trades (tables (dm_db s)))
}.
Next Obligation.
  intros port item s r s' Hs. simpl in Hs. unfold db_market_state in Hs.
  destruct (with_market _ s) as [r1 s1] eqn:Ew. apply with_market_cases in Ew as (db' & Hq & Ed).
  apply query_cases in Hq as [Et Hq]. rewrite <- Ed in Et.
  destruct r1 as [o|e]; injection Hs as <- <-; rewrite Et; (split; [done|]); [|done].
  intros x [= <-]. specialize (Hq o eq_refl). by injection Hq as <-.
Qed.
Next Obligation.
  intros id s r s' Hs. simpl in Hs. unfold db_lookup_trade in Hs.
  destruct (with_market _ s) as [r1 s1] eqn:Ew. apply with_market_cases in Ew as (db' & Hq & Ed).
  unfold Persist.lookup_trade, bind_u64 in Hq. case_decide as Hbig.
  { injection Hq as <- <-. injection Hs as <- <-. rewrite Ed. done. }
  apply query_cases in Hq as [Et Hq]. rewrite <- Ed in Et.
  destruct r1 as [o|e]; injection Hs as <- <-; simpl; rewrite Et; (split; [done|]); [|done].
  intros x [= <-]. specialize (Hq o eq_refl). rewrite lookup_fmap.
  destruct (market_trades _ !! id) as [row|]; simpl in *; [|by injection Hq as <-].
  unfold get_u32 in Hq. repeat case_decide; try done. by injection Hq as <-.
Qed.
Next Obligation.
  intros t ns s r s' Hc _. simpl in *. apply with_market_cases in Hc as (db' & Hc & ->).
  apply commit_trade_cases in Hc. destruct r as [u|e]; [|by rewrite Hc].
  destruct Hc as (_ & -> & ->). by rewrite fmap_insert.
Qed.

(** ** The books of the database *)

(** The sum of a player's ledger rows. *)
Definition ledger_sum (id : Z) (t : Tables) : Z :=
  map_fold (fun _ l acc => (if decide (lr_player_id l = id) then lr_amount l else 0) + acc) 0 (ledger t).

(** Every balance is the sum of its ledger rows, and a nonnegative [i64]. *)
Definition Books (t : Tables) : Prop :=
  forall id r, players t !! id = Some r -> pl_gold r = ledger_sum id t /\ 0 <= pl_gold r <= i64_max.

Lemma log_total_kmap (f : LedgerRow -> option Ledger.Entry) p (L : gmap Z LedgerRow) :
  Ledger.log_total p (kmap u64_key (omap f L)) =
  map_fold (fun _ l acc => (if f l is Some e then Ledger.amount_for p e else 0) + acc) 0 L.
Proof.
  induction L as [|id l L Hid IH] using map_ind; [done|].
  rewrite (map_fold_insert_L (fun _ l acc => (if f l is Some e then Ledger.amount_for p e else 0) + acc))
    by (try done; intros; lia).
  rewrite <- IH. destruct (f l) as [e|] eqn:Ef.
  - rewrite (omap_insert_Some _ _ _ _ e) by done. rewrite kmap_insert by apply _.
    apply Ledger.log_total_insert. rewrite lookup_kmap by apply _. by rewrite lookup_omap, Hid.
  - rewrite omap_insert_None by done. rewrite delete_id; [lia|]. by rewrite lookup_omap, Hid.
Qed.

Lemma map_fold_sum_ext (f g : LedgerRow -> Z) (L : gmap Z LedgerRow) :
  (forall l, f l = g l) ->
  map_fold (fun _ l acc => f l + acc) 0 L = map_fold (fun _ l acc => g l + acc) 0 L.
Proof.
  intros E. induction L as [|id l L Hid IH] using map_ind; [done|].
  rewrite (map_fold_insert_L (fun _ l acc => f l + acc)) by (try done; intros; lia).
  rewrite (map_fold_insert_L (fun _ l acc => g l + acc)) by (try done; intros; lia).
  by rewrite IH, E.
Qed.

Lemma view_total t id :
  is_Some (players t !! id) ->
  Ledger.log_total (u64_key id) (Ledger.v_log (tables_view t)) = ledger_sum id t.
Proof.
  intros [r Hr]. simpl. rewrite log_total_kmap. unfold ledger_sum. apply map_fold_sum_ext.
  intros l. unfold entry_of, Ledger.amount_for.
  destruct (players t !! lr_player_id l) eqn:El; simpl.
  - destruct (decide (lr_player_id l = id)) as [->|Hne]; [by rewrite decide_True|].
    rewrite decide_False; [done|]. intros E%(inj u64_key). done.
  - rewrite decide_False by congruence. done.
Qed.

Lemma view_total_absent t p :
  (forall id, p = u64_key id -> players t !! id = None) ->
  Ledger.log_total p (Ledger.v_log (tables_view t)) = 0.
Proof.
  intros Hn. simpl. rewrite log_total_kmap.
  rewrite (map_fold_sum_ext _ (fun _ => 0)).
  - induction (ledger t) as [|id l L Hid IH] using map_ind; [done|].
    by rewrite (map_fold_insert_L (fun _ (_ : LedgerRow) acc => 0 + acc)) by (try done; intros; lia).
  - intros l. unfold entry_of, Ledger.amount_for. destruct (players t !! lr_player_id l) eqn:El; [|done].
    simpl. rewrite decide_False; [done|]. intros E. rewrite (Hn (lr_player_id l)) in El; [done|].
    by rewrite <- E.
Qed.

Lemma view_gold_key t id : Ledger.v_gold (tables_view t) !! u64_key id = pl_gold <$> players t !! id.
Proof. simpl. by rewrite lookup_kmap, lookup_fmap by apply _. Qed.

Lemma books_view t : Books t <-> Ledger.wf_view (tables_view t).
Proof.
  split.
  - intros HB p. unfold Ledger.gold_of.
    destruct (Ledger.v_gold (tables_view t) !! p) as [g|] eqn:Eg; simpl default.
    + simpl in Eg. apply lookup_kmap_Some in Eg as (id & -> & Eg); [|apply _].
      rewrite lookup_fmap in Eg. apply fmap_Some in Eg as (r & Hr & ->).
      rewrite view_total by eauto. by apply HB.
    + rewrite view_total_absent; [unfold i64_max; lia|].
      intros id ->. rewrite view_gold_key in Eg. by destruct (players t !! id).
  - intros Hwf id r Hr. specialize (Hwf (u64_key id)). unfold Ledger.gold_of in Hwf.
    rewrite view_gold_key, Hr, view_total in Hwf by eauto. done.
Qed.

(** Requests of players that have a row, with [u64] ids. *)
Definition request_ok (t : Tables) (o : Z * Ledger.Txn) : Prop :=
  inU 64 o.1 /\ inU 64 (Ledger.txn_id o.2) /\ is_Some (players t !! wrapS 64 o.1).

Lemma request_admits s o :
  request_ok (tables (dl_db s)) o -> Ledger.admits (Ledger.view s) o.1 o.2.
Proof.
  intros (Hp & Ht & Hr). split_and!; [done..|].
  change (is_Some (Ledger.v_gold (tables_view (tables (dl_db s))) !! o.1)).
  rewrite view_gold by done. by apply fmap_is_Some.
Qed.

(** ** Theorems *)

(** The books of the database balance: whatever transactions registered
    players submit, in any order and with any statement failing, every
    [players.gold] stays the sum of that player's [ledger] rows and within
    [0, i64::MAX]. *)
Lemma db_ledger_conserves (ops : list (Z * Ledger.Txn)) (s : DbLedgerStore) :
  Books (tables (dl_db s)) -> Forall (request_ok (tables (dl_db s))) ops ->
  Books (tables (dl_db (Ledger.run ops s))).
Proof.
  intros HB Hops. apply books_view.
  change (Ledger.wf_view (Ledger.view (Ledger.run ops s))).
  apply (Ledger.run_induction Ledger.wf_view).
  - intros. by apply Ledger.apply_wf.
  - eapply Forall_impl; [done|]. intros o. apply request_admits.
  - by apply books_view.
Qed.

Definition demo_store : DbLedgerStore := db_ledger_new demo_db 1000.

Definition demo_requests : list (Z * Ledger.Txn) :=
  [(1, Ledger.mkTxn (2 ^ 64 - 1) 100 0 "sale"); (1, Ledger.mkTxn 2 (-30) 0 "rum");
   (2, Ledger.mkTxn 3 7 0 ""); (1, Ledger.mkTxn 4 (-500) 0 "ship")].

Lemma demo_books : Books (tables demo_db).
Proof.
  assert (E : map_Forall (fun id r => pl_gold r = ledger_sum id (tables demo_db) /\
                                      0 <= pl_gold r <= i64_max) (players (tables demo_db)))
    by (apply (bool_decide_unpack _); vm_compute; exact I).
  exact E.
Qed.

Lemma db_ledger_conserves_witness :
  Books (tables (dl_db (Ledger.run demo_requests demo_store))) /\
  (pl_gold <$> players (tables (dl_db (Ledger.run demo_requests demo_store))) !! 1) = Some 70.
Proof.
  split; [|vm_compute; reflexivity].
  apply (db_ledger_conserves demo_requests demo_store demo_books).
  assert (H : forall p t, inU 64 p -> inU 64 (Ledger.txn_id t) ->
    is_Some (players (tables demo_db) !! wrapS 64 p) -> request_ok (tables demo_db) (p, t))
    by (intros p t H1 H2 H3; exact (conj H1 (conj H2 H3))).
  repeat (apply Forall_cons_2; [apply H; [unfold inU; lia|unfold inU; simpl; lia|];
    eexists; vm_compute; reflexivity|]).
  apply Forall_nil_2.
Defined.

(** Over the database a replayed transaction moves nothing and reports the
    recorded player's current balance. *)
Lemma db_replay_reports_current (q : Z) (t : Ledger.Txn) (s s' : DbLedgerStore)
    (e : Ledger.Entry) (ack : Ledger.LedgerAck) :
  request_ok (tables (dl_db s)) (q, t) ->
  Ledger.v_log (Ledger.view s) !! Ledger.txn_id t = Some e ->
  Ledger.apply q t s = (Ok ack, s') ->
  Ledger.accepted ack = true /\ Ledger.view s' = Ledger.view s /\
  Ledger.new_balance ack = Ledger.gold_of (Ledger.view s) (Ledger.e_player e).
Proof.
  intros Hr He Ha. pose proof Hr as (_ & Hid & _). simpl in Hid.
  apply Ledger.apply_cases in Ha; [|by apply (request_admits s (q, t))].
  unfold Ledger.spec_apply in Ha. simpl in Ha, He.
  pose proof (view_log (tables (dl_db s)) _ Hid) as Hv. simpl in Hv. rewrite He in Hv.
  unfold tables_replay in Ha. destruct (ledger _ !! _) as [l|]; [|done]. simpl in Hv.
  unfold entry_of in Hv. destruct (players _ !! lr_player_id l) as [row|] eqn:Ep; [|done].
  injection Hv as ->. simpl in Ha. injection Ha as <- Hv. split_and!; [done|simpl; unfold tables_view; congruence|].
  simpl. unfold Ledger.gold_of. by rewrite view_gold_key, Ep.
Qed.

(** The transaction acknowledged with balance 100 replays with balance 70. *)
Definition demo_txn : Ledger.Txn := Ledger.mkTxn (2 ^ 64 - 1) 100 0 "sale".

Definition demo_after : DbLedgerStore := Ledger.run demo_requests (Ledger.apply 1 demo_txn demo_store).2.

Lemma db_replay_reports_current_witness :
  (Ledger.apply 1 demo_txn demo_store).1 = Ok (Ledger.mkLedgerAck (2 ^ 64 - 1) true 100 "") /\
  match (Ledger.apply 1 demo_txn demo_after).1 with
  | Ok ack => Ledger.new_balance ack = Ledger.gold_of (Ledger.view demo_after) 1
  | Err _ => False
  end /\
  Ledger.gold_of (Ledger.view demo_after) 1 = 70.
Proof.
  split; [vm_compute; reflexivity|]. split; [|vm_compute; reflexivity].
  assert (Hok : match (Ledger.apply 1 demo_txn demo_after).1 with Ok _ => True | Err _ => False end)
    by (vm_compute; exact I).
  destruct (Ledger.apply 1 demo_txn demo_after) as [[ack|e] s'] eqn:E; [|exact Hok].
  apply (db_replay_reports_current 1 demo_txn demo_after s' (Ledger.mkEntry 1 100) ack);
    [|vm_compute; reflexivity|exact E].
  assert (H : is_Some (players (tables (dl_db demo_after)) !! 1))
    by (eexists; vm_compute; reflexivity).
  split; [unfold inU; simpl; lia|split; [unfold inU; simpl; lia|exact H]].
Defined.

(** C39.  A trade whose id does not fit in an [i64] cannot be applied to the
    database: it fails with a conversion error, whatever the tables hold, and
    changes nothing. *)
Theorem db_market_refuses_large_ids (t : Market.Trade) (s : DbMarketStore) :
  Market.txn_id t > i64_max ->
  Market.apply t s = (Err ToSqlConversionFailure, s).
Proof.
  intros Hid. unfold Market.apply. simpl. unfold db_lookup_trade, with_market, Persist.lookup_trade.
  unfold bind_u64. rewrite decide_True by done. by destruct s.
Qed.

Lemma db_market_refuses_large_ids_witness :
  let t := Market.mkTrade (2 ^ 63) 1 1 5 10 in
  Market.apply t (mkDbMarketStore demo_db 0) = (Err ToSqlConversionFailure, mkDbMarketStore demo_db 0) /\
  (Market.apply t Market.mem_market_new).1 = Ok (Market.mkMarketAck (2 ^ 63) true 1 1 5 10 "").
Proof.
  intros t. split; [|vm_compute; reflexivity].
  apply (db_market_refuses_large_ids t). unfold t, i64_max. simpl. lia.
Defined.
