(* ===== verification/Structs.v ===== *)
(** * Scalars and inline structs of the wire contract

    The structs of server/crates/sw-contracts/src/generated/envelope_generated.rs
    are byte arrays read and written at fixed offsets: [Vec3] and [QuatC] hold
    little-endian [f32]s, [GridCell] little-endian [i32]s.  This file models
    [f32::to_bits] and [f32::from_bits], the arrays with their constructors,
    getters and setters, and the discriminants of the [Payload] union. *)

From stdpp Require Import pretty.
From S2P Require Import Prelude Float Wire.

(** ** The bits of a float

    A NaN has one value here, so its payload bits read back as the quiet NaN
    that [f32::NAN] is. *)
Definition f32_to_bits (x : f32) : Z :=
  let sign (s : bool) := if s then 2 ^ 31 else 0 in
  match x with
  | S754_zero s => sign s
  | S754_infinity s => sign s + 255 * 2 ^ 23
  | S754_nan => 255 * 2 ^ 23 + 2 ^ 22
  | S754_finite s m e =>
      if decide (Z.pos m < 2 ^ 23) then sign s + Z.pos m
      else sign s + (e + 150) * 2 ^ 23 + (Z.pos m - 2 ^ 23)
  end.

Definition f32_from_bits (n : Z) : f32 :=
  let s := bool_decide (2 ^ 31 <= n) in
  let e := n / 2 ^ 23 mod 2 ^ 8 in
  let m := n mod 2 ^ 23 in
  if decide (e = 255) then (if decide (m = 0) then S754_infinity s else S754_nan)
  else if decide (e = 0) then
    match m with Z.pos p => S754_finite s p (-149) | _ => S754_zero s end
  else
    match m + 2 ^ 23 with Z.pos p => S754_finite s p (e - 150) | _ => S754_zero s end.

(** ** Byte arrays

    [copy_nonoverlapping] of [size_of] bytes from or to the array at an offset. *)
Definition read_at (off n : nat) (s : list Z) : list Z := slice off (off + n) s.

Definition write_at (off : nat) (bytes s : list Z) : list Z :=
  take off s ++ bytes ++ drop (off + length bytes) s.

Definition read_f32 (off : nat) (s : list Z) : f32 := f32_from_bits (le_value (read_at off 4 s)).
Definition write_f32 (off : nat) (x : f32) (s : list Z) : list Z :=
  write_at off (le_bytes 4 (f32_to_bits x)) s.

Definition read_i32 (off : nat) (s : list Z) : Z := i32_from_le (read_at off 4 s).
Definition write_i32 (off : nat) (x : Z) (s : list Z) : list Z := write_at off (le_bytes 4 x) s.

(** ** Vec3 *)
Definition Vec3_size : nat := 12.
Definition Vec3_default : list Z := replicate 12 0.

Definition Vec3_x (s : list Z) : f32 := read_f32 0 s.
Definition Vec3_set_x (x : f32) (s : list Z) : list Z := write_f32 0 x s.
Definition Vec3_y (s : list Z) : f32 := read_f32 4 s.
Definition Vec3_set_y (x : f32) (s : list Z) : list Z := write_f32 4 x s.
Definition Vec3_z (s : list Z) : f32 := read_f32 8 s.
Definition Vec3_set_z (x : f32) (s : list Z) : list Z := write_f32 8 x s.

Definition Vec3_new (x y z : f32) : list Z :=
  let s := replicate 12 0 in
  let s := Vec3_set_x x s in
  let s := Vec3_set_y y s in
  let s := Vec3_set_z z s in
  s.

(** ** QuatC *)
Definition QuatC_size : nat := 16.
Definition QuatC_default : list Z := replicate 16 0.

Definition QuatC_x (s : list Z) : f32 := read_f32 0 s.
Definition QuatC_set_x (x : f32) (s : list Z) : list Z := write_f32 0 x s.
Definition QuatC_y (s : list Z) : f32 := read_f32 4 s.
Definition QuatC_set_y (x : f32) (s : list Z) : list Z := write_f32 4 x s.
Definition QuatC_z (s : list Z) : f32 := read_f32 8 s.
Definition QuatC_set_z (x : f32) (s : list Z) : list Z := write_f32 8 x s.
Definition QuatC_w (s : list Z) : f32 := read_f32 12 s.
Definition QuatC_set_w (x : f32) (s : list Z) : list Z := write_f32 12 x s.

Definition QuatC_new (x y z w : f32) : list Z :=
  let s := replicate 16 0 in
  let s := QuatC_set_x x s in
  let s := QuatC_set_y y s in
  let s := QuatC_set_z z s in
  let s := QuatC_set_w w s in
  s.

(** ** GridCell *)
Definition GridCell_size : nat := 8.
Definition GridCell_default : list Z := replicate 8 0.

Definition GridCell_cx (s : list Z) : Z := read_i32 0 s.
Definition GridCell_set_cx (x : Z) (s : list Z) : list Z := write_i32 0 x s.
Definition GridCell_cz (s : list Z) : Z := read_i32 4 s.
Definition GridCell_set_cz (x : Z) (s : list Z) : list Z := write_i32 4 x s.

Definition GridCell_new (cx cz : Z) : list Z :=
  let s := replicate 8 0 in
  let s := GridCell_set_cx cx s in
  let s := GridCell_set_cz cz s in
  s.

(** ** The discriminants of the [Payload] union *)
Definition Payload_NONE : Z := 0.
Definition Payload_ClientHello : Z := 1.
Definition Payload_ServerHello : Z := 2.
Definition Payload_ClientState : Z := 3.
Definition Payload_SnapshotDelta : Z := 4.
Definition Payload_AoiUpdate : Z := 5.
Definition Payload_CellSnapshot : Z := 6.
Definition Payload_MoorRequest : Z := 7.
Definition Payload_MoorAck : Z := 8.
Definition Payload_EconTxn : Z := 9.
Definition Payload_LedgerAck : Z := 10.
Definition Payload_ChatSend : Z := 11.
Definition Payload_ChatBroadcast : Z := 12.
Definition Payload_WorldClock : Z := 13.
Definition Payload_MarketTradeRequest : Z := 14.
Definition Payload_MarketStateAck : Z := 15.

Definition ENUM_MIN : Z := 0.
Definition ENUM_MAX : Z := 15.

Definition ENUM_VALUES : list Z :=
  [Payload_NONE; Payload_ClientHello; Payload_ServerHello; Payload_ClientState;
   Payload_SnapshotDelta; Payload_AoiUpdate; Payload_CellSnapshot; Payload_MoorRequest;
   Payload_MoorAck; Payload_EconTxn; Payload_LedgerAck; Payload_ChatSend;
   Payload_ChatBroadcast; Payload_WorldClock; Payload_MarketTradeRequest;
   Payload_MarketStateAck].

Definition variant_name (p : Z) : option string :=
  if p =? Payload_NONE then Some "NONE"%string
  else if p =? Payload_ClientHello then Some "ClientHello"%string
  else if p =? Payload_ServerHello then Some "ServerHello"%string
  else if p =? Payload_ClientState then Some "ClientState"%string
  else if p =? Payload_SnapshotDelta then Some "SnapshotDelta"%string
  else if p =? Payload_AoiUpdate then Some "AoiUpdate"%string
  else if p =? Payload_CellSnapshot then Some "CellSnapshot"%string
  else if p =? Payload_MoorRequest then Some "MoorRequest"%string
  else if p =? Payload_MoorAck then Some "MoorAck"%string
  else if p =? Payload_EconTxn then Some "EconTxn"%string
  else if p =? Payload_LedgerAck then Some "LedgerAck"%string
  else if p =? Payload_ChatSend then Some "ChatSend"%string
  else if p =? Payload_ChatBroadcast then Some "ChatBroadcast"%string
  else if p =? Payload_WorldClock then Some "WorldClock"%string
  else if p =? Payload_MarketTradeRequest then Some "MarketTradeRequest"%string
  else if p =? Payload_MarketStateAck then Some "MarketStateAck"%string
  else None.

(** [fmt::Debug] of a discriminant. *)
Definition Payload_fmt (p : Z) : string :=
  match variant_name p with
  | Some name => name
  | None => ("<UNKNOWN " +:+ pretty p +:+ ">")%string
  end.


(** ** The bits of a float are a bijection up to NaN *)
Lemma f32_ok_finite s m e :
  f32_ok (S754_finite s m e) ->
  e <= 104 /\ (Z.pos m < 2 ^ 23 /\ e = -149 \/ 2 ^ 23 <= Z.pos m < 2 ^ 24 /\ -149 <= e).
Proof.
  unfold f32_ok. cbn [valid_binary]. unfold bounded, canonical_mantissa, fexp, emin, prec32, emax32.
  rewrite andb_true_iff, Z.leb_le. intros [Hc He]. apply Z.eqb_eq in Hc. split; [lia|].
  pose proof (digits2_pos_bounds m) as [Hl Hu].
  destruct (decide (Z.pos (digits2_pos m) <= 23)) as [Hd|Hd].
  - left. split; [|lia].
    pose proof (Z.pow_le_mono_r 2 (Z.pos (digits2_pos m)) 23). lia.
  - right. assert (Z.pos (digits2_pos m) = 24) as Hd24 by lia. rewrite Hd24 in *.
    change (24 - 1) with 23 in Hl. lia.
Qed.

Lemma f32_finite_ok s m e :
  Z.pos m < 2 ^ 23 /\ e = -149 \/ 2 ^ 23 <= Z.pos m < 2 ^ 24 /\ -149 <= e <= 104 ->
  f32_ok (S754_finite s m e).
Proof.
  intros H. unfold f32_ok. cbn [valid_binary].
  unfold bounded, canonical_mantissa, fexp, emin, prec32, emax32.
  rewrite andb_true_iff, Z.leb_le, Z.eqb_eq. pose proof (digits2_pos_bounds m) as [Hl Hu].
  destruct H as [[Hm ->]|[[Hm1 Hm2] He]].
  - assert (Z.pos (digits2_pos m) - 1 < 23) by (apply (Z.pow_lt_mono_r_iff 2); lia). lia.
  - assert (Z.pos (digits2_pos m) - 1 < 24) by (apply (Z.pow_lt_mono_r_iff 2); lia).
    assert (23 < Z.pos (digits2_pos m)) by (apply (Z.pow_lt_mono_r_iff 2); lia). lia.
Qed.

(** The three fields of a word put together from them. *)
Lemma f32_fields (s : bool) (e m : Z) :
  0 <= e < 256 -> 0 <= m < 2 ^ 23 ->
  let n := (if s then 2 ^ 31 else 0) + e * 2 ^ 23 + m in
  0 <= n < 2 ^ 32 /\ bool_decide (2 ^ 31 <= n) = s /\ n / 2 ^ 23 mod 2 ^ 8 = e /\ n mod 2 ^ 23 = m.
Proof.
  intros He Hm n.
  assert (n = ((if s then 2 ^ 8 else 0) + e) * 2 ^ 23 + m) as Hn.
  { unfold n. destruct s; lia. }
  assert (n / 2 ^ 23 = (if s then 2 ^ 8 else 0) + e) as Hq.
  { rewrite Hn, Z.div_add_l by lia. rewrite (Z.div_small m) by lia. lia. }
  repeat split.
  - unfold n. destruct s; lia.
  - unfold n. destruct s; lia.
  - destruct s; [apply bool_decide_eq_true_2|apply bool_decide_eq_false_2]; unfold n; lia.
  - rewrite Hq. destruct s; [|rewrite Z.mod_small; lia].
    rewrite Z.add_comm. rewrite <- (Z.mul_1_l (2 ^ 8)) at 1. rewrite Z.mod_add, Z.mod_small; lia.
  - rewrite Hn, Z.add_comm, Z.mod_add, Z.mod_small; lia.
Qed.

Definition f32_word (x : f32) : Z * Z :=
  match x with
  | S754_zero _ => (0, 0)
  | S754_infinity _ => (255, 0)
  | S754_nan => (255, 2 ^ 22)
  | S754_finite _ m e =>
      if decide (Z.pos m < 2 ^ 23) then (0, Z.pos m) else (e + 150, Z.pos m - 2 ^ 23)
  end.

Definition f32_sign (x : f32) : bool :=
  match x with
  | S754_zero s | S754_infinity s | S754_finite s _ _ => s
  | S754_nan => false
  end.

Lemma f32_to_bits_word x :
  f32_to_bits x = (if f32_sign x then 2 ^ 31 else 0) + (f32_word x).1 * 2 ^ 23 + (f32_word x).2.
Proof. destruct x as [s|s| |s m e]; simpl; try (destruct s; reflexivity); [done|]. case_decide; simpl; lia. Qed.

Lemma f32_word_range x : f32_ok x -> 0 <= (f32_word x).1 < 256 /\ 0 <= (f32_word x).2 < 2 ^ 23.
Proof.
  destruct x as [s|s| |s m e]; simpl; try lia. intros H%f32_ok_finite.
  case_decide; simpl; lia.
Qed.

Lemma f32_to_bits_in x : f32_ok x -> inU 32 (f32_to_bits x).
Proof.
  intros H. destruct (f32_word_range x H) as [He Hm]. rewrite f32_to_bits_word.
  apply (f32_fields (f32_sign x) _ _ He Hm).
Qed.

Lemma f32_from_to_bits x : f32_ok x -> f32_from_bits (f32_to_bits x) = x.
Proof.
  intros H. destruct (f32_word_range x H) as [He Hm]. unfold f32_from_bits. rewrite f32_to_bits_word.
  destruct (f32_fields (f32_sign x) _ _ He Hm) as (_ & -> & -> & ->). clear He Hm.
  destruct x as [s|s| |s m e]; try reflexivity. apply f32_ok_finite in H.
  simpl f32_sign. simpl f32_word. destruct (decide (Z.pos m < 2 ^ 23)) as [Hlt|Hge]; cbn [fst snd].
  - destruct H as [_ [[_ ->]|[? _]]]; [reflexivity|lia].
  - rewrite !decide_False by lia. replace (Z.pos m - 2 ^ 23 + 2 ^ 23) with (Z.pos m) by lia.
    replace (e + 150 - 150) with e by lia. reflexivity.
Qed.

Lemma f32_from_bits_ok n : f32_ok (f32_from_bits n).
Proof.
  unfold f32_from_bits. generalize (bool_decide (2 ^ 31 <= n)) as s. intros s.
  pose proof (Z.mod_pos_bound (n / 2 ^ 23) (2 ^ 8)) as He.
  pose proof (Z.mod_pos_bound n (2 ^ 23)) as Hm.
  set (e := n / 2 ^ 23 mod 2 ^ 8) in *. set (m := n mod 2 ^ 23) in *.
  repeat case_decide; try reflexivity.
  - destruct m as [|p|p] eqn:Em; try reflexivity. apply f32_finite_ok. lia.
  - destruct (m + 2 ^ 23) as [|p|p] eqn:Em; try reflexivity. apply f32_finite_ok. lia.
Qed.

(** ** Reading back what was written *)
Lemma length_write_at off bytes s :
  (off + length bytes <= length s)%nat -> length (write_at off bytes s) = length s.
Proof. intros. unfold write_at. rewrite !length_app, length_take, length_drop. lia. Qed.

Lemma read_write_at off bytes s :
  (off + length bytes <= length s)%nat -> read_at off (length bytes) (write_at off bytes s) = bytes.
Proof.
  intros H. unfold read_at, slice, write_at. rewrite drop_app_length' by (rewrite length_take; lia).
  replace (off + length bytes - off)%nat with (length bytes) by lia. apply take_app_length.
Qed.

Lemma read_write_at_other off n off' bytes s :
  (off' + length bytes <= length s)%nat -> (off + n <= length s)%nat ->
  (off + n <= off' \/ off' + length bytes <= off)%nat ->
  read_at off n (write_at off' bytes s) = read_at off n s.
Proof.
  intros Hs Hr Hd. unfold read_at, slice, write_at. replace (off + n - off)%nat with n by lia.
  apply list_eq. intros i. destruct (decide (i < n)%nat) as [Hi|Hi].
  - rewrite !lookup_take_lt, !lookup_drop by lia. destruct Hd.
    + rewrite lookup_app_l by (rewrite length_take; lia). apply lookup_take_lt. lia.
    + rewrite lookup_app_r by (rewrite length_take; lia).
      rewrite lookup_app_r by (rewrite length_take; lia).
      rewrite length_take, lookup_drop. f_equal. lia.
  - rewrite !lookup_take_ge by lia. done.
Qed.

Lemma Forall_read_at (P : Z -> Prop) off n s : Forall P s -> Forall P (read_at off n s).
Proof. apply Forall_slice. Qed.

Lemma Forall_write_at (P : Z -> Prop) off bytes s :
  Forall P bytes -> Forall P s -> Forall P (write_at off bytes s).
Proof. intros. unfold write_at. auto using Forall_app_2, Forall_take, Forall_drop. Qed.

Lemma read_write_f32 off x s :
  f32_ok x -> (off + 4 <= length s)%nat -> read_f32 off (write_f32 off x s) = x.
Proof.
  intros Hx Hs. unfold read_f32, write_f32.
  pose proof (read_write_at off (le_bytes 4 (f32_to_bits x)) s) as H. rewrite length_le_bytes in H.
  rewrite H by done. rewrite le_value_bytes, Z.mod_small; [by apply f32_from_to_bits|].
  apply (f32_to_bits_in x Hx).
Qed.

Lemma read_write_f32_other off off' x s :
  (off' + 4 <= length s)%nat -> (off + 4 <= length s)%nat -> (off + 4 <= off' \/ off' + 4 <= off)%nat ->
  read_f32 off (write_f32 off' x s) = read_f32 off s.
Proof.
  intros. unfold read_f32, write_f32. rewrite read_write_at_other; rewrite ?length_le_bytes; auto with lia.
Qed.

Lemma read_write_i32 off x s :
  inS 32 x -> (off + 4 <= length s)%nat -> read_i32 off (write_i32 off x s) = x.
Proof.
  intros Hx Hs. unfold read_i32, write_i32.
  pose proof (read_write_at off (le_bytes 4 x) s) as H. rewrite length_le_bytes in H.
  rewrite H by done. by apply i32_le_roundtrip.
Qed.

Lemma read_write_i32_other off off' x s :
  (off' + 4 <= length s)%nat -> (off + 4 <= length s)%nat -> (off + 4 <= off' \/ off' + 4 <= off)%nat ->
  read_i32 off (write_i32 off' x s) = read_i32 off s.
Proof.
  intros. unfold read_i32, write_i32. rewrite read_write_at_other; rewrite ?length_le_bytes; auto with lia.
Qed.

Lemma length_write_f32 off x s : (off + 4 <= length s)%nat -> length (write_f32 off x s) = length s.
Proof. intros. apply length_write_at. by rewrite length_le_bytes. Qed.

Lemma length_write_i32 off x s : (off + 4 <= length s)%nat -> length (write_i32 off x s) = length s.
Proof. intros. apply length_write_at. by rewrite length_le_bytes. Qed.

Lemma write_f32_ok off x s : Forall byte_ok s -> Forall byte_ok (write_f32 off x s).
Proof. intros. apply Forall_write_at; [apply le_bytes_ok|done]. Qed.

Lemma write_i32_ok off x s : Forall byte_ok s -> Forall byte_ok (write_i32 off x s).
Proof. intros. apply Forall_write_at; [apply le_bytes_ok|done]. Qed.

Lemma zero_bytes_ok n : Forall byte_ok (replicate n 0).
Proof. apply Forall_replicate. unfold byte_ok. lia. Qed.

(** A word read from an array after a chain of writes to it. *)
Ltac in_array :=
  repeat first [ rewrite length_write_f32 by in_array | rewrite length_write_i32 by in_array
               | rewrite length_replicate ]; lia.

Ltac read_back :=
  repeat first
    [ rewrite read_write_f32 by first [assumption | in_array]
    | rewrite read_write_i32 by first [assumption | in_array]
    | rewrite read_write_f32_other by in_array
    | rewrite read_write_i32_other by in_array ].

(** A struct read back field by field. *)
Definition vec3 : Type := f32 * f32 * f32.
Definition quat : Type := f32 * f32 * f32 * f32.

Definition Vec3_view (s : list Z) : vec3 := (Vec3_x s, Vec3_y s, Vec3_z s).
Definition QuatC_view (s : list Z) : quat := (QuatC_x s, QuatC_y s, QuatC_z s, QuatC_w s).
Definition GridCell_view (s : list Z) : Z * Z := (GridCell_cx s, GridCell_cz s).

#[global] Arguments Vec3_view : simpl never.
#[global] Arguments QuatC_view : simpl never.
#[global] Arguments GridCell_view : simpl never.
#[global] Arguments GridCell_new : simpl never.

Definition vec3_ok (v : vec3) : Prop := f32_ok v.1.1 /\ f32_ok v.1.2 /\ f32_ok v.2.
Definition quat_ok (q : quat) : Prop := vec3_ok q.1 /\ f32_ok q.2.
Definition cell_ok (c : Z * Z) : Prop := inS 32 c.1 /\ inS 32 c.2.

Lemma Vec3_view_new x y z : vec3_ok (x, y, z) -> Vec3_view (Vec3_new x y z) = (x, y, z).
Proof.
  intros (Hx & Hy & Hz). cbn [fst snd] in *.
  unfold Vec3_view, Vec3_new, Vec3_x, Vec3_y, Vec3_z, Vec3_set_x, Vec3_set_y, Vec3_set_z.
  cbv zeta. by read_back.
Qed.

Lemma QuatC_view_new x y z w : quat_ok (x, y, z, w) -> QuatC_view (QuatC_new x y z w) = (x, y, z, w).
Proof.
  intros ((Hx & Hy & Hz) & Hw). cbn [fst snd] in *.
  unfold QuatC_view, QuatC_new, QuatC_x, QuatC_y, QuatC_z, QuatC_w,
    QuatC_set_x, QuatC_set_y, QuatC_set_z, QuatC_set_w.
  cbv zeta. by read_back.
Qed.

Lemma GridCell_view_new x z : cell_ok (x, z) -> GridCell_view (GridCell_new x z) = (x, z).
Proof.
  intros [Hx Hz]. cbn [fst snd] in *.
  unfold GridCell_view, GridCell_new, GridCell_cx, GridCell_cz, GridCell_set_cx, GridCell_set_cz.
  cbv zeta. by read_back.
Qed.

Lemma GridCell_view_of c : cell_ok c -> GridCell_view (GridCell_new c.1 c.2) = c.
Proof. destruct c as [x z]. apply GridCell_view_new. Qed.

Lemma Vec3_view_ok s : vec3_ok (Vec3_view s).
Proof. repeat split; apply f32_from_bits_ok. Qed.

Lemma QuatC_view_ok s : quat_ok (QuatC_view s).
Proof. repeat split; apply f32_from_bits_ok. Qed.

Lemma GridCell_view_ok s : cell_ok (GridCell_view s).
Proof. split; apply wrapS_in; lia. Qed.

Lemma Vec3_new_bytes x y z : length (Vec3_new x y z) = Vec3_size /\ Forall byte_ok (Vec3_new x y z).
Proof.
  unfold Vec3_new, Vec3_set_x, Vec3_set_y, Vec3_set_z. cbv zeta. split.
  - change Vec3_size with 12%nat; in_array.
  - auto using write_f32_ok, zero_bytes_ok.
Qed.

Lemma QuatC_new_bytes x y z w :
  length (QuatC_new x y z w) = QuatC_size /\ Forall byte_ok (QuatC_new x y z w).
Proof.
  unfold QuatC_new, QuatC_set_x, QuatC_set_y, QuatC_set_z, QuatC_set_w. cbv zeta. split.
  - change QuatC_size with 16%nat; in_array.
  - auto using write_f32_ok, zero_bytes_ok.
Qed.

Lemma GridCell_new_bytes x z :
  length (GridCell_new x z) = GridCell_size /\ Forall byte_ok (GridCell_new x z).
Proof.
  unfold GridCell_new, GridCell_set_cx, GridCell_set_cz. cbv zeta. split.
  - change GridCell_size with 8%nat; in_array.
  - auto using write_i32_ok, zero_bytes_ok.
Qed.

(** ** Theorems *)

(** The getters and setters of a struct, field by field. *)
Definition Vec3_fields : list ((list Z -> f32) * (f32 -> list Z -> list Z)) :=
  [(Vec3_x, Vec3_set_x); (Vec3_y, Vec3_set_y); (Vec3_z, Vec3_set_z)].

Definition QuatC_fields : list ((list Z -> f32) * (f32 -> list Z -> list Z)) :=
  [(QuatC_x, QuatC_set_x); (QuatC_y, QuatC_set_y); (QuatC_z, QuatC_set_z); (QuatC_w, QuatC_set_w)].

Definition GridCell_fields : list ((list Z -> Z) * (Z -> list Z -> list Z)) :=
  [(GridCell_cx, GridCell_set_cx); (GridCell_cz, GridCell_set_cz)].

(** On arrays of a size, each field reads back what its setter wrote, a setter
    leaves the other fields and the size alone, and bytes stay bytes. *)
Definition independent_fields {A} (size : nat) (ok : A -> Prop)
    (fields : list ((list Z -> A) * (A -> list Z -> list Z))) : Prop :=
  forall i j gi si gj sj x s,
    fields !! i = Some (gi, si) -> fields !! j = Some (gj, sj) -> length s = size -> ok x ->
    gi (sj x s) = (if decide (i = j) then x else gi s) /\ length (sj x s) = size /\
    (Forall byte_ok s -> Forall byte_ok (sj x s)).

(** The fields of a struct at consecutive four-byte offsets. *)
Lemma f32_fields_independent n size :
  (4 * n = size)%nat ->
  independent_fields size f32_ok ((fun k => (read_f32 (4 * k), write_f32 (4 * k))) <$> seq 0 n).
Proof.
  intros Hn i j gi si gj sj x s Hi Hj Hs Hx. rewrite !list_lookup_fmap in *.
  destruct (seq 0 n !! i) eqn:Ei; [|done]. destruct (seq 0 n !! j) eqn:Ej; [|done].
  apply lookup_seq in Ei as [-> Hin]. apply lookup_seq in Ej as [-> Hjn]. simplify_eq/=.
  split; [|split; [rewrite length_write_f32; lia|apply write_f32_ok]]. case_decide as Hij.
  - subst j. apply read_write_f32; [done|lia].
  - apply read_write_f32_other; lia.
Qed.

Lemma i32_fields_independent n size :
  (4 * n = size)%nat ->
  independent_fields size (inS 32) ((fun k => (read_i32 (4 * k), write_i32 (4 * k))) <$> seq 0 n).
Proof.
  intros Hn i j gi si gj sj x s Hi Hj Hs Hx. rewrite !list_lookup_fmap in *.
  destruct (seq 0 n !! i) eqn:Ei; [|done]. destruct (seq 0 n !! j) eqn:Ej; [|done].
  apply lookup_seq in Ei as [-> Hin]. apply lookup_seq in Ej as [-> Hjn]. simplify_eq/=.
  split; [|split; [rewrite length_write_i32; lia|apply write_i32_ok]]. case_decide as Hij.
  - subst j. apply read_write_i32; [done|lia].
  - apply read_write_i32_other; lia.
Qed.

(** The fields of the inline structs do not overlap: for [Vec3], [QuatC] and
    [GridCell], a field reads back exactly what its setter wrote (every single
    precision value bit for bit, every [i32]), a setter changes no other field,
    and a struct made by [new] gives back its arguments. *)
Lemma struct_fields_independent :
  independent_fields Vec3_size f32_ok Vec3_fields /\
  independent_fields QuatC_size f32_ok QuatC_fields /\
  independent_fields GridCell_size (inS 32) GridCell_fields /\
  (forall x y z, vec3_ok (x, y, z) ->
     (Vec3_x (Vec3_new x y z), Vec3_y (Vec3_new x y z), Vec3_z (Vec3_new x y z)) = (x, y, z)) /\
  (forall x y z w, quat_ok (x, y, z, w) -> QuatC_view (QuatC_new x y z w) = (x, y, z, w)) /\
  (forall x z, cell_ok (x, z) -> GridCell_view (GridCell_new x z) = (x, z)).
Proof.
  split; [by apply (f32_fields_independent 3)|]. split; [by apply (f32_fields_independent 4)|].
  split; [by apply (i32_fields_independent 2)|]. split; [exact Vec3_view_new|].
  split; [exact QuatC_view_new|exact GridCell_view_new].
Qed.
