(* ===== verification/Flat.v ===== *)
(** * The FlatBuffers runtime as an interface

    The bindings generated from the schema call a runtime that is not part of the
    repository: a builder that writes tables back to front, a table view that
    reads slots through a vtable, and a verifier.  [FlatBuffers] lists the
    operations the bindings call and [FlatBuffersLaws] states what the runtime
    documents about them, slot by slot:

    - a table in progress collects its pushed slots, [push_slot] skips a value
      that equals the default, and strings, vectors and tables cannot be created
      while a table is in progress;
    - [get] returns the default of an absent slot and otherwise the value stored
      there;
    - a finished buffer whose tree passes the generated verifier is accepted, and
      whatever is accepted reads as a tree that passes it.

    Everything about messages is proved from these laws, for any runtime. *)

From S2P Require Import Prelude Float Wire Structs.

(** ** Types of the bindings *)

(** The tables of the schema: each implements [Follow] and [Verifiable]. *)
Inductive TableTy :=
| TWorldClock | TWeatherSeed | TCapabilityManifest | TClientHello | TServerHello
| TPlayerState | TBoatState | TClientState | TSnapshotDelta | TMoorageRecord
| TMoorRequest | TMoorAck | TAoiUpdate | TCellSnapshot | TEconTxn | TLedgerAck
| TMarketTradeRequest | TMarketStateAck | TChatSend | TChatBroadcast | TEnvelope.

(** Scalars stored inline; [Payload] is stored as its [u8]. *)
Inductive sty := U8 | U16 | U32 | U64 | I64 | F32 | BOOL.

#[global] Instance sty_eq_dec : EqDecision sty.
Proof. solve_decision. Defined.

Definition sval (t : sty) : Type :=
  match t with F32 => f32 | BOOL => bool | _ => Z end.

(** [PartialEq] of the scalar: the two zeros of a float are equal. *)
Definition seqb (t : sty) : sval t -> sval t -> bool :=
  match t with F32 => SFeqb | BOOL => Bool.eqb | _ => Z.eqb end.

Definition scalar_ok (t : sty) : sval t -> bool :=
  match t with
  | F32 => valid_binary prec32 emax32
  | BOOL => fun _ => true
  | U8 => fun n => bool_decide (inU 8 n)
  | U16 => fun n => bool_decide (inU 16 n)
  | U32 => fun n => bool_decide (inU 32 n)
  | U64 => fun n => bool_decide (inU 64 n)
  | I64 => fun n => bool_decide (inS 64 n)
  end.

(** The type argument of [get] and [visit_field]; [FAnyTable] is the untyped
    table behind a union. *)
Inductive fty :=
| FScalar (t : sty)
| FStruct (size : nat)
| FStr
| FTable (T : TableTy)
| FAnyTable
| FVector (t : fty).

(** What [get] returns for it. *)
Fixpoint inner (Table : Type) (t : fty) : Type :=
  match t with
  | FScalar t => sval t
  | FStruct _ => list Z
  | FStr => string
  | FTable _ | FAnyTable => Table
  | FVector t => list (inner Table t)
  end.

(** The calls a generated [run_verifier] makes on a table. *)
Inductive visit :=
| visit_field (t : fty) (name : string) (vt : Z) (required : bool)
| visit_union (key_name : string) (key_vt : Z) (name : string) (vt : Z) (required : bool)
    (arm : Z -> option fty).

(** ** The operations *)
Class FlatBuffers := {
  Table : Type;
  Builder : Type;
  WIPOffset : Type;
  builder_new : Builder;
  create_string : string -> Builder -> WIPOffset * Builder;
  create_vector : list WIPOffset -> Builder -> WIPOffset * Builder;
  create_vector_structs : list (list Z) -> Builder -> WIPOffset * Builder;
  start_table : Builder -> Builder;
  push_slot : forall t : sty, Z -> sval t -> sval t -> Builder -> Builder;
  push_slot_struct : Z -> list Z -> Builder -> Builder;
  push_slot_always : Z -> WIPOffset -> Builder -> Builder;
  end_table : Builder -> WIPOffset * Builder;
  finish : WIPOffset -> option string -> Builder -> Builder;
  finished_data : Builder -> list Z;
  reset : Builder -> Builder;
  get : forall t : fty, Table -> Z -> option (inner Table t) -> option (inner Table t);
  root : (TableTy -> list visit) -> TableTy -> list Z -> option Table;
  buffer_has_identifier : list Z -> string -> bool -> bool
}.

(** [get(..).unwrap()] with a default: [get] answers [Some] then. *)
Definition get_or `{FlatBuffers} (t : fty) (tab : Table) (vt : Z) (d : inner Table t) : inner Table t :=
  default d (get t tab vt (Some d)).

(** ** Trees: the meaning of a buffer *)
Inductive fval :=
| VInt (t : sty) (n : Z)
| VF32 (x : f32)
| VBool (b : bool)
| VStruct (bytes : list Z)
| VStr (s : string)
| VVec (l : list fval)
| VTab (slots : list (Z * fval)).

Definition slots : Type := list (Z * fval).

Definition VS (t : sty) : sval t -> fval :=
  match t with
  | F32 => VF32
  | BOOL => VBool
  | U8 => VInt U8
  | U16 => VInt U16
  | U32 => VInt U32
  | U64 => VInt U64
  | I64 => VInt I64
  end.

Fixpoint slot (vt : Z) (l : slots) : option fval :=
  match l with
  | [] => None
  | (k, v) :: l => if k =? vt then Some v else slot vt l
  end.

(** A tree node has the shape a type expects, one level deep for tables. *)
Definition scalar_shape (t : sty) (v : fval) : bool :=
  match v with
  | VInt u n =>
      bool_decide (u = t) &&
      match t with
      | U8 => bool_decide (inU 8 n)
      | U16 => bool_decide (inU 16 n)
      | U32 => bool_decide (inU 32 n)
      | U64 => bool_decide (inU 64 n)
      | I64 => bool_decide (inS 64 n)
      | F32 | BOOL => false
      end
  | VF32 x => bool_decide (t = F32) && valid_binary prec32 emax32 x
  | VBool _ => bool_decide (t = BOOL)
  | _ => false
  end.

Definition struct_shape (n : nat) (v : fval) : bool :=
  match v with VStruct bs => bool_decide (length bs = n) && bool_decide (Forall byte_ok bs) | _ => false end.

(** A [&str] is UTF-8. *)
Definition str_ok (s : string) : bool := utf8_valid (bytes_of_string s).

Fixpoint shape (t : fty) (v : fval) : bool :=
  match t with
  | FScalar t => scalar_shape t v
  | FStruct n => struct_shape n v
  | FStr => match v with VStr s => str_ok s | _ => false end
  | FTable _ | FAnyTable => match v with VTab _ => true | _ => false end
  | FVector t => match v with VVec l => forallb (shape t) l | _ => false end
  end.

(** ** What the verifier accepts

    [depth] is [VerifierOptions::max_depth], decreased at each table. *)
Section Verify.
Variable run_verifier : TableTy -> list visit.

Definition visit_ok (verify : fty -> fval -> bool) (l : slots) (w : visit) : bool :=
  match w with
  | visit_field t _ vt required =>
      match slot vt l with
      | Some v => verify t v
      | None => negb required
      end
  | visit_union _ key_vt _ vt required arm =>
      match slot key_vt l, slot vt l with
      | None, None => negb required
      | Some k, Some v =>
          match k with
          | VInt U8 n =>
              bool_decide (inU 8 n) &&
              match arm n with Some t => verify t v | None => true end
          | _ => false
          end
      | _, _ => false
      end
  end.

Fixpoint verify (depth : nat) : fty -> fval -> bool :=
  fix go (t : fty) (v : fval) : bool :=
    match t, v with
    | FScalar t, v => scalar_shape t v
    | FStruct n, v => struct_shape n v
    | FStr, VStr s => str_ok s
    | FAnyTable, VTab _ => true
    | FVector t, VVec l => forallb (go t) l
    | FTable T, VTab l =>
        match depth with
        | O => false
        | S depth => forallb (visit_ok (verify depth) l) (run_verifier T)
        end
    | _, _ => false
    end.

End Verify.

Definition max_depth : nat := 64.

(** Buffers up to this size stay below the verifier's limits on tables and bytes. *)
Definition max_buffer : Z := 2 ^ 16.

(** ** What the runtime documents *)
Section Agrees.
Context {Table : Type} (reads : Table -> slots -> Prop).

(** A value returned by [get] is the one at the node. *)
Fixpoint agrees (t : fty) : fval -> inner Table t -> Prop :=
  match t with
  | FScalar t => fun v x => v = VS t x
  | FStruct _ => fun v x => v = VStruct x
  | FStr => fun v x => v = VStr x
  | FTable _ | FAnyTable => fun v x => exists l, v = VTab l /\ reads x l
  | FVector t => fun v x => exists l, v = VVec l /\ Forall2 (agrees t) l x
  end.
End Agrees.

(** A slot pushed by [push_slot]: nothing when the value is the default. *)
Definition scalar_cell (t : sty) (x d : sval t) : option fval :=
  if seqb t x d then None else Some (VS t x).

Definition push_cell (l : slots) (c : Z * option fval) : slots :=
  match c.2 with Some v => (c.1, v) :: l | None => l end.

Class FlatBuffersLaws `{FB : FlatBuffers} := {
  (** the finished objects of a builder and its table in progress *)
  repr : Builder -> list (WIPOffset * fval) -> option slots -> Prop;
  (** a view of a table with these slots *)
  reads : Table -> slots -> Prop;
  builder_new_law : repr builder_new [] None;
  create_string_law b O s :
    repr b O None -> str_ok s = true ->
    repr (create_string s b).2 (((create_string s b).1, VStr s) :: O) None;
  create_vector_law b O os vs :
    repr b O None -> Forall2 (fun o v => (o, v) ∈ O) os vs ->
    repr (create_vector os b).2 (((create_vector os b).1, VVec vs) :: O) None;
  create_vector_structs_law b O ss :
    repr b O None -> Forall (Forall byte_ok) ss ->
    repr (create_vector_structs ss b).2
      (((create_vector_structs ss b).1, VVec (VStruct <$> ss)) :: O) None;
  start_table_law b O : repr b O None -> repr (start_table b) O (Some []);
  push_slot_law b O l t vt x d :
    repr b O (Some l) -> inU 16 vt -> slot vt l = None -> scalar_ok t x = true ->
    repr (push_slot t vt x d b) O (Some (push_cell l (vt, scalar_cell t x d)));
  push_slot_struct_law b O l vt bs :
    repr b O (Some l) -> inU 16 vt -> slot vt l = None -> Forall byte_ok bs ->
    repr (push_slot_struct vt bs b) O (Some (push_cell l (vt, Some (VStruct bs))));
  push_slot_always_law b O l vt o v :
    repr b O (Some l) -> inU 16 vt -> slot vt l = None -> (o, v) ∈ O ->
    repr (push_slot_always vt o b) O (Some (push_cell l (vt, Some v)));
  end_table_law b O l :
    repr b O (Some l) ->
    repr (end_table b).2 (((end_table b).1, VTab l) :: O) None;
  reset_law b : repr (reset b) [] None;
  get_absent tab l t vt d : reads tab l -> slot vt l = None -> get t tab vt d = d;
  get_present tab l t vt d v :
    reads tab l -> slot vt l = Some v -> shape t v = true ->
    exists x, get t tab vt d = Some x /\ agrees reads t v x;
  root_complete b O o l rv T id :
    repr b O None -> (o, VTab l) ∈ O -> verify rv max_depth (FTable T) (VTab l) = true ->
    String.length id = 4%nat -> len (finished_data (finish o (Some id) b)) <= max_buffer ->
    exists tab, root rv T (finished_data (finish o (Some id) b)) = Some tab /\ reads tab l;
  root_sound rv T buf tab :
    root rv T buf = Some tab ->
    exists l, reads tab l /\ verify rv max_depth (FTable T) (VTab l) = true;
  identifier_law b O o v id :
    repr b O None -> (o, v) ∈ O -> String.length id = 4%nat ->
    buffer_has_identifier (finished_data (finish o (Some id) b)) id false = true
}.

(** A string held in a tree. *)
Inductive has_text (s : string) : fval -> Prop :=
| ht_str : has_text s (VStr s)
| ht_vec l v : v ∈ l -> has_text s v -> has_text s (VVec l)
| ht_tab l k v : (k, v) ∈ l -> has_text s v -> has_text s (VTab l).

(** Strings are stored in the buffer byte for byte, so a buffer is at least as long
    as any string of its root. *)
Class FlatBuffersInline `{FBL : FlatBuffersLaws} :=
  text_inline b O o v id s :
    repr b O None -> (o, v) ∈ O -> has_text s v ->
    Z.of_nat (String.length s) <= len (finished_data (finish o (Some id) b)).

(** ** Trees *)
Definition VS_or (t : sty) (d : sval t) (v : fval) : sval t :=
  match t return sval t -> sval t with
  | F32 => fun d => match v with VF32 x => x | _ => d end
  | BOOL => fun d => match v with VBool b => b | _ => d end
  | U8 | U16 | U32 | U64 | I64 => fun d => match v with VInt _ n => n | _ => d end
  end d.

Lemma VS_or_VS t d x : VS_or t d (VS t x) = x.
Proof. by destruct t. Qed.

Lemma VS_inj t x y : VS t x = VS t y -> x = y.
Proof. intros H. rewrite <- (VS_or_VS t x x), <- (VS_or_VS t x y). by f_equal. Qed.

Lemma scalar_shape_VS t x : scalar_shape t (VS t x) = scalar_ok t x.
Proof. by destruct t. Qed.

Lemma scalar_shape_inv t v : scalar_shape t v = true -> exists x, v = VS t x /\ scalar_ok t x = true.
Proof.
  destruct v as [u n|x|b|bs|s|l|l]; simpl; try discriminate.
  - intros [Hu%bool_decide_eq_true Hn]%andb_true_iff. subst u.
    destruct t; simpl in *; eauto; discriminate.
  - intros [->%bool_decide_eq_true Hx]%andb_true_iff. by exists x.
  - intros ->%bool_decide_eq_true. by exists b.
Qed.

Lemma struct_shape_inv n v :
  struct_shape n v = true -> exists bs, v = VStruct bs /\ length bs = n /\ Forall byte_ok bs.
Proof.
  destruct v; simpl; try discriminate. intros [?%bool_decide_eq_true ?%bool_decide_eq_true]%andb_true_iff.
  eauto.
Qed.

(** Equal values under [PartialEq]: a skipped slot reads back as its default. *)
Definition norm (t : sty) (x d : sval t) : sval t := if seqb t x d then d else x.

Definition exact_eq (t : sty) : Prop := t <> F32.

Lemma norm_exact t x d : t <> F32 -> norm t x d = x.
Proof.
  intros Ht. unfold norm. destruct (seqb t x d) eqn:E; [|done].
  destruct t; simpl in *; try (by apply Z.eqb_eq in E); [done|]. by apply Bool.eqb_prop in E.
Qed.

(** ** Slots built by pushes *)
Definition build (cells : list (Z * option fval)) : slots := foldl push_cell [] cells.

Fixpoint cell (vt : Z) (cells : list (Z * option fval)) : option fval :=
  match cells with
  | [] => None
  | (k, c) :: cells => if k =? vt then c else cell vt cells
  end.

Lemma slot_foldl cells l vt :
  slot vt (foldl push_cell l cells) =
  match slot vt (foldl push_cell [] cells) with Some v => Some v | None => slot vt l end.
Proof.
  revert l. induction cells as [|[k c] cells IH] using rev_ind; intros l; [done|].
  rewrite !foldl_snoc. unfold push_cell at 1 3. simpl. destruct c as [v|]; simpl; [|apply IH].
  destruct (k =? vt); [done|apply IH].
Qed.

Lemma cell_notin vt cells : vt ∉ cells.*1 -> cell vt cells = None.
Proof.
  induction cells as [|[k c] cells IH]; [done|]. simpl. intros [Hk Hn]%not_elem_of_cons.
  destruct (Z.eqb_spec k vt); [congruence|auto].
Qed.

Lemma slot_build cells vt : NoDup cells.*1 -> slot vt (build cells) = cell vt cells.
Proof.
  unfold build. induction cells as [|[k c] cells IH]; [done|]. simpl. intros [Hk Hn]%NoDup_cons.
  rewrite slot_foldl, IH by done. unfold push_cell. simpl.
  destruct (Z.eqb_spec k vt) as [->|Hne].
  - rewrite cell_notin by done. destruct c; simpl; [by rewrite Z.eqb_refl|done].
  - destruct (cell vt cells); [done|]. destruct c; simpl; [|done]. by rewrite (proj2 (Z.eqb_neq _ _)).
Qed.

Lemma slot_build_fresh cells vt : vt ∉ cells.*1 -> slot vt (build cells) = None.
Proof.
  induction cells as [|[k c] cells IH] using rev_ind; [done|].
  unfold build. rewrite foldl_snoc, fmap_app. intros Hn. apply not_elem_of_app in Hn as [Hn Hk].
  apply not_elem_of_cons in Hk as [Hk _]. unfold push_cell. simpl in *. destruct c; simpl; [|by apply IH].
  rewrite (proj2 (Z.eqb_neq _ _)) by done. by apply IH.
Qed.

Lemma build_snoc cells c : push_cell (build cells) c = build (cells ++ [c]).
Proof. unfold build. by rewrite foldl_snoc. Qed.

Lemma forallb_fmap_intro {A B} (f : B -> bool) (g : A -> B) (P : A -> Prop) (l : list A) :
  (forall a, P a -> f (g a) = true) -> Forall P l -> forallb f (g <$> l) = true.
Proof. intros Hf Hl. induction Hl as [|a l Ha _ IH]; [done|]. cbn. apply andb_true_iff. split; [by apply Hf|exact IH]. Qed.

(** A predicate on what an optional field holds. *)
Definition oall {A} (P : A -> Prop) (o : option A) : Prop := forall x, o = Some x -> P x.

Definition bytes_ok (n : nat) (bs : list Z) : Prop := length bs = n /\ Forall byte_ok bs.

(** ** Reading and writing under the laws *)
Section Laws.
Context `{FBL : FlatBuffersLaws}.

Lemma get_scalar tab l t vt d :
  reads tab l -> (forall v, slot vt l = Some v -> scalar_shape t v = true) ->
  get_or (FScalar t) tab vt d = match slot vt l with Some v => VS_or t d v | None => d end.
Proof.
  intros Hr Hs. unfold get_or. destruct (slot vt l) as [v|] eqn:E.
  - destruct (get_present tab l (FScalar t) vt (Some d) v Hr E (Hs v eq_refl)) as (x & -> & Hx).
    simpl in *. by rewrite Hx, VS_or_VS.
  - by rewrite (get_absent tab l) by done.
Qed.

Lemma get_scalar_cell tab l t vt x d :
  reads tab l -> slot vt l = scalar_cell t x d -> scalar_ok t x = true ->
  get_or (FScalar t) tab vt d = norm t x d.
Proof.
  intros Hr Hc Hx. unfold scalar_cell, norm in *.
  assert (forall v, slot vt l = Some v -> scalar_shape t v = true) as Hs.
  { intros v. rewrite Hc. destruct (seqb t x d); [done|]. intros [= <-]. by rewrite scalar_shape_VS. }
  rewrite (get_scalar tab l) by done. rewrite Hc. destruct (seqb t x d); [done|]. apply VS_or_VS.
Qed.

(** A scalar other than a float reads back as it was pushed. *)
Lemma get_scalar_exact tab l t vt x d :
  t <> F32 -> reads tab l -> slot vt l = scalar_cell t x d -> scalar_ok t x = true ->
  get_or (FScalar t) tab vt d = x.
Proof. intros Ht Hr Hc Hx. rewrite (get_scalar_cell tab l t vt x d) by done. by apply norm_exact. Qed.

Lemma get_struct tab l n vt o :
  reads tab l -> slot vt l = VStruct <$> o ->
  (forall bs, o = Some bs -> length bs = n /\ Forall byte_ok bs) ->
  get (FStruct n) tab vt None = o.
Proof.
  intros Hr Hc Ho. destruct o as [bs|]; simpl in Hc.
  - destruct (Ho bs eq_refl) as [Hl Hb].
    destruct (get_present tab l (FStruct n) vt None (VStruct bs) Hr Hc) as (x & -> & Hx).
    { simpl. by rewrite !bool_decide_eq_true_2. }
    simpl in Hx. injection Hx as ->. reflexivity.
  - by apply (get_absent tab l).
Qed.

Lemma get_str tab l vt o :
  reads tab l -> slot vt l = VStr <$> o -> (forall s, o = Some s -> str_ok s = true) ->
  get FStr tab vt None = o.
Proof.
  intros Hr Hc Ho. destruct o as [s|]; simpl in Hc.
  - destruct (get_present tab l FStr vt None (VStr s) Hr Hc) as (x & -> & Hx); [simpl; auto|].
    simpl in Hx. injection Hx as ->. reflexivity.
  - by apply (get_absent tab l).
Qed.

Lemma get_table tab l T vt l' :
  reads tab l -> slot vt l = Some (VTab l') ->
  exists tab', get (FTable T) tab vt None = Some tab' /\ reads tab' l'.
Proof.
  intros Hr Hc. destruct (get_present tab l (FTable T) vt None _ Hr Hc) as (x & -> & k & Hk & Hx); [done|].
  simplify_eq. eauto.
Qed.

Lemma get_any_table tab l vt l' :
  reads tab l -> slot vt l = Some (VTab l') ->
  exists tab', get FAnyTable tab vt None = Some tab' /\ reads tab' l'.
Proof.
  intros Hr Hc. destruct (get_present tab l FAnyTable vt None _ Hr Hc) as (x & -> & k & Hk & Hx); [done|].
  simplify_eq. eauto.
Qed.

Lemma get_table_vector tab l T vt ls :
  reads tab l -> slot vt l = Some (VVec (VTab <$> ls)) ->
  exists tabs, get (FVector (FTable T)) tab vt None = Some tabs /\ Forall2 reads tabs ls.
Proof.
  intros Hr Hc.
  destruct (get_present tab l (FVector (FTable T)) vt None _ Hr Hc) as (xs & -> & k & Hk & Hx).
  { apply (forallb_fmap_intro _ _ (fun _ => True)); [done|by apply Forall_true]. }
  injection Hk as <-. eexists; split; [done|].
  rewrite Forall2_fmap_l in Hx. apply Forall2_flip. eapply Forall2_impl; [exact Hx|].
  intros a b (k & Hk & Ha). by simplify_eq/=.
Qed.

Lemma get_struct_vector tab l n vt ss :
  reads tab l -> slot vt l = Some (VVec (VStruct <$> ss)) ->
  Forall (fun bs => length bs = n /\ Forall byte_ok bs) ss ->
  get (FVector (FStruct n)) tab vt None = Some ss.
Proof.
  intros Hr Hc Hs.
  destruct (get_present tab l (FVector (FStruct n)) vt None _ Hr Hc) as (xs & -> & k & Hk & Hx).
  { eapply forallb_fmap_intro; [|exact Hs]. intros bs [Hl Hb]. simpl. by rewrite !bool_decide_eq_true_2. }
  injection Hk as <-. f_equal. rewrite Forall2_fmap_l in Hx. symmetry. clear -Hx.
  induction Hx as [|a b la lb Hab _ IH]; [done|]. simpl in Hab. by simplify_eq.
Qed.

Lemma get_str_vector tab l vt ss :
  reads tab l -> slot vt l = Some (VVec (VStr <$> ss)) -> Forall (fun s => str_ok s = true) ss ->
  get (FVector FStr) tab vt None = Some ss.
Proof.
  intros Hr Hc Hs.
  destruct (get_present tab l (FVector FStr) vt None _ Hr Hc) as (xs & -> & k & Hk & Hx).
  { eapply forallb_fmap_intro; [|exact Hs]. done. }
  injection Hk as <-. f_equal. rewrite Forall2_fmap_l in Hx. symmetry. clear -Hx.
  induction Hx as [|a b la lb Hab _ IH]; [done|]. simpl in Hab. by simplify_eq.
Qed.

(** Pushes, on a table in progress with known cells. *)
Definition open_table (b : Builder) (O : list (WIPOffset * fval)) (cells : list (Z * option fval)) : Prop :=
  repr b O (Some (build cells)).

(** A vtable slot not pushed yet. *)
Definition new_slot (vt : Z) (cells : list (Z * option fval)) : Prop := inU 16 vt /\ vt ∉ cells.*1.

Definition if_some {A B} (o : option A) (f : A -> B -> B) (b : B) : B :=
  match o with Some x => f x b | None => b end.

(** The values behind optional offsets. *)
Definition orefs (O : list (WIPOffset * fval)) : option WIPOffset -> option fval -> Prop :=
  option_Forall2 (fun o v => (o, v) ∈ O).

Lemma open_start b O : repr b O None -> open_table (start_table b) O [].
Proof. apply start_table_law. Qed.

Lemma open_scalar b O cells t vt x d :
  open_table b O cells -> new_slot vt cells -> scalar_ok t x = true ->
  open_table (push_slot t vt x d b) O (cells ++ [(vt, scalar_cell t x d)]).
Proof.
  intros Hb [Hv Hn] Hx. unfold open_table. rewrite <- build_snoc.
  apply push_slot_law; [done|done| |done]. by apply slot_build_fresh.
Qed.

Lemma open_skip b O cells vt : open_table b O cells -> open_table b O (cells ++ [(vt, None)]).
Proof. unfold open_table. by rewrite <- build_snoc. Qed.

Lemma open_struct n b O cells vt (bs : option (list Z)) :
  open_table b O cells -> new_slot vt cells -> oall (bytes_ok n) bs ->
  open_table (if_some bs (push_slot_struct vt) b) O (cells ++ [(vt, VStruct <$> bs)]).
Proof.
  intros Hb [Hv Hn] Hs. destruct bs as [bs|]; [|by apply open_skip]. unfold open_table.
  rewrite <- build_snoc. apply push_slot_struct_law; [done|done| |by apply Hs]. by apply slot_build_fresh.
Qed.

Lemma open_ref b O cells vt o v :
  open_table b O cells -> orefs O o v -> new_slot vt cells ->
  open_table (if_some o (push_slot_always vt) b) O (cells ++ [(vt, v)]).
Proof.
  intros Hb Ho [Hv Hn]. destruct Ho as [o v Ho|]; [|by apply open_skip]. unfold open_table.
  rewrite <- build_snoc. apply push_slot_always_law; [done|done| |done]. by apply slot_build_fresh.
Qed.

Lemma open_end b O cells :
  open_table b O cells -> repr (end_table b).2 (((end_table b).1, VTab (build cells)) :: O) None.
Proof. apply end_table_law. Qed.

Lemma orefs_None O : orefs O None None.
Proof. constructor. Qed.

Lemma orefs_Some O o v : (o, v) ∈ O -> orefs O (Some o) (Some v).
Proof. by constructor. Qed.

(** Several strings or tables written one after the other. *)
Fixpoint create_all {A} (f : A -> Builder -> WIPOffset * Builder) (l : list A) (b : Builder)
    : list WIPOffset * Builder :=
  match l with
  | [] => ([], b)
  | x :: l =>
      let '(o, b) := f x b in
      let '(os, b) := create_all f l b in
      (o :: os, b)
  end.

Lemma create_all_spec {A} (f : A -> Builder -> WIPOffset * Builder) (g : A -> fval) l b O :
  (forall x b O, x ∈ l -> repr b O None ->
     exists O', repr (f x b).2 (((f x b).1, g x) :: O' ++ O) None) ->
  repr b O None ->
  exists O', repr (create_all f l b).2 (O' ++ O) None /\
             Forall2 (fun o v => (o, v) ∈ O') (create_all f l b).1 (g <$> l).
Proof.
  revert b O. induction l as [|x l IH]; intros b O Hf Hb.
  { exists []. split; [done|constructor]. }
  destruct (Hf x b O) as [O1 H1]; [by left|done|]. simpl. destruct (f x b) as [o b1] eqn:E1.
  destruct (IH b1 (((o, g x) :: O1) ++ O)) as (O2 & H2 & HO); [intros; apply Hf; [by right|done]|done|].
  destruct (create_all f l b1) as [os b2] eqn:E2. simpl in *.
  exists (O2 ++ (o, g x) :: O1). split; [by rewrite <- app_assoc|].
  constructor; [set_solver|]. eapply Forall2_impl; [exact HO|]. set_solver.
Qed.

(** Whatever an accepted table stores has the shape its verifier asks for. *)
Lemma verify_shape rv depth t v : verify rv depth t v = true -> shape t v = true.
Proof.
  revert v. induction t as [t|n| |T| |t IH]; intros v.
  - by destruct depth.
  - by destruct depth.
  - by destruct depth, v.
  - by destruct depth, v.
  - by destruct depth, v.
  - destruct v as [| | | | |l|]; try (by destruct depth). intros H.
    assert (forallb (verify rv depth t) l = true) as Hl by (by destruct depth).
    simpl. rewrite forallb_forall in *. auto.
Qed.

Lemma verify_field rv depth T l t name vt required :
  verify rv depth (FTable T) (VTab l) = true -> visit_field t name vt required ∈ rv T ->
  forall v, slot vt l = Some v -> exists n, verify rv n t v = true.
Proof.
  intros Hv Hin v Hs. destruct depth as [|depth]; [done|]. simpl in Hv.
  rewrite forallb_forall in Hv. specialize (Hv _ (proj1 (list_elem_of_In _ _) Hin)).
  simpl in Hv. rewrite Hs in Hv. eauto.
Qed.

(** Whatever a verified table reads as is decided by its slots: [views] is a
    reader that gives [w] on them, [encodes] adds that they verify. *)
Definition views {A} (f : Table -> A) (l : slots) (w : A) : Prop := forall tab, reads tab l -> f tab = w.

Definition encodes {A} (rv : TableTy -> list visit) (n : nat) (T : TableTy) (f : Table -> A) (l : slots)
    (w : A) : Prop :=
  verify rv n (FTable T) (VTab l) = true /\ views f l w.

(** A nested table, or a vector of them, with what each reads as. *)
Definition tab_cell {A} (o : option (slots * A)) : option fval := VTab ∘ fst <$> o.
Definition tabs_cell {A} (o : option (list (slots * A))) : option fval :=
  (fun l => VVec (VTab <$> l.*1)) <$> o.
Definition strs_cell (o : option (list string)) : option fval := (fun l => VVec (VStr <$> l)) <$> o.
Definition structs_cell (o : option (list (list Z))) : option fval := (fun l => VVec (VStruct <$> l)) <$> o.

Lemma view_table {A} (f : Table -> A) tab l T vt o :
  reads tab l -> slot vt l = tab_cell o -> oall (fun p => views f p.1 p.2) o ->
  f <$> get (FTable T) tab vt None = snd <$> o.
Proof.
  intros Hr Hs Ho. destruct o as [[l' w]|]; simpl in Hs.
  - destruct (get_table tab l T vt l' Hr Hs) as (tab' & -> & Hr'). simpl. f_equal.
    by apply (Ho (l', w)).
  - by rewrite (get_absent tab l).
Qed.

Lemma view_tables {A} (f : Table -> A) tab l T vt o :
  reads tab l -> slot vt l = tabs_cell o -> oall (Forall (fun p => views f p.1 p.2)) o ->
  option_map (map f) (get (FVector (FTable T)) tab vt None) = option_map (map snd) o.
Proof.
  intros Hr Hs Ho. destruct o as [ps|]; simpl in Hs.
  - destruct (get_table_vector tab l T vt ps.*1 Hr Hs) as (tabs & -> & Hr'). simpl. f_equal.
    specialize (Ho ps eq_refl). clear Hs. revert tabs Hr'.
    induction Ho as [|p ps Hp _ IH]; intros tabs Hr'; inversion Hr'; subst; [done|].
    simpl. f_equal; [by apply Hp|by apply IH].
  - by rewrite (get_absent tab l).
Qed.

Lemma view_strs tab l vt o :
  reads tab l -> slot vt l = strs_cell o -> oall (Forall (fun s => str_ok s = true)) o ->
  get (FVector FStr) tab vt None = o.
Proof.
  intros Hr Hs Ho. destruct o as [ss|]; simpl in Hs.
  - apply (get_str_vector tab l); auto.
  - by rewrite (get_absent tab l).
Qed.

Lemma view_structs tab l n vt o :
  reads tab l -> slot vt l = structs_cell o -> oall (Forall (bytes_ok n)) o ->
  get (FVector (FStruct n)) tab vt None = o.
Proof.
  intros Hr Hs Ho. destruct o as [ss|]; simpl in Hs.
  - apply (get_struct_vector tab l); auto.
  - by rewrite (get_absent tab l).
Qed.

(** Verification of one field, by the cell it was built from. *)
Section Visits.
Context (rv : TableTy -> list visit) (n : nat) (l : slots).

Lemma verify_table T :
  Forall (fun w => visit_ok (verify rv n) l w = true) (rv T) ->
  verify rv (S n) (FTable T) (VTab l) = true.
Proof. intros H. simpl. apply forallb_forall. intros w Hw. rewrite Forall_forall in H. by apply H, list_elem_of_In. Qed.

Lemma visit_scalar t name vt x d :
  slot vt l = scalar_cell t x d -> scalar_ok t x = true ->
  visit_ok (verify rv n) l (visit_field (FScalar t) name vt false) = true.
Proof.
  intros Hs Hx. simpl. rewrite Hs. unfold scalar_cell. destruct (seqb t x d); [done|].
  destruct n; simpl; by rewrite scalar_shape_VS.
Qed.

Lemma visit_struct k name vt o :
  slot vt l = VStruct <$> o -> oall (bytes_ok k) o ->
  visit_ok (verify rv n) l (visit_field (FStruct k) name vt false) = true.
Proof.
  intros Hs Ho. simpl. rewrite Hs. destruct o as [bs|]; [|done]. destruct (Ho bs eq_refl) as [Hl Hb].
  destruct n; simpl; by rewrite !bool_decide_eq_true_2.
Qed.

Lemma visit_str name vt o :
  slot vt l = VStr <$> o -> oall (fun s => str_ok s = true) o ->
  visit_ok (verify rv n) l (visit_field FStr name vt false) = true.
Proof. intros Hs Ho. simpl. rewrite Hs. destruct o as [s|]; [|done]. destruct n; simpl; auto. Qed.

Lemma visit_table {A} (f : Table -> A) T name vt o :
  slot vt l = tab_cell o -> oall (fun p => encodes rv n T f p.1 p.2) o ->
  visit_ok (verify rv n) l (visit_field (FTable T) name vt false) = true.
Proof. intros Hs Ho. simpl. rewrite Hs. destruct o as [p|]; [|done]. by apply (Ho p). Qed.

Lemma verify_vector t vs :
  Forall (fun v => verify rv n t v = true) vs -> verify rv n (FVector t) (VVec vs) = true.
Proof.
  intros H. assert (forallb (verify rv n t) vs = true) as Hv.
  { apply forallb_forall. intros v Hv. rewrite Forall_forall in H. by apply H, list_elem_of_In. }
  by destruct n.
Qed.

Lemma visit_tables {A} (f : Table -> A) T name vt o :
  slot vt l = tabs_cell o -> oall (Forall (fun p => encodes rv n T f p.1 p.2)) o ->
  visit_ok (verify rv n) l (visit_field (FVector (FTable T)) name vt false) = true.
Proof.
  intros Hs Ho. cbn [visit_ok]. rewrite Hs. destruct o as [ps|]; [|done]. apply verify_vector.
  rewrite !Forall_fmap. eapply Forall_impl; [exact (Ho ps eq_refl)|]. intros p Hp. apply Hp.
Qed.

Lemma visit_strs name vt o :
  slot vt l = strs_cell o -> oall (Forall (fun s => str_ok s = true)) o ->
  visit_ok (verify rv n) l (visit_field (FVector FStr) name vt false) = true.
Proof.
  intros Hs Ho. cbn [visit_ok]. rewrite Hs. destruct o as [ss|]; [|done]. apply verify_vector.
  rewrite Forall_fmap. eapply Forall_impl; [exact (Ho ss eq_refl)|]. intros s Hp. by destruct n.
Qed.

Lemma visit_structs k name vt o :
  slot vt l = structs_cell o -> oall (Forall (bytes_ok k)) o ->
  visit_ok (verify rv n) l (visit_field (FVector (FStruct k)) name vt false) = true.
Proof.
  intros Hs Ho. cbn [visit_ok]. rewrite Hs. destruct o as [ss|]; [|done]. apply verify_vector.
  rewrite Forall_fmap. eapply Forall_impl; [exact (Ho ss eq_refl)|]. intros bs [Hl Hb].
  destruct n; simpl; by rewrite !bool_decide_eq_true_2.
Qed.

End Visits.

Lemma encodes_table {A} (f : Table -> A) tab l T vt o rv n :
  reads tab l -> slot vt l = tab_cell o -> oall (fun p => encodes rv n T f p.1 p.2) o ->
  f <$> get (FTable T) tab vt None = snd <$> o.
Proof. intros Hr Hs Ho. eapply view_table; [done..|]. intros p Hp. by apply Ho. Qed.

Lemma encodes_tables {A} (f : Table -> A) tab l T vt o rv n :
  reads tab l -> slot vt l = tabs_cell o -> oall (Forall (fun p => encodes rv n T f p.1 p.2)) o ->
  option_map (map f) (get (FVector (FTable T)) tab vt None) = option_map (map snd) o.
Proof.
  intros Hr Hs Ho. eapply view_tables; [done..|]. intros p Hp. eapply Forall_impl; [by apply Ho|].
  intros q Hq. apply Hq.
Qed.

(** ** Reading a table the verifier accepted *)
Section Typed.
Context (rv : TableTy -> list visit) (n : nat) (T : TableTy) (tab : Table) (l : slots).
Hypothesis Hr : reads tab l.
Hypothesis Hv : verify rv n (FTable T) (VTab l) = true.

(** A reader of verified tables of a type always gives a [P]. *)
Definition reads_as {A} (T' : TableTy) (f : Table -> A) (P : A -> Prop) : Prop :=
  forall n tab l, reads tab l -> verify rv n (FTable T') (VTab l) = true -> P (f tab).

Lemma typed_scalar t name vt r d :
  visit_field (FScalar t) name vt r ∈ rv T -> scalar_ok t d = true ->
  scalar_ok t (get_or (FScalar t) tab vt d) = true.
Proof using Hr Hv.
  intros Hin Hd. pose proof (verify_field rv n T l _ _ _ _ Hv Hin) as Hs.
  rewrite (get_scalar tab l) by
    (done || (intros v Hv'; destruct (Hs v Hv') as [k Hk]; by apply (verify_shape rv k (FScalar t)))).
  destruct (slot vt l) as [v|] eqn:E; [|done]. destruct (Hs v eq_refl) as [k Hk%verify_shape].
  destruct (scalar_shape_inv t v Hk) as (x & -> & Hx). by rewrite VS_or_VS.
Qed.

Lemma typed_get t name vt r d x :
  visit_field t name vt r ∈ rv T -> get t tab vt d = Some x ->
  d = Some x \/ exists v k, verify rv k t v = true /\ agrees reads t v x.
Proof using Hr Hv.
  intros Hin Hg. destruct (slot vt l) as [v|] eqn:E.
  - right. destruct (verify_field rv n T l _ _ _ _ Hv Hin v E) as [k Hk].
    destruct (get_present tab l t vt d v Hr E (verify_shape _ _ _ _ Hk)) as (y & Hy & Ha).
    rewrite Hy in Hg. simplify_eq. eauto.
  - left. by rewrite (get_absent tab l) in Hg.
Qed.

Lemma typed_str name vt r :
  visit_field FStr name vt r ∈ rv T -> oall (fun s => str_ok s = true) (get FStr tab vt None).
Proof using Hr Hv.
  intros Hin x Hx. destruct (typed_get _ _ _ _ _ _ Hin Hx) as [|(v & k & Hk%verify_shape & Ha)]; [done|].
  simpl in Ha. by subst v.
Qed.

Lemma typed_table {A} T' (f : Table -> A) P name vt r :
  visit_field (FTable T') name vt r ∈ rv T -> reads_as T' f P ->
  oall P (f <$> get (FTable T') tab vt None).
Proof using Hr Hv.
  intros Hin Hf x Hx. destruct (get (FTable T') tab vt None) as [tab'|] eqn:E; [|done].
  simplify_eq/=. destruct (typed_get _ _ _ _ _ _ Hin E) as [|(v & k & Hk & l' & -> & Hr')]; [done|].
  by apply (Hf k tab' l').
Qed.

Lemma verify_vector_inv k t vs :
  verify rv k (FVector t) (VVec vs) = true -> Forall (fun v => verify rv k t v = true) vs.
Proof.
  intros H. assert (forallb (verify rv k t) vs = true) as Hf by (by destruct k).
  apply Forall_forall. intros v Hin%list_elem_of_In. rewrite forallb_forall in Hf. auto.
Qed.

Lemma typed_tables {A} T' (f : Table -> A) P name vt r :
  visit_field (FVector (FTable T')) name vt r ∈ rv T -> reads_as T' f P ->
  oall (Forall P) (option_map (map f) (get (FVector (FTable T')) tab vt None)).
Proof using Hr Hv.
  intros Hin Hf x Hx. destruct (get (FVector (FTable T')) tab vt None) as [tabs|] eqn:E; [|done].
  simplify_eq/=. destruct (typed_get _ _ _ _ _ _ Hin E) as [|(v & k & Hk & vs & -> & Ha)]; [done|].
  apply verify_vector_inv in Hk. clear E. induction Ha as [|a b la lb (l' & -> & Hab) _ IH]; [constructor|].
  inversion Hk; subst. simpl. constructor; [by apply (Hf k b l')|auto].
Qed.

Lemma typed_strs name vt r :
  visit_field (FVector FStr) name vt r ∈ rv T ->
  oall (Forall (fun s => str_ok s = true)) (get (FVector FStr) tab vt None).
Proof using Hr Hv.
  intros Hin x Hx. destruct (typed_get _ _ _ _ _ _ Hin Hx) as [|(v & k & Hk & vs & -> & Ha)]; [done|].
  apply verify_vector_inv in Hk. clear Hx. induction Ha as [|a b la lb Hab _ IH]; [constructor|].
  inversion Hk as [|? ? Hs%verify_shape]; subst. simpl in Hab. subst a. constructor; [done|auto].
Qed.

End Typed.

End Laws.

(** ** Proofs about one generated table

    [table_created] runs a [create] function, [table_encodes] checks the cells it
    pushed against the verifier and the accessors of the table. *)
Ltac fresh_slot := refine (bool_decide_unpack _ _); vm_compute; exact I.

Ltac new_vt := split; fresh_slot.

Lemma open_table_eq `{FBL : FlatBuffersLaws} b O cells cells' :
  open_table b O cells -> cells = cells' -> open_table b O cells'.
Proof. by intros ? <-. Qed.

Ltac table_pushes :=
  first
    [ apply open_start; assumption
    | eapply open_scalar; [table_pushes|new_vt|assumption || reflexivity]
    | eapply open_struct; [table_pushes|new_vt|eassumption]
    | eapply open_ref; [table_pushes|eassumption|new_vt] ].

Ltac table_created := apply open_end; eapply open_table_eq; [table_pushes|reflexivity].

Ltac built_slot := rewrite slot_build by fresh_slot; reflexivity.

Ltac table_field :=
  first
    [ eapply visit_scalar; [built_slot|assumption || reflexivity]
    | eapply visit_struct; [built_slot|assumption]
    | eapply visit_str; [built_slot|assumption]
    | eapply visit_table; [built_slot|eassumption]
    | eapply visit_tables; [built_slot|eassumption]
    | eapply visit_strs; [built_slot|assumption]
    | eapply visit_structs; [built_slot|assumption] ].

Ltac table_verifies := apply verify_table; repeat (apply Forall_cons_2; [table_field|]); apply Forall_nil_2.

Ltac table_accessor :=
  try lazymatch goal with |- ?f _ _ = _ => unfold f end;
  lazymatch goal with
  | |- get_or (FScalar F32) _ ?vt ?d = _ =>
      eapply (get_scalar_cell _ _ F32 vt _ d); [eassumption|built_slot|assumption]
  | |- get_or (FScalar ?t) _ ?vt ?d = _ =>
      eapply (get_scalar_exact _ _ t vt _ d); [discriminate|eassumption|built_slot|assumption || reflexivity]
  | |- _ =>
      first
        [ eapply get_str; [eassumption|built_slot|assumption]
        | f_equal; eapply get_struct; [eassumption|built_slot|assumption]
        | f_equal; eapply view_structs; [eassumption|built_slot|assumption]
        | eapply view_strs; [eassumption|built_slot|assumption]
        | eapply encodes_table; [eassumption|built_slot|eassumption]
        | eapply encodes_tables; [eassumption|built_slot|eassumption] ]
  end.
