(* ===== verification/Tables.v ===== *)
(** * The generated tables

    One group of definitions per table of
    server/crates/sw-contracts/src/generated/envelope_generated.rs, in its order:
    the vtable slots ([VT_*]), the accessors with their defaults, the [Args] of
    [create], the builder's [add_*] methods, [create] with the order in which it
    pushes, the fields [run_verifier] visits, and [*_view], the record of what all
    accessors return.  A reference field of
    [Args] is the offset of an object already written; a struct field is its bytes. *)

From S2P Require Import Prelude Float Structs Flat Clock.

(** [0.0], the default of every float slot. *)
Definition zero32 : f32 := S754_zero false.


Section Tables.
Context `{FB : FlatBuffers}.

(** ** WorldClock *)
Definition WorldClock_VT_DAY : Z := 4.
Definition WorldClock_VT_TIME_OF_DAY : Z := 6.
Definition WorldClock_VT_MOON_PHASE : Z := 8.

Definition WorldClock_day (tab : Table) : Z := get_or (FScalar U32) tab WorldClock_VT_DAY 0.
Definition WorldClock_time_of_day (tab : Table) : f32 :=
  get_or (FScalar F32) tab WorldClock_VT_TIME_OF_DAY zero32.
Definition WorldClock_moon_phase (tab : Table) : f32 :=
  get_or (FScalar F32) tab WorldClock_VT_MOON_PHASE zero32.

Record WorldClockArgs := mkWorldClockArgs {
  WorldClockArgs_day : Z;
  WorldClockArgs_time_of_day : f32;
  WorldClockArgs_moon_phase : f32
}.

Definition WorldClockArgs_default : WorldClockArgs := mkWorldClockArgs 0 zero32 zero32.

Definition WorldClockBuilder_new (b : Builder) : Builder := start_table b.
Definition WorldClock_add_day (x : Z) (b : Builder) : Builder :=
  push_slot U32 WorldClock_VT_DAY x 0 b.
Definition WorldClock_add_time_of_day (x : f32) (b : Builder) : Builder :=
  push_slot F32 WorldClock_VT_TIME_OF_DAY x zero32 b.
Definition WorldClock_add_moon_phase (x : f32) (b : Builder) : Builder :=
  push_slot F32 WorldClock_VT_MOON_PHASE x zero32 b.
Definition WorldClockBuilder_finish (b : Builder) : WIPOffset * Builder := end_table b.

Definition WorldClock_create (args : WorldClockArgs) (b : Builder) : WIPOffset * Builder :=
  let builder := WorldClockBuilder_new b in
  let builder := WorldClock_add_moon_phase (WorldClockArgs_moon_phase args) builder in
  let builder := WorldClock_add_time_of_day (WorldClockArgs_time_of_day args) builder in
  let builder := WorldClock_add_day (WorldClockArgs_day args) builder in
  WorldClockBuilder_finish builder.

Definition WorldClock_run_verifier : list visit :=
  [visit_field (FScalar U32) "day" WorldClock_VT_DAY false;
   visit_field (FScalar F32) "time_of_day" WorldClock_VT_TIME_OF_DAY false;
   visit_field (FScalar F32) "moon_phase" WorldClock_VT_MOON_PHASE false].

Definition WorldClock_init_from_table (table : Table) : Table := table.

Definition WorldClock_view (tab : Table) : WorldClock :=
  mkWorldClock (WorldClock_day tab)
    (WorldClock_time_of_day tab)
    (WorldClock_moon_phase tab).

(** ** WeatherSeed *)
Definition WeatherSeed_VT_SEED : Z := 4.
Definition WeatherSeed_VT_EPOCH_DAY : Z := 6.

Definition WeatherSeed_seed (tab : Table) : Z := get_or (FScalar U64) tab WeatherSeed_VT_SEED 0.
Definition WeatherSeed_epoch_day (tab : Table) : Z :=
  get_or (FScalar U32) tab WeatherSeed_VT_EPOCH_DAY 0.

Record WeatherSeedArgs := mkWeatherSeedArgs {
  WeatherSeedArgs_seed : Z;
  WeatherSeedArgs_epoch_day : Z
}.

Definition WeatherSeedArgs_default : WeatherSeedArgs := mkWeatherSeedArgs 0 0.

Definition WeatherSeedBuilder_new (b : Builder) : Builder := start_table b.
Definition WeatherSeed_add_seed (x : Z) (b : Builder) : Builder :=
  push_slot U64 WeatherSeed_VT_SEED x 0 b.
Definition WeatherSeed_add_epoch_day (x : Z) (b : Builder) : Builder :=
  push_slot U32 WeatherSeed_VT_EPOCH_DAY x 0 b.
Definition WeatherSeedBuilder_finish (b : Builder) : WIPOffset * Builder := end_table b.

Definition WeatherSeed_create (args : WeatherSeedArgs) (b : Builder) : WIPOffset * Builder :=
  let builder := WeatherSeedBuilder_new b in
  let builder := WeatherSeed_add_seed (WeatherSeedArgs_seed args) builder in
  let builder := WeatherSeed_add_epoch_day (WeatherSeedArgs_epoch_day args) builder in
  WeatherSeedBuilder_finish builder.

Definition WeatherSeed_run_verifier : list visit :=
  [visit_field (FScalar U64) "seed" WeatherSeed_VT_SEED false;
   visit_field (FScalar U32) "epoch_day" WeatherSeed_VT_EPOCH_DAY false].

Definition WeatherSeed_init_from_table (table : Table) : Table := table.

Record WeatherSeed := mkWeatherSeed {
  we_seed : Z;
  we_epoch_day : Z
}.

Definition WeatherSeed_view (tab : Table) : WeatherSeed :=
  mkWeatherSeed (WeatherSeed_seed tab)
    (WeatherSeed_epoch_day tab).

(** ** CapabilityManifest *)
Definition CapabilityManifest_VT_PROTOCOL_VERSION : Z := 4.
Definition CapabilityManifest_VT_FEATURES : Z := 6.
Definition CapabilityManifest_VT_TICK_HZ : Z := 8.
Definition CapabilityManifest_VT_SNAPSHOT_HZ : Z := 10.
Definition CapabilityManifest_VT_AOI_RADIUS_CELLS : Z := 12.
Definition CapabilityManifest_VT_CELL_SIZE_M : Z := 14.

Definition CapabilityManifest_protocol_version (tab : Table) : Z :=
  get_or (FScalar U16) tab CapabilityManifest_VT_PROTOCOL_VERSION 0.
Definition CapabilityManifest_features (tab : Table) : option (list string) :=
  get (FVector FStr) tab CapabilityManifest_VT_FEATURES None.
Definition CapabilityManifest_tick_hz (tab : Table) : Z :=
  get_or (FScalar U8) tab CapabilityManifest_VT_TICK_HZ 0.
Definition CapabilityManifest_snapshot_hz (tab : Table) : Z :=
  get_or (FScalar U8) tab CapabilityManifest_VT_SNAPSHOT_HZ 0.
Definition CapabilityManifest_aoi_radius_cells (tab : Table) : Z :=
  get_or (FScalar U8) tab CapabilityManifest_VT_AOI_RADIUS_CELLS 0.
Definition CapabilityManifest_cell_size_m (tab : Table) : f32 :=
  get_or (FScalar F32) tab CapabilityManifest_VT_CELL_SIZE_M zero32.

Record CapabilityManifestArgs := mkCapabilityManifestArgs {
  CapabilityManifestArgs_protocol_version : Z;
  CapabilityManifestArgs_features : option WIPOffset;
  CapabilityManifestArgs_tick_hz : Z;
  CapabilityManifestArgs_snapshot_hz : Z;
  CapabilityManifestArgs_aoi_radius_cells : Z;
  CapabilityManifestArgs_cell_size_m : f32
}.

Definition CapabilityManifestArgs_default : CapabilityManifestArgs := mkCapabilityManifestArgs 0 None 0 0 0 zero32.

Definition CapabilityManifestBuilder_new (b : Builder) : Builder := start_table b.
Definition CapabilityManifest_add_protocol_version (x : Z) (b : Builder) : Builder :=
  push_slot U16 CapabilityManifest_VT_PROTOCOL_VERSION x 0 b.
Definition CapabilityManifest_add_features (x : WIPOffset) (b : Builder) : Builder :=
  push_slot_always CapabilityManifest_VT_FEATURES x b.
Definition CapabilityManifest_add_tick_hz (x : Z) (b : Builder) : Builder :=
  push_slot U8 CapabilityManifest_VT_TICK_HZ x 0 b.
Definition CapabilityManifest_add_snapshot_hz (x : Z) (b : Builder) : Builder :=
  push_slot U8 CapabilityManifest_VT_SNAPSHOT_HZ x 0 b.
Definition CapabilityManifest_add_aoi_radius_cells (x : Z) (b : Builder) : Builder :=
  push_slot U8 CapabilityManifest_VT_AOI_RADIUS_CELLS x 0 b.
Definition CapabilityManifest_add_cell_size_m (x : f32) (b : Builder) : Builder :=
  push_slot F32 CapabilityManifest_VT_CELL_SIZE_M x zero32 b.
Definition CapabilityManifestBuilder_finish (b : Builder) : WIPOffset * Builder := end_table b.

Definition CapabilityManifest_create (args : CapabilityManifestArgs) (b : Builder) : WIPOffset * Builder :=
  let builder := CapabilityManifestBuilder_new b in
  let builder := CapabilityManifest_add_cell_size_m (CapabilityManifestArgs_cell_size_m args) builder in
  let builder := if_some (CapabilityManifestArgs_features args) CapabilityManifest_add_features builder in
  let builder := CapabilityManifest_add_protocol_version (CapabilityManifestArgs_protocol_version args) builder in
  let builder := CapabilityManifest_add_aoi_radius_cells (CapabilityManifestArgs_aoi_radius_cells args) builder in
  let builder := CapabilityManifest_add_snapshot_hz (CapabilityManifestArgs_snapshot_hz args) builder in
  let builder := CapabilityManifest_add_tick_hz (CapabilityManifestArgs_tick_hz args) builder in
  CapabilityManifestBuilder_finish builder.

Definition CapabilityManifest_run_verifier : list visit :=
  [visit_field (FScalar U16) "protocol_version" CapabilityManifest_VT_PROTOCOL_VERSION false;
   visit_field (FVector FStr) "features" CapabilityManifest_VT_FEATURES false;
   visit_field (FScalar U8) "tick_hz" CapabilityManifest_VT_TICK_HZ false;
   visit_field (FScalar U8) "snapshot_hz" CapabilityManifest_VT_SNAPSHOT_HZ false;
   visit_field (FScalar U8) "aoi_radius_cells" CapabilityManifest_VT_AOI_RADIUS_CELLS false;
   visit_field (FScalar F32) "cell_size_m" CapabilityManifest_VT_CELL_SIZE_M false].

Definition CapabilityManifest_init_from_table (table : Table) : Table := table.

Record CapabilityManifest := mkCapabilityManifest {
  cm_protocol_version : Z;
  cm_features : option (list string);
  cm_tick_hz : Z;
  cm_snapshot_hz : Z;
  cm_aoi_radius_cells : Z;
  cm_cell_size_m : f32
}.

Definition CapabilityManifest_view (tab : Table) : CapabilityManifest :=
  mkCapabilityManifest (CapabilityManifest_protocol_version tab)
    (CapabilityManifest_features tab)
    (CapabilityManifest_tick_hz tab)
    (CapabilityManifest_snapshot_hz tab)
    (CapabilityManifest_aoi_radius_cells tab)
    (CapabilityManifest_cell_size_m tab).

(** ** ClientHello *)
Definition ClientHello_VT_PROTOCOL_VERSION : Z := 4.
Definition ClientHello_VT_DISPLAY_NAME : Z := 6.
Definition ClientHello_VT_TOKEN : Z := 8.
Definition ClientHello_VT_GAME_BUILD : Z := 10.
Definition ClientHello_VT_MOD_VERSION : Z := 12.
Definition ClientHello_VT_API_SURFACE_HASH : Z := 14.

Definition ClientHello_protocol_version (tab : Table) : Z :=
  get_or (FScalar U16) tab ClientHello_VT_PROTOCOL_VERSION 0.
Definition ClientHello_display_name (tab : Table) : option string :=
  get FStr tab ClientHello_VT_DISPLAY_NAME None.
Definition ClientHello_token (tab : Table) : option string :=
  get FStr tab ClientHello_VT_TOKEN None.
Definition ClientHello_game_build (tab : Table) : option string :=
  get FStr tab ClientHello_VT_GAME_BUILD None.
Definition ClientHello_mod_version (tab : Table) : option string :=
  get FStr tab ClientHello_VT_MOD_VERSION None.
Definition ClientHello_api_surface_hash (tab : Table) : option string :=
  get FStr tab ClientHello_VT_API_SURFACE_HASH None.

Record ClientHelloArgs := mkClientHelloArgs {
  ClientHelloArgs_protocol_version : Z;
  ClientHelloArgs_display_name : option WIPOffset;
  ClientHelloArgs_token : option WIPOffset;
  ClientHelloArgs_game_build : option WIPOffset;
  ClientHelloArgs_mod_version : option WIPOffset;
  ClientHelloArgs_api_surface_hash : option WIPOffset
}.

Definition ClientHelloArgs_default : ClientHelloArgs := mkClientHelloArgs 0 None None None None None.

Definition ClientHelloBuilder_new (b : Builder) : Builder := start_table b.
Definition ClientHello_add_protocol_version (x : Z) (b : Builder) : Builder :=
  push_slot U16 ClientHello_VT_PROTOCOL_VERSION x 0 b.
Definition ClientHello_add_display_name (x : WIPOffset) (b : Builder) : Builder :=
  push_slot_always ClientHello_VT_DISPLAY_NAME x b.
Definition ClientHello_add_token (x : WIPOffset) (b : Builder) : Builder :=
  push_slot_always ClientHello_VT_TOKEN x b.
Definition ClientHello_add_game_build (x : WIPOffset) (b : Builder) : Builder :=
  push_slot_always ClientHello_VT_GAME_BUILD x b.
Definition ClientHello_add_mod_version (x : WIPOffset) (b : Builder) : Builder :=
  push_slot_always ClientHello_VT_MOD_VERSION x b.
Definition ClientHello_add_api_surface_hash (x : WIPOffset) (b : Builder) : Builder :=
  push_slot_always ClientHello_VT_API_SURFACE_HASH x b.
Definition ClientHelloBuilder_finish (b : Builder) : WIPOffset * Builder := end_table b.

Definition ClientHello_create (args : ClientHelloArgs) (b : Builder) : WIPOffset * Builder :=
  let builder := ClientHelloBuilder_new b in
  let builder := if_some (ClientHelloArgs_api_surface_hash args) ClientHello_add_api_surface_hash builder in
  let builder := if_some (ClientHelloArgs_mod_version args) ClientHello_add_mod_version builder in
  let builder := if_some (ClientHelloArgs_game_build args) ClientHello_add_game_build builder in
  let builder := if_some (ClientHelloArgs_token args) ClientHello_add_token builder in
  let builder := if_some (ClientHelloArgs_display_name args) ClientHello_add_display_name builder in
  let builder := ClientHello_add_protocol_version (ClientHelloArgs_protocol_version args) builder in
  ClientHelloBuilder_finish builder.

Definition ClientHello_run_verifier : list visit :=
  [visit_field (FScalar U16) "protocol_version" ClientHello_VT_PROTOCOL_VERSION false;
   visit_field FStr "display_name" ClientHello_VT_DISPLAY_NAME false;
   visit_field FStr "token" ClientHello_VT_TOKEN false;
   visit_field FStr "game_build" ClientHello_VT_GAME_BUILD false;
   visit_field FStr "mod_version" ClientHello_VT_MOD_VERSION false;
   visit_field FStr "api_surface_hash" ClientHello_VT_API_SURFACE_HASH false].

Definition ClientHello_init_from_table (table : Table) : Table := table.

Record ClientHello := mkClientHello {
  ch_protocol_version : Z;
  ch_display_name : option string;
  ch_token : option string;
  ch_game_build : option string;
  ch_mod_version : option string;
  ch_api_surface_hash : option string
}.

Definition ClientHello_view (tab : Table) : ClientHello :=
  mkClientHello (ClientHello_protocol_version tab)
    (ClientHello_display_name tab)
    (ClientHello_token tab)
    (ClientHello_game_build tab)
    (ClientHello_mod_version tab)
    (ClientHello_api_surface_hash tab).

(** ** ServerHello *)
Definition ServerHello_VT_ACCEPTED : Z := 4.
Definition ServerHello_VT_REASON : Z := 6.
Definition ServerHello_VT_PLAYER_ID : Z := 8.
Definition ServerHello_VT_SERVER_NAME : Z := 10.
Definition ServerHello_VT_BALANCE_GOLD : Z := 12.
Definition ServerHello_VT_CAPABILITIES : Z := 14.
Definition ServerHello_VT_CLOCK : Z := 16.
Definition ServerHello_VT_WEATHER : Z := 18.

Definition ServerHello_accepted (tab : Table) : bool :=
  get_or (FScalar BOOL) tab ServerHello_VT_ACCEPTED false.
Definition ServerHello_reason (tab : Table) : option string :=
  get FStr tab ServerHello_VT_REASON None.
Definition ServerHello_player_id (tab : Table) : Z :=
  get_or (FScalar U64) tab ServerHello_VT_PLAYER_ID 0.
Definition ServerHello_server_name (tab : Table) : option string :=
  get FStr tab ServerHello_VT_SERVER_NAME None.
Definition ServerHello_balance_gold (tab : Table) : Z :=
  get_or (FScalar I64) tab ServerHello_VT_BALANCE_GOLD 0.
Definition ServerHello_capabilities (tab : Table) : option Table :=
  get (FTable TCapabilityManifest) tab ServerHello_VT_CAPABILITIES None.
Definition ServerHello_clock (tab : Table) : option Table :=
  get (FTable TWorldClock) tab ServerHello_VT_CLOCK None.
Definition ServerHello_weather (tab : Table) : option Table :=
  get (FTable TWeatherSeed) tab ServerHello_VT_WEATHER None.

Record ServerHelloArgs := mkServerHelloArgs {
  ServerHelloArgs_accepted : bool;
  ServerHelloArgs_reason : option WIPOffset;
  ServerHelloArgs_player_id : Z;
  ServerHelloArgs_server_name : option WIPOffset;
  ServerHelloArgs_balance_gold : Z;
  ServerHelloArgs_capabilities : option WIPOffset;
  ServerHelloArgs_clock : option WIPOffset;
  ServerHelloArgs_weather : option WIPOffset
}.

Definition ServerHelloArgs_default : ServerHelloArgs := mkServerHelloArgs false None 0 None 0 None None None.

Definition ServerHelloBuilder_new (b : Builder) : Builder := start_table b.
Definition ServerHello_add_accepted (x : bool) (b : Builder) : Builder :=
  push_slot BOOL ServerHello_VT_ACCEPTED x false b.
Definition ServerHello_add_reason (x : WIPOffset) (b : Builder) : Builder :=
  push_slot_always ServerHello_VT_REASON x b.
Definition ServerHello_add_player_id (x : Z) (b : Builder) : Builder :=
  push_slot U64 ServerHello_VT_PLAYER_ID x 0 b.
Definition ServerHello_add_server_name (x : WIPOffset) (b : Builder) : Builder :=
  push_slot_always ServerHello_VT_SERVER_NAME x b.
Definition ServerHello_add_balance_gold (x : Z) (b : Builder) : Builder :=
  push_slot I64 ServerHello_VT_BALANCE_GOLD x 0 b.
Definition ServerHello_add_capabilities (x : WIPOffset) (b : Builder) : Builder :=
  push_slot_always ServerHello_VT_CAPABILITIES x b.
Definition ServerHello_add_clock (x : WIPOffset) (b : Builder) : Builder :=
  push_slot_always ServerHello_VT_CLOCK x b.
Definition ServerHello_add_weather (x : WIPOffset) (b : Builder) : Builder :=
  push_slot_always ServerHello_VT_WEATHER x b.
Definition ServerHelloBuilder_finish (b : Builder) : WIPOffset * Builder := end_table b.

Definition ServerHello_create (args : ServerHelloArgs) (b : Builder) : WIPOffset * Builder :=
  let builder := ServerHelloBuilder_new b in
  let builder := ServerHello_add_balance_gold (ServerHelloArgs_balance_gold args) builder in
  let builder := ServerHello_add_player_id (ServerHelloArgs_player_id args) builder in
  let builder := if_some (ServerHelloArgs_weather args) ServerHello_add_weather builder in
  let builder := if_some (ServerHelloArgs_clock args) ServerHello_add_clock builder in
  let builder := if_some (ServerHelloArgs_capabilities args) ServerHello_add_capabilities builder in
  let builder := if_some (ServerHelloArgs_server_name args) ServerHello_add_server_name builder in
  let builder := if_some (ServerHelloArgs_reason args) ServerHello_add_reason builder in
  let builder := ServerHello_add_accepted (ServerHelloArgs_accepted args) builder in
  ServerHelloBuilder_finish builder.

Definition ServerHello_run_verifier : list visit :=
  [visit_field (FScalar BOOL) "accepted" ServerHello_VT_ACCEPTED false;
   visit_field FStr "reason" ServerHello_VT_REASON false;
   visit_field (FScalar U64) "player_id" ServerHello_VT_PLAYER_ID false;
   visit_field FStr "server_name" ServerHello_VT_SERVER_NAME false;
   visit_field (FScalar I64) "balance_gold" ServerHello_VT_BALANCE_GOLD false;
   visit_field (FTable TCapabilityManifest) "capabilities" ServerHello_VT_CAPABILITIES false;
   visit_field (FTable TWorldClock) "clock" ServerHello_VT_CLOCK false;
   visit_field (FTable TWeatherSeed) "weather" ServerHello_VT_WEATHER false].

Definition ServerHello_init_from_table (table : Table) : Table := table.

Record ServerHello := mkServerHello {
  sh_accepted : bool;
  sh_reason : option string;
  sh_player_id : Z;
  sh_server_name : option string;
  sh_balance_gold : Z;
  sh_capabilities : option CapabilityManifest;
  sh_clock : option WorldClock;
  sh_weather : option WeatherSeed
}.

Definition ServerHello_view (tab : Table) : ServerHello :=
  mkServerHello (ServerHello_accepted tab)
    (ServerHello_reason tab)
    (ServerHello_player_id tab)
    (ServerHello_server_name tab)
    (ServerHello_balance_gold tab)
    (CapabilityManifest_view <$> ServerHello_capabilities tab)
    (WorldClock_view <$> ServerHello_clock tab)
    (WeatherSeed_view <$> ServerHello_weather tab).

(** ** PlayerState *)
Definition PlayerState_VT_PLAYER_ID : Z := 4.
Definition PlayerState_VT_POS : Z := 6.
Definition PlayerState_VT_ROT : Z := 8.
Definition PlayerState_VT_ABOARD_BOAT : Z := 10.
Definition PlayerState_VT_T_MS : Z := 12.

Definition PlayerState_player_id (tab : Table) : Z :=
  get_or (FScalar U64) tab PlayerState_VT_PLAYER_ID 0.
Definition PlayerState_pos (tab : Table) : option (list Z) :=
  get (FStruct Vec3_size) tab PlayerState_VT_POS None.
Definition PlayerState_rot (tab : Table) : option (list Z) :=
  get (FStruct QuatC_size) tab PlayerState_VT_ROT None.
Definition PlayerState_aboard_boat (tab : Table) : Z :=
  get_or (FScalar U64) tab PlayerState_VT_ABOARD_BOAT 0.
Definition PlayerState_t_ms (tab : Table) : Z := get_or (FScalar U32) tab PlayerState_VT_T_MS 0.

Record PlayerStateArgs := mkPlayerStateArgs {
  PlayerStateArgs_player_id : Z;
  PlayerStateArgs_pos : option (list Z);
  PlayerStateArgs_rot : option (list Z);
  PlayerStateArgs_aboard_boat : Z;
  PlayerStateArgs_t_ms : Z
}.

Definition PlayerStateArgs_default : PlayerStateArgs := mkPlayerStateArgs 0 None None 0 0.

Definition PlayerStateBuilder_new (b : Builder) : Builder := start_table b.
Definition PlayerState_add_player_id (x : Z) (b : Builder) : Builder :=
  push_slot U64 PlayerState_VT_PLAYER_ID x 0 b.
Definition PlayerState_add_pos (x : list Z) (b : Builder) : Builder :=
  push_slot_struct PlayerState_VT_POS x b.
Definition PlayerState_add_rot (x : list Z) (b : Builder) : Builder :=
  push_slot_struct PlayerState_VT_ROT x b.
Definition PlayerState_add_aboard_boat (x : Z) (b : Builder) : Builder :=
  push_slot U64 PlayerState_VT_ABOARD_BOAT x 0 b.
Definition PlayerState_add_t_ms (x : Z) (b : Builder) : Builder :=
  push_slot U32 PlayerState_VT_T_MS x 0 b.
Definition PlayerStateBuilder_finish (b : Builder) : WIPOffset * Builder := end_table b.

Definition PlayerState_create (args : PlayerStateArgs) (b : Builder) : WIPOffset * Builder :=
  let builder := PlayerStateBuilder_new b in
  let builder := PlayerState_add_aboard_boat (PlayerStateArgs_aboard_boat args) builder in
  let builder := PlayerState_add_player_id (PlayerStateArgs_player_id args) builder in
  let builder := PlayerState_add_t_ms (PlayerStateArgs_t_ms args) builder in
  let builder := if_some (PlayerStateArgs_rot args) PlayerState_add_rot builder in
  let builder := if_some (PlayerStateArgs_pos args) PlayerState_add_pos builder in
  PlayerStateBuilder_finish builder.

Definition PlayerState_run_verifier : list visit :=
  [visit_field (FScalar U64) "player_id" PlayerState_VT_PLAYER_ID false;
   visit_field (FStruct Vec3_size) "pos" PlayerState_VT_POS false;
   visit_field (FStruct QuatC_size) "rot" PlayerState_VT_ROT false;
   visit_field (FScalar U64) "aboard_boat" PlayerState_VT_ABOARD_BOAT false;
   visit_field (FScalar U32) "t_ms" PlayerState_VT_T_MS false].

Definition PlayerState_init_from_table (table : Table) : Table := table.

Record PlayerState := mkPlayerState {
  ps_player_id : Z;
  ps_pos : option vec3;
  ps_rot : option quat;
  ps_aboard_boat : Z;
  ps_t_ms : Z
}.

Definition PlayerState_view (tab : Table) : PlayerState :=
  mkPlayerState (PlayerState_player_id tab)
    (Vec3_view <$> PlayerState_pos tab)
    (QuatC_view <$> PlayerState_rot tab)
    (PlayerState_aboard_boat tab)
    (PlayerState_t_ms tab).

(** ** BoatState *)
Definition BoatState_VT_BOAT_ID : Z := 4.
Definition BoatState_VT_OWNER : Z := 6.
Definition BoatState_VT_POS : Z := 8.
Definition BoatState_VT_ROT : Z := 10.
Definition BoatState_VT_VEL : Z := 12.
Definition BoatState_VT_T_MS : Z := 14.

Definition BoatState_boat_id (tab : Table) : Z := get_or (FScalar U64) tab BoatState_VT_BOAT_ID 0.
Definition BoatState_owner (tab : Table) : Z := get_or (FScalar U64) tab BoatState_VT_OWNER 0.
Definition BoatState_pos (tab : Table) : option (list Z) :=
  get (FStruct Vec3_size) tab BoatState_VT_POS None.
Definition BoatState_rot (tab : Table) : option (list Z) :=
  get (FStruct QuatC_size) tab BoatState_VT_ROT None.
Definition BoatState_vel (tab : Table) : option (list Z) :=
  get (FStruct Vec3_size) tab BoatState_VT_VEL None.
Definition BoatState_t_ms (tab : Table) : Z := get_or (FScalar U32) tab BoatState_VT_T_MS 0.

Record BoatStateArgs := mkBoatStateArgs {
  BoatStateArgs_boat_id : Z;
  BoatStateArgs_owner : Z;
  BoatStateArgs_pos : option (list Z);
  BoatStateArgs_rot : option (list Z);
  BoatStateArgs_vel : option (list Z);
  BoatStateArgs_t_ms : Z
}.

Definition BoatStateArgs_default : BoatStateArgs := mkBoatStateArgs 0 0 None None None 0.

Definition BoatStateBuilder_new (b : Builder) : Builder := start_table b.
Definition BoatState_add_boat_id (x : Z) (b : Builder) : Builder :=
  push_slot U64 BoatState_VT_BOAT_ID x 0 b.
Definition BoatState_add_owner (x : Z) (b : Builder) : Builder :=
  push_slot U64 BoatState_VT_OWNER x 0 b.
Definition BoatState_add_pos (x : list Z) (b : Builder) : Builder :=
  push_slot_struct BoatState_VT_POS x b.
Definition BoatState_add_rot (x : list Z) (b : Builder) : Builder :=
  push_slot_struct BoatState_VT_ROT x b.
Definition BoatState_add_vel (x : list Z) (b : Builder) : Builder :=
  push_slot_struct BoatState_VT_VEL x b.
Definition BoatState_add_t_ms (x : Z) (b : Builder) : Builder :=
  push_slot U32 BoatState_VT_T_MS x 0 b.
Definition BoatStateBuilder_finish (b : Builder) : WIPOffset * Builder := end_table b.

Definition BoatState_create (args : BoatStateArgs) (b : Builder) : WIPOffset * Builder :=
  let builder := BoatStateBuilder_new b in
  let builder := BoatState_add_owner (BoatStateArgs_owner args) builder in
  let builder := BoatState_add_boat_id (BoatStateArgs_boat_id args) builder in
  let builder := BoatState_add_t_ms (BoatStateArgs_t_ms args) builder in
  let builder := if_some (BoatStateArgs_vel args) BoatState_add_vel builder in
  let builder := if_some (BoatStateArgs_rot args) BoatState_add_rot builder in
  let builder := if_some (BoatStateArgs_pos args) BoatState_add_pos builder in
  BoatStateBuilder_finish builder.

Definition BoatState_run_verifier : list visit :=
  [visit_field (FScalar U64) "boat_id" BoatState_VT_BOAT_ID false;
   visit_field (FScalar U64) "owner" BoatState_VT_OWNER false;
   visit_field (FStruct Vec3_size) "pos" BoatState_VT_POS false;
   visit_field (FStruct QuatC_size) "rot" BoatState_VT_ROT false;
   visit_field (FStruct Vec3_size) "vel" BoatState_VT_VEL false;
   visit_field (FScalar U32) "t_ms" BoatState_VT_T_MS false].

Definition BoatState_init_from_table (table : Table) : Table := table.

Record BoatState := mkBoatState {
  bo_boat_id : Z;
  bo_owner : Z;
  bo_pos : option vec3;
  bo_rot : option quat;
  bo_vel : option vec3;
  bo_t_ms : Z
}.

Definition BoatState_view (tab : Table) : BoatState :=
  mkBoatState (BoatState_boat_id tab)
    (BoatState_owner tab)
    (Vec3_view <$> BoatState_pos tab)
    (QuatC_view <$> BoatState_rot tab)
    (Vec3_view <$> BoatState_vel tab)
    (BoatState_t_ms tab).

(** ** ClientState *)
Definition ClientState_VT_POS : Z := 4.
Definition ClientState_VT_ROT : Z := 6.
Definition ClientState_VT_VEL : Z := 8.
Definition ClientState_VT_ABOARD_BOAT : Z := 10.
Definition ClientState_VT_T_MS : Z := 12.

Definition ClientState_pos (tab : Table) : option (list Z) :=
  get (FStruct Vec3_size) tab ClientState_VT_POS None.
Definition ClientState_rot (tab : Table) : option (list Z) :=
  get (FStruct QuatC_size) tab ClientState_VT_ROT None.
Definition ClientState_vel (tab : Table) : option (list Z) :=
  get (FStruct Vec3_size) tab ClientState_VT_VEL None.
Definition ClientState_aboard_boat (tab : Table) : Z :=
  get_or (FScalar U64) tab ClientState_VT_ABOARD_BOAT 0.
Definition ClientState_t_ms (tab : Table) : Z := get_or (FScalar U32) tab ClientState_VT_T_MS 0.

Record ClientStateArgs := mkClientStateArgs {
  ClientStateArgs_pos : option (list Z);
  ClientStateArgs_rot : option (list Z);
  ClientStateArgs_vel : option (list Z);
  ClientStateArgs_aboard_boat : Z;
  ClientStateArgs_t_ms : Z
}.

Definition ClientStateArgs_default : ClientStateArgs := mkClientStateArgs None None None 0 0.

Definition ClientStateBuilder_new (b : Builder) : Builder := start_table b.
Definition ClientState_add_pos (x : list Z) (b : Builder) : Builder :=
  push_slot_struct ClientState_VT_POS x b.
Definition ClientState_add_rot (x : list Z) (b : Builder) : Builder :=
  push_slot_struct ClientState_VT_ROT x b.
Definition ClientState_add_vel (x : list Z) (b : Builder) : Builder :=
  push_slot_struct ClientState_VT_VEL x b.
Definition ClientState_add_aboard_boat (x : Z) (b : Builder) : Builder :=
  push_slot U64 ClientState_VT_ABOARD_BOAT x 0 b.
Definition ClientState_add_t_ms (x : Z) (b : Builder) : Builder :=
  push_slot U32 ClientState_VT_T_MS x 0 b.
Definition ClientStateBuilder_finish (b : Builder) : WIPOffset * Builder := end_table b.

Definition ClientState_create (args : ClientStateArgs) (b : Builder) : WIPOffset * Builder :=
  let builder := ClientStateBuilder_new b in
  let builder := ClientState_add_aboard_boat (ClientStateArgs_aboard_boat args) builder in
  let builder := ClientState_add_t_ms (ClientStateArgs_t_ms args) builder in
  let builder := if_some (ClientStateArgs_vel args) ClientState_add_vel builder in
  let builder := if_some (ClientStateArgs_rot args) ClientState_add_rot builder in
  let builder := if_some (ClientStateArgs_pos args) ClientState_add_pos builder in
  ClientStateBuilder_finish builder.

Definition ClientState_run_verifier : list visit :=
  [visit_field (FStruct Vec3_size) "pos" ClientState_VT_POS false;
   visit_field (FStruct QuatC_size) "rot" ClientState_VT_ROT false;
   visit_field (FStruct Vec3_size) "vel" ClientState_VT_VEL false;
   visit_field (FScalar U64) "aboard_boat" ClientState_VT_ABOARD_BOAT false;
   visit_field (FScalar U32) "t_ms" ClientState_VT_T_MS false].

Definition ClientState_init_from_table (table : Table) : Table := table.

Record ClientState := mkClientState {
  cs_pos : option vec3;
  cs_rot : option quat;
  cs_vel : option vec3;
  cs_aboard_boat : Z;
  cs_t_ms : Z
}.

Definition ClientState_view (tab : Table) : ClientState :=
  mkClientState (Vec3_view <$> ClientState_pos tab)
    (QuatC_view <$> ClientState_rot tab)
    (Vec3_view <$> ClientState_vel tab)
    (ClientState_aboard_boat tab)
    (ClientState_t_ms tab).

(** ** SnapshotDelta *)
Definition SnapshotDelta_VT_SERVER_TICK : Z := 4.
Definition SnapshotDelta_VT_PLAYERS : Z := 6.
Definition SnapshotDelta_VT_BOATS : Z := 8.

Definition SnapshotDelta_server_tick (tab : Table) : Z :=
  get_or (FScalar U32) tab SnapshotDelta_VT_SERVER_TICK 0.
Definition SnapshotDelta_players (tab : Table) : option (list Table) :=
  get (FVector (FTable TPlayerState)) tab SnapshotDelta_VT_PLAYERS None.
Definition SnapshotDelta_boats (tab : Table) : option (list Table) :=
  get (FVector (FTable TBoatState)) tab SnapshotDelta_VT_BOATS None.

Record SnapshotDeltaArgs := mkSnapshotDeltaArgs {
  SnapshotDeltaArgs_server_tick : Z;
  SnapshotDeltaArgs_players : option WIPOffset;
  SnapshotDeltaArgs_boats : option WIPOffset
}.

Definition SnapshotDeltaArgs_default : SnapshotDeltaArgs := mkSnapshotDeltaArgs 0 None None.

Definition SnapshotDeltaBuilder_new (b : Builder) : Builder := start_table b.
Definition SnapshotDelta_add_server_tick (x : Z) (b : Builder) : Builder :=
  push_slot U32 SnapshotDelta_VT_SERVER_TICK x 0 b.
Definition SnapshotDelta_add_players (x : WIPOffset) (b : Builder) : Builder :=
  push_slot_always SnapshotDelta_VT_PLAYERS x b.
Definition SnapshotDelta_add_boats (x : WIPOffset) (b : Builder) : Builder :=
  push_slot_always SnapshotDelta_VT_BOATS x b.
Definition SnapshotDeltaBuilder_finish (b : Builder) : WIPOffset * Builder := end_table b.

Definition SnapshotDelta_create (args : SnapshotDeltaArgs) (b : Builder) : WIPOffset * Builder :=
  let builder := SnapshotDeltaBuilder_new b in
  let builder := if_some (SnapshotDeltaArgs_boats args) SnapshotDelta_add_boats builder in
  let builder := if_some (SnapshotDeltaArgs_players args) SnapshotDelta_add_players builder in
  let builder := SnapshotDelta_add_server_tick (SnapshotDeltaArgs_server_tick args) builder in
  SnapshotDeltaBuilder_finish builder.

Definition SnapshotDelta_run_verifier : list visit :=
  [visit_field (FScalar U32) "server_tick" SnapshotDelta_VT_SERVER_TICK false;
   visit_field (FVector (FTable TPlayerState)) "players" SnapshotDelta_VT_PLAYERS false;
   visit_field (FVector (FTable TBoatState)) "boats" SnapshotDelta_VT_BOATS false].

Definition SnapshotDelta_init_from_table (table : Table) : Table := table.

Record SnapshotDelta := mkSnapshotDelta {
  sd_server_tick : Z;
  sd_players : option (list PlayerState);
  sd_boats : option (list BoatState)
}.

Definition SnapshotDelta_view (tab : Table) : SnapshotDelta :=
  mkSnapshotDelta (SnapshotDelta_server_tick tab)
    (option_map (map PlayerState_view) (SnapshotDelta_players tab))
    (option_map (map BoatState_view) (SnapshotDelta_boats tab)).

(** ** MoorageRecord *)
Definition MoorageRecord_VT_BOAT_ID : Z := 4.
Definition MoorageRecord_VT_OWNER : Z := 6.
Definition MoorageRecord_VT_CELL : Z := 8.
Definition MoorageRecord_VT_POS : Z := 10.
Definition MoorageRecord_VT_ROT : Z := 12.
Definition MoorageRecord_VT_NAME : Z := 14.
Definition MoorageRecord_VT_CREATED_AT : Z := 16.

Definition MoorageRecord_boat_id (tab : Table) : Z :=
  get_or (FScalar U64) tab MoorageRecord_VT_BOAT_ID 0.
Definition MoorageRecord_owner (tab : Table) : Z :=
  get_or (FScalar U64) tab MoorageRecord_VT_OWNER 0.
Definition MoorageRecord_cell (tab : Table) : option (list Z) :=
  get (FStruct GridCell_size) tab MoorageRecord_VT_CELL None.
Definition MoorageRecord_pos (tab : Table) : option (list Z) :=
  get (FStruct Vec3_size) tab MoorageRecord_VT_POS None.
Definition MoorageRecord_rot (tab : Table) : option (list Z) :=
  get (FStruct QuatC_size) tab MoorageRecord_VT_ROT None.
Definition MoorageRecord_name (tab : Table) : option string :=
  get FStr tab MoorageRecord_VT_NAME None.
Definition MoorageRecord_created_at (tab : Table) : Z :=
  get_or (FScalar U64) tab MoorageRecord_VT_CREATED_AT 0.

Record MoorageRecordArgs := mkMoorageRecordArgs {
  MoorageRecordArgs_boat_id : Z;
  MoorageRecordArgs_owner : Z;
  MoorageRecordArgs_cell : option (list Z);
  MoorageRecordArgs_pos : option (list Z);
  MoorageRecordArgs_rot : option (list Z);
  MoorageRecordArgs_name : option WIPOffset;
  MoorageRecordArgs_created_at : Z
}.

Definition MoorageRecordArgs_default : MoorageRecordArgs := mkMoorageRecordArgs 0 0 None None None None 0.

Definition MoorageRecordBuilder_new (b : Builder) : Builder := start_table b.
Definition MoorageRecord_add_boat_id (x : Z) (b : Builder) : Builder :=
  push_slot U64 MoorageRecord_VT_BOAT_ID x 0 b.
Definition MoorageRecord_add_owner (x : Z) (b : Builder) : Builder :=
  push_slot U64 MoorageRecord_VT_OWNER x 0 b.
Definition MoorageRecord_add_cell (x : list Z) (b : Builder) : Builder :=
  push_slot_struct MoorageRecord_VT_CELL x b.
Definition MoorageRecord_add_pos (x : list Z) (b : Builder) : Builder :=
  push_slot_struct MoorageRecord_VT_POS x b.
Definition MoorageRecord_add_rot (x : list Z) (b : Builder) : Builder :=
  push_slot_struct MoorageRecord_VT_ROT x b.
Definition MoorageRecord_add_name (x : WIPOffset) (b : Builder) : Builder :=
  push_slot_always MoorageRecord_VT_NAME x b.
Definition MoorageRecord_add_created_at (x : Z) (b : Builder) : Builder :=
  push_slot U64 MoorageRecord_VT_CREATED_AT x 0 b.
Definition MoorageRecordBuilder_finish (b : Builder) : WIPOffset * Builder := end_table b.

Definition MoorageRecord_create (args : MoorageRecordArgs) (b : Builder) : WIPOffset * Builder :=
  let builder := MoorageRecordBuilder_new b in
  let builder := MoorageRecord_add_created_at (MoorageRecordArgs_created_at args) builder in
  let builder := MoorageRecord_add_owner (MoorageRecordArgs_owner args) builder in
  let builder := MoorageRecord_add_boat_id (MoorageRecordArgs_boat_id args) builder in
  let builder := if_some (MoorageRecordArgs_name args) MoorageRecord_add_name builder in
  let builder := if_some (MoorageRecordArgs_rot args) MoorageRecord_add_rot builder in
  let builder := if_some (MoorageRecordArgs_pos args) MoorageRecord_add_pos builder in
  let builder := if_some (MoorageRecordArgs_cell args) MoorageRecord_add_cell builder in
  MoorageRecordBuilder_finish builder.

Definition MoorageRecord_run_verifier : list visit :=
  [visit_field (FScalar U64) "boat_id" MoorageRecord_VT_BOAT_ID false;
   visit_field (FScalar U64) "owner" MoorageRecord_VT_OWNER false;
   visit_field (FStruct GridCell_size) "cell" MoorageRecord_VT_CELL false;
   visit_field (FStruct Vec3_size) "pos" MoorageRecord_VT_POS false;
   visit_field (FStruct QuatC_size) "rot" MoorageRecord_VT_ROT false;
   visit_field FStr "name" MoorageRecord_VT_NAME false;
   visit_field (FScalar U64) "created_at" MoorageRecord_VT_CREATED_AT false].

Definition MoorageRecord_init_from_table (table : Table) : Table := table.

Record MoorageRecord := mkMoorageRecord {
  mo_boat_id : Z;
  mo_owner : Z;
  mo_cell : option (Z * Z);
  mo_pos : option vec3;
  mo_rot : option quat;
  mo_name : option string;
  mo_created_at : Z
}.

Definition MoorageRecord_view (tab : Table) : MoorageRecord :=
  mkMoorageRecord (MoorageRecord_boat_id tab)
    (MoorageRecord_owner tab)
    (GridCell_view <$> MoorageRecord_cell tab)
    (Vec3_view <$> MoorageRecord_pos tab)
    (QuatC_view <$> MoorageRecord_rot tab)
    (MoorageRecord_name tab)
    (MoorageRecord_created_at tab).

(** ** MoorRequest *)
Definition MoorRequest_VT_POS : Z := 4.
Definition MoorRequest_VT_ROT : Z := 6.
Definition MoorRequest_VT_NAME : Z := 8.

Definition MoorRequest_pos (tab : Table) : option (list Z) :=
  get (FStruct Vec3_size) tab MoorRequest_VT_POS None.
Definition MoorRequest_rot (tab : Table) : option (list Z) :=
  get (FStruct QuatC_size) tab MoorRequest_VT_ROT None.
Definition MoorRequest_name (tab : Table) : option string := get FStr tab MoorRequest_VT_NAME None.

Record MoorRequestArgs := mkMoorRequestArgs {
  MoorRequestArgs_pos : option (list Z);
  MoorRequestArgs_rot : option (list Z);
  MoorRequestArgs_name : option WIPOffset
}.

Definition MoorRequestArgs_default : MoorRequestArgs := mkMoorRequestArgs None None None.

Definition MoorRequestBuilder_new (b : Builder) : Builder := start_table b.
Definition MoorRequest_add_pos (x : list Z) (b : Builder) : Builder :=
  push_slot_struct MoorRequest_VT_POS x b.
Definition MoorRequest_add_rot (x : list Z) (b : Builder) : Builder :=
  push_slot_struct MoorRequest_VT_ROT x b.
Definition MoorRequest_add_name (x : WIPOffset) (b : Builder) : Builder :=
  push_slot_always MoorRequest_VT_NAME x b.
Definition MoorRequestBuilder_finish (b : Builder) : WIPOffset * Builder := end_table b.

Definition MoorRequest_create (args : MoorRequestArgs) (b : Builder) : WIPOffset * Builder :=
  let builder := MoorRequestBuilder_new b in
  let builder := if_some (MoorRequestArgs_name args) MoorRequest_add_name builder in
  let builder := if_some (MoorRequestArgs_rot args) MoorRequest_add_rot builder in
  let builder := if_some (MoorRequestArgs_pos args) MoorRequest_add_pos builder in
  MoorRequestBuilder_finish builder.

Definition MoorRequest_run_verifier : list visit :=
  [visit_field (FStruct Vec3_size) "pos" MoorRequest_VT_POS false;
   visit_field (FStruct QuatC_size) "rot" MoorRequest_VT_ROT false;
   visit_field FStr "name" MoorRequest_VT_NAME false].

Definition MoorRequest_init_from_table (table : Table) : Table := table.

Record MoorRequest := mkMoorRequest {
  mq_pos : option vec3;
  mq_rot : option quat;
  mq_name : option string
}.

Definition MoorRequest_view (tab : Table) : MoorRequest :=
  mkMoorRequest (Vec3_view <$> MoorRequest_pos tab)
    (QuatC_view <$> MoorRequest_rot tab)
    (MoorRequest_name tab).

(** ** MoorAck *)
Definition MoorAck_VT_ACCEPTED : Z := 4.
Definition MoorAck_VT_RECORD : Z := 6.
Definition MoorAck_VT_REASON : Z := 8.

Definition MoorAck_accepted (tab : Table) : bool :=
  get_or (FScalar BOOL) tab MoorAck_VT_ACCEPTED false.
Definition MoorAck_record (tab : Table) : option Table :=
  get (FTable TMoorageRecord) tab MoorAck_VT_RECORD None.
Definition MoorAck_reason (tab : Table) : option string := get FStr tab MoorAck_VT_REASON None.

Record MoorAckArgs := mkMoorAckArgs {
  MoorAckArgs_accepted : bool;
  MoorAckArgs_record : option WIPOffset;
  MoorAckArgs_reason : option WIPOffset
}.

Definition MoorAckArgs_default : MoorAckArgs := mkMoorAckArgs false None None.

Definition MoorAckBuilder_new (b : Builder) : Builder := start_table b.
Definition MoorAck_add_accepted (x : bool) (b : Builder) : Builder :=
  push_slot BOOL MoorAck_VT_ACCEPTED x false b.
Definition MoorAck_add_record (x : WIPOffset) (b : Builder) : Builder :=
  push_slot_always MoorAck_VT_RECORD x b.
Definition MoorAck_add_reason (x : WIPOffset) (b : Builder) : Builder :=
  push_slot_always MoorAck_VT_REASON x b.
Definition MoorAckBuilder_finish (b : Builder) : WIPOffset * Builder := end_table b.

Definition MoorAck_create (args : MoorAckArgs) (b : Builder) : WIPOffset * Builder :=
  let builder := MoorAckBuilder_new b in
  let builder := if_some (MoorAckArgs_reason args) MoorAck_add_reason builder in
  let builder := if_some (MoorAckArgs_record args) MoorAck_add_record builder in
  let builder := MoorAck_add_accepted (MoorAckArgs_accepted args) builder in
  MoorAckBuilder_finish builder.

Definition MoorAck_run_verifier : list visit :=
  [visit_field (FScalar BOOL) "accepted" MoorAck_VT_ACCEPTED false;
   visit_field (FTable TMoorageRecord) "record" MoorAck_VT_RECORD false;
   visit_field FStr "reason" MoorAck_VT_REASON false].

Definition MoorAck_init_from_table (table : Table) : Table := table.

Record MoorAck := mkMoorAck {
  ma_accepted : bool;
  ma_record : option MoorageRecord;
  ma_reason : option string
}.

Definition MoorAck_view (tab : Table) : MoorAck :=
  mkMoorAck (MoorAck_accepted tab)
    (MoorageRecord_view <$> MoorAck_record tab)
    (MoorAck_reason tab).

(** ** AoiUpdate *)
Definition AoiUpdate_VT_ADDED : Z := 4.
Definition AoiUpdate_VT_REMOVED : Z := 6.

Definition AoiUpdate_added (tab : Table) : option (list (list Z)) :=
  get (FVector (FStruct GridCell_size)) tab AoiUpdate_VT_ADDED None.
Definition AoiUpdate_removed (tab : Table) : option (list (list Z)) :=
  get (FVector (FStruct GridCell_size)) tab AoiUpdate_VT_REMOVED None.

Record AoiUpdateArgs := mkAoiUpdateArgs {
  AoiUpdateArgs_added : option WIPOffset;
  AoiUpdateArgs_removed : option WIPOffset
}.

Definition AoiUpdateArgs_default : AoiUpdateArgs := mkAoiUpdateArgs None None.

Definition AoiUpdateBuilder_new (b : Builder) : Builder := start_table b.
Definition AoiUpdate_add_added (x : WIPOffset) (b : Builder) : Builder :=
  push_slot_always AoiUpdate_VT_ADDED x b.
Definition AoiUpdate_add_removed (x : WIPOffset) (b : Builder) : Builder :=
  push_slot_always AoiUpdate_VT_REMOVED x b.
Definition AoiUpdateBuilder_finish (b : Builder) : WIPOffset * Builder := end_table b.

Definition AoiUpdate_create (args : AoiUpdateArgs) (b : Builder) : WIPOffset * Builder :=
  let builder := AoiUpdateBuilder_new b in
  let builder := if_some (AoiUpdateArgs_removed args) AoiUpdate_add_removed builder in
  let builder := if_some (AoiUpdateArgs_added args) AoiUpdate_add_added builder in
  AoiUpdateBuilder_finish builder.

Definition AoiUpdate_run_verifier : list visit :=
  [visit_field (FVector (FStruct GridCell_size)) "added" AoiUpdate_VT_ADDED false;
   visit_field (FVector (FStruct GridCell_size)) "removed" AoiUpdate_VT_REMOVED false].

Definition AoiUpdate_init_from_table (table : Table) : Table := table.

Record AoiUpdateMsg := mkAoiUpdateMsg {
  au_added : option (list (Z * Z));
  au_removed : option (list (Z * Z))
}.

Definition AoiUpdate_view (tab : Table) : AoiUpdateMsg :=
  mkAoiUpdateMsg (option_map (map GridCell_view) (AoiUpdate_added tab))
    (option_map (map GridCell_view) (AoiUpdate_removed tab)).

(** ** CellSnapshot *)
Definition CellSnapshot_VT_CELL : Z := 4.
Definition CellSnapshot_VT_PLAYERS : Z := 6.
Definition CellSnapshot_VT_BOATS : Z := 8.
Definition CellSnapshot_VT_MOORINGS : Z := 10.

Definition CellSnapshot_cell (tab : Table) : option (list Z) :=
  get (FStruct GridCell_size) tab CellSnapshot_VT_CELL None.
Definition CellSnapshot_players (tab : Table) : option (list Table) :=
  get (FVector (FTable TPlayerState)) tab CellSnapshot_VT_PLAYERS None.
Definition CellSnapshot_boats (tab : Table) : option (list Table) :=
  get (FVector (FTable TBoatState)) tab CellSnapshot_VT_BOATS None.
Definition CellSnapshot_moorings (tab : Table) : option (list Table) :=
  get (FVector (FTable TMoorageRecord)) tab CellSnapshot_VT_MOORINGS None.

Record CellSnapshotArgs := mkCellSnapshotArgs {
  CellSnapshotArgs_cell : option (list Z);
  CellSnapshotArgs_players : option WIPOffset;
  CellSnapshotArgs_boats : option WIPOffset;
  CellSnapshotArgs_moorings : option WIPOffset
}.

Definition CellSnapshotArgs_default : CellSnapshotArgs := mkCellSnapshotArgs None None None None.

Definition CellSnapshotBuilder_new (b : Builder) : Builder := start_table b.
Definition CellSnapshot_add_cell (x : list Z) (b : Builder) : Builder :=
  push_slot_struct CellSnapshot_VT_CELL x b.
Definition CellSnapshot_add_players (x : WIPOffset) (b : Builder) : Builder :=
  push_slot_always CellSnapshot_VT_PLAYERS x b.
Definition CellSnapshot_add_boats (x : WIPOffset) (b : Builder) : Builder :=
  push_slot_always CellSnapshot_VT_BOATS x b.
Definition CellSnapshot_add_moorings (x : WIPOffset) (b : Builder) : Builder :=
  push_slot_always CellSnapshot_VT_MOORINGS x b.
Definition CellSnapshotBuilder_finish (b : Builder) : WIPOffset * Builder := end_table b.

Definition CellSnapshot_create (args : CellSnapshotArgs) (b : Builder) : WIPOffset * Builder :=
  let builder := CellSnapshotBuilder_new b in
  let builder := if_some (CellSnapshotArgs_moorings args) CellSnapshot_add_moorings builder in
  let builder := if_some (CellSnapshotArgs_boats args) CellSnapshot_add_boats builder in
  let builder := if_some (CellSnapshotArgs_players args) CellSnapshot_add_players builder in
  let builder := if_some (CellSnapshotArgs_cell args) CellSnapshot_add_cell builder in
  CellSnapshotBuilder_finish builder.

Definition CellSnapshot_run_verifier : list visit :=
  [visit_field (FStruct GridCell_size) "cell" CellSnapshot_VT_CELL false;
   visit_field (FVector (FTable TPlayerState)) "players" CellSnapshot_VT_PLAYERS false;
   visit_field (FVector (FTable TBoatState)) "boats" CellSnapshot_VT_BOATS false;
   visit_field (FVector (FTable TMoorageRecord)) "moorings" CellSnapshot_VT_MOORINGS false].

Definition CellSnapshot_init_from_table (table : Table) : Table := table.

Record CellSnapshot := mkCellSnapshot {
  cc_cell : option (Z * Z);
  cc_players : option (list PlayerState);
  cc_boats : option (list BoatState);
  cc_moorings : option (list MoorageRecord)
}.

Definition CellSnapshot_view (tab : Table) : CellSnapshot :=
  mkCellSnapshot (GridCell_view <$> CellSnapshot_cell tab)
    (option_map (map PlayerState_view) (CellSnapshot_players tab))
    (option_map (map BoatState_view) (CellSnapshot_boats tab))
    (option_map (map MoorageRecord_view) (CellSnapshot_moorings tab)).

(** ** EconTxn *)
Definition EconTxn_VT_TXN_ID : Z := 4.
Definition EconTxn_VT_AMOUNT_GOLD : Z := 6.
Definition EconTxn_VT_KIND : Z := 8.
Definition EconTxn_VT_NOTE : Z := 10.

Definition EconTxn_txn_id (tab : Table) : Z := get_or (FScalar U64) tab EconTxn_VT_TXN_ID 0.
Definition EconTxn_amount_gold (tab : Table) : Z :=
  get_or (FScalar I64) tab EconTxn_VT_AMOUNT_GOLD 0.
Definition EconTxn_kind (tab : Table) : Z := get_or (FScalar U8) tab EconTxn_VT_KIND 0.
Definition EconTxn_note (tab : Table) : option string := get FStr tab EconTxn_VT_NOTE None.

Record EconTxnArgs := mkEconTxnArgs {
  EconTxnArgs_txn_id : Z;
  EconTxnArgs_amount_gold : Z;
  EconTxnArgs_kind : Z;
  EconTxnArgs_note : option WIPOffset
}.

Definition EconTxnArgs_default : EconTxnArgs := mkEconTxnArgs 0 0 0 None.

Definition EconTxnBuilder_new (b : Builder) : Builder := start_table b.
Definition EconTxn_add_txn_id (x : Z) (b : Builder) : Builder :=
  push_slot U64 EconTxn_VT_TXN_ID x 0 b.
Definition EconTxn_add_amount_gold (x : Z) (b : Builder) : Builder :=
  push_slot I64 EconTxn_VT_AMOUNT_GOLD x 0 b.
Definition EconTxn_add_kind (x : Z) (b : Builder) : Builder :=
  push_slot U8 EconTxn_VT_KIND x 0 b.
Definition EconTxn_add_note (x : WIPOffset) (b : Builder) : Builder :=
  push_slot_always EconTxn_VT_NOTE x b.
Definition EconTxnBuilder_finish (b : Builder) : WIPOffset * Builder := end_table b.

Definition EconTxn_create (args : EconTxnArgs) (b : Builder) : WIPOffset * Builder :=
  let builder := EconTxnBuilder_new b in
  let builder := EconTxn_add_amount_gold (EconTxnArgs_amount_gold args) builder in
  let builder := EconTxn_add_txn_id (EconTxnArgs_txn_id args) builder in
  let builder := if_some (EconTxnArgs_note args) EconTxn_add_note builder in
  let builder := EconTxn_add_kind (EconTxnArgs_kind args) builder in
  EconTxnBuilder_finish builder.

Definition EconTxn_run_verifier : list visit :=
  [visit_field (FScalar U64) "txn_id" EconTxn_VT_TXN_ID false;
   visit_field (FScalar I64) "amount_gold" EconTxn_VT_AMOUNT_GOLD false;
   visit_field (FScalar U8) "kind" EconTxn_VT_KIND false;
   visit_field FStr "note" EconTxn_VT_NOTE false].

Definition EconTxn_init_from_table (table : Table) : Table := table.

Record EconTxn := mkEconTxn {
  et_txn_id : Z;
  et_amount_gold : Z;
  et_kind : Z;
  et_note : option string
}.

Definition EconTxn_view (tab : Table) : EconTxn :=
  mkEconTxn (EconTxn_txn_id tab)
    (EconTxn_amount_gold tab)
    (EconTxn_kind tab)
    (EconTxn_note tab).

(** ** LedgerAck *)
Definition LedgerAck_VT_TXN_ID : Z := 4.
Definition LedgerAck_VT_ACCEPTED : Z := 6.
Definition LedgerAck_VT_NEW_BALANCE : Z := 8.
Definition LedgerAck_VT_REASON : Z := 10.

Definition LedgerAck_txn_id (tab : Table) : Z := get_or (FScalar U64) tab LedgerAck_VT_TXN_ID 0.
Definition LedgerAck_accepted (tab : Table) : bool :=
  get_or (FScalar BOOL) tab LedgerAck_VT_ACCEPTED false.
Definition LedgerAck_new_balance (tab : Table) : Z :=
  get_or (FScalar I64) tab LedgerAck_VT_NEW_BALANCE 0.
Definition LedgerAck_reason (tab : Table) : option string := get FStr tab LedgerAck_VT_REASON None.

Record LedgerAckArgs := mkLedgerAckArgs {
  LedgerAckArgs_txn_id : Z;
  LedgerAckArgs_accepted : bool;
  LedgerAckArgs_new_balance : Z;
  LedgerAckArgs_reason : option WIPOffset
}.

Definition LedgerAckArgs_default : LedgerAckArgs := mkLedgerAckArgs 0 false 0 None.

Definition LedgerAckBuilder_new (b : Builder) : Builder := start_table b.
Definition LedgerAck_add_txn_id (x : Z) (b : Builder) : Builder :=
  push_slot U64 LedgerAck_VT_TXN_ID x 0 b.
Definition LedgerAck_add_accepted (x : bool) (b : Builder) : Builder :=
  push_slot BOOL LedgerAck_VT_ACCEPTED x false b.
Definition LedgerAck_add_new_balance (x : Z) (b : Builder) : Builder :=
  push_slot I64 LedgerAck_VT_NEW_BALANCE x 0 b.
Definition LedgerAck_add_reason (x : WIPOffset) (b : Builder) : Builder :=
  push_slot_always LedgerAck_VT_REASON x b.
Definition LedgerAckBuilder_finish (b : Builder) : WIPOffset * Builder := end_table b.

Definition LedgerAck_create (args : LedgerAckArgs) (b : Builder) : WIPOffset * Builder :=
  let builder := LedgerAckBuilder_new b in
  let builder := LedgerAck_add_new_balance (LedgerAckArgs_new_balance args) builder in
  let builder := LedgerAck_add_txn_id (LedgerAckArgs_txn_id args) builder in
  let builder := if_some (LedgerAckArgs_reason args) LedgerAck_add_reason builder in
  let builder := LedgerAck_add_accepted (LedgerAckArgs_accepted args) builder in
  LedgerAckBuilder_finish builder.

Definition LedgerAck_run_verifier : list visit :=
  [visit_field (FScalar U64) "txn_id" LedgerAck_VT_TXN_ID false;
   visit_field (FScalar BOOL) "accepted" LedgerAck_VT_ACCEPTED false;
   visit_field (FScalar I64) "new_balance" LedgerAck_VT_NEW_BALANCE false;
   visit_field FStr "reason" LedgerAck_VT_REASON false].

Definition LedgerAck_init_from_table (table : Table) : Table := table.

Record LedgerAckMsg := mkLedgerAckMsg {
  la_txn_id : Z;
  la_accepted : bool;
  la_new_balance : Z;
  la_reason : option string
}.

Definition LedgerAck_view (tab : Table) : LedgerAckMsg :=
  mkLedgerAckMsg (LedgerAck_txn_id tab)
    (LedgerAck_accepted tab)
    (LedgerAck_new_balance tab)
    (LedgerAck_reason tab).

(** ** MarketTradeRequest *)
Definition MarketTradeRequest_VT_TXN_ID : Z := 4.
Definition MarketTradeRequest_VT_PORT_ID : Z := 6.
Definition MarketTradeRequest_VT_ITEM_ID : Z := 8.
Definition MarketTradeRequest_VT_QTY : Z := 10.
Definition MarketTradeRequest_VT_UNIT_PRICE : Z := 12.

Definition MarketTradeRequest_txn_id (tab : Table) : Z :=
  get_or (FScalar U64) tab MarketTradeRequest_VT_TXN_ID 0.
Definition MarketTradeRequest_port_id (tab : Table) : Z :=
  get_or (FScalar U32) tab MarketTradeRequest_VT_PORT_ID 0.
Definition MarketTradeRequest_item_id (tab : Table) : Z :=
  get_or (FScalar U32) tab MarketTradeRequest_VT_ITEM_ID 0.
Definition MarketTradeRequest_qty (tab : Table) : Z :=
  get_or (FScalar I64) tab MarketTradeRequest_VT_QTY 0.
Definition MarketTradeRequest_unit_price (tab : Table) : Z :=
  get_or (FScalar I64) tab MarketTradeRequest_VT_UNIT_PRICE 0.

Record MarketTradeRequestArgs := mkMarketTradeRequestArgs {
  MarketTradeRequestArgs_txn_id : Z;
  MarketTradeRequestArgs_port_id : Z;
  MarketTradeRequestArgs_item_id : Z;
  MarketTradeRequestArgs_qty : Z;
  MarketTradeRequestArgs_unit_price : Z
}.

Definition MarketTradeRequestArgs_default : MarketTradeRequestArgs := mkMarketTradeRequestArgs 0 0 0 0 0.

Definition MarketTradeRequestBuilder_new (b : Builder) : Builder := start_table b.
Definition MarketTradeRequest_add_txn_id (x : Z) (b : Builder) : Builder :=
  push_slot U64 MarketTradeRequest_VT_TXN_ID x 0 b.
Definition MarketTradeRequest_add_port_id (x : Z) (b : Builder) : Builder :=
  push_slot U32 MarketTradeRequest_VT_PORT_ID x 0 b.
Definition MarketTradeRequest_add_item_id (x : Z) (b : Builder) : Builder :=
  push_slot U32 MarketTradeRequest_VT_ITEM_ID x 0 b.
Definition MarketTradeRequest_add_qty (x : Z) (b : Builder) : Builder :=
  push_slot I64 MarketTradeRequest_VT_QTY x 0 b.
Definition MarketTradeRequest_add_unit_price (x : Z) (b : Builder) : Builder :=
  push_slot I64 MarketTradeRequest_VT_UNIT_PRICE x 0 b.
Definition MarketTradeRequestBuilder_finish (b : Builder) : WIPOffset * Builder := end_table b.

Definition MarketTradeRequest_create (args : MarketTradeRequestArgs) (b : Builder) : WIPOffset * Builder :=
  let builder := MarketTradeRequestBuilder_new b in
  let builder := MarketTradeRequest_add_unit_price (MarketTradeRequestArgs_unit_price args) builder in
  let builder := MarketTradeRequest_add_qty (MarketTradeRequestArgs_qty args) builder in
  let builder := MarketTradeRequest_add_txn_id (MarketTradeRequestArgs_txn_id args) builder in
  let builder := MarketTradeRequest_add_item_id (MarketTradeRequestArgs_item_id args) builder in
  let builder := MarketTradeRequest_add_port_id (MarketTradeRequestArgs_port_id args) builder in
  MarketTradeRequestBuilder_finish builder.

Definition MarketTradeRequest_run_verifier : list visit :=
  [visit_field (FScalar U64) "txn_id" MarketTradeRequest_VT_TXN_ID false;
   visit_field (FScalar U32) "port_id" MarketTradeRequest_VT_PORT_ID false;
   visit_field (FScalar U32) "item_id" MarketTradeRequest_VT_ITEM_ID false;
   visit_field (FScalar I64) "qty" MarketTradeRequest_VT_QTY false;
   visit_field (FScalar I64) "unit_price" MarketTradeRequest_VT_UNIT_PRICE false].

Definition MarketTradeRequest_init_from_table (table : Table) : Table := table.

Record MarketTradeRequest := mkMarketTradeRequest {
  mr_txn_id : Z;
  mr_port_id : Z;
  mr_item_id : Z;
  mr_qty : Z;
  mr_unit_price : Z
}.

Definition MarketTradeRequest_view (tab : Table) : MarketTradeRequest :=
  mkMarketTradeRequest (MarketTradeRequest_txn_id tab)
    (MarketTradeRequest_port_id tab)
    (MarketTradeRequest_item_id tab)
    (MarketTradeRequest_qty tab)
    (MarketTradeRequest_unit_price tab).

(** ** MarketStateAck *)
Definition MarketStateAck_VT_TXN_ID : Z := 4.
Definition MarketStateAck_VT_ACCEPTED : Z := 6.
Definition MarketStateAck_VT_PORT_ID : Z := 8.
Definition MarketStateAck_VT_ITEM_ID : Z := 10.
Definition MarketStateAck_VT_STOCK : Z := 12.
Definition MarketStateAck_VT_PRICE : Z := 14.
Definition MarketStateAck_VT_REASON : Z := 16.

Definition MarketStateAck_txn_id (tab : Table) : Z :=
  get_or (FScalar U64) tab MarketStateAck_VT_TXN_ID 0.
Definition MarketStateAck_accepted (tab : Table) : bool :=
  get_or (FScalar BOOL) tab MarketStateAck_VT_ACCEPTED false.
Definition MarketStateAck_port_id (tab : Table) : Z :=
  get_or (FScalar U32) tab MarketStateAck_VT_PORT_ID 0.
Definition MarketStateAck_item_id (tab : Table) : Z :=
  get_or (FScalar U32) tab MarketStateAck_VT_ITEM_ID 0.
Definition MarketStateAck_stock (tab : Table) : Z :=
  get_or (FScalar I64) tab MarketStateAck_VT_STOCK 0.
Definition MarketStateAck_price (tab : Table) : Z :=
  get_or (FScalar I64) tab MarketStateAck_VT_PRICE 0.
Definition MarketStateAck_reason (tab : Table) : option string :=
  get FStr tab MarketStateAck_VT_REASON None.

Record MarketStateAckArgs := mkMarketStateAckArgs {
  MarketStateAckArgs_txn_id : Z;
  MarketStateAckArgs_accepted : bool;
  MarketStateAckArgs_port_id : Z;
  MarketStateAckArgs_item_id : Z;
  MarketStateAckArgs_stock : Z;
  MarketStateAckArgs_price : Z;
  MarketStateAckArgs_reason : option WIPOffset
}.

Definition MarketStateAckArgs_default : MarketStateAckArgs := mkMarketStateAckArgs 0 false 0 0 0 0 None.

Definition MarketStateAckBuilder_new (b : Builder) : Builder := start_table b.
Definition MarketStateAck_add_txn_id (x : Z) (b : Builder) : Builder :=
  push_slot U64 MarketStateAck_VT_TXN_ID x 0 b.
Definition MarketStateAck_add_accepted (x : bool) (b : Builder) : Builder :=
  push_slot BOOL MarketStateAck_VT_ACCEPTED x false b.
Definition MarketStateAck_add_port_id (x : Z) (b : Builder) : Builder :=
  push_slot U32 MarketStateAck_VT_PORT_ID x 0 b.
Definition MarketStateAck_add_item_id (x : Z) (b : Builder) : Builder :=
  push_slot U32 MarketStateAck_VT_ITEM_ID x 0 b.
Definition MarketStateAck_add_stock (x : Z) (b : Builder) : Builder :=
  push_slot I64 MarketStateAck_VT_STOCK x 0 b.
Definition MarketStateAck_add_price (x : Z) (b : Builder) : Builder :=
  push_slot I64 MarketStateAck_VT_PRICE x 0 b.
Definition MarketStateAck_add_reason (x : WIPOffset) (b : Builder) : Builder :=
  push_slot_always MarketStateAck_VT_REASON x b.
Definition MarketStateAckBuilder_finish (b : Builder) : WIPOffset * Builder := end_table b.

Definition MarketStateAck_create (args : MarketStateAckArgs) (b : Builder) : WIPOffset * Builder :=
  let builder := MarketStateAckBuilder_new b in
  let builder := MarketStateAck_add_price (MarketStateAckArgs_price args) builder in
  let builder := MarketStateAck_add_stock (MarketStateAckArgs_stock args) builder in
  let builder := MarketStateAck_add_txn_id (MarketStateAckArgs_txn_id args) builder in
  let builder := if_some (MarketStateAckArgs_reason args) MarketStateAck_add_reason builder in
  let builder := MarketStateAck_add_item_id (MarketStateAckArgs_item_id args) builder in
  let builder := MarketStateAck_add_port_id (MarketStateAckArgs_port_id args) builder in
  let builder := MarketStateAck_add_accepted (MarketStateAckArgs_accepted args) builder in
  MarketStateAckBuilder_finish builder.

Definition MarketStateAck_run_verifier : list visit :=
  [visit_field (FScalar U64) "txn_id" MarketStateAck_VT_TXN_ID false;
   visit_field (FScalar BOOL) "accepted" MarketStateAck_VT_ACCEPTED false;
   visit_field (FScalar U32) "port_id" MarketStateAck_VT_PORT_ID false;
   visit_field (FScalar U32) "item_id" MarketStateAck_VT_ITEM_ID false;
   visit_field (FScalar I64) "stock" MarketStateAck_VT_STOCK false;
   visit_field (FScalar I64) "price" MarketStateAck_VT_PRICE false;
   visit_field FStr "reason" MarketStateAck_VT_REASON false].

Definition MarketStateAck_init_from_table (table : Table) : Table := table.

Record MarketStateAck := mkMarketStateAck {
  ms_txn_id : Z;
  ms_accepted : bool;
  ms_port_id : Z;
  ms_item_id : Z;
  ms_stock : Z;
  ms_price : Z;
  ms_reason : option string
}.

Definition MarketStateAck_view (tab : Table) : MarketStateAck :=
  mkMarketStateAck (MarketStateAck_txn_id tab)
    (MarketStateAck_accepted tab)
    (MarketStateAck_port_id tab)
    (MarketStateAck_item_id tab)
    (MarketStateAck_stock tab)
    (MarketStateAck_price tab)
    (MarketStateAck_reason tab).

(** ** ChatSend *)
Definition ChatSend_VT_TEXT : Z := 4.
Definition ChatSend_VT_CHANNEL : Z := 6.

Definition ChatSend_text (tab : Table) : option string := get FStr tab ChatSend_VT_TEXT None.
Definition ChatSend_channel (tab : Table) : Z := get_or (FScalar U8) tab ChatSend_VT_CHANNEL 0.

Record ChatSendArgs := mkChatSendArgs {
  ChatSendArgs_text : option WIPOffset;
  ChatSendArgs_channel : Z
}.

Definition ChatSendArgs_default : ChatSendArgs := mkChatSendArgs None 0.

Definition ChatSendBuilder_new (b : Builder) : Builder := start_table b.
Definition ChatSend_add_text (x : WIPOffset) (b : Builder) : Builder :=
  push_slot_always ChatSend_VT_TEXT x b.
Definition ChatSend_add_channel (x : Z) (b : Builder) : Builder :=
  push_slot U8 ChatSend_VT_CHANNEL x 0 b.
Definition ChatSendBuilder_finish (b : Builder) : WIPOffset * Builder := end_table b.

Definition ChatSend_create (args : ChatSendArgs) (b : Builder) : WIPOffset * Builder :=
  let builder := ChatSendBuilder_new b in
  let builder := if_some (ChatSendArgs_text args) ChatSend_add_text builder in
  let builder := ChatSend_add_channel (ChatSendArgs_channel args) builder in
  ChatSendBuilder_finish builder.

Definition ChatSend_run_verifier : list visit :=
  [visit_field FStr "text" ChatSend_VT_TEXT false;
   visit_field (FScalar U8) "channel" ChatSend_VT_CHANNEL false].

Definition ChatSend_init_from_table (table : Table) : Table := table.

Record ChatSend := mkChatSend {
  ct_text : option string;
  ct_channel : Z
}.

Definition ChatSend_view (tab : Table) : ChatSend :=
  mkChatSend (ChatSend_text tab)
    (ChatSend_channel tab).

(** ** ChatBroadcast *)
Definition ChatBroadcast_VT_PLAYER_ID : Z := 4.
Definition ChatBroadcast_VT_DISPLAY_NAME : Z := 6.
Definition ChatBroadcast_VT_TEXT : Z := 8.
Definition ChatBroadcast_VT_CHANNEL : Z := 10.
Definition ChatBroadcast_VT_T_MS : Z := 12.

Definition ChatBroadcast_player_id (tab : Table) : Z :=
  get_or (FScalar U64) tab ChatBroadcast_VT_PLAYER_ID 0.
Definition ChatBroadcast_display_name (tab : Table) : option string :=
  get FStr tab ChatBroadcast_VT_DISPLAY_NAME None.
Definition ChatBroadcast_text (tab : Table) : option string :=
  get FStr tab ChatBroadcast_VT_TEXT None.
Definition ChatBroadcast_channel (tab : Table) : Z :=
  get_or (FScalar U8) tab ChatBroadcast_VT_CHANNEL 0.
Definition ChatBroadcast_t_ms (tab : Table) : Z := get_or (FScalar U32) tab ChatBroadcast_VT_T_MS 0.

Record ChatBroadcastArgs := mkChatBroadcastArgs {
  ChatBroadcastArgs_player_id : Z;
  ChatBroadcastArgs_display_name : option WIPOffset;
  ChatBroadcastArgs_text : option WIPOffset;
  ChatBroadcastArgs_channel : Z;
  ChatBroadcastArgs_t_ms : Z
}.

Definition ChatBroadcastArgs_default : ChatBroadcastArgs := mkChatBroadcastArgs 0 None None 0 0.

Definition ChatBroadcastBuilder_new (b : Builder) : Builder := start_table b.
Definition ChatBroadcast_add_player_id (x : Z) (b : Builder) : Builder :=
  push_slot U64 ChatBroadcast_VT_PLAYER_ID x 0 b.
Definition ChatBroadcast_add_display_name (x : WIPOffset) (b : Builder) : Builder :=
  push_slot_always ChatBroadcast_VT_DISPLAY_NAME x b.
Definition ChatBroadcast_add_text (x : WIPOffset) (b : Builder) : Builder :=
  push_slot_always ChatBroadcast_VT_TEXT x b.
Definition ChatBroadcast_add_channel (x : Z) (b : Builder) : Builder :=
  push_slot U8 ChatBroadcast_VT_CHANNEL x 0 b.
Definition ChatBroadcast_add_t_ms (x : Z) (b : Builder) : Builder :=
  push_slot U32 ChatBroadcast_VT_T_MS x 0 b.
Definition ChatBroadcastBuilder_finish (b : Builder) : WIPOffset * Builder := end_table b.

Definition ChatBroadcast_create (args : ChatBroadcastArgs) (b : Builder) : WIPOffset * Builder :=
  let builder := ChatBroadcastBuilder_new b in
  let builder := ChatBroadcast_add_player_id (ChatBroadcastArgs_player_id args) builder in
  let builder := ChatBroadcast_add_t_ms (ChatBroadcastArgs_t_ms args) builder in
  let builder := if_some (ChatBroadcastArgs_text args) ChatBroadcast_add_text builder in
  let builder := if_some (ChatBroadcastArgs_display_name args) ChatBroadcast_add_display_name builder in
  let builder := ChatBroadcast_add_channel (ChatBroadcastArgs_channel args) builder in
  ChatBroadcastBuilder_finish builder.

Definition ChatBroadcast_run_verifier : list visit :=
  [visit_field (FScalar U64) "player_id" ChatBroadcast_VT_PLAYER_ID false;
   visit_field FStr "display_name" ChatBroadcast_VT_DISPLAY_NAME false;
   visit_field FStr "text" ChatBroadcast_VT_TEXT false;
   visit_field (FScalar U8) "channel" ChatBroadcast_VT_CHANNEL false;
   visit_field (FScalar U32) "t_ms" ChatBroadcast_VT_T_MS false].

Definition ChatBroadcast_init_from_table (table : Table) : Table := table.

Record ChatBroadcast := mkChatBroadcast {
  cb_player_id : Z;
  cb_display_name : option string;
  cb_text : option string;
  cb_channel : Z;
  cb_t_ms : Z
}.

Definition ChatBroadcast_view (tab : Table) : ChatBroadcast :=
  mkChatBroadcast (ChatBroadcast_player_id tab)
    (ChatBroadcast_display_name tab)
    (ChatBroadcast_text tab)
    (ChatBroadcast_channel tab)
    (ChatBroadcast_t_ms tab).

(** ** Envelope *)
Definition Envelope_VT_SEQ : Z := 4.
Definition Envelope_VT_PAYLOAD_TYPE : Z := 6.
Definition Envelope_VT_PAYLOAD : Z := 8.

Definition Envelope_seq (tab : Table) : Z := get_or (FScalar U32) tab Envelope_VT_SEQ 0.
Definition Envelope_payload_type (tab : Table) : Z :=
  get_or (FScalar U8) tab Envelope_VT_PAYLOAD_TYPE Payload_NONE.
Definition Envelope_payload (tab : Table) : option Table :=
  get FAnyTable tab Envelope_VT_PAYLOAD None.

Record EnvelopeArgs := mkEnvelopeArgs {
  EnvelopeArgs_seq : Z;
  EnvelopeArgs_payload_type : Z;
  EnvelopeArgs_payload : option WIPOffset
}.

Definition EnvelopeArgs_default : EnvelopeArgs := mkEnvelopeArgs 0 Payload_NONE None.

Definition EnvelopeBuilder_new (b : Builder) : Builder := start_table b.
Definition Envelope_add_seq (x : Z) (b : Builder) : Builder :=
  push_slot U32 Envelope_VT_SEQ x 0 b.
Definition Envelope_add_payload_type (x : Z) (b : Builder) : Builder :=
  push_slot U8 Envelope_VT_PAYLOAD_TYPE x Payload_NONE b.
Definition Envelope_add_payload (x : WIPOffset) (b : Builder) : Builder :=
  push_slot_always Envelope_VT_PAYLOAD x b.
Definition EnvelopeBuilder_finish (b : Builder) : WIPOffset * Builder := end_table b.

Definition Envelope_create (args : EnvelopeArgs) (b : Builder) : WIPOffset * Builder :=
  let builder := EnvelopeBuilder_new b in
  let builder := if_some (EnvelopeArgs_payload args) Envelope_add_payload builder in
  let builder := Envelope_add_seq (EnvelopeArgs_seq args) builder in
  let builder := Envelope_add_payload_type (EnvelopeArgs_payload_type args) builder in
  EnvelopeBuilder_finish builder.

(** The closure of [visit_union]. *)
Definition Envelope_payload_arm (key : Z) : option fty :=
  if key =? Payload_ClientHello then Some (FTable TClientHello)
  else if key =? Payload_ServerHello then Some (FTable TServerHello)
  else if key =? Payload_ClientState then Some (FTable TClientState)
  else if key =? Payload_SnapshotDelta then Some (FTable TSnapshotDelta)
  else if key =? Payload_AoiUpdate then Some (FTable TAoiUpdate)
  else if key =? Payload_CellSnapshot then Some (FTable TCellSnapshot)
  else if key =? Payload_MoorRequest then Some (FTable TMoorRequest)
  else if key =? Payload_MoorAck then Some (FTable TMoorAck)
  else if key =? Payload_EconTxn then Some (FTable TEconTxn)
  else if key =? Payload_LedgerAck then Some (FTable TLedgerAck)
  else if key =? Payload_ChatSend then Some (FTable TChatSend)
  else if key =? Payload_ChatBroadcast then Some (FTable TChatBroadcast)
  else if key =? Payload_WorldClock then Some (FTable TWorldClock)
  else if key =? Payload_MarketTradeRequest then Some (FTable TMarketTradeRequest)
  else if key =? Payload_MarketStateAck then Some (FTable TMarketStateAck)
  else None.

Definition Envelope_run_verifier : list visit :=
  [visit_field (FScalar U32) "seq" Envelope_VT_SEQ false;
   visit_union "payload_type" Envelope_VT_PAYLOAD_TYPE "payload" Envelope_VT_PAYLOAD false
     Envelope_payload_arm].

Definition Envelope_init_from_table (table : Table) : Table := table.

Definition payload_as_client_hello (tab : Table) : option Table :=
  if Envelope_payload_type tab =? Payload_ClientHello then ClientHello_init_from_table <$> Envelope_payload tab else None.
Definition payload_as_server_hello (tab : Table) : option Table :=
  if Envelope_payload_type tab =? Payload_ServerHello then ServerHello_init_from_table <$> Envelope_payload tab else None.
Definition payload_as_client_state (tab : Table) : option Table :=
  if Envelope_payload_type tab =? Payload_ClientState then ClientState_init_from_table <$> Envelope_payload tab else None.
Definition payload_as_snapshot_delta (tab : Table) : option Table :=
  if Envelope_payload_type tab =? Payload_SnapshotDelta then SnapshotDelta_init_from_table <$> Envelope_payload tab else None.
Definition payload_as_aoi_update (tab : Table) : option Table :=
  if Envelope_payload_type tab =? Payload_AoiUpdate then AoiUpdate_init_from_table <$> Envelope_payload tab else None.
Definition payload_as_cell_snapshot (tab : Table) : option Table :=
  if Envelope_payload_type tab =? Payload_CellSnapshot then CellSnapshot_init_from_table <$> Envelope_payload tab else None.
Definition payload_as_moor_request (tab : Table) : option Table :=
  if Envelope_payload_type tab =? Payload_MoorRequest then MoorRequest_init_from_table <$> Envelope_payload tab else None.
Definition payload_as_moor_ack (tab : Table) : option Table :=
  if Envelope_payload_type tab =? Payload_MoorAck then MoorAck_init_from_table <$> Envelope_payload tab else None.
Definition payload_as_econ_txn (tab : Table) : option Table :=
  if Envelope_payload_type tab =? Payload_EconTxn then EconTxn_init_from_table <$> Envelope_payload tab else None.
Definition payload_as_ledger_ack (tab : Table) : option Table :=
  if Envelope_payload_type tab =? Payload_LedgerAck then LedgerAck_init_from_table <$> Envelope_payload tab else None.
Definition payload_as_chat_send (tab : Table) : option Table :=
  if Envelope_payload_type tab =? Payload_ChatSend then ChatSend_init_from_table <$> Envelope_payload tab else None.
Definition payload_as_chat_broadcast (tab : Table) : option Table :=
  if Envelope_payload_type tab =? Payload_ChatBroadcast then ChatBroadcast_init_from_table <$> Envelope_payload tab else None.
Definition payload_as_world_clock (tab : Table) : option Table :=
  if Envelope_payload_type tab =? Payload_WorldClock then WorldClock_init_from_table <$> Envelope_payload tab else None.
Definition payload_as_market_trade_request (tab : Table) : option Table :=
  if Envelope_payload_type tab =? Payload_MarketTradeRequest then MarketTradeRequest_init_from_table <$> Envelope_payload tab else None.
Definition payload_as_market_state_ack (tab : Table) : option Table :=
  if Envelope_payload_type tab =? Payload_MarketStateAck then MarketStateAck_init_from_table <$> Envelope_payload tab else None.

(** A message, read through the accessors of its table. *)
Inductive Payload :=
| PClientHello (m : ClientHello)
| PServerHello (m : ServerHello)
| PClientState (m : ClientState)
| PSnapshotDelta (m : SnapshotDelta)
| PAoiUpdate (m : AoiUpdateMsg)
| PCellSnapshot (m : CellSnapshot)
| PMoorRequest (m : MoorRequest)
| PMoorAck (m : MoorAck)
| PEconTxn (m : EconTxn)
| PLedgerAck (m : LedgerAckMsg)
| PChatSend (m : ChatSend)
| PChatBroadcast (m : ChatBroadcast)
| PWorldClock (m : WorldClock)
| PMarketTradeRequest (m : MarketTradeRequest)
| PMarketStateAck (m : MarketStateAck)
| PInvalid
| PNone.

Record Envelope := mkEnvelope { env_seq : Z; env_payload : Payload }.

Definition Envelope_view_payload (tab : Table) : Payload :=
  let arm {A} (c : A -> Payload) (view : Table -> A) (o : option Table) : Payload :=
    match o with Some t => c (view t) | None => PInvalid end in
  let payload_type := Envelope_payload_type tab in
  if payload_type =? Payload_ClientHello then arm PClientHello ClientHello_view (payload_as_client_hello tab)
  else if payload_type =? Payload_ServerHello then arm PServerHello ServerHello_view (payload_as_server_hello tab)
  else if payload_type =? Payload_ClientState then arm PClientState ClientState_view (payload_as_client_state tab)
  else if payload_type =? Payload_SnapshotDelta then arm PSnapshotDelta SnapshotDelta_view (payload_as_snapshot_delta tab)
  else if payload_type =? Payload_AoiUpdate then arm PAoiUpdate AoiUpdate_view (payload_as_aoi_update tab)
  else if payload_type =? Payload_CellSnapshot then arm PCellSnapshot CellSnapshot_view (payload_as_cell_snapshot tab)
  else if payload_type =? Payload_MoorRequest then arm PMoorRequest MoorRequest_view (payload_as_moor_request tab)
  else if payload_type =? Payload_MoorAck then arm PMoorAck MoorAck_view (payload_as_moor_ack tab)
  else if payload_type =? Payload_EconTxn then arm PEconTxn EconTxn_view (payload_as_econ_txn tab)
  else if payload_type =? Payload_LedgerAck then arm PLedgerAck LedgerAck_view (payload_as_ledger_ack tab)
  else if payload_type =? Payload_ChatSend then arm PChatSend ChatSend_view (payload_as_chat_send tab)
  else if payload_type =? Payload_ChatBroadcast then arm PChatBroadcast ChatBroadcast_view (payload_as_chat_broadcast tab)
  else if payload_type =? Payload_WorldClock then arm PWorldClock WorldClock_view (payload_as_world_clock tab)
  else if payload_type =? Payload_MarketTradeRequest then arm PMarketTradeRequest MarketTradeRequest_view (payload_as_market_trade_request tab)
  else if payload_type =? Payload_MarketStateAck then arm PMarketStateAck MarketStateAck_view (payload_as_market_state_ack tab)
  else PNone.

Definition Envelope_view (tab : Table) : Envelope :=
  mkEnvelope (Envelope_seq tab) (Envelope_view_payload tab).

(** The [Verifiable] impl of each table. *)
Definition run_verifier (T : TableTy) : list visit :=
  match T with
  | TWorldClock => WorldClock_run_verifier
  | TWeatherSeed => WeatherSeed_run_verifier
  | TCapabilityManifest => CapabilityManifest_run_verifier
  | TClientHello => ClientHello_run_verifier
  | TServerHello => ServerHello_run_verifier
  | TPlayerState => PlayerState_run_verifier
  | TBoatState => BoatState_run_verifier
  | TClientState => ClientState_run_verifier
  | TSnapshotDelta => SnapshotDelta_run_verifier
  | TMoorageRecord => MoorageRecord_run_verifier
  | TMoorRequest => MoorRequest_run_verifier
  | TMoorAck => MoorAck_run_verifier
  | TAoiUpdate => AoiUpdate_run_verifier
  | TCellSnapshot => CellSnapshot_run_verifier
  | TEconTxn => EconTxn_run_verifier
  | TLedgerAck => LedgerAck_run_verifier
  | TMarketTradeRequest => MarketTradeRequest_run_verifier
  | TMarketStateAck => MarketStateAck_run_verifier
  | TChatSend => ChatSend_run_verifier
  | TChatBroadcast => ChatBroadcast_run_verifier
  | TEnvelope => Envelope_run_verifier
  end.

(** ** The root *)
Definition ENVELOPE_IDENTIFIER : string := "SWO0".

Definition root_as_envelope (buf : list Z) : option Table := root run_verifier TEnvelope buf.

Definition envelope_buffer_has_identifier (buf : list Z) : bool :=
  buffer_has_identifier buf ENVELOPE_IDENTIFIER false.

Definition envelope_size_prefixed_buffer_has_identifier (buf : list Z) : bool :=
  buffer_has_identifier buf ENVELOPE_IDENTIFIER true.

Definition finish_envelope_buffer (root : WIPOffset) (b : Builder) : Builder :=
  finish root (Some ENVELOPE_IDENTIFIER) b.

End Tables.
