(* ===== verification/TableSpecs.v ===== *)
(** * What the generated tables store and read back

    For each table: [*_cells], the slots [create] pushes; [*_created], that
    [create] writes them on any runtime that keeps [FlatBuffersLaws]; [*_encodes],
    that they pass the table's own verifier and that its accessors return the
    arguments; and [*_reads_as], that the accessors of any verified table return
    values of their Rust types. *)

From S2P Require Import Prelude Float Wire Structs Flat Clock Tables.

Section TableSpecs.
Context `{FBL : FlatBuffersLaws}.

(** The struct views always are of their type. *)
Lemma oall_view {A} (P : A -> Prop) (f : list Z -> A) o : (forall s, P (f s)) -> oall P (f <$> o).
Proof. intros H x Hx. destruct o; simplify_eq/=. apply H. Qed.

Lemma oall_views {A} (P : A -> Prop) (f : list Z -> A) o :
  (forall s, P (f s)) -> oall (Forall P) (option_map (map f) o).
Proof. intros H x Hx. destruct o as [l|]; simplify_eq/=. apply Forall_fmap, Forall_true. intros s. apply H. Qed.

Ltac visited := apply list_elem_of_In; cbn; tauto.

Ltac typed_field :=
  first
    [ eapply typed_scalar; [eassumption|eassumption|visited|reflexivity]
    | eapply typed_str; [eassumption|eassumption|visited]
    | eapply typed_strs; [eassumption|eassumption|visited]
    | apply oall_view; auto using Vec3_view_ok, QuatC_view_ok, GridCell_view_ok
    | apply oall_views; auto using Vec3_view_ok, QuatC_view_ok, GridCell_view_ok
    | eapply typed_table; [eassumption|eassumption|visited|eauto]
    | eapply typed_tables; [eassumption|eassumption|visited|eauto] ].

Ltac table_typed := intros n tab l Hr Hv; repeat (apply conj); typed_field.

(** ** WorldClock *)
Definition WorldClock_cells (args : WorldClockArgs) : list (Z * option fval) :=
  [(WorldClock_VT_MOON_PHASE, scalar_cell F32 (WorldClockArgs_moon_phase args) zero32);
   (WorldClock_VT_TIME_OF_DAY, scalar_cell F32 (WorldClockArgs_time_of_day args) zero32);
   (WorldClock_VT_DAY, scalar_cell U32 (WorldClockArgs_day args) 0)].

Lemma WorldClock_created b O args :
  repr b O None ->
  scalar_ok U32 (WorldClockArgs_day args) = true ->
  scalar_ok F32 (WorldClockArgs_time_of_day args) = true ->
  scalar_ok F32 (WorldClockArgs_moon_phase args) = true ->
  repr (WorldClock_create args b).2 (((WorldClock_create args b).1, VTab (build (WorldClock_cells args))) :: O) None.
Proof. intros. table_created. Qed.

Lemma WorldClock_encodes n args :
  scalar_ok U32 (WorldClockArgs_day args) = true ->
  scalar_ok F32 (WorldClockArgs_time_of_day args) = true ->
  scalar_ok F32 (WorldClockArgs_moon_phase args) = true ->
  encodes run_verifier (S n) TWorldClock WorldClock_view (build (WorldClock_cells args))
    (mkWorldClock (WorldClockArgs_day args)
       (norm F32 (WorldClockArgs_time_of_day args) zero32)
       (norm F32 (WorldClockArgs_moon_phase args) zero32)).
Proof. intros. split; [table_verifies|]. intros tab Hr. unfold WorldClock_view. f_equal; table_accessor. Qed.

Definition WorldClock_ok (w : WorldClock) : Prop :=
  scalar_ok U32 (day w) = true /\
  scalar_ok F32 (time_of_day w) = true /\
  scalar_ok F32 (moon_phase w) = true.

Lemma WorldClock_reads_as : reads_as run_verifier TWorldClock WorldClock_view WorldClock_ok.
Proof. table_typed. Qed.
Hint Resolve WorldClock_reads_as : core.

(** ** WeatherSeed *)
Definition WeatherSeed_cells (args : WeatherSeedArgs) : list (Z * option fval) :=
  [(WeatherSeed_VT_SEED, scalar_cell U64 (WeatherSeedArgs_seed args) 0);
   (WeatherSeed_VT_EPOCH_DAY, scalar_cell U32 (WeatherSeedArgs_epoch_day args) 0)].

Lemma WeatherSeed_created b O args :
  repr b O None ->
  scalar_ok U64 (WeatherSeedArgs_seed args) = true ->
  scalar_ok U32 (WeatherSeedArgs_epoch_day args) = true ->
  repr (WeatherSeed_create args b).2 (((WeatherSeed_create args b).1, VTab (build (WeatherSeed_cells args))) :: O) None.
Proof. intros. table_created. Qed.

Lemma WeatherSeed_encodes n args :
  scalar_ok U64 (WeatherSeedArgs_seed args) = true ->
  scalar_ok U32 (WeatherSeedArgs_epoch_day args) = true ->
  encodes run_verifier (S n) TWeatherSeed WeatherSeed_view (build (WeatherSeed_cells args))
    (mkWeatherSeed (WeatherSeedArgs_seed args)
       (WeatherSeedArgs_epoch_day args)).
Proof. intros. split; [table_verifies|]. intros tab Hr. unfold WeatherSeed_view. f_equal; table_accessor. Qed.

Definition WeatherSeed_ok (w : WeatherSeed) : Prop :=
  scalar_ok U64 (we_seed w) = true /\
  scalar_ok U32 (we_epoch_day w) = true.

Lemma WeatherSeed_reads_as : reads_as run_verifier TWeatherSeed WeatherSeed_view WeatherSeed_ok.
Proof. table_typed. Qed.
Hint Resolve WeatherSeed_reads_as : core.

(** ** CapabilityManifest *)
Definition CapabilityManifest_cells (args : CapabilityManifestArgs) (features : option fval) : list (Z * option fval) :=
  [(CapabilityManifest_VT_CELL_SIZE_M, scalar_cell F32 (CapabilityManifestArgs_cell_size_m args) zero32);
   (CapabilityManifest_VT_FEATURES, features);
   (CapabilityManifest_VT_PROTOCOL_VERSION, scalar_cell U16 (CapabilityManifestArgs_protocol_version args) 0);
   (CapabilityManifest_VT_AOI_RADIUS_CELLS, scalar_cell U8 (CapabilityManifestArgs_aoi_radius_cells args) 0);
   (CapabilityManifest_VT_SNAPSHOT_HZ, scalar_cell U8 (CapabilityManifestArgs_snapshot_hz args) 0);
   (CapabilityManifest_VT_TICK_HZ, scalar_cell U8 (CapabilityManifestArgs_tick_hz args) 0)].

Lemma CapabilityManifest_created b O args (features : option fval) :
  repr b O None -> orefs O (CapabilityManifestArgs_features args) features ->
  scalar_ok U16 (CapabilityManifestArgs_protocol_version args) = true ->
  scalar_ok U8 (CapabilityManifestArgs_tick_hz args) = true ->
  scalar_ok U8 (CapabilityManifestArgs_snapshot_hz args) = true ->
  scalar_ok U8 (CapabilityManifestArgs_aoi_radius_cells args) = true ->
  scalar_ok F32 (CapabilityManifestArgs_cell_size_m args) = true ->
  repr (CapabilityManifest_create args b).2 (((CapabilityManifest_create args b).1, VTab (build (CapabilityManifest_cells args features))) :: O) None.
Proof. intros. table_created. Qed.

Lemma CapabilityManifest_encodes n args (features : option (list string)) :
  scalar_ok U16 (CapabilityManifestArgs_protocol_version args) = true ->
  oall (Forall (fun s => str_ok s = true)) features ->
  scalar_ok U8 (CapabilityManifestArgs_tick_hz args) = true ->
  scalar_ok U8 (CapabilityManifestArgs_snapshot_hz args) = true ->
  scalar_ok U8 (CapabilityManifestArgs_aoi_radius_cells args) = true ->
  scalar_ok F32 (CapabilityManifestArgs_cell_size_m args) = true ->
  encodes run_verifier (S n) TCapabilityManifest CapabilityManifest_view (build (CapabilityManifest_cells args (strs_cell features)))
    (mkCapabilityManifest (CapabilityManifestArgs_protocol_version args)
       features
       (CapabilityManifestArgs_tick_hz args)
       (CapabilityManifestArgs_snapshot_hz args)
       (CapabilityManifestArgs_aoi_radius_cells args)
       (norm F32 (CapabilityManifestArgs_cell_size_m args) zero32)).
Proof. intros. split; [table_verifies|]. intros tab Hr. unfold CapabilityManifest_view. f_equal; table_accessor. Qed.

Definition CapabilityManifest_ok (w : CapabilityManifest) : Prop :=
  scalar_ok U16 (cm_protocol_version w) = true /\
  oall (Forall (fun s => str_ok s = true)) (cm_features w) /\
  scalar_ok U8 (cm_tick_hz w) = true /\
  scalar_ok U8 (cm_snapshot_hz w) = true /\
  scalar_ok U8 (cm_aoi_radius_cells w) = true /\
  scalar_ok F32 (cm_cell_size_m w) = true.

Lemma CapabilityManifest_reads_as : reads_as run_verifier TCapabilityManifest CapabilityManifest_view CapabilityManifest_ok.
Proof. table_typed. Qed.
Hint Resolve CapabilityManifest_reads_as : core.

(** ** ClientHello *)
Definition ClientHello_cells (args : ClientHelloArgs) (display_name token game_build mod_version api_surface_hash : option fval) : list (Z * option fval) :=
  [(ClientHello_VT_API_SURFACE_HASH, api_surface_hash);
   (ClientHello_VT_MOD_VERSION, mod_version);
   (ClientHello_VT_GAME_BUILD, game_build);
   (ClientHello_VT_TOKEN, token);
   (ClientHello_VT_DISPLAY_NAME, display_name);
   (ClientHello_VT_PROTOCOL_VERSION, scalar_cell U16 (ClientHelloArgs_protocol_version args) 0)].

Lemma ClientHello_created b O args (display_name token game_build mod_version api_surface_hash : option fval) :
  repr b O None -> orefs O (ClientHelloArgs_display_name args) display_name -> orefs O (ClientHelloArgs_token args) token -> orefs O (ClientHelloArgs_game_build args) game_build -> orefs O (ClientHelloArgs_mod_version args) mod_version -> orefs O (ClientHelloArgs_api_surface_hash args) api_surface_hash ->
  scalar_ok U16 (ClientHelloArgs_protocol_version args) = true ->
  repr (ClientHello_create args b).2 (((ClientHello_create args b).1, VTab (build (ClientHello_cells args display_name token game_build mod_version api_surface_hash))) :: O) None.
Proof. intros. table_created. Qed.

Lemma ClientHello_encodes n args (display_name : option string) (token : option string) (game_build : option string) (mod_version : option string) (api_surface_hash : option string) :
  scalar_ok U16 (ClientHelloArgs_protocol_version args) = true ->
  oall (fun s => str_ok s = true) display_name ->
  oall (fun s => str_ok s = true) token ->
  oall (fun s => str_ok s = true) game_build ->
  oall (fun s => str_ok s = true) mod_version ->
  oall (fun s => str_ok s = true) api_surface_hash ->
  encodes run_verifier (S n) TClientHello ClientHello_view (build (ClientHello_cells args (VStr <$> display_name) (VStr <$> token) (VStr <$> game_build) (VStr <$> mod_version) (VStr <$> api_surface_hash)))
    (mkClientHello (ClientHelloArgs_protocol_version args)
       display_name
       token
       game_build
       mod_version
       api_surface_hash).
Proof. intros. split; [table_verifies|]. intros tab Hr. unfold ClientHello_view. f_equal; table_accessor. Qed.

Definition ClientHello_ok (w : ClientHello) : Prop :=
  scalar_ok U16 (ch_protocol_version w) = true /\
  oall (fun s => str_ok s = true) (ch_display_name w) /\
  oall (fun s => str_ok s = true) (ch_token w) /\
  oall (fun s => str_ok s = true) (ch_game_build w) /\
  oall (fun s => str_ok s = true) (ch_mod_version w) /\
  oall (fun s => str_ok s = true) (ch_api_surface_hash w).

Lemma ClientHello_reads_as : reads_as run_verifier TClientHello ClientHello_view ClientHello_ok.
Proof. table_typed. Qed.

(** ** ServerHello *)
Definition ServerHello_cells (args : ServerHelloArgs) (reason server_name capabilities clock weather : option fval) : list (Z * option fval) :=
  [(ServerHello_VT_BALANCE_GOLD, scalar_cell I64 (ServerHelloArgs_balance_gold args) 0);
   (ServerHello_VT_PLAYER_ID, scalar_cell U64 (ServerHelloArgs_player_id args) 0);
   (ServerHello_VT_WEATHER, weather);
   (ServerHello_VT_CLOCK, clock);
   (ServerHello_VT_CAPABILITIES, capabilities);
   (ServerHello_VT_SERVER_NAME, server_name);
   (ServerHello_VT_REASON, reason);
   (ServerHello_VT_ACCEPTED, scalar_cell BOOL (ServerHelloArgs_accepted args) false)].

Lemma ServerHello_created b O args (reason server_name capabilities clock weather : option fval) :
  repr b O None -> orefs O (ServerHelloArgs_reason args) reason -> orefs O (ServerHelloArgs_server_name args) server_name -> orefs O (ServerHelloArgs_capabilities args) capabilities -> orefs O (ServerHelloArgs_clock args) clock -> orefs O (ServerHelloArgs_weather args) weather ->
  scalar_ok U64 (ServerHelloArgs_player_id args) = true ->
  scalar_ok I64 (ServerHelloArgs_balance_gold args) = true ->
  repr (ServerHello_create args b).2 (((ServerHello_create args b).1, VTab (build (ServerHello_cells args reason server_name capabilities clock weather))) :: O) None.
Proof. intros. table_created. Qed.

Lemma ServerHello_encodes n args (reason : option string) (server_name : option string) (capabilities : option (slots * CapabilityManifest)) (clock : option (slots * WorldClock)) (weather : option (slots * WeatherSeed)) :
  oall (fun s => str_ok s = true) reason ->
  scalar_ok U64 (ServerHelloArgs_player_id args) = true ->
  oall (fun s => str_ok s = true) server_name ->
  scalar_ok I64 (ServerHelloArgs_balance_gold args) = true ->
  oall (fun p => encodes run_verifier n TCapabilityManifest CapabilityManifest_view p.1 p.2) capabilities ->
  oall (fun p => encodes run_verifier n TWorldClock WorldClock_view p.1 p.2) clock ->
  oall (fun p => encodes run_verifier n TWeatherSeed WeatherSeed_view p.1 p.2) weather ->
  encodes run_verifier (S n) TServerHello ServerHello_view (build (ServerHello_cells args (VStr <$> reason) (VStr <$> server_name) (tab_cell capabilities) (tab_cell clock) (tab_cell weather)))
    (mkServerHello (ServerHelloArgs_accepted args)
       reason
       (ServerHelloArgs_player_id args)
       server_name
       (ServerHelloArgs_balance_gold args)
       (snd <$> capabilities)
       (snd <$> clock)
       (snd <$> weather)).
Proof. intros. split; [table_verifies|]. intros tab Hr. unfold ServerHello_view. f_equal; table_accessor. Qed.

Definition ServerHello_ok (w : ServerHello) : Prop :=
  oall (fun s => str_ok s = true) (sh_reason w) /\
  scalar_ok U64 (sh_player_id w) = true /\
  oall (fun s => str_ok s = true) (sh_server_name w) /\
  scalar_ok I64 (sh_balance_gold w) = true /\
  oall CapabilityManifest_ok (sh_capabilities w) /\
  oall WorldClock_ok (sh_clock w) /\
  oall WeatherSeed_ok (sh_weather w).

Lemma ServerHello_reads_as : reads_as run_verifier TServerHello ServerHello_view ServerHello_ok.
Proof. table_typed. Qed.

(** ** PlayerState *)
Definition PlayerState_cells (args : PlayerStateArgs) : list (Z * option fval) :=
  [(PlayerState_VT_ABOARD_BOAT, scalar_cell U64 (PlayerStateArgs_aboard_boat args) 0);
   (PlayerState_VT_PLAYER_ID, scalar_cell U64 (PlayerStateArgs_player_id args) 0);
   (PlayerState_VT_T_MS, scalar_cell U32 (PlayerStateArgs_t_ms args) 0);
   (PlayerState_VT_ROT, VStruct <$> PlayerStateArgs_rot args);
   (PlayerState_VT_POS, VStruct <$> PlayerStateArgs_pos args)].

Lemma PlayerState_created b O args :
  repr b O None ->
  scalar_ok U64 (PlayerStateArgs_player_id args) = true ->
  oall (bytes_ok Vec3_size) (PlayerStateArgs_pos args) ->
  oall (bytes_ok QuatC_size) (PlayerStateArgs_rot args) ->
  scalar_ok U64 (PlayerStateArgs_aboard_boat args) = true ->
  scalar_ok U32 (PlayerStateArgs_t_ms args) = true ->
  repr (PlayerState_create args b).2 (((PlayerState_create args b).1, VTab (build (PlayerState_cells args))) :: O) None.
Proof. intros. table_created. Qed.

Lemma PlayerState_encodes n args :
  scalar_ok U64 (PlayerStateArgs_player_id args) = true ->
  oall (bytes_ok Vec3_size) (PlayerStateArgs_pos args) ->
  oall (bytes_ok QuatC_size) (PlayerStateArgs_rot args) ->
  scalar_ok U64 (PlayerStateArgs_aboard_boat args) = true ->
  scalar_ok U32 (PlayerStateArgs_t_ms args) = true ->
  encodes run_verifier (S n) TPlayerState PlayerState_view (build (PlayerState_cells args))
    (mkPlayerState (PlayerStateArgs_player_id args)
       (Vec3_view <$> PlayerStateArgs_pos args)
       (QuatC_view <$> PlayerStateArgs_rot args)
       (PlayerStateArgs_aboard_boat args)
       (PlayerStateArgs_t_ms args)).
Proof. intros. split; [table_verifies|]. intros tab Hr. unfold PlayerState_view. f_equal; table_accessor. Qed.

Definition PlayerState_ok (w : PlayerState) : Prop :=
  scalar_ok U64 (ps_player_id w) = true /\
  oall vec3_ok (ps_pos w) /\
  oall quat_ok (ps_rot w) /\
  scalar_ok U64 (ps_aboard_boat w) = true /\
  scalar_ok U32 (ps_t_ms w) = true.

Lemma PlayerState_reads_as : reads_as run_verifier TPlayerState PlayerState_view PlayerState_ok.
Proof. table_typed. Qed.
Hint Resolve PlayerState_reads_as : core.

(** ** BoatState *)
Definition BoatState_cells (args : BoatStateArgs) : list (Z * option fval) :=
  [(BoatState_VT_OWNER, scalar_cell U64 (BoatStateArgs_owner args) 0);
   (BoatState_VT_BOAT_ID, scalar_cell U64 (BoatStateArgs_boat_id args) 0);
   (BoatState_VT_T_MS, scalar_cell U32 (BoatStateArgs_t_ms args) 0);
   (BoatState_VT_VEL, VStruct <$> BoatStateArgs_vel args);
   (BoatState_VT_ROT, VStruct <$> BoatStateArgs_rot args);
   (BoatState_VT_POS, VStruct <$> BoatStateArgs_pos args)].

Lemma BoatState_created b O args :
  repr b O None ->
  scalar_ok U64 (BoatStateArgs_boat_id args) = true ->
  scalar_ok U64 (BoatStateArgs_owner args) = true ->
  oall (bytes_ok Vec3_size) (BoatStateArgs_pos args) ->
  oall (bytes_ok QuatC_size) (BoatStateArgs_rot args) ->
  oall (bytes_ok Vec3_size) (BoatStateArgs_vel args) ->
  scalar_ok U32 (BoatStateArgs_t_ms args) = true ->
  repr (BoatState_create args b).2 (((BoatState_create args b).1, VTab (build (BoatState_cells args))) :: O) None.
Proof. intros. table_created. Qed.

Lemma BoatState_encodes n args :
  scalar_ok U64 (BoatStateArgs_boat_id args) = true ->
  scalar_ok U64 (BoatStateArgs_owner args) = true ->
  oall (bytes_ok Vec3_size) (BoatStateArgs_pos args) ->
  oall (bytes_ok QuatC_size) (BoatStateArgs_rot args) ->
  oall (bytes_ok Vec3_size) (BoatStateArgs_vel args) ->
  scalar_ok U32 (BoatStateArgs_t_ms args) = true ->
  encodes run_verifier (S n) TBoatState BoatState_view (build (BoatState_cells args))
    (mkBoatState (BoatStateArgs_boat_id args)
       (BoatStateArgs_owner args)
       (Vec3_view <$> BoatStateArgs_pos args)
       (QuatC_view <$> BoatStateArgs_rot args)
       (Vec3_view <$> BoatStateArgs_vel args)
       (BoatStateArgs_t_ms args)).
Proof. intros. split; [table_verifies|]. intros tab Hr. unfold BoatState_view. f_equal; table_accessor. Qed.

Definition BoatState_ok (w : BoatState) : Prop :=
  scalar_ok U64 (bo_boat_id w) = true /\
  scalar_ok U64 (bo_owner w) = true /\
  oall vec3_ok (bo_pos w) /\
  oall quat_ok (bo_rot w) /\
  oall vec3_ok (bo_vel w) /\
  scalar_ok U32 (bo_t_ms w) = true.

Lemma BoatState_reads_as : reads_as run_verifier TBoatState BoatState_view BoatState_ok.
Proof. table_typed. Qed.
Hint Resolve BoatState_reads_as : core.

(** ** ClientState *)
Definition ClientState_cells (args : ClientStateArgs) : list (Z * option fval) :=
  [(ClientState_VT_ABOARD_BOAT, scalar_cell U64 (ClientStateArgs_aboard_boat args) 0);
   (ClientState_VT_T_MS, scalar_cell U32 (ClientStateArgs_t_ms args) 0);
   (ClientState_VT_VEL, VStruct <$> ClientStateArgs_vel args);
   (ClientState_VT_ROT, VStruct <$> ClientStateArgs_rot args);
   (ClientState_VT_POS, VStruct <$> ClientStateArgs_pos args)].

Lemma ClientState_created b O args :
  repr b O None ->
  oall (bytes_ok Vec3_size) (ClientStateArgs_pos args) ->
  oall (bytes_ok QuatC_size) (ClientStateArgs_rot args) ->
  oall (bytes_ok Vec3_size) (ClientStateArgs_vel args) ->
  scalar_ok U64 (ClientStateArgs_aboard_boat args) = true ->
  scalar_ok U32 (ClientStateArgs_t_ms args) = true ->
  repr (ClientState_create args b).2 (((ClientState_create args b).1, VTab (build (ClientState_cells args))) :: O) None.
Proof. intros. table_created. Qed.

Lemma ClientState_encodes n args :
  oall (bytes_ok Vec3_size) (ClientStateArgs_pos args) ->
  oall (bytes_ok QuatC_size) (ClientStateArgs_rot args) ->
  oall (bytes_ok Vec3_size) (ClientStateArgs_vel args) ->
  scalar_ok U64 (ClientStateArgs_aboard_boat args) = true ->
  scalar_ok U32 (ClientStateArgs_t_ms args) = true ->
  encodes run_verifier (S n) TClientState ClientState_view (build (ClientState_cells args))
    (mkClientState (Vec3_view <$> ClientStateArgs_pos args)
       (QuatC_view <$> ClientStateArgs_rot args)
       (Vec3_view <$> ClientStateArgs_vel args)
       (ClientStateArgs_aboard_boat args)
       (ClientStateArgs_t_ms args)).
Proof. intros. split; [table_verifies|]. intros tab Hr. unfold ClientState_view. f_equal; table_accessor. Qed.

Definition ClientState_ok (w : ClientState) : Prop :=
  oall vec3_ok (cs_pos w) /\
  oall quat_ok (cs_rot w) /\
  oall vec3_ok (cs_vel w) /\
  scalar_ok U64 (cs_aboard_boat w) = true /\
  scalar_ok U32 (cs_t_ms w) = true.

Lemma ClientState_reads_as : reads_as run_verifier TClientState ClientState_view ClientState_ok.
Proof. table_typed. Qed.

(** ** SnapshotDelta *)
Definition SnapshotDelta_cells (args : SnapshotDeltaArgs) (players boats : option fval) : list (Z * option fval) :=
  [(SnapshotDelta_VT_BOATS, boats);
   (SnapshotDelta_VT_PLAYERS, players);
   (SnapshotDelta_VT_SERVER_TICK, scalar_cell U32 (SnapshotDeltaArgs_server_tick args) 0)].

Lemma SnapshotDelta_created b O args (players boats : option fval) :
  repr b O None -> orefs O (SnapshotDeltaArgs_players args) players -> orefs O (SnapshotDeltaArgs_boats args) boats ->
  scalar_ok U32 (SnapshotDeltaArgs_server_tick args) = true ->
  repr (SnapshotDelta_create args b).2 (((SnapshotDelta_create args b).1, VTab (build (SnapshotDelta_cells args players boats))) :: O) None.
Proof. intros. table_created. Qed.

Lemma SnapshotDelta_encodes n args (players : option (list (slots * PlayerState))) (boats : option (list (slots * BoatState))) :
  scalar_ok U32 (SnapshotDeltaArgs_server_tick args) = true ->
  oall (Forall (fun p => encodes run_verifier n TPlayerState PlayerState_view p.1 p.2)) players ->
  oall (Forall (fun p => encodes run_verifier n TBoatState BoatState_view p.1 p.2)) boats ->
  encodes run_verifier (S n) TSnapshotDelta SnapshotDelta_view (build (SnapshotDelta_cells args (tabs_cell players) (tabs_cell boats)))
    (mkSnapshotDelta (SnapshotDeltaArgs_server_tick args)
       (option_map (map snd) players)
       (option_map (map snd) boats)).
Proof. intros. split; [table_verifies|]. intros tab Hr. unfold SnapshotDelta_view. f_equal; table_accessor. Qed.

Definition SnapshotDelta_ok (w : SnapshotDelta) : Prop :=
  scalar_ok U32 (sd_server_tick w) = true /\
  oall (Forall PlayerState_ok) (sd_players w) /\
  oall (Forall BoatState_ok) (sd_boats w).

Lemma SnapshotDelta_reads_as : reads_as run_verifier TSnapshotDelta SnapshotDelta_view SnapshotDelta_ok.
Proof. table_typed. Qed.

(** ** MoorageRecord *)
Definition MoorageRecord_cells (args : MoorageRecordArgs) (name : option fval) : list (Z * option fval) :=
  [(MoorageRecord_VT_CREATED_AT, scalar_cell U64 (MoorageRecordArgs_created_at args) 0);
   (MoorageRecord_VT_OWNER, scalar_cell U64 (MoorageRecordArgs_owner args) 0);
   (MoorageRecord_VT_BOAT_ID, scalar_cell U64 (MoorageRecordArgs_boat_id args) 0);
   (MoorageRecord_VT_NAME, name);
   (MoorageRecord_VT_ROT, VStruct <$> MoorageRecordArgs_rot args);
   (MoorageRecord_VT_POS, VStruct <$> MoorageRecordArgs_pos args);
   (MoorageRecord_VT_CELL, VStruct <$> MoorageRecordArgs_cell args)].

Lemma MoorageRecord_created b O args (name : option fval) :
  repr b O None -> orefs O (MoorageRecordArgs_name args) name ->
  scalar_ok U64 (MoorageRecordArgs_boat_id args) = true ->
  scalar_ok U64 (MoorageRecordArgs_owner args) = true ->
  oall (bytes_ok GridCell_size) (MoorageRecordArgs_cell args) ->
  oall (bytes_ok Vec3_size) (MoorageRecordArgs_pos args) ->
  oall (bytes_ok QuatC_size) (MoorageRecordArgs_rot args) ->
  scalar_ok U64 (MoorageRecordArgs_created_at args) = true ->
  repr (MoorageRecord_create args b).2 (((MoorageRecord_create args b).1, VTab (build (MoorageRecord_cells args name))) :: O) None.
Proof. intros. table_created. Qed.

Lemma MoorageRecord_encodes n args (name : option string) :
  scalar_ok U64 (MoorageRecordArgs_boat_id args) = true ->
  scalar_ok U64 (MoorageRecordArgs_owner args) = true ->
  oall (bytes_ok GridCell_size) (MoorageRecordArgs_cell args) ->
  oall (bytes_ok Vec3_size) (MoorageRecordArgs_pos args) ->
  oall (bytes_ok QuatC_size) (MoorageRecordArgs_rot args) ->
  oall (fun s => str_ok s = true) name ->
  scalar_ok U64 (MoorageRecordArgs_created_at args) = true ->
  encodes run_verifier (S n) TMoorageRecord MoorageRecord_view (build (MoorageRecord_cells args (VStr <$> name)))
    (mkMoorageRecord (MoorageRecordArgs_boat_id args)
       (MoorageRecordArgs_owner args)
       (GridCell_view <$> MoorageRecordArgs_cell args)
       (Vec3_view <$> MoorageRecordArgs_pos args)
       (QuatC_view <$> MoorageRecordArgs_rot args)
       name
       (MoorageRecordArgs_created_at args)).
Proof. intros. split; [table_verifies|]. intros tab Hr. unfold MoorageRecord_view. f_equal; table_accessor. Qed.

Definition MoorageRecord_ok (w : MoorageRecord) : Prop :=
  scalar_ok U64 (mo_boat_id w) = true /\
  scalar_ok U64 (mo_owner w) = true /\
  oall cell_ok (mo_cell w) /\
  oall vec3_ok (mo_pos w) /\
  oall quat_ok (mo_rot w) /\
  oall (fun s => str_ok s = true) (mo_name w) /\
  scalar_ok U64 (mo_created_at w) = true.

Lemma MoorageRecord_reads_as : reads_as run_verifier TMoorageRecord MoorageRecord_view MoorageRecord_ok.
Proof. table_typed. Qed.
Hint Resolve MoorageRecord_reads_as : core.

(** ** MoorRequest *)
Definition MoorRequest_cells (args : MoorRequestArgs) (name : option fval) : list (Z * option fval) :=
  [(MoorRequest_VT_NAME, name);
   (MoorRequest_VT_ROT, VStruct <$> MoorRequestArgs_rot args);
   (MoorRequest_VT_POS, VStruct <$> MoorRequestArgs_pos args)].

Lemma MoorRequest_created b O args (name : option fval) :
  repr b O None -> orefs O (MoorRequestArgs_name args) name ->
  oall (bytes_ok Vec3_size) (MoorRequestArgs_pos args) ->
  oall (bytes_ok QuatC_size) (MoorRequestArgs_rot args) ->
  repr (MoorRequest_create args b).2 (((MoorRequest_create args b).1, VTab (build (MoorRequest_cells args name))) :: O) None.
Proof. intros. table_created. Qed.

Lemma MoorRequest_encodes n args (name : option string) :
  oall (bytes_ok Vec3_size) (MoorRequestArgs_pos args) ->
  oall (bytes_ok QuatC_size) (MoorRequestArgs_rot args) ->
  oall (fun s => str_ok s = true) name ->
  encodes run_verifier (S n) TMoorRequest MoorRequest_view (build (MoorRequest_cells args (VStr <$> name)))
    (mkMoorRequest (Vec3_view <$> MoorRequestArgs_pos args)
       (QuatC_view <$> MoorRequestArgs_rot args)
       name).
Proof. intros. split; [table_verifies|]. intros tab Hr. unfold MoorRequest_view. f_equal; table_accessor. Qed.

Definition MoorRequest_ok (w : MoorRequest) : Prop :=
  oall vec3_ok (mq_pos w) /\
  oall quat_ok (mq_rot w) /\
  oall (fun s => str_ok s = true) (mq_name w).

Lemma MoorRequest_reads_as : reads_as run_verifier TMoorRequest MoorRequest_view MoorRequest_ok.
Proof. table_typed. Qed.

(** ** MoorAck *)
Definition MoorAck_cells (args : MoorAckArgs) (record reason : option fval) : list (Z * option fval) :=
  [(MoorAck_VT_REASON, reason);
   (MoorAck_VT_RECORD, record);
   (MoorAck_VT_ACCEPTED, scalar_cell BOOL (MoorAckArgs_accepted args) false)].

Lemma MoorAck_created b O args (record reason : option fval) :
  repr b O None -> orefs O (MoorAckArgs_record args) record -> orefs O (MoorAckArgs_reason args) reason ->
  repr (MoorAck_create args b).2 (((MoorAck_create args b).1, VTab (build (MoorAck_cells args record reason))) :: O) None.
Proof. intros. table_created. Qed.

Lemma MoorAck_encodes n args (record : option (slots * MoorageRecord)) (reason : option string) :
  oall (fun p => encodes run_verifier n TMoorageRecord MoorageRecord_view p.1 p.2) record ->
  oall (fun s => str_ok s = true) reason ->
  encodes run_verifier (S n) TMoorAck MoorAck_view (build (MoorAck_cells args (tab_cell record) (VStr <$> reason)))
    (mkMoorAck (MoorAckArgs_accepted args)
       (snd <$> record)
       reason).
Proof. intros. split; [table_verifies|]. intros tab Hr. unfold MoorAck_view. f_equal; table_accessor. Qed.

Definition MoorAck_ok (w : MoorAck) : Prop :=
  oall MoorageRecord_ok (ma_record w) /\
  oall (fun s => str_ok s = true) (ma_reason w).

Lemma MoorAck_reads_as : reads_as run_verifier TMoorAck MoorAck_view MoorAck_ok.
Proof. table_typed. Qed.

(** ** AoiUpdate *)
Definition AoiUpdate_cells (args : AoiUpdateArgs) (added removed : option fval) : list (Z * option fval) :=
  [(AoiUpdate_VT_REMOVED, removed);
   (AoiUpdate_VT_ADDED, added)].

Lemma AoiUpdate_created b O args (added removed : option fval) :
  repr b O None -> orefs O (AoiUpdateArgs_added args) added -> orefs O (AoiUpdateArgs_removed args) removed ->
  repr (AoiUpdate_create args b).2 (((AoiUpdate_create args b).1, VTab (build (AoiUpdate_cells args added removed))) :: O) None.
Proof. intros. table_created. Qed.

Lemma AoiUpdate_encodes n args (added : option (list (list Z))) (removed : option (list (list Z))) :
  oall (Forall (bytes_ok GridCell_size)) added ->
  oall (Forall (bytes_ok GridCell_size)) removed ->
  encodes run_verifier (S n) TAoiUpdate AoiUpdate_view (build (AoiUpdate_cells args (structs_cell added) (structs_cell removed)))
    (mkAoiUpdateMsg (option_map (map GridCell_view) added)
       (option_map (map GridCell_view) removed)).
Proof. intros. split; [table_verifies|]. intros tab Hr. unfold AoiUpdate_view. f_equal; table_accessor. Qed.

Definition AoiUpdate_ok (w : AoiUpdateMsg) : Prop :=
  oall (Forall cell_ok) (au_added w) /\
  oall (Forall cell_ok) (au_removed w).

Lemma AoiUpdate_reads_as : reads_as run_verifier TAoiUpdate AoiUpdate_view AoiUpdate_ok.
Proof. table_typed. Qed.

(** ** CellSnapshot *)
Definition CellSnapshot_cells (args : CellSnapshotArgs) (players boats moorings : option fval) : list (Z * option fval) :=
  [(CellSnapshot_VT_MOORINGS, moorings);
   (CellSnapshot_VT_BOATS, boats);
   (CellSnapshot_VT_PLAYERS, players);
   (CellSnapshot_VT_CELL, VStruct <$> CellSnapshotArgs_cell args)].

Lemma CellSnapshot_created b O args (players boats moorings : option fval) :
  repr b O None -> orefs O (CellSnapshotArgs_players args) players -> orefs O (CellSnapshotArgs_boats args) boats -> orefs O (CellSnapshotArgs_moorings args) moorings ->
  oall (bytes_ok GridCell_size) (CellSnapshotArgs_cell args) ->
  repr (CellSnapshot_create args b).2 (((CellSnapshot_create args b).1, VTab (build (CellSnapshot_cells args players boats moorings))) :: O) None.
Proof. intros. table_created. Qed.

Lemma CellSnapshot_encodes n args (players : option (list (slots * PlayerState))) (boats : option (list (slots * BoatState))) (moorings : option (list (slots * MoorageRecord))) :
  oall (bytes_ok GridCell_size) (CellSnapshotArgs_cell args) ->
  oall (Forall (fun p => encodes run_verifier n TPlayerState PlayerState_view p.1 p.2)) players ->
  oall (Forall (fun p => encodes run_verifier n TBoatState BoatState_view p.1 p.2)) boats ->
  oall (Forall (fun p => encodes run_verifier n TMoorageRecord MoorageRecord_view p.1 p.2)) moorings ->
  encodes run_verifier (S n) TCellSnapshot CellSnapshot_view (build (CellSnapshot_cells args (tabs_cell players) (tabs_cell boats) (tabs_cell moorings)))
    (mkCellSnapshot (GridCell_view <$> CellSnapshotArgs_cell args)
       (option_map (map snd) players)
       (option_map (map snd) boats)
       (option_map (map snd) moorings)).
Proof. intros. split; [table_verifies|]. intros tab Hr. unfold CellSnapshot_view. f_equal; table_accessor. Qed.

Definition CellSnapshot_ok (w : CellSnapshot) : Prop :=
  oall cell_ok (cc_cell w) /\
  oall (Forall PlayerState_ok) (cc_players w) /\
  oall (Forall BoatState_ok) (cc_boats w) /\
  oall (Forall MoorageRecord_ok) (cc_moorings w).

Lemma CellSnapshot_reads_as : reads_as run_verifier TCellSnapshot CellSnapshot_view CellSnapshot_ok.
Proof. table_typed. Qed.

(** ** EconTxn *)
Definition EconTxn_cells (args : EconTxnArgs) (note : option fval) : list (Z * option fval) :=
  [(EconTxn_VT_AMOUNT_GOLD, scalar_cell I64 (EconTxnArgs_amount_gold args) 0);
   (EconTxn_VT_TXN_ID, scalar_cell U64 (EconTxnArgs_txn_id args) 0);
   (EconTxn_VT_NOTE, note);
   (EconTxn_VT_KIND, scalar_cell U8 (EconTxnArgs_kind args) 0)].

Lemma EconTxn_created b O args (note : option fval) :
  repr b O None -> orefs O (EconTxnArgs_note args) note ->
  scalar_ok U64 (EconTxnArgs_txn_id args) = true ->
  scalar_ok I64 (EconTxnArgs_amount_gold args) = true ->
  scalar_ok U8 (EconTxnArgs_kind args) = true ->
  repr (EconTxn_create args b).2 (((EconTxn_create args b).1, VTab (build (EconTxn_cells args note))) :: O) None.
Proof. intros. table_created. Qed.

Lemma EconTxn_encodes n args (note : option string) :
  scalar_ok U64 (EconTxnArgs_txn_id args) = true ->
  scalar_ok I64 (EconTxnArgs_amount_gold args) = true ->
  scalar_ok U8 (EconTxnArgs_kind args) = true ->
  oall (fun s => str_ok s = true) note ->
  encodes run_verifier (S n) TEconTxn EconTxn_view (build (EconTxn_cells args (VStr <$> note)))
    (mkEconTxn (EconTxnArgs_txn_id args)
       (EconTxnArgs_amount_gold args)
       (EconTxnArgs_kind args)
       note).
Proof. intros. split; [table_verifies|]. intros tab Hr. unfold EconTxn_view. f_equal; table_accessor. Qed.

Definition EconTxn_ok (w : EconTxn) : Prop :=
  scalar_ok U64 (et_txn_id w) = true /\
  scalar_ok I64 (et_amount_gold w) = true /\
  scalar_ok U8 (et_kind w) = true /\
  oall (fun s => str_ok s = true) (et_note w).

Lemma EconTxn_reads_as : reads_as run_verifier TEconTxn EconTxn_view EconTxn_ok.
Proof. table_typed. Qed.

(** ** LedgerAck *)
Definition LedgerAck_cells (args : LedgerAckArgs) (reason : option fval) : list (Z * option fval) :=
  [(LedgerAck_VT_NEW_BALANCE, scalar_cell I64 (LedgerAckArgs_new_balance args) 0);
   (LedgerAck_VT_TXN_ID, scalar_cell U64 (LedgerAckArgs_txn_id args) 0);
   (LedgerAck_VT_REASON, reason);
   (LedgerAck_VT_ACCEPTED, scalar_cell BOOL (LedgerAckArgs_accepted args) false)].

Lemma LedgerAck_created b O args (reason : option fval) :
  repr b O None -> orefs O (LedgerAckArgs_reason args) reason ->
  scalar_ok U64 (LedgerAckArgs_txn_id args) = true ->
  scalar_ok I64 (LedgerAckArgs_new_balance args) = true ->
  repr (LedgerAck_create args b).2 (((LedgerAck_create args b).1, VTab (build (LedgerAck_cells args reason))) :: O) None.
Proof. intros. table_created. Qed.

Lemma LedgerAck_encodes n args (reason : option string) :
  scalar_ok U64 (LedgerAckArgs_txn_id args) = true ->
  scalar_ok I64 (LedgerAckArgs_new_balance args) = true ->
  oall (fun s => str_ok s = true) reason ->
  encodes run_verifier (S n) TLedgerAck LedgerAck_view (build (LedgerAck_cells args (VStr <$> reason)))
    (mkLedgerAckMsg (LedgerAckArgs_txn_id args)
       (LedgerAckArgs_accepted args)
       (LedgerAckArgs_new_balance args)
       reason).
Proof. intros. split; [table_verifies|]. intros tab Hr. unfold LedgerAck_view. f_equal; table_accessor. Qed.

Definition LedgerAck_ok (w : LedgerAckMsg) : Prop :=
  scalar_ok U64 (la_txn_id w) = true /\
  scalar_ok I64 (la_new_balance w) = true /\
  oall (fun s => str_ok s = true) (la_reason w).

Lemma LedgerAck_reads_as : reads_as run_verifier TLedgerAck LedgerAck_view LedgerAck_ok.
Proof. table_typed. Qed.

(** ** MarketTradeRequest *)
Definition MarketTradeRequest_cells (args : MarketTradeRequestArgs) : list (Z * option fval) :=
  [(MarketTradeRequest_VT_UNIT_PRICE, scalar_cell I64 (MarketTradeRequestArgs_unit_price args) 0);
   (MarketTradeRequest_VT_QTY, scalar_cell I64 (MarketTradeRequestArgs_qty args) 0);
   (MarketTradeRequest_VT_TXN_ID, scalar_cell U64 (MarketTradeRequestArgs_txn_id args) 0);
   (MarketTradeRequest_VT_ITEM_ID, scalar_cell U32 (MarketTradeRequestArgs_item_id args) 0);
   (MarketTradeRequest_VT_PORT_ID, scalar_cell U32 (MarketTradeRequestArgs_port_id args) 0)].

Lemma MarketTradeRequest_created b O args :
  repr b O None ->
  scalar_ok U64 (MarketTradeRequestArgs_txn_id args) = true ->
  scalar_ok U32 (MarketTradeRequestArgs_port_id args) = true ->
  scalar_ok U32 (MarketTradeRequestArgs_item_id args) = true ->
  scalar_ok I64 (MarketTradeRequestArgs_qty args) = true ->
  scalar_ok I64 (MarketTradeRequestArgs_unit_price args) = true ->
  repr (MarketTradeRequest_create args b).2 (((MarketTradeRequest_create args b).1, VTab (build (MarketTradeRequest_cells args))) :: O) None.
Proof. intros. table_created. Qed.

Lemma MarketTradeRequest_encodes n args :
  scalar_ok U64 (MarketTradeRequestArgs_txn_id args) = true ->
  scalar_ok U32 (MarketTradeRequestArgs_port_id args) = true ->
  scalar_ok U32 (MarketTradeRequestArgs_item_id args) = true ->
  scalar_ok I64 (MarketTradeRequestArgs_qty args) = true ->
  scalar_ok I64 (MarketTradeRequestArgs_unit_price args) = true ->
  encodes run_verifier (S n) TMarketTradeRequest MarketTradeRequest_view (build (MarketTradeRequest_cells args))
    (mkMarketTradeRequest (MarketTradeRequestArgs_txn_id args)
       (MarketTradeRequestArgs_port_id args)
       (MarketTradeRequestArgs_item_id args)
       (MarketTradeRequestArgs_qty args)
       (MarketTradeRequestArgs_unit_price args)).
Proof. intros. split; [table_verifies|]. intros tab Hr. unfold MarketTradeRequest_view. f_equal; table_accessor. Qed.

Definition MarketTradeRequest_ok (w : MarketTradeRequest) : Prop :=
  scalar_ok U64 (mr_txn_id w) = true /\
  scalar_ok U32 (mr_port_id w) = true /\
  scalar_ok U32 (mr_item_id w) = true /\
  scalar_ok I64 (mr_qty w) = true /\
  scalar_ok I64 (mr_unit_price w) = true.

Lemma MarketTradeRequest_reads_as : reads_as run_verifier TMarketTradeRequest MarketTradeRequest_view MarketTradeRequest_ok.
Proof. table_typed. Qed.

(** ** MarketStateAck *)
Definition MarketStateAck_cells (args : MarketStateAckArgs) (reason : option fval) : list (Z * option fval) :=
  [(MarketStateAck_VT_PRICE, scalar_cell I64 (MarketStateAckArgs_price args) 0);
   (MarketStateAck_VT_STOCK, scalar_cell I64 (MarketStateAckArgs_stock args) 0);
   (MarketStateAck_VT_TXN_ID, scalar_cell U64 (MarketStateAckArgs_txn_id args) 0);
   (MarketStateAck_VT_REASON, reason);
   (MarketStateAck_VT_ITEM_ID, scalar_cell U32 (MarketStateAckArgs_item_id args) 0);
   (MarketStateAck_VT_PORT_ID, scalar_cell U32 (MarketStateAckArgs_port_id args) 0);
   (MarketStateAck_VT_ACCEPTED, scalar_cell BOOL (MarketStateAckArgs_accepted args) false)].

Lemma MarketStateAck_created b O args (reason : option fval) :
  repr b O None -> orefs O (MarketStateAckArgs_reason args) reason ->
  scalar_ok U64 (MarketStateAckArgs_txn_id args) = true ->
  scalar_ok U32 (MarketStateAckArgs_port_id args) = true ->
  scalar_ok U32 (MarketStateAckArgs_item_id args) = true ->
  scalar_ok I64 (MarketStateAckArgs_stock args) = true ->
  scalar_ok I64 (MarketStateAckArgs_price args) = true ->
  repr (MarketStateAck_create args b).2 (((MarketStateAck_create args b).1, VTab (build (MarketStateAck_cells args reason))) :: O) None.
Proof. intros. table_created. Qed.

Lemma MarketStateAck_encodes n args (reason : option string) :
  scalar_ok U64 (MarketStateAckArgs_txn_id args) = true ->
  scalar_ok U32 (MarketStateAckArgs_port_id args) = true ->
  scalar_ok U32 (MarketStateAckArgs_item_id args) = true ->
  scalar_ok I64 (MarketStateAckArgs_stock args) = true ->
  scalar_ok I64 (MarketStateAckArgs_price args) = true ->
  oall (fun s => str_ok s = true) reason ->
  encodes run_verifier (S n) TMarketStateAck MarketStateAck_view (build (MarketStateAck_cells args (VStr <$> reason)))
    (mkMarketStateAck (MarketStateAckArgs_txn_id args)
       (MarketStateAckArgs_accepted args)
       (MarketStateAckArgs_port_id args)
       (MarketStateAckArgs_item_id args)
       (MarketStateAckArgs_stock args)
       (MarketStateAckArgs_price args)
       reason).
Proof. intros. split; [table_verifies|]. intros tab Hr. unfold MarketStateAck_view. f_equal; table_accessor. Qed.

Definition MarketStateAck_ok (w : MarketStateAck) : Prop :=
  scalar_ok U64 (ms_txn_id w) = true /\
  scalar_ok U32 (ms_port_id w) = true /\
  scalar_ok U32 (ms_item_id w) = true /\
  scalar_ok I64 (ms_stock w) = true /\
  scalar_ok I64 (ms_price w) = true /\
  oall (fun s => str_ok s = true) (ms_reason w).

Lemma MarketStateAck_reads_as : reads_as run_verifier TMarketStateAck MarketStateAck_view MarketStateAck_ok.
Proof. table_typed. Qed.

(** ** ChatSend *)
Definition ChatSend_cells (args : ChatSendArgs) (text : option fval) : list (Z * option fval) :=
  [(ChatSend_VT_TEXT, text);
   (ChatSend_VT_CHANNEL, scalar_cell U8 (ChatSendArgs_channel args) 0)].

Lemma ChatSend_created b O args (text : option fval) :
  repr b O None -> orefs O (ChatSendArgs_text args) text ->
  scalar_ok U8 (ChatSendArgs_channel args) = true ->
  repr (ChatSend_create args b).2 (((ChatSend_create args b).1, VTab (build (ChatSend_cells args text))) :: O) None.
Proof. intros. table_created. Qed.

Lemma ChatSend_encodes n args (text : option string) :
  oall (fun s => str_ok s = true) text ->
  scalar_ok U8 (ChatSendArgs_channel args) = true ->
  encodes run_verifier (S n) TChatSend ChatSend_view (build (ChatSend_cells args (VStr <$> text)))
    (mkChatSend text
       (ChatSendArgs_channel args)).
Proof. intros. split; [table_verifies|]. intros tab Hr. unfold ChatSend_view. f_equal; table_accessor. Qed.

Definition ChatSend_ok (w : ChatSend) : Prop :=
  oall (fun s => str_ok s = true) (ct_text w) /\
  scalar_ok U8 (ct_channel w) = true.

Lemma ChatSend_reads_as : reads_as run_verifier TChatSend ChatSend_view ChatSend_ok.
Proof. table_typed. Qed.

(** ** ChatBroadcast *)
Definition ChatBroadcast_cells (args : ChatBroadcastArgs) (display_name text : option fval) : list (Z * option fval) :=
  [(ChatBroadcast_VT_PLAYER_ID, scalar_cell U64 (ChatBroadcastArgs_player_id args) 0);
   (ChatBroadcast_VT_T_MS, scalar_cell U32 (ChatBroadcastArgs_t_ms args) 0);
   (ChatBroadcast_VT_TEXT, text);
   (ChatBroadcast_VT_DISPLAY_NAME, display_name);
   (ChatBroadcast_VT_CHANNEL, scalar_cell U8 (ChatBroadcastArgs_channel args) 0)].

Lemma ChatBroadcast_created b O args (display_name text : option fval) :
  repr b O None -> orefs O (ChatBroadcastArgs_display_name args) display_name -> orefs O (ChatBroadcastArgs_text args) text ->
  scalar_ok U64 (ChatBroadcastArgs_player_id args) = true ->
  scalar_ok U8 (ChatBroadcastArgs_channel args) = true ->
  scalar_ok U32 (ChatBroadcastArgs_t_ms args) = true ->
  repr (ChatBroadcast_create args b).2 (((ChatBroadcast_create args b).1, VTab (build (ChatBroadcast_cells args display_name text))) :: O) None.
Proof. intros. table_created. Qed.

Lemma ChatBroadcast_encodes n args (display_name : option string) (text : option string) :
  scalar_ok U64 (ChatBroadcastArgs_player_id args) = true ->
  oall (fun s => str_ok s = true) display_name ->
  oall (fun s => str_ok s = true) text ->
  scalar_ok U8 (ChatBroadcastArgs_channel args) = true ->
  scalar_ok U32 (ChatBroadcastArgs_t_ms args) = true ->
  encodes run_verifier (S n) TChatBroadcast ChatBroadcast_view (build (ChatBroadcast_cells args (VStr <$> display_name) (VStr <$> text)))
    (mkChatBroadcast (ChatBroadcastArgs_player_id args)
       display_name
       text
       (ChatBroadcastArgs_channel args)
       (ChatBroadcastArgs_t_ms args)).
Proof. intros. split; [table_verifies|]. intros tab Hr. unfold ChatBroadcast_view. f_equal; table_accessor. Qed.

Definition ChatBroadcast_ok (w : ChatBroadcast) : Prop :=
  scalar_ok U64 (cb_player_id w) = true /\
  oall (fun s => str_ok s = true) (cb_display_name w) /\
  oall (fun s => str_ok s = true) (cb_text w) /\
  scalar_ok U8 (cb_channel w) = true /\
  scalar_ok U32 (cb_t_ms w) = true.

Lemma ChatBroadcast_reads_as : reads_as run_verifier TChatBroadcast ChatBroadcast_view ChatBroadcast_ok.
Proof. table_typed. Qed.

(** ** Envelope *)
Definition Envelope_cells (args : EnvelopeArgs) (payload : option fval) : list (Z * option fval) :=
  [(Envelope_VT_PAYLOAD, payload);
   (Envelope_VT_SEQ, scalar_cell U32 (EnvelopeArgs_seq args) 0);
   (Envelope_VT_PAYLOAD_TYPE, scalar_cell U8 (EnvelopeArgs_payload_type args) Payload_NONE)].

Lemma Envelope_created b O args (payload : option fval) :
  repr b O None -> orefs O (EnvelopeArgs_payload args) payload ->
  scalar_ok U32 (EnvelopeArgs_seq args) = true -> scalar_ok U8 (EnvelopeArgs_payload_type args) = true ->
  repr (Envelope_create args b).2
    (((Envelope_create args b).1, VTab (build (Envelope_cells args payload))) :: O) None.
Proof. intros. table_created. Qed.

(** A payload table behind its discriminant verifies and reads back. *)
Lemma Envelope_verified n args T l :
  scalar_ok U32 (EnvelopeArgs_seq args) = true -> inU 8 (EnvelopeArgs_payload_type args) ->
  EnvelopeArgs_payload_type args <> Payload_NONE ->
  Envelope_payload_arm (EnvelopeArgs_payload_type args) = Some (FTable T) ->
  verify run_verifier n (FTable T) (VTab l) = true ->
  verify run_verifier (S n) (FTable TEnvelope) (VTab (build (Envelope_cells args (Some (VTab l))))) = true.
Proof.
  intros Hs Ht Hne Ha Hv. apply verify_table. apply Forall_cons_2; [table_field|].
  apply Forall_cons_2; [|apply Forall_nil_2]. cbn [visit_ok].
  rewrite !slot_build by fresh_slot. cbn. unfold scalar_cell. cbn [seqb].
  rewrite (proj2 (Z.eqb_neq _ _) Hne). cbn. by rewrite bool_decide_eq_true_2, Ha.
Qed.

Lemma Envelope_read args l tab :
  scalar_ok U32 (EnvelopeArgs_seq args) = true -> inU 8 (EnvelopeArgs_payload_type args) ->
  reads tab (build (Envelope_cells args (Some (VTab l)))) ->
  Envelope_seq tab = EnvelopeArgs_seq args /\
  Envelope_payload_type tab = EnvelopeArgs_payload_type args /\
  exists tab', Envelope_payload tab = Some tab' /\ reads tab' l.
Proof.
  intros Hs Ht Hr. split; [table_accessor|]. split.
  - unfold Envelope_payload_type. eapply (get_scalar_exact _ _ U8); [done|eassumption|built_slot|].
    by apply bool_decide_eq_true_2.
  - eapply get_any_table; [eassumption|built_slot].
Qed.

(** Behind a discriminant with an arm, a verified envelope holds a verified table. *)
Lemma Envelope_arm n tab l T :
  reads tab l -> verify run_verifier n (FTable TEnvelope) (VTab l) = true ->
  Envelope_payload_type tab <> Payload_NONE ->
  Envelope_payload_arm (Envelope_payload_type tab) = Some (FTable T) ->
  exists k tab' l', Envelope_payload tab = Some tab' /\ reads tab' l' /\
                    verify run_verifier k (FTable T) (VTab l') = true.
Proof.
  intros Hr Hv Hne Ha. destruct n as [|n]; [done|]. cbn [verify] in Hv.
  change (run_verifier TEnvelope) with Envelope_run_verifier in Hv. cbn [Envelope_run_verifier forallb] in Hv.
  apply andb_true_iff in Hv as [_ Hv]. apply andb_true_iff in Hv as [Hv _]. cbn [visit_ok] in Hv.
  assert (Hs : forall v, slot Envelope_VT_PAYLOAD_TYPE l = Some v -> scalar_shape U8 v = true).
  { intros v Hs. rewrite Hs in Hv. destruct (slot Envelope_VT_PAYLOAD l); [|done].
    destruct v as [[] k| | | | | |]; try done. apply andb_true_iff in Hv as [Hk _]. simpl. by rewrite Hk. }
  unfold Envelope_payload_type in *. rewrite (get_scalar tab l U8) in Hne, Ha by done.
  destruct (slot Envelope_VT_PAYLOAD_TYPE l) as [kv|]; [|done].
  destruct (slot Envelope_VT_PAYLOAD l) as [v|] eqn:Ev; [|done].
  destruct kv as [[] k| | | | | |]; try done. cbn [VS_or] in Ha. rewrite Ha in Hv.
  apply andb_true_iff in Hv as [_ Hv]. destruct v as [| | | | | |l']; try (by destruct n).
  destruct (get_any_table tab l Envelope_VT_PAYLOAD l' Hr Ev) as (tab' & Ht & Hr'). by exists n, tab', l'.
Qed.

Definition Payload_typed (p : Payload) : Prop :=
  match p with
  | PClientHello m => ClientHello_ok m
  | PServerHello m => ServerHello_ok m
  | PClientState m => ClientState_ok m
  | PSnapshotDelta m => SnapshotDelta_ok m
  | PAoiUpdate m => AoiUpdate_ok m
  | PCellSnapshot m => CellSnapshot_ok m
  | PMoorRequest m => MoorRequest_ok m
  | PMoorAck m => MoorAck_ok m
  | PEconTxn m => EconTxn_ok m
  | PLedgerAck m => LedgerAck_ok m
  | PChatSend m => ChatSend_ok m
  | PChatBroadcast m => ChatBroadcast_ok m
  | PWorldClock m => WorldClock_ok m
  | PMarketTradeRequest m => MarketTradeRequest_ok m
  | PMarketStateAck m => MarketStateAck_ok m
  | PInvalid => False
  | PNone => True
  end.

Definition Envelope_ok (e : Envelope) : Prop :=
  scalar_ok U32 (env_seq e) = true /\ Payload_typed (env_payload e).

Ltac envelope_arm Harm H :=
  lazymatch goal with |- context [?t =? ?c] =>
    destruct (Z.eqb_spec t c) as [Ht|_];
    [rewrite ?Ht, ?Z.eqb_refl; edestruct Harm as (k & tab' & l' & -> & Hr' & Hv');
     [assumption|assumption|by rewrite Ht|rewrite Ht; reflexivity|exact (H k tab' l' Hr' Hv')]|] end.

Lemma Envelope_reads_as : reads_as run_verifier TEnvelope Envelope_view Envelope_ok.
Proof.
  intros n tab l Hr Hv. split; [typed_field|]. cbn [Envelope_view env_payload].
  pose proof (Envelope_arm n tab l) as Harm. unfold Envelope_view_payload. cbv zeta.
  unfold payload_as_client_hello,
    payload_as_server_hello,
    payload_as_client_state,
    payload_as_snapshot_delta,
    payload_as_aoi_update,
    payload_as_cell_snapshot,
    payload_as_moor_request,
    payload_as_moor_ack,
    payload_as_econ_txn,
    payload_as_ledger_ack,
    payload_as_chat_send,
    payload_as_chat_broadcast,
    payload_as_world_clock,
    payload_as_market_trade_request,
    payload_as_market_state_ack.
  envelope_arm Harm ClientHello_reads_as.
  envelope_arm Harm ServerHello_reads_as.
  envelope_arm Harm ClientState_reads_as.
  envelope_arm Harm SnapshotDelta_reads_as.
  envelope_arm Harm AoiUpdate_reads_as.
  envelope_arm Harm CellSnapshot_reads_as.
  envelope_arm Harm MoorRequest_reads_as.
  envelope_arm Harm MoorAck_reads_as.
  envelope_arm Harm EconTxn_reads_as.
  envelope_arm Harm LedgerAck_reads_as.
  envelope_arm Harm ChatSend_reads_as.
  envelope_arm Harm ChatBroadcast_reads_as.
  envelope_arm Harm WorldClock_reads_as.
  envelope_arm Harm MarketTradeRequest_reads_as.
  envelope_arm Harm MarketStateAck_reads_as.
  exact I.
Qed.

End TableSpecs.
