(* ===== verification/Codec.v ===== *)
(** * Messages (codec.rs, sw-contracts)

    The encoders of server/crates/sw-server/src/codec.rs as the calls they make on
    a FlatBuffers builder, through the generated tables of [Tables], and the two
    helpers of server/crates/sw-contracts/src/lib.rs that finish and decode an
    envelope.  A builder that the source mutates is passed along. *)

From S2P Require Import Prelude Float World Clock Econ Structs Flat Tables.

Definition PROTOCOL_VERSION : Z := 1.
Definition FILE_IDENTIFIER : string := "SWO0".

(** ** What the server serialises *)
Record PlayerSnap := mkPlayerSnap {
  pn_player_id : Z;
  pn_pos : vec3;
  pn_rot : quat;
  pn_aboard_boat : Z;
  pn_t_ms : Z
}.

Record BoatSnap := mkBoatSnap {
  bn_boat_id : Z;
  bn_owner : Z;
  bn_pos : vec3;
  bn_rot : quat;
  bn_vel : vec3;
  bn_t_ms : Z
}.

Record MooringSnap := mkMooringSnap {
  mn_boat_id : Z;
  mn_owner : Z;
  mn_cell : Z * Z;
  mn_pos : vec3;
  mn_rot : quat;
  mn_name : string;
  mn_created_at : Z
}.

Record Caps := mkCaps {
  cp_tick_hz : Z;
  cp_snapshot_hz : Z;
  cp_aoi_radius_cells : Z;
  cp_cell_size_m : f32;
  cp_features : list string
}.

(** [Vec3::new(v[0], v[1], v[2])] and [QuatC::new(q[0], q[1], q[2], q[3])]. *)
Definition Vec3_of (v : vec3) : list Z := let '(x, y, z) := v in Vec3_new x y z.
Definition QuatC_of (q : quat) : list Z := let '(x, y, z, w) := q in QuatC_new x y z w.

Section Encoders.
Context `{FB : FlatBuffers}.

(** ** Envelopes *)
Definition decode_envelope (buf : list Z) : option Envelope := Envelope_view <$> root_as_envelope buf.

Definition finish_envelope (seq payload_type : Z) (payload : WIPOffset) (fbb : Builder)
    : list Z * Builder :=
  let '(env, fbb) := Envelope_create (mkEnvelopeArgs seq payload_type (Some payload)) fbb in
  let fbb := finish_envelope_buffer env fbb in
  let out := finished_data fbb in
  let fbb := reset fbb in
  (out, fbb).

(** ** Vectors of tables *)
Definition build_player (pl : PlayerSnap) (fbb : Builder) : WIPOffset * Builder :=
  let pos := Vec3_of (pn_pos pl) in
  let rot := QuatC_of (pn_rot pl) in
  PlayerState_create
    (mkPlayerStateArgs (pn_player_id pl) (Some pos) (Some rot) (pn_aboard_boat pl) (pn_t_ms pl)) fbb.

Definition build_players (players : list PlayerSnap) (fbb : Builder) : WIPOffset * Builder :=
  let '(offsets, fbb) := create_all build_player players fbb in
  create_vector offsets fbb.

Definition build_boat (b : BoatSnap) (fbb : Builder) : WIPOffset * Builder :=
  let pos := Vec3_of (bn_pos b) in
  let rot := QuatC_of (bn_rot b) in
  let vel := Vec3_of (bn_vel b) in
  BoatState_create
    (mkBoatStateArgs (bn_boat_id b) (bn_owner b) (Some pos) (Some rot) (Some vel) (bn_t_ms b)) fbb.

Definition build_boats (boats : list BoatSnap) (fbb : Builder) : WIPOffset * Builder :=
  let '(offsets, fbb) := create_all build_boat boats fbb in
  create_vector offsets fbb.

Definition build_mooring (m : MooringSnap) (fbb : Builder) : WIPOffset * Builder :=
  let '(name, fbb) := create_string (mn_name m) fbb in
  let cell := GridCell_new (mn_cell m).1 (mn_cell m).2 in
  let pos := Vec3_of (mn_pos m) in
  let rot := QuatC_of (mn_rot m) in
  MoorageRecord_create
    (mkMoorageRecordArgs (mn_boat_id m) (mn_owner m) (Some cell) (Some pos) (Some rot) (Some name)
       (mn_created_at m)) fbb.

Definition build_moorings (moorings : list MooringSnap) (fbb : Builder) : WIPOffset * Builder :=
  let '(offsets, fbb) := create_all build_mooring moorings fbb in
  create_vector offsets fbb.

(** ** Messages *)
Definition server_hello (seq : Z) (accepted : bool) (reason : string) (player_id : Z)
    (server_name : string) (balance : Z) (caps : Caps) (clock : WorldClock)
    (weather_seed weather_epoch_day : Z) : list Z :=
  let fbb := builder_new in
  let '(reason_off, fbb) := create_string reason fbb in
  let '(name_off, fbb) := create_string server_name fbb in
  let '(feature_offs, fbb) := create_all create_string (cp_features caps) fbb in
  let '(features, fbb) := create_vector feature_offs fbb in
  let '(caps_off, fbb) :=
    CapabilityManifest_create
      (mkCapabilityManifestArgs PROTOCOL_VERSION (Some features) (cp_tick_hz caps) (cp_snapshot_hz caps)
         (cp_aoi_radius_cells caps) (cp_cell_size_m caps)) fbb in
  let '(clock_off, fbb) :=
    WorldClock_create (mkWorldClockArgs (day clock) (time_of_day clock) (moon_phase clock)) fbb in
  let '(weather_off, fbb) := WeatherSeed_create (mkWeatherSeedArgs weather_seed weather_epoch_day) fbb in
  let '(hello, fbb) :=
    ServerHello_create
      (mkServerHelloArgs accepted (Some reason_off) player_id (Some name_off) balance (Some caps_off)
         (Some clock_off) (Some weather_off)) fbb in
  (finish_envelope seq Payload_ServerHello hello fbb).1.

Definition world_clock (seq : Z) (clock : WorldClock) : list Z :=
  let fbb := builder_new in
  let '(clock_off, fbb) :=
    WorldClock_create (mkWorldClockArgs (day clock) (time_of_day clock) (moon_phase clock)) fbb in
  (finish_envelope seq Payload_WorldClock clock_off fbb).1.

Definition snapshot_delta (seq server_tick : Z) (players : list PlayerSnap) (boats : list BoatSnap)
    : list Z :=
  let fbb := builder_new in
  let '(players_vec, fbb) := build_players players fbb in
  let '(boats_vec, fbb) := build_boats boats fbb in
  let '(sd, fbb) :=
    SnapshotDelta_create (mkSnapshotDeltaArgs server_tick (Some players_vec) (Some boats_vec)) fbb in
  (finish_envelope seq Payload_SnapshotDelta sd fbb).1.

Definition aoi_update (seq : Z) (added removed : list Cell) : list Z :=
  let fbb := builder_new in
  let added_cells := (fun c => GridCell_new (cx c) (cz c)) <$> added in
  let removed_cells := (fun c => GridCell_new (cx c) (cz c)) <$> removed in
  let '(added_vec, fbb) := create_vector_structs added_cells fbb in
  let '(removed_vec, fbb) := create_vector_structs removed_cells fbb in
  let '(au, fbb) := AoiUpdate_create (mkAoiUpdateArgs (Some added_vec) (Some removed_vec)) fbb in
  (finish_envelope seq Payload_AoiUpdate au fbb).1.

Definition cell_snapshot (seq : Z) (cell : Cell) (players : list PlayerSnap)
    (boats : list BoatSnap) (moorings : list MooringSnap) : list Z :=
  let fbb := builder_new in
  let '(players_vec, fbb) := build_players players fbb in
  let '(boats_vec, fbb) := build_boats boats fbb in
  let '(moorings_vec, fbb) := build_moorings moorings fbb in
  let gc := GridCell_new (cx cell) (cz cell) in
  let '(cs, fbb) :=
    CellSnapshot_create
      (mkCellSnapshotArgs (Some gc) (Some players_vec) (Some boats_vec) (Some moorings_vec)) fbb in
  (finish_envelope seq Payload_CellSnapshot cs fbb).1.

Definition moor_ack (seq : Z) (accepted : bool) (record : option MooringSnap) (reason : string)
    : list Z :=
  let fbb := builder_new in
  let '(reason_off, fbb) := create_string reason fbb in
  let '(record_off, fbb) :=
    match record with
    | Some m => let '(o, fbb) := build_mooring m fbb in (Some o, fbb)
    | None => (None, fbb)
    end in
  let '(ma, fbb) := MoorAck_create (mkMoorAckArgs accepted record_off (Some reason_off)) fbb in
  (finish_envelope seq Payload_MoorAck ma fbb).1.

Definition ledger_ack (seq : Z) (ack : Ledger.LedgerAck) : list Z :=
  let fbb := builder_new in
  let '(reason_off, fbb) := create_string (Ledger.reason ack) fbb in
  let '(la, fbb) :=
    LedgerAck_create
      (mkLedgerAckArgs (Ledger.ack_txn_id ack) (Ledger.accepted ack) (Ledger.new_balance ack)
         (Some reason_off)) fbb in
  (finish_envelope seq Payload_LedgerAck la fbb).1.

Definition market_state_ack (seq : Z) (ack : Market.MarketAck) : list Z :=
  let fbb := builder_new in
  let '(reason_off, fbb) := create_string (Market.reason ack) fbb in
  let '(msa, fbb) :=
    MarketStateAck_create
      (mkMarketStateAckArgs (Market.ack_txn_id ack) (Market.accepted ack) (Market.ack_port_id ack)
         (Market.ack_item_id ack) (Market.stock ack) (Market.price ack) (Some reason_off)) fbb in
  (finish_envelope seq Payload_MarketStateAck msa fbb).1.

Definition chat_broadcast (seq player_id : Z) (display_name text : string) (channel t_ms : Z)
    : list Z :=
  let fbb := builder_new in
  let '(name_off, fbb) := create_string display_name fbb in
  let '(text_off, fbb) := create_string text fbb in
  let '(cb, fbb) :=
    ChatBroadcast_create
      (mkChatBroadcastArgs player_id (Some name_off) (Some text_off) channel t_ms) fbb in
  (finish_envelope seq Payload_ChatBroadcast cb fbb).1.

End Encoders.
