(* ===== verification/FlatTree.v ===== *)
(** * A runtime that keeps the laws

    A concrete [FlatBuffers]: the builder keeps the finished trees, a buffer is the
    identifier followed by a prefix code of the root tree, and a view is the slots
    themselves.  It is not the layout of the FlatBuffers library; it shows that
    [FlatBuffersLaws] can be met, and it runs the examples of the other files. *)

From S2P Require Import Prelude Float Wire Structs Flat.

(** ** The code of a tree: bytes, every list closed by a 0 *)
Definition sty_code (t : sty) : Z :=
  match t with U8 => 0 | U16 => 1 | U32 => 2 | U64 => 3 | I64 => 4 | F32 => 5 | BOOL => 6 end.

Definition sty_width (t : sty) : nat :=
  match t with U8 => 1 | U16 => 2 | U32 | F32 => 4 | U64 | I64 => 8 | BOOL => 1 end.

Definition ser_list {A} (f : A -> list Z) (l : list A) : list Z := foldr (fun x r => 1 :: f x ++ r) [0] l.

Fixpoint ser (v : fval) : list Z :=
  match v with
  | VInt t n => sty_code t :: le_bytes (sty_width t) n
  | VF32 x => 5 :: le_bytes 4 (f32_to_bits x)
  | VBool b => [6; if b then 1 else 0]
  | VStruct bs => 7 :: ser_list (fun b => [b]) bs
  | VStr s => 8 :: ser_list (fun b => [b]) (bytes_of_string s)
  | VVec l => 9 :: ser_list ser l
  | VTab l => 10 :: ser_list (fun p => le_bytes 2 p.1 ++ ser p.2) l
  end.

Fixpoint des_list {A} (item : list Z -> option (A * list Z)) (n : nat) (l : list Z)
    : option (list A * list Z) :=
  match n with
  | O => None
  | S n =>
      match l with
      | 0 :: l => Some ([], l)
      | 1 :: l => '(x, l) ← item l; '(xs, l) ← des_list item n l; Some (x :: xs, l)
      | _ => None
      end
  end.

Definition des_byte (l : list Z) : option (Z * list Z) :=
  match l with b :: l => Some (b, l) | [] => None end.

Definition des_int (t : sty) (l : list Z) : fval :=
  let n := le_value (take (sty_width t) l) in
  VInt t (match t with I64 => wrapS 64 n | _ => n end).

Fixpoint des (fuel : nat) (l : list Z) : option (fval * list Z) :=
  match fuel with
  | O => None
  | S fuel =>
      match l with
      | 0 :: l => Some (des_int U8 l, drop 1 l)
      | 1 :: l => Some (des_int U16 l, drop 2 l)
      | 2 :: l => Some (des_int U32 l, drop 4 l)
      | 3 :: l => Some (des_int U64 l, drop 8 l)
      | 4 :: l => Some (des_int I64 l, drop 8 l)
      | 5 :: l => Some (VF32 (f32_from_bits (le_value (take 4 l))), drop 4 l)
      | 6 :: b :: l => Some (VBool (b =? 1), l)
      | 7 :: l => '(bs, l) ← des_list des_byte fuel l; Some (VStruct bs, l)
      | 8 :: l => '(bs, l) ← des_list des_byte fuel l; Some (VStr (string_of_bytes bs), l)
      | 9 :: l => '(vs, l) ← des_list (des fuel) fuel l; Some (VVec vs, l)
      | 10 :: l =>
          '(ps, l) ← des_list (fun l => '(v, l') ← des fuel (drop 2 l);
                                        Some ((le_value (take 2 l), v), l')) fuel l;
          Some (VTab ps, l)
      | _ => None
      end
  end.

(** Trees whose leaves are of their types. *)
Fixpoint vok (v : fval) : bool :=
  match v with
  | VInt t _ => scalar_shape t v
  | VF32 x => valid_binary prec32 emax32 x
  | VBool _ | VStr _ => true
  | VStruct bs => bool_decide (Forall byte_ok bs)
  | VVec l => forallb vok l
  | VTab l => forallb (fun p => bool_decide (inU 16 p.1) && vok p.2) l
  end.

Lemma ser_list_length {A} (f : A -> list Z) l : (length l < length (ser_list f l))%nat.
Proof. induction l as [|x l IH]; simpl; [lia|]. rewrite length_app. unfold ser_list in *. lia. Qed.

Lemma ser_list_item {A} (f : A -> list Z) l x : x ∈ l -> (length (f x) < length (ser_list f l))%nat.
Proof.
  induction 1 as [x l|x y l _ IH]; simpl; rewrite length_app; [|unfold ser_list in *; lia].
  pose proof (ser_list_length f l). unfold ser_list in *. lia.
Qed.

Lemma des_ser_list {A} (f : A -> list Z) item l n r :
  (forall x r, x ∈ l -> item (f x ++ r) = Some (x, r)) -> (length l < n)%nat ->
  des_list item n (ser_list f l ++ r) = Some (l, r).
Proof.
  revert n. induction l as [|x l IH]; intros [|n] Hi Hn; simpl in *; try lia; [done|].
  rewrite <- app_assoc, Hi by left. cbn. rewrite IH; [done| |lia]. intros. apply Hi. by right.
Qed.

Lemma take_le_app k z r : take k (le_bytes k z ++ r) = le_bytes k z.
Proof. apply take_app_length'. by rewrite length_le_bytes. Qed.

Lemma drop_le_app k z r : drop k (le_bytes k z ++ r) = r.
Proof. apply drop_app_length'. by rewrite length_le_bytes. Qed.

Lemma le_value_inU k z : 0 <= z < 256 ^ Z.of_nat k -> le_value (le_bytes k z) = z.
Proof. intros. by rewrite le_value_bytes, Z.mod_small. Qed.

Lemma des_int_ser t n r :
  scalar_shape t (VInt t n) = true -> des_int t (le_bytes (sty_width t) n ++ r) = VInt t n.
Proof.
  unfold des_int. rewrite take_le_app. simpl. rewrite bool_decide_eq_true_2 by done. simpl.
  destruct t; try discriminate; intros H%bool_decide_eq_true; f_equal;
    try (apply le_value_inU; exact H). exact (i64_le_roundtrip n H).
Qed.

Lemma des_ser fuel v r : vok v = true -> (length (ser v) <= fuel)%nat -> des fuel (ser v ++ r) = Some (v, r).
Proof.
  revert v r. induction fuel as [|fuel IH]; intros v r Hv Hf; [destruct v; simpl in Hf; lia|].
  destruct v as [t n|x|b|bs|s|l|l]; cbn [ser length] in Hf; apply le_S_n in Hf.
  - assert (vok (VInt t n) = true) as Ht by done. cbn [vok] in Ht.
    pose proof (des_int_ser t n r Ht) as Hd. cbn [ser app sty_code].
    destruct t; cbn [sty_code des]; try discriminate Ht; try (by destruct Ht);
      cbn [sty_width] in *; rewrite Hd, drop_le_app; reflexivity.
  - cbn [ser app des]. rewrite take_le_app, drop_le_app.
    rewrite le_value_inU by apply (f32_to_bits_in x Hv). by rewrite f32_from_to_bits.
  - by destruct b.
  - cbn [ser app des]. rewrite (des_ser_list _ des_byte); [done|done|].
    pose proof (ser_list_length (fun b => [b]) bs). lia.
  - cbn [ser app des]. rewrite (des_ser_list _ des_byte); [|done|].
    + cbn. by rewrite string_of_bytes_of_string.
    + pose proof (ser_list_length (fun b => [b]) (bytes_of_string s)). lia.
  - cbn [ser app des]. rewrite (des_ser_list ser); [done| |].
    + intros x r' Hx. apply IH.
      * cbn [vok] in Hv. rewrite forallb_forall in Hv. by apply Hv, list_elem_of_In.
      * pose proof (ser_list_item ser l x Hx). lia.
    + pose proof (ser_list_length ser l). lia.
  - cbn [ser app des]. rewrite (des_ser_list (fun p => le_bytes 2 p.1 ++ ser p.2)); [done| |].
    + intros [k x] r' Hx. cbn [vok fst snd] in *. rewrite forallb_forall in Hv.
      specialize (Hv _ (proj1 (list_elem_of_In _ _) Hx)).
      apply andb_true_iff in Hv as [Hk%bool_decide_eq_true Hv]. cbn [fst snd] in *.
      rewrite <- app_assoc, drop_le_app, take_le_app, le_value_inU by exact Hk.
      rewrite IH; [done|done|].
      pose proof (ser_list_item (fun p => le_bytes 2 p.1 ++ ser p.2) l (k, x) Hx) as Hl.
      cbn [fst snd] in Hl. rewrite length_app in Hl. lia.
    + pose proof (ser_list_length (fun p => le_bytes 2 p.1 ++ ser p.2) l). lia.
Qed.

(** ** The builder *)
Record TreeBuilder := mkTreeBuilder {
  tb_objects : list fval;
  tb_open : option slots;
  tb_data : list Z
}.

Definition tb_add (v : fval) (b : TreeBuilder) : nat * TreeBuilder :=
  (length (tb_objects b), mkTreeBuilder (tb_objects b ++ [v]) None (tb_data b)).

Definition tb_push (vt : Z) (c : option fval) (b : TreeBuilder) : TreeBuilder :=
  mkTreeBuilder (tb_objects b) ((fun l => push_cell l (vt, c)) <$> tb_open b) (tb_data b).

(** ** Reading a slot *)
Definition sdefault (t : sty) : sval t :=
  match t with F32 => S754_nan | BOOL => false | _ => 0 end.

Fixpoint extract (t : fty) (v : fval) : option (inner slots t) :=
  match t with
  | FScalar t => Some (VS_or t (sdefault t) v)
  | FStruct _ => match v with VStruct bs => Some bs | _ => None end
  | FStr => match v with VStr s => Some s | _ => None end
  | FTable _ | FAnyTable => match v with VTab l => Some l | _ => None end
  | FVector t => match v with VVec l => mapM (extract t) l | _ => None end
  end.

#[global] Instance tree_runtime : FlatBuffers := {|
  Table := slots;
  Builder := TreeBuilder;
  WIPOffset := nat;
  builder_new := mkTreeBuilder [] None [];
  create_string s := tb_add (VStr s);
  create_vector os b := tb_add (VVec (omap (fun o => tb_objects b !! o) os)) b;
  create_vector_structs ss := tb_add (VVec (VStruct <$> ss));
  start_table b := mkTreeBuilder (tb_objects b) (Some []) (tb_data b);
  push_slot t vt x d := tb_push vt (scalar_cell t x d);
  push_slot_struct vt bs := tb_push vt (Some (VStruct bs));
  push_slot_always vt o b := tb_push vt (tb_objects b !! o) b;
  end_table b := tb_add (VTab (default [] (tb_open b))) b;
  finish o id b :=
    mkTreeBuilder (tb_objects b) (tb_open b)
      (bytes_of_string (default "" id) ++ ser (default (VTab []) (tb_objects b !! o)));
  finished_data := tb_data;
  reset _ := mkTreeBuilder [] None [];
  get t tab vt d := match slot vt tab with Some v => extract t v | None => d end;
  root rv T buf :=
    match des (length buf) (drop 4 buf) with
    | Some (VTab l, _) => if verify rv max_depth (FTable T) (VTab l) then Some l else None
    | _ => None
    end;
  buffer_has_identifier buf id prefixed := bool_decide (take 4 (if prefixed then drop 4 buf else buf) = bytes_of_string id)
|}.

(** ** The laws *)
Definition tree_repr (b : TreeBuilder) (O : list (nat * fval)) (cur : option slots) : Prop :=
  tb_open b = cur /\ Forall (fun p => tb_objects b !! p.1 = Some p.2) O /\
  Forall (fun v => vok v = true) (tb_objects b) /\ oall (fun l => vok (VTab l) = true) cur.

Lemma tree_add b O v :
  tree_repr b O None -> vok v = true -> tree_repr (tb_add v b).2 (((tb_add v b).1, v) :: O) None.
Proof.
  intros (Ho & HO & Hb & _) Hv. split; [done|]. split; [|split; [|done]].
  - constructor; [apply list_lookup_middle; done|]. eapply Forall_impl; [exact HO|].
    intros p Hp. by apply lookup_app_l_Some.
  - apply Forall_app. by split; [|constructor].
Qed.

Lemma tree_push b O l vt c :
  tree_repr b O (Some l) -> inU 16 vt -> oall (fun v => vok v = true) c ->
  tree_repr (tb_push vt c b) O (Some (push_cell l (vt, c))).
Proof.
  intros (Ho & HO & Hb & Hl) Hv Hc. unfold tb_push. rewrite Ho. split; [done|]. do 2 (split; [done|]).
  intros k [= <-]. specialize (Hl l eq_refl). unfold push_cell. destruct c as [v|]; [|done].
  cbn [vok forallb fst snd] in *. by rewrite bool_decide_eq_true_2, (Hc v).
Qed.

Lemma tree_object b O o v :
  Forall (fun p => tb_objects b !! p.1 = Some p.2) O -> (o, v) ∈ O -> tb_objects b !! o = Some v.
Proof. intros HO H. rewrite Forall_forall in HO. exact (HO _ H). Qed.

Lemma tree_ok b O o v : tree_repr b O None -> (o, v) ∈ O -> vok v = true.
Proof.
  intros (_ & HO & Hb & _) H. rewrite Forall_forall in Hb. eapply Hb, list_elem_of_lookup_2.
  by eapply tree_object.
Qed.

Lemma vok_VS t x : scalar_ok t x = true -> vok (VS t x) = true.
Proof. rewrite <- scalar_shape_VS. by destruct t. Qed.

Lemma tree_vector b O os vs :
  tree_repr b O None -> Forall2 (fun o v => (o, v) ∈ O) os vs ->
  omap (fun o => tb_objects b !! o) os = vs /\ vok (VVec vs) = true.
Proof.
  intros Hr H. cbn [vok]. induction H as [|o v os vs Ho _ [IH1 IH2]]; [done|].
  cbn. rewrite (tree_object b O o v) by (done || apply Hr). by rewrite IH1, (tree_ok b O o v).
Qed.

Lemma extract_agrees t v :
  shape t v = true -> exists x, extract t v = Some x /\ agrees eq t v x.
Proof.
  revert v. induction t as [t|n| |T| |t IH]; intros v Hs; cbn [shape extract agrees] in *.
  - destruct (scalar_shape_inv t v Hs) as (x & -> & _). exists x. by rewrite VS_or_VS.
  - destruct (struct_shape_inv n v Hs) as (bs & -> & _). eauto.
  - destruct v; try done. eauto.
  - destruct v; try done. eauto.
  - destruct v; try done. eauto.
  - destruct v as [| | | | |l|]; try done.
    assert (exists xs, mapM (extract t) l = Some xs /\ Forall2 (agrees eq t) l xs) as (xs & Hx & Ha).
    { induction l as [|v l IHl]; [by exists []|]. cbn in Hs. apply andb_true_iff in Hs as [Hv Hs].
      destruct (IH v Hv) as (x & Hx & Hax). destruct (IHl Hs) as (xs & Hxs & Haxs).
      exists (x :: xs). cbn. rewrite Hx. cbn. rewrite Hxs. split; [done|by constructor]. }
    eauto.
Qed.

Lemma tree_root l id rest :
  vok (VTab l) = true -> String.length id = 4%nat ->
  rest = bytes_of_string id ++ ser (VTab l) ->
  des (length rest) (drop 4 rest) = Some (VTab l, []).
Proof.
  intros Hv Hi ->. rewrite drop_app_length' by (by rewrite length_bytes_of_string).
  rewrite <- (app_nil_r (ser (VTab l))) at 2. apply des_ser; [done|]. rewrite length_app. lia.
Qed.

#[global] Instance tree_laws : FlatBuffersLaws.
Proof.
  apply (Build_FlatBuffersLaws tree_runtime tree_repr eq); try (by intros; apply tree_add).
  - by repeat split; try constructor; intros ?.
  - intros b O os vs Hr Ho. destruct (tree_vector b O os vs Hr Ho) as [E Hv].
    cbn. rewrite E. by apply tree_add.
  - intros b O ss Hr Hs. apply tree_add; [done|]. cbn [vok]. eapply forallb_fmap_intro; [|exact Hs].
    intros bs Hb. by apply bool_decide_eq_true_2.
  - intros b O (Ho & HO & Hb & _). by repeat split; try done; intros l [= <-].
  - intros b O l t vt x d Hr Hi _ Hx. apply tree_push; [done|done|]. intros v. unfold scalar_cell.
    destruct (seqb t x d); [done|]. intros [= <-]. by apply vok_VS.
  - intros b O l vt bs Hr Hi _ Hb. apply tree_push; [done|done|]. intros v [= <-].
    by apply bool_decide_eq_true_2.
  - intros b O l vt o v Hr Hi _ Ho. pose proof Hr as (_ & HO & Hb & _).
    cbn [push_slot_always tree_runtime]. rewrite (tree_object b O o v) by done.
    apply tree_push; [done|done|]. intros ? [= <-].
    rewrite Forall_forall in Hb. eapply Hb, list_elem_of_lookup_2. by eapply tree_object.
  - intros b O l (Ho & HO & Hb & Hl). cbn. rewrite Ho. cbn. specialize (Hl l eq_refl).
    apply (tree_add (mkTreeBuilder (tb_objects b) None (tb_data b)) O (VTab l)); [by repeat split|done].
  - intros b. by repeat split; try constructor; intros ?.
  - intros tab l t vt d <- E. cbn. by rewrite E.
  - intros tab l t vt d v <- E Hs. cbn. rewrite E. by apply extract_agrees.
  - intros b O o l rv T ident Hr Ho Hv Hi _. exists l. split; [|done]. pose proof Hr as (_ & HO & _).
    cbn [root finished_data finish tree_runtime tb_data].
    rewrite (tree_object b O o (VTab l)) by done. cbn [default from_option].
    rewrite (tree_root l ident) by (done || by eapply tree_ok). by rewrite Hv.
  - intros rv T buf tab. cbn [root tree_runtime]. destruct (des _ _) as [[[| | | | | |l] r]|]; try done.
    destruct (verify rv max_depth (FTable T) (VTab l)) eqn:E; [|done]. intros [= <-]. eauto.
  - intros b O o v id Hr Ho Hi. cbn. apply bool_decide_eq_true_2.
    apply take_app_length'. by rewrite length_bytes_of_string.
Defined.

(** Every string of a tree is written out in its code. *)
Lemma ser_text s v : has_text s v -> (String.length s <= length (ser v))%nat.
Proof.
  induction 1 as [|l v Hv _ IH|l k v Hv _ IH]; cbn [ser length].
  - pose proof (ser_list_length (fun b => [b]) (bytes_of_string s)) as Hl. rewrite length_bytes_of_string in Hl. lia.
  - pose proof (ser_list_item ser l v Hv). simpl. lia.
  - pose proof (ser_list_item (fun p => le_bytes 2 p.1 ++ ser p.2) l (k, v) Hv) as Hl.
    cbn [fst snd] in Hl. rewrite length_app in Hl. lia.
Qed.

#[global] Instance tree_inline : FlatBuffersInline.
Proof.
  intros b O o v id s (_ & HO & _) Ho Ht. cbn. rewrite (tree_object b O o v) by done. cbn [default from_option].
  unfold len. rewrite length_app. pose proof (ser_text s v Ht) as Hl. unfold Datatypes.id. lia.
Qed.
