(* ===== verification/CodecProps.v ===== *)
(** * Round trips of the messages

    On any runtime that keeps [FlatBuffersLaws], what the encoders of [Codec] write
    is what [decode_envelope] reads: per message, and for client messages built the
    way the bindings build them.  [decode_envelope] in turn only yields values of
    their Rust types. *)

From S2P Require Import Prelude Float World Clock Econ Wire Structs Flat Tables.
From S2P Require Import TableSpecs Codec FlatTree.

(** ** Values of their Rust types *)
Definition is_str (s : string) : Prop := str_ok s = true.

Definition PlayerSnap_ok (p : PlayerSnap) : Prop :=
  inU 64 (pn_player_id p) /\ vec3_ok (pn_pos p) /\ quat_ok (pn_rot p) /\ inU 64 (pn_aboard_boat p) /\
  inU 32 (pn_t_ms p).

Definition BoatSnap_ok (b : BoatSnap) : Prop :=
  inU 64 (bn_boat_id b) /\ inU 64 (bn_owner b) /\ vec3_ok (bn_pos b) /\ quat_ok (bn_rot b) /\
  vec3_ok (bn_vel b) /\ inU 32 (bn_t_ms b).

Definition MooringSnap_ok (m : MooringSnap) : Prop :=
  inU 64 (mn_boat_id m) /\ inU 64 (mn_owner m) /\ cell_ok (mn_cell m) /\ vec3_ok (mn_pos m) /\
  quat_ok (mn_rot m) /\ is_str (mn_name m) /\ inU 64 (mn_created_at m).

Definition clock_ok (c : WorldClock) : Prop :=
  inU 32 (day c) /\ f32_ok (time_of_day c) /\ f32_ok (moon_phase c).

Definition Caps_ok (c : Caps) : Prop :=
  inU 8 (cp_tick_hz c) /\ inU 8 (cp_snapshot_hz c) /\ inU 8 (cp_aoi_radius_cells c) /\
  f32_ok (cp_cell_size_m c) /\ Forall is_str (cp_features c).

(** ** What a reader sees

    An inline float that equals the default [0.0] is not stored, so the negative
    zero reads back as the positive one. *)
Definition stored_f32 (x : f32) : f32 := norm F32 x zero32.

Definition clock_read (c : WorldClock) : WorldClock :=
  mkWorldClock (day c) (stored_f32 (time_of_day c)) (stored_f32 (moon_phase c)).

Definition caps_read (c : Caps) : CapabilityManifest :=
  mkCapabilityManifest PROTOCOL_VERSION (Some (cp_features c)) (cp_tick_hz c) (cp_snapshot_hz c)
    (cp_aoi_radius_cells c) (stored_f32 (cp_cell_size_m c)).

Definition player_read (p : PlayerSnap) : PlayerState :=
  mkPlayerState (pn_player_id p) (Some (pn_pos p)) (Some (pn_rot p)) (pn_aboard_boat p) (pn_t_ms p).

Definition boat_read (b : BoatSnap) : BoatState :=
  mkBoatState (bn_boat_id b) (bn_owner b) (Some (bn_pos b)) (Some (bn_rot b)) (Some (bn_vel b))
    (bn_t_ms b).

Definition mooring_read (m : MooringSnap) : MoorageRecord :=
  mkMoorageRecord (mn_boat_id m) (mn_owner m) (Some (mn_cell m)) (Some (mn_pos m)) (Some (mn_rot m))
    (Some (mn_name m)) (mn_created_at m).

Lemma stored_f32_other x : SFeqb x zero32 = false -> stored_f32 x = x.
Proof. intros H. unfold stored_f32, norm. cbn [seqb]. by rewrite H. Qed.

Lemma scalar_U8 n : inU 8 n -> scalar_ok U8 n = true.
Proof. apply bool_decide_eq_true_2. Qed.
Lemma scalar_U16 n : inU 16 n -> scalar_ok U16 n = true.
Proof. apply bool_decide_eq_true_2. Qed.
Lemma scalar_U32 n : inU 32 n -> scalar_ok U32 n = true.
Proof. apply bool_decide_eq_true_2. Qed.
Lemma scalar_U64 n : inU 64 n -> scalar_ok U64 n = true.
Proof. apply bool_decide_eq_true_2. Qed.
Lemma scalar_I64 n : inS 64 n -> scalar_ok I64 n = true.
Proof. apply bool_decide_eq_true_2. Qed.
Lemma scalar_F32 x : f32_ok x -> scalar_ok F32 x = true.
Proof. done. Qed.

Lemma Vec3_of_ok v : oall (bytes_ok Vec3_size) (Some (Vec3_of v)).
Proof. destruct v as [[x y] z]. intros ? [= <-]. apply Vec3_new_bytes. Qed.
Lemma QuatC_of_ok q : oall (bytes_ok QuatC_size) (Some (QuatC_of q)).
Proof. destruct q as [[[x y] z] w]. intros ? [= <-]. apply QuatC_new_bytes. Qed.
Lemma GridCell_of_ok x z : oall (bytes_ok GridCell_size) (Some (GridCell_new x z)).
Proof. intros ? [= <-]. apply GridCell_new_bytes. Qed.

Lemma Vec3_view_of v : vec3_ok v -> Vec3_view (Vec3_of v) = v.
Proof. destruct v as [[x y] z]. apply Vec3_view_new. Qed.
Lemma QuatC_view_of q : quat_ok q -> QuatC_view (QuatC_of q) = q.
Proof. destruct q as [[[x y] z] w]. apply QuatC_view_new. Qed.

Lemma oall_Some {A} (P : A -> Prop) x : P x -> oall P (Some x).
Proof. by intros ? ? [= <-]. Qed.
Lemma oall_None {A} (P : A -> Prop) : oall P None.
Proof. done. Qed.

(** Side conditions of [*_created] and [*_encodes]. *)
Ltac field_ok :=
  first
    [ assumption
    | apply scalar_U64; assumption | apply scalar_U32; assumption | apply scalar_U16; done
    | apply scalar_U8; assumption | apply scalar_I64; assumption | apply scalar_F32; assumption
    | exact (Vec3_of_ok _) | exact (QuatC_of_ok _) | exact (GridCell_of_ok _ _)
    | exact (oall_None _) | refine (oall_Some _ _ _); assumption ].

Section Codec.
Context `{FBL : FlatBuffersLaws}.

Lemma encodes_as {A} rv n T (f : Table -> A) l w w' : w = w' -> encodes rv n T f l w -> encodes rv n T f l w'.
Proof. by intros ->. Qed.

(** ** Tables of the vectors: their slots and what they read as *)
Definition player_args (p : PlayerSnap) : PlayerStateArgs :=
  mkPlayerStateArgs (pn_player_id p) (Some (Vec3_of (pn_pos p))) (Some (QuatC_of (pn_rot p)))
    (pn_aboard_boat p) (pn_t_ms p).

Definition player_pair (p : PlayerSnap) : slots * PlayerState :=
  (build (PlayerState_cells (player_args p)), player_read p).

Lemma player_created p b O :
  PlayerSnap_ok p -> repr b O None ->
  repr (build_player p b).2 (((build_player p b).1, VTab (player_pair p).1) :: O) None.
Proof. intros (? & ? & ? & ? & ?) Hr. apply PlayerState_created; field_ok. Qed.

Lemma player_encodes n p :
  PlayerSnap_ok p -> encodes run_verifier (S n) TPlayerState PlayerState_view (player_pair p).1 (player_pair p).2.
Proof.
  intros (? & ? & ? & ? & ?). eapply encodes_as; [|apply PlayerState_encodes; field_ok].
  unfold player_pair, player_read. simpl. by rewrite Vec3_view_of, QuatC_view_of.
Qed.

Definition boat_args (b : BoatSnap) : BoatStateArgs :=
  mkBoatStateArgs (bn_boat_id b) (bn_owner b) (Some (Vec3_of (bn_pos b))) (Some (QuatC_of (bn_rot b)))
    (Some (Vec3_of (bn_vel b))) (bn_t_ms b).

Definition boat_pair (b : BoatSnap) : slots * BoatState := (build (BoatState_cells (boat_args b)), boat_read b).

Lemma boat_created p b O :
  BoatSnap_ok p -> repr b O None ->
  repr (build_boat p b).2 (((build_boat p b).1, VTab (boat_pair p).1) :: O) None.
Proof. intros (? & ? & ? & ? & ? & ?) Hr. apply BoatState_created; field_ok. Qed.

Lemma boat_encodes n p :
  BoatSnap_ok p -> encodes run_verifier (S n) TBoatState BoatState_view (boat_pair p).1 (boat_pair p).2.
Proof.
  intros (? & ? & ? & ? & ? & ?). eapply encodes_as; [|apply BoatState_encodes; field_ok].
  unfold boat_pair, boat_read. simpl. by rewrite !Vec3_view_of, QuatC_view_of.
Qed.

Definition mooring_args (m : MooringSnap) (name : WIPOffset) : MoorageRecordArgs :=
  mkMoorageRecordArgs (mn_boat_id m) (mn_owner m) (Some (GridCell_new (mn_cell m).1 (mn_cell m).2))
    (Some (Vec3_of (mn_pos m))) (Some (QuatC_of (mn_rot m))) (Some name) (mn_created_at m).

(** The cells of a table do not depend on where its string is. *)
Definition mooring_cells (m : MooringSnap) : list (Z * option fval) :=
  [(MoorageRecord_VT_CREATED_AT, scalar_cell U64 (mn_created_at m) 0);
   (MoorageRecord_VT_OWNER, scalar_cell U64 (mn_owner m) 0);
   (MoorageRecord_VT_BOAT_ID, scalar_cell U64 (mn_boat_id m) 0);
   (MoorageRecord_VT_NAME, Some (VStr (mn_name m)));
   (MoorageRecord_VT_ROT, Some (VStruct (QuatC_of (mn_rot m))));
   (MoorageRecord_VT_POS, Some (VStruct (Vec3_of (mn_pos m))));
   (MoorageRecord_VT_CELL, Some (VStruct (GridCell_new (mn_cell m).1 (mn_cell m).2)))].

Definition mooring_pair (m : MooringSnap) : slots * MoorageRecord :=
  (build (mooring_cells m), mooring_read m).

Lemma mooring_created m b O :
  MooringSnap_ok m -> repr b O None ->
  exists O', repr (build_mooring m b).2 (((build_mooring m b).1, VTab (mooring_pair m).1) :: O' ++ O) None.
Proof.
  intros (? & ? & ? & ? & ? & Hn & ?) Hr. unfold build_mooring.
  pose proof (create_string_law b O (mn_name m) Hr Hn) as Hs.
  destruct (create_string (mn_name m) b) as [name b1]. exists [(name, VStr (mn_name m))].
  apply (MoorageRecord_created b1 _ (mooring_args m name) (Some (VStr (mn_name m)))); try field_ok.
  apply orefs_Some. by left.
Qed.

Lemma mooring_encodes (o : WIPOffset) n m :
  MooringSnap_ok m ->
  encodes run_verifier (S n) TMoorageRecord MoorageRecord_view (mooring_pair m).1 (mooring_pair m).2.
Proof using FBL.
  intros (? & ? & Hc & ? & ? & Hn & ?).
  eapply encodes_as; [|apply (MoorageRecord_encodes n (mooring_args m o) (Some (mn_name m))); field_ok].
  unfold mooring_pair, mooring_read. simpl.
  by rewrite Vec3_view_of, QuatC_view_of, GridCell_view_of.
Qed.

(** A vector of tables built one by one. *)
Lemma tables_created {A B} (f : A -> Builder -> WIPOffset * Builder) (pair : A -> slots * B) l b O :
  (forall x b O, x ∈ l -> repr b O None ->
     exists O', repr (f x b).2 (((f x b).1, VTab (pair x).1) :: O' ++ O) None) ->
  repr b O None ->
  let '(os, b1) := create_all f l b in
  let '(o, b2) := create_vector os b1 in
  exists O', repr b2 ((o, VVec (VTab <$> (pair <$> l).*1)) :: O' ++ O) None.
Proof.
  intros Hf Hr. destruct (create_all_spec f (fun x => VTab (pair x).1) l b O Hf Hr) as (O' & H1 & HO).
  destruct (create_all f l b) as [os b1]. cbn [fst snd] in *.
  assert (Forall2 (fun o v => (o, v) ∈ O' ++ O) os (VTab <$> (pair <$> l).*1)) as HO'.
  { rewrite <- !list_fmap_compose. eapply Forall2_impl; [exact HO|]. set_solver. }
  pose proof (create_vector_law b1 (O' ++ O) os _ H1 HO') as H2.
  destruct (create_vector os b1) as [o b2]. by exists O'.
Qed.

Lemma players_created l b O :
  Forall PlayerSnap_ok l -> repr b O None ->
  exists O', repr (build_players l b).2
               (((build_players l b).1, VVec (VTab <$> (player_pair <$> l).*1)) :: O' ++ O) None.
Proof.
  intros Hl Hr. rewrite Forall_forall in Hl. unfold build_players.
  pose proof (tables_created build_player player_pair l b O) as H.
  destruct (create_all build_player l b) as [os b1]. destruct (create_vector os b1) as [o b2].
  apply H; [|done]. intros x b' O' Hx Hr'. exists []. by apply player_created; [apply Hl|].
Qed.

Lemma boats_created l b O :
  Forall BoatSnap_ok l -> repr b O None ->
  exists O', repr (build_boats l b).2
               (((build_boats l b).1, VVec (VTab <$> (boat_pair <$> l).*1)) :: O' ++ O) None.
Proof.
  intros Hl Hr. rewrite Forall_forall in Hl. unfold build_boats.
  pose proof (tables_created build_boat boat_pair l b O) as H.
  destruct (create_all build_boat l b) as [os b1]. destruct (create_vector os b1) as [o b2].
  apply H; [|done]. intros x b' O' Hx Hr'. exists []. by apply boat_created; [apply Hl|].
Qed.

Lemma moorings_created l b O :
  Forall MooringSnap_ok l -> repr b O None ->
  exists O', repr (build_moorings l b).2
               (((build_moorings l b).1, VVec (VTab <$> (mooring_pair <$> l).*1)) :: O' ++ O) None.
Proof.
  intros Hl Hr. rewrite Forall_forall in Hl. unfold build_moorings.
  pose proof (tables_created build_mooring mooring_pair l b O) as H.
  destruct (create_all build_mooring l b) as [os b1]. destruct (create_vector os b1) as [o b2].
  apply H; [|done]. intros x b' O' Hx Hr'. by apply mooring_created; [apply Hl|].
Qed.

Lemma pairs_encode {A B} T (view : Table -> B) (pair : A -> slots * B) n (P : A -> Prop) l :
  (forall x, P x -> encodes run_verifier n T view (pair x).1 (pair x).2) -> Forall P l ->
  oall (Forall (fun p => encodes run_verifier n T view p.1 p.2)) (Some (pair <$> l)).
Proof. intros H Hl. apply oall_Some, Forall_fmap. eapply Forall_impl; [exact Hl|]. done. Qed.

(** ** Finished envelopes *)

(** The buffer carries the identifier, and within the verifier's limits it decodes
    to the message. *)
Definition reads_back (bytes : list Z) (seq : Z) (p : Payload) : Prop :=
  envelope_buffer_has_identifier bytes = true /\
  (len bytes <= max_buffer -> decode_envelope bytes = Some (mkEnvelope seq p)).

(** What [Envelope_view_payload] answers behind a discriminant. *)
Definition view_arm {A} (tag : Z) (view : Table -> A) (w : A) (p : Payload) : Prop :=
  forall tab tab', Envelope_payload_type tab = tag -> Envelope_payload tab = Some tab' ->
    view tab' = w -> Envelope_view_payload tab = p.

(** The envelope around a written payload: its slots, that they verify, and what they read. *)
Lemma envelope_around {A} b O o l T (view : Table -> A) w seq tag p :
  repr b O None -> (o, VTab l) ∈ O -> encodes run_verifier 63 T view l w ->
  inU 32 seq -> inU 8 tag -> tag <> Payload_NONE -> Envelope_payload_arm tag = Some (FTable T) ->
  view_arm tag view w p ->
  exists le,
    let r := Envelope_create (mkEnvelopeArgs seq tag (Some o)) b in
    repr r.2 ((r.1, VTab le) :: O) None /\
    verify run_verifier max_depth (FTable TEnvelope) (VTab le) = true /\
    (forall tab, reads tab le -> Envelope_view tab = mkEnvelope seq p).
Proof.
  intros Hr Ho [Hv Hw] Hs Ht Hne Ha Hp.
  exists (build (Envelope_cells (mkEnvelopeArgs seq tag (Some o)) (Some (VTab l)))). split; [|split].
  - exact (Envelope_created b O (mkEnvelopeArgs seq tag (Some o)) (Some (VTab l)) Hr (orefs_Some _ _ _ Ho)
             (scalar_U32 _ Hs) (scalar_U8 _ Ht)).
  - apply (Envelope_verified 63 _ T l); [by apply scalar_U32|done..].
  - intros tab Hrd.
    destruct (Envelope_read (mkEnvelopeArgs seq tag (Some o)) l tab (scalar_U32 _ Hs) Ht Hrd)
      as (Es & Et & tab' & Ep & Hrd').
    unfold Envelope_view. rewrite Es. f_equal. eapply Hp; [exact Et|exact Ep|by apply Hw].
Qed.

Lemma finish_reads_back {A} b O o l T (view : Table -> A) w seq tag p :
  repr b O None -> (o, VTab l) ∈ O -> encodes run_verifier 63 T view l w ->
  inU 32 seq -> inU 8 tag -> tag <> Payload_NONE -> Envelope_payload_arm tag = Some (FTable T) ->
  view_arm tag view w p -> reads_back (finish_envelope seq tag o b).1 seq p.
Proof.
  intros Hr Ho Henc Hs Ht Hne Ha Hp. unfold finish_envelope.
  destruct (envelope_around b O o l T view w seq tag p) as (le & H1 & Hv & Hview); [done..|].
  destruct (Envelope_create _ b) as [env b1]. cbn [fst snd] in *. split.
  - eapply identifier_law; [exact H1|by left|done].
  - intros Hl.
    destruct (root_complete b1 _ env le run_verifier TEnvelope ENVELOPE_IDENTIFIER H1)
      as (tab & Hroot & Hrd); [by left|exact Hv|done|exact Hl|].
    unfold decode_envelope, root_as_envelope, finish_envelope_buffer. rewrite Hroot.
    cbn [fmap option_fmap option_map]. by rewrite (Hview tab Hrd).
Qed.

(** An object written earlier is still held. *)
Ltac held :=
  first [assumption | by left | by apply orefs_Some; held | by apply orefs_None
        | right; held | apply elem_of_app; right; held].

(** The arm of a known discriminant. *)
Ltac view_arm_at :=
  intros tab tab' Htag Hpay Hval; unfold Envelope_view_payload; cbv zeta; rewrite Htag;
  repeat match goal with |- context [?a =? ?b] =>
    let r := eval vm_compute in (a =? b) in change (a =? b) with r end;
  cbv iota;
  unfold payload_as_client_hello, payload_as_server_hello, payload_as_client_state,
    payload_as_snapshot_delta, payload_as_aoi_update, payload_as_cell_snapshot, payload_as_moor_request,
    payload_as_moor_ack, payload_as_econ_txn, payload_as_ledger_ack, payload_as_chat_send,
    payload_as_chat_broadcast, payload_as_world_clock, payload_as_market_trade_request,
    payload_as_market_state_ack;
  rewrite Htag, Z.eqb_refl, Hpay; cbn [fmap option_fmap option_map]; f_equal; exact Hval.

Lemma world_clock_reads_back seq c :
  inU 32 seq -> clock_ok c -> reads_back (world_clock seq c) seq (PWorldClock (clock_read c)).
Proof.
  intros Hs (Hd & Ht & Hm). unfold world_clock.
  pose proof (WorldClock_created builder_new [] (mkWorldClockArgs (day c) (time_of_day c) (moon_phase c)))
    as H1.
  destruct (WorldClock_create _ builder_new) as [o b1].
  eapply (finish_reads_back b1 _ o _ TWorldClock WorldClock_view); try done.
  - apply H1; try field_ok. apply builder_new_law.
  - by left.
  - apply WorldClock_encodes; field_ok.
  - view_arm_at.
Qed.

Lemma ledger_ack_reads_back seq ack :
  inU 32 seq -> inU 64 (Ledger.ack_txn_id ack) -> inS 64 (Ledger.new_balance ack) ->
  is_str (Ledger.reason ack) ->
  reads_back (ledger_ack seq ack) seq
    (PLedgerAck (mkLedgerAckMsg (Ledger.ack_txn_id ack) (Ledger.accepted ack) (Ledger.new_balance ack)
                   (Some (Ledger.reason ack)))).
Proof.
  intros Hs Ht Hb Hn. unfold ledger_ack.
  pose proof (create_string_law builder_new [] _ builder_new_law Hn) as H1.
  destruct (create_string _ builder_new) as [so b1].
  set (args := mkLedgerAckArgs _ _ _ _).
  pose proof (LedgerAck_created b1 [(so, VStr (Ledger.reason ack))] args (Some (VStr (Ledger.reason ack)))) as H2.
  destruct (LedgerAck_create args b1) as [o b2].
  eapply (finish_reads_back b2 _ o _ TLedgerAck LedgerAck_view); try done.
  - apply H2; first [field_ok | held].
  - held.
  - apply (LedgerAck_encodes 62 args (Some (Ledger.reason ack))); field_ok.
  - view_arm_at.
Qed.

Lemma market_state_ack_reads_back seq ack :
  inU 32 seq -> inU 64 (Market.ack_txn_id ack) -> inU 32 (Market.ack_port_id ack) ->
  inU 32 (Market.ack_item_id ack) -> inS 64 (Market.stock ack) -> inS 64 (Market.price ack) ->
  is_str (Market.reason ack) ->
  reads_back (market_state_ack seq ack) seq
    (PMarketStateAck (mkMarketStateAck (Market.ack_txn_id ack) (Market.accepted ack)
       (Market.ack_port_id ack) (Market.ack_item_id ack) (Market.stock ack) (Market.price ack)
       (Some (Market.reason ack)))).
Proof.
  intros Hs Ht Hp Hi Hk Hc Hn. unfold market_state_ack.
  pose proof (create_string_law builder_new [] _ builder_new_law Hn) as H1.
  destruct (create_string _ builder_new) as [so b1].
  set (args := mkMarketStateAckArgs _ _ _ _ _ _ _).
  pose proof (MarketStateAck_created b1 [(so, VStr (Market.reason ack))] args
                (Some (VStr (Market.reason ack)))) as H2.
  destruct (MarketStateAck_create args b1) as [o b2].
  eapply (finish_reads_back b2 _ o _ TMarketStateAck MarketStateAck_view); try done.
  - apply H2; first [field_ok | held].
  - held.
  - apply (MarketStateAck_encodes 62 args (Some (Market.reason ack))); field_ok.
  - view_arm_at.
Qed.

Lemma chat_broadcast_reads_back seq player_id display_name text channel t_ms :
  inU 32 seq -> inU 64 player_id -> is_str display_name -> is_str text -> inU 8 channel -> inU 32 t_ms ->
  reads_back (chat_broadcast seq player_id display_name text channel t_ms) seq
    (PChatBroadcast (mkChatBroadcast player_id (Some display_name) (Some text) channel t_ms)).
Proof.
  intros Hs Hp Hd Ht Hc Hm. unfold chat_broadcast.
  pose proof (create_string_law builder_new [] _ builder_new_law Hd) as H1.
  destruct (create_string display_name builder_new) as [dn b1]. cbn [fst snd] in H1.
  pose proof (create_string_law b1 _ _ H1 Ht) as H2.
  destruct (create_string text b1) as [tx b2]. cbn [fst snd] in H2.
  set (args := mkChatBroadcastArgs _ _ _ _ _).
  pose proof (ChatBroadcast_created b2 _ args (Some (VStr display_name)) (Some (VStr text)) H2) as H3.
  destruct (ChatBroadcast_create args b2) as [o b3].
  eapply (finish_reads_back b3 _ o _ TChatBroadcast ChatBroadcast_view); try done.
  - apply H3; first [field_ok | held].
  - held.
  - apply (ChatBroadcast_encodes 62 args (Some display_name) (Some text)); field_ok.
  - view_arm_at.
Qed.

Lemma moor_ack_reads_back seq accepted record reason :
  inU 32 seq -> oall MooringSnap_ok record -> is_str reason ->
  reads_back (moor_ack seq accepted record reason) seq
    (PMoorAck (mkMoorAck accepted (mooring_read <$> record) (Some reason))).
Proof.
  intros Hs Hm Hr. unfold moor_ack.
  pose proof (create_string_law builder_new [] _ builder_new_law Hr) as H1.
  destruct (create_string reason builder_new) as [ro b1]. cbn [fst snd] in H1.
  set (step := match record with Some _ => _ | None => _ end).
  assert (exists O, repr step.2 (O ++ [(ro, VStr reason)]) None /\
            orefs (O ++ [(ro, VStr reason)]) step.1 (tab_cell (mooring_pair <$> record)))
    as (O & H2 & Ho).
  { unfold step. destruct record as [m|]; [|by exists []; split; [|constructor]].
    destruct (mooring_created m b1 _ (Hm m eq_refl) H1) as [O HO].
    destruct (build_mooring m b1) as [o b2]. cbn [fst snd] in *.
    eexists (_ :: O). split; [exact HO|]. held. }
  destruct step as [mo b2]. cbn [fst snd] in *.
  set (args := mkMoorAckArgs _ _ _).
  pose proof (MoorAck_created b2 _ args (tab_cell (mooring_pair <$> record)) (Some (VStr reason)) H2 Ho) as H3.
  destruct (MoorAck_create args b2) as [o b3].
  eapply (finish_reads_back b3 _ o _ TMoorAck MoorAck_view); try done.
  - apply H3. held.
  - held.
  - apply (MoorAck_encodes 62 args (mooring_pair <$> record) (Some reason)); [|field_ok].
    intros p Hp. destruct record as [m|]; simplify_eq/=. by apply (mooring_encodes ro), Hm.
  - rewrite <- option_fmap_compose. view_arm_at.
Qed.

Lemma fmap_pair_read {A B} (pair : A -> slots * B) (f : A -> B) l :
  (forall x, (pair x).2 = f x) -> map snd (pair <$> l) = f <$> l.
Proof. intros H. induction l as [|x l IH]; [done|]. cbn. by rewrite H, IH. Qed.

Lemma snapshot_delta_reads_back seq server_tick players boats :
  inU 32 seq -> inU 32 server_tick -> Forall PlayerSnap_ok players -> Forall BoatSnap_ok boats ->
  reads_back (snapshot_delta seq server_tick players boats) seq
    (PSnapshotDelta (mkSnapshotDelta server_tick (Some (player_read <$> players))
                       (Some (boat_read <$> boats)))).
Proof.
  intros Hs Ht Hp Hb. unfold snapshot_delta.
  destruct (players_created players builder_new [] Hp builder_new_law) as [O1 H1].
  destruct (build_players players builder_new) as [po b1]. cbn [fst snd] in H1.
  destruct (boats_created boats b1 _ Hb H1) as [O2 H2].
  destruct (build_boats boats b1) as [bo b2]. cbn [fst snd] in H2.
  set (args := mkSnapshotDeltaArgs _ _ _).
  pose proof (SnapshotDelta_created b2 _ args (tabs_cell (Some (player_pair <$> players)))
                (tabs_cell (Some (boat_pair <$> boats))) H2) as H3.
  destruct (SnapshotDelta_create args b2) as [o b3].
  eapply (finish_reads_back b3 _ o _ TSnapshotDelta SnapshotDelta_view); try done.
  - apply H3; first [field_ok | held].
  - held.
  - apply (SnapshotDelta_encodes 62 args (Some (player_pair <$> players)) (Some (boat_pair <$> boats)));
      [field_ok| |]; (eapply pairs_encode; [|eassumption]); intros x.
    + apply player_encodes.
    + apply boat_encodes.
  - cbn [option_map]. rewrite (fmap_pair_read player_pair player_read), (fmap_pair_read boat_pair boat_read)
      by done. view_arm_at.
Qed.

Definition cell_xy (c : Cell) : Z * Z := (cx c, cz c).

Lemma cells_bytes l :
  Forall (bytes_ok GridCell_size) ((fun c => GridCell_new (cx c) (cz c)) <$> l).
Proof. apply Forall_fmap, Forall_true. intros c. apply GridCell_new_bytes. Qed.

Lemma cells_read l :
  Forall (fun c => cell_ok (cell_xy c)) l ->
  map GridCell_view ((fun c => GridCell_new (cx c) (cz c)) <$> l) = cell_xy <$> l.
Proof.
  induction 1 as [|c l Hc _ IH]; [done|]. cbn. by rewrite GridCell_view_new, IH.
Qed.

Lemma aoi_update_reads_back seq added removed :
  inU 32 seq -> Forall (fun c => cell_ok (cell_xy c)) added -> Forall (fun c => cell_ok (cell_xy c)) removed ->
  reads_back (aoi_update seq added removed) seq
    (PAoiUpdate (mkAoiUpdateMsg (Some (cell_xy <$> added)) (Some (cell_xy <$> removed)))).
Proof.
  intros Hs Ha Hr. unfold aoi_update. cbv zeta.
  set (ac := _ <$> added). set (rc := _ <$> removed).
  assert (forall l, Forall (bytes_ok GridCell_size) l -> Forall (Forall byte_ok) l) as Hbytes.
  { intros l Hl. eapply Forall_impl; [exact Hl|]. by intros s []. }
  pose proof (create_vector_structs_law builder_new [] ac builder_new_law (Hbytes _ (cells_bytes _))) as H1.
  destruct (create_vector_structs ac builder_new) as [ao b1]. cbn [fst snd] in H1.
  pose proof (create_vector_structs_law b1 _ rc H1 (Hbytes _ (cells_bytes _))) as H2.
  destruct (create_vector_structs rc b1) as [ro b2]. cbn [fst snd] in H2.
  set (args := mkAoiUpdateArgs _ _).
  pose proof (AoiUpdate_created b2 _ args (structs_cell (Some ac)) (structs_cell (Some rc)) H2) as H3.
  destruct (AoiUpdate_create args b2) as [o b3].
  eapply (finish_reads_back b3 _ o _ TAoiUpdate AoiUpdate_view); try done.
  - apply H3; held.
  - held.
  - apply (AoiUpdate_encodes 62 args (Some ac) (Some rc)); apply oall_Some, cells_bytes.
  - cbn [option_map]. unfold ac, rc. rewrite (cells_read added Ha), (cells_read removed Hr). view_arm_at.
Qed.

Lemma cell_snapshot_reads_back seq c players boats moorings :
  inU 32 seq -> cell_ok (cell_xy c) -> Forall PlayerSnap_ok players -> Forall BoatSnap_ok boats ->
  Forall MooringSnap_ok moorings ->
  reads_back (cell_snapshot seq c players boats moorings) seq
    (PCellSnapshot (mkCellSnapshot (Some (cell_xy c)) (Some (player_read <$> players))
       (Some (boat_read <$> boats)) (Some (mooring_read <$> moorings)))).
Proof.
  intros Hs Hc Hp Hb Hm. unfold cell_snapshot.
  destruct (players_created players builder_new [] Hp builder_new_law) as [O1 H1].
  destruct (build_players players builder_new) as [po b1]. cbn [fst snd] in H1.
  destruct (boats_created boats b1 _ Hb H1) as [O2 H2].
  destruct (build_boats boats b1) as [bo b2]. cbn [fst snd] in H2.
  destruct (moorings_created moorings b2 _ Hm H2) as [O3 H3].
  destruct (build_moorings moorings b2) as [mo b3]. cbn [fst snd] in H3. cbv zeta.
  set (args := mkCellSnapshotArgs _ _ _ _).
  pose proof (CellSnapshot_created b3 _ args (tabs_cell (Some (player_pair <$> players)))
    (tabs_cell (Some (boat_pair <$> boats))) (tabs_cell (Some (mooring_pair <$> moorings))) H3) as H4.
  destruct (CellSnapshot_create args b3) as [o b4].
  eapply (finish_reads_back b4 _ o _ TCellSnapshot CellSnapshot_view); try done.
  - apply H4; first [field_ok | held].
  - held.
  - apply (CellSnapshot_encodes 62 args (Some (player_pair <$> players)) (Some (boat_pair <$> boats))
             (Some (mooring_pair <$> moorings))); [field_ok| | |];
      (eapply pairs_encode; [|eassumption]); intros x.
    + apply player_encodes.
    + apply boat_encodes.
    + apply (mooring_encodes o).
  - cbn [option_map CellSnapshotArgs_cell args fmap option_fmap].
    rewrite (fmap_pair_read player_pair player_read), (fmap_pair_read boat_pair boat_read),
      (fmap_pair_read mooring_pair mooring_read), GridCell_view_new by done. view_arm_at.
Qed.

Lemma features_created l b O :
  Forall is_str l -> repr b O None ->
  let '(os, b1) := create_all create_string l b in
  let '(o, b2) := create_vector os b1 in
  exists O', repr b2 ((o, VVec (VStr <$> l)) :: O' ++ O) None.
Proof.
  intros Hl Hr. rewrite Forall_forall in Hl.
  destruct (create_all_spec create_string VStr l b O) as (O' & H1 & HO).
  { intros s b' O' Hs Hr'. exists []. by apply create_string_law; [|apply Hl]. }
  { done. }
  destruct (create_all create_string l b) as [os b1]. cbn [fst snd] in *.
  assert (Forall2 (fun o v => (o, v) ∈ O' ++ O) os (VStr <$> l)) as HO'.
  { eapply Forall2_impl; [exact HO|]. set_solver. }
  pose proof (create_vector_law b1 (O' ++ O) os _ H1 HO') as H2.
  destruct (create_vector os b1) as [o b2]. by exists O'.
Qed.

(** What the encoder of hellos leaves before it closes the envelope. *)
Lemma server_hello_built seq accepted reason player_id server_name balance caps clock seed epoch_day :
  is_str reason -> inU 64 player_id -> is_str server_name -> inS 64 balance -> Caps_ok caps ->
  clock_ok clock -> inU 64 seed -> inU 32 epoch_day ->
  exists b O o l,
    server_hello seq accepted reason player_id server_name balance caps clock seed epoch_day =
      (finish_envelope seq Payload_ServerHello o b).1 /\
    repr b O None /\ (o, VTab l) ∈ O /\ slot ServerHello_VT_SERVER_NAME l = Some (VStr server_name) /\
    encodes run_verifier 63 TServerHello ServerHello_view l
      (mkServerHello accepted (Some reason) player_id (Some server_name) balance
         (Some (caps_read caps)) (Some (clock_read clock)) (Some (mkWeatherSeed seed epoch_day))).
Proof.
  intros Hr Hp Hn Hb (Ht & Hsn & Ha & Hc & Hf) (Hd & Htd & Hm) Hse Hed. unfold server_hello. cbv zeta.
  pose proof (create_string_law builder_new [] _ builder_new_law Hr) as H1.
  destruct (create_string reason builder_new) as [ro b1]. cbn [fst snd] in H1.
  pose proof (create_string_law b1 _ _ H1 Hn) as H2.
  destruct (create_string server_name b1) as [no b2]. cbn [fst snd] in H2.
  pose proof (features_created (cp_features caps) b2 _ Hf H2) as H3.
  destruct (create_all create_string (cp_features caps) b2) as [fos b3].
  destruct (create_vector fos b3) as [fo b4]. destruct H3 as [O3 H3].
  set (cargs := mkCapabilityManifestArgs _ _ _ _ _ _).
  set (ccells := CapabilityManifest_cells cargs (strs_cell (Some (cp_features caps)))).
  pose proof (CapabilityManifest_created b4 _ cargs (strs_cell (Some (cp_features caps))) H3) as H4.
  destruct (CapabilityManifest_create cargs b4) as [co b5]. cbn [fst snd] in H4.
  set (kargs := mkWorldClockArgs _ _ _).
  assert (H4' := H4 ltac:(held) ltac:(field_ok) ltac:(field_ok) ltac:(field_ok) ltac:(field_ok) ltac:(field_ok)).
  pose proof (WorldClock_created b5 _ kargs H4' ltac:(field_ok) ltac:(field_ok) ltac:(field_ok)) as H5.
  destruct (WorldClock_create kargs b5) as [ko b6]. cbn [fst snd] in H5.
  set (wargs := mkWeatherSeedArgs _ _).
  pose proof (WeatherSeed_created b6 _ wargs H5 ltac:(field_ok) ltac:(field_ok)) as H6.
  destruct (WeatherSeed_create wargs b6) as [wo b7]. cbn [fst snd] in H6.
  set (args := mkServerHelloArgs _ _ _ _ _ _ _ _).
  set (cp := (build ccells, caps_read caps)).
  set (kp := (build (WorldClock_cells kargs), clock_read clock)).
  set (wp := (build (WeatherSeed_cells wargs), mkWeatherSeed seed epoch_day)).
  pose proof (ServerHello_created b7 _ args (Some (VStr reason)) (Some (VStr server_name))
    (tab_cell (Some cp)) (tab_cell (Some kp)) (tab_cell (Some wp)) H6) as H7.
  destruct (ServerHello_create args b7) as [o b8].
  assert (H8 := H7 ltac:(held) ltac:(held) ltac:(held) ltac:(held) ltac:(held) ltac:(field_ok) ltac:(field_ok)).
  cbn [fst snd] in H8. do 4 eexists. split; [reflexivity|]. split; [exact H8|].
  split; [by left|]. split; [built_slot|].
  apply (ServerHello_encodes 62 args (Some reason) (Some server_name) (Some cp) (Some kp) (Some wp));
      try field_ok; apply oall_Some.
    + apply (CapabilityManifest_encodes 61 cargs (Some (cp_features caps))); field_ok.
    + apply (WorldClock_encodes 61 kargs); field_ok.
    + apply (WeatherSeed_encodes 61 wargs); field_ok.
Qed.

Lemma server_hello_reads_back seq accepted reason player_id server_name balance caps clock seed epoch_day :
  inU 32 seq -> is_str reason -> inU 64 player_id -> is_str server_name -> inS 64 balance -> Caps_ok caps ->
  clock_ok clock -> inU 64 seed -> inU 32 epoch_day ->
  reads_back (server_hello seq accepted reason player_id server_name balance caps clock seed epoch_day) seq
    (PServerHello (mkServerHello accepted (Some reason) player_id (Some server_name) balance
       (Some (caps_read caps)) (Some (clock_read clock)) (Some (mkWeatherSeed seed epoch_day)))).
Proof.
  intros Hs Hr Hp Hn Hb Hcaps Hclk Hse Hed.
  destruct (server_hello_built seq accepted reason player_id server_name balance caps clock seed epoch_day)
    as (b & O & o & l & -> & H1 & Ho & _ & He); [done..|].
  eapply (finish_reads_back b O o l TServerHello ServerHello_view); try done. view_arm_at.
Qed.

(** A slot that holds a string. *)
Lemma slot_in vt l v : slot vt l = Some v -> (vt, v) ∈ l.
Proof.
  induction l as [|[k w] l IH]; [done|]. simpl. destruct (Z.eqb_spec k vt) as [->|_]; [|by right; apply IH].
  intros [= ->]. by left.
Qed.

(** A closed envelope is at least as long as any string of its payload. *)
Lemma envelope_inline `{FBI : !FlatBuffersInline} b O o v seq tag s :
  repr b O None -> (o, v) ∈ O -> has_text s v -> inU 32 seq -> inU 8 tag ->
  Z.of_nat (String.length s) <= len (finish_envelope seq tag o b).1.
Proof.
  intros Hr Ho Ht Hs Hg. unfold finish_envelope.
  pose proof (Envelope_created b O (mkEnvelopeArgs seq tag (Some o)) (Some v) Hr) as H1.
  destruct (Envelope_create _ b) as [env b1]. cbn [fst snd] in *. unfold finish_envelope_buffer.
  eapply text_inline; [apply H1; first [field_ok | held]|by left|]. apply (ht_tab s _ Envelope_VT_PAYLOAD v); [|done].
  apply slot_in. built_slot.
Qed.

(** So a hello is longer than the server's name. *)
Lemma server_hello_longer `{FBI : !FlatBuffersInline}
    seq accepted reason player_id server_name balance caps clock seed epoch_day :
  inU 32 seq -> is_str reason -> inU 64 player_id -> is_str server_name -> inS 64 balance -> Caps_ok caps ->
  clock_ok clock -> inU 64 seed -> inU 32 epoch_day ->
  Z.of_nat (String.length server_name) <=
    len (server_hello seq accepted reason player_id server_name balance caps clock seed epoch_day).
Proof.
  intros Hs Hr Hp Hn Hb Hcaps Hclk Hse Hed.
  destruct (server_hello_built seq accepted reason player_id server_name balance caps clock seed epoch_day)
    as (b & O & o & l & -> & H1 & Ho & Hl & _); [done..|].
  apply (envelope_inline b O o (VTab l)); [done|done| |done|done].
  apply (ht_tab _ _ _ _ (slot_in _ _ _ Hl)), ht_str.
Qed.

(** ** Messages of a client

    Built with the same bindings: the strings first, then the table. *)
Definition opt_string (s : option string) (b : Builder) : option WIPOffset * Builder :=
  match s with
  | Some s => let '(o, b) := create_string s b in (Some o, b)
  | None => (None, b)
  end.

Definition client_envelope (seq : Z) (m : Payload) : list Z :=
  let fbb := builder_new in
  match m with
  | PClientHello h =>
      let '(name, fbb) := opt_string (ch_display_name h) fbb in
      let '(token, fbb) := opt_string (ch_token h) fbb in
      let '(game, fbb) := opt_string (ch_game_build h) fbb in
      let '(modv, fbb) := opt_string (ch_mod_version h) fbb in
      let '(api, fbb) := opt_string (ch_api_surface_hash h) fbb in
      let '(o, fbb) := ClientHello_create (mkClientHelloArgs (ch_protocol_version h) name token game modv api) fbb in
      (finish_envelope seq Payload_ClientHello o fbb).1
  | PClientState c =>
      let '(o, fbb) :=
        ClientState_create
          (mkClientStateArgs (Vec3_of <$> cs_pos c) (QuatC_of <$> cs_rot c) (Vec3_of <$> cs_vel c)
             (cs_aboard_boat c) (cs_t_ms c)) fbb in
      (finish_envelope seq Payload_ClientState o fbb).1
  | PMoorRequest r =>
      let '(name, fbb) := opt_string (mq_name r) fbb in
      let '(o, fbb) :=
        MoorRequest_create (mkMoorRequestArgs (Vec3_of <$> mq_pos r) (QuatC_of <$> mq_rot r) name) fbb in
      (finish_envelope seq Payload_MoorRequest o fbb).1
  | PEconTxn t =>
      let '(note, fbb) := opt_string (et_note t) fbb in
      let '(o, fbb) := EconTxn_create (mkEconTxnArgs (et_txn_id t) (et_amount_gold t) (et_kind t) note) fbb in
      (finish_envelope seq Payload_EconTxn o fbb).1
  | PMarketTradeRequest r =>
      let '(o, fbb) :=
        MarketTradeRequest_create
          (mkMarketTradeRequestArgs (mr_txn_id r) (mr_port_id r) (mr_item_id r) (mr_qty r)
             (mr_unit_price r)) fbb in
      (finish_envelope seq Payload_MarketTradeRequest o fbb).1
  | PChatSend c =>
      let '(text, fbb) := opt_string (ct_text c) fbb in
      let '(o, fbb) := ChatSend_create (mkChatSendArgs text (ct_channel c)) fbb in
      (finish_envelope seq Payload_ChatSend o fbb).1
  | _ => []
  end.

Definition from_client (m : Payload) : bool :=
  match m with
  | PClientHello _ | PClientState _ | PMoorRequest _ | PEconTxn _ | PMarketTradeRequest _ | PChatSend _ => true
  | _ => false
  end.

Lemma orefs_mono O O' o v : orefs O o v -> orefs (O' ++ O) o v.
Proof. intros H. destruct H; constructor. set_solver. Qed.

Lemma opt_string_created s b O :
  oall (fun s => str_ok s = true) s -> repr b O None ->
  exists O', repr (opt_string s b).2 (O' ++ O) None /\ orefs (O' ++ O) (opt_string s b).1 (VStr <$> s).
Proof.
  intros Hs Hr. destruct s as [s|]; [|by exists []; split; [|constructor]]. cbn [opt_string].
  pose proof (create_string_law b O s Hr (Hs s eq_refl)) as H. destruct (create_string s b) as [o b1].
  exists [(o, VStr s)]. split; [done|]. apply orefs_Some. by left.
Qed.

Lemma Vec3_opt_ok o : oall (bytes_ok Vec3_size) (Vec3_of <$> o).
Proof. destruct o; [apply Vec3_of_ok|done]. Qed.
Lemma QuatC_opt_ok o : oall (bytes_ok QuatC_size) (QuatC_of <$> o).
Proof. destruct o; [apply QuatC_of_ok|done]. Qed.
Lemma Vec3_opt_read o : oall vec3_ok o -> Vec3_view <$> (Vec3_of <$> o) = o.
Proof. intros H. destruct o as [v|]; [|done]. simpl. by rewrite (Vec3_view_of v (H v eq_refl)). Qed.
Lemma QuatC_opt_read o : oall quat_ok o -> QuatC_view <$> (QuatC_of <$> o) = o.
Proof. intros H. destruct o as [v|]; [|done]. simpl. by rewrite (QuatC_view_of v (H v eq_refl)). Qed.

(** Writes one optional string; what was written before is still there. *)
Ltac write_string H Hs :=
  let O := fresh "O" in let H' := fresh "Hw" in let R := fresh "R" in
  let o := fresh "s" in let b := fresh "b" in
  destruct (opt_string_created _ _ _ Hs H) as (O & H' & R);
  destruct (opt_string _ _) as [o b]; cbn [fst snd] in H', R.

Lemma client_hello_reads_back seq h :
  inU 32 seq -> ClientHello_ok h -> reads_back (client_envelope seq (PClientHello h)) seq (PClientHello h).
Proof.
  intros Hs (Hv & Hn & Ht & Hg & Hm & Ha). cbn [client_envelope]. cbv zeta.
  write_string builder_new_law Hn. write_string Hw Ht. write_string Hw0 Hg. write_string Hw1 Hm.
  write_string Hw2 Ha.
  set (args := mkClientHelloArgs _ _ _ _ _ _).
  pose proof (ClientHello_created b3 _ args (VStr <$> ch_display_name h) (VStr <$> ch_token h)
    (VStr <$> ch_game_build h) (VStr <$> ch_mod_version h) (VStr <$> ch_api_surface_hash h) Hw3) as H6.
  destruct (ClientHello_create args b3) as [o b5].
  eapply (finish_reads_back b5 _ o _ TClientHello ClientHello_view); try done.
  - apply H6; try field_ok; repeat first [assumption | apply orefs_mono].
  - held.
  - eapply (ClientHello_encodes 62 args); field_ok.
  - destruct h. view_arm_at.
Qed.

Lemma client_state_reads_back seq c :
  inU 32 seq -> ClientState_ok c -> reads_back (client_envelope seq (PClientState c)) seq (PClientState c).
Proof.
  intros Hs (Hp & Hr & Hv & Ha & Ht). cbn [client_envelope]. cbv zeta.
  set (args := mkClientStateArgs _ _ _ _ _).
  pose proof (ClientState_created builder_new [] args builder_new_law (Vec3_opt_ok _) (QuatC_opt_ok _)
    (Vec3_opt_ok _) Ha Ht) as H1.
  destruct (ClientState_create args builder_new) as [o b1].
  eapply (finish_reads_back b1 _ o _ TClientState ClientState_view); try done.
  - held.
  - apply (ClientState_encodes 62 args (Vec3_opt_ok _) (QuatC_opt_ok _) (Vec3_opt_ok _) Ha Ht).
  - destruct c. cbn [args ClientStateArgs_pos ClientStateArgs_rot ClientStateArgs_vel].
    rewrite !Vec3_opt_read, QuatC_opt_read by done. view_arm_at.
Qed.

Lemma moor_request_reads_back seq r :
  inU 32 seq -> MoorRequest_ok r -> reads_back (client_envelope seq (PMoorRequest r)) seq (PMoorRequest r).
Proof.
  intros Hs (Hp & Hr & Hn). cbn [client_envelope]. cbv zeta. write_string builder_new_law Hn.
  set (args := mkMoorRequestArgs _ _ _).
  pose proof (MoorRequest_created b _ args (VStr <$> mq_name r) Hw R (Vec3_opt_ok _) (QuatC_opt_ok _)) as H1.
  destruct (MoorRequest_create args b) as [o b1].
  eapply (finish_reads_back b1 _ o _ TMoorRequest MoorRequest_view); try done.
  - held.
  - apply (MoorRequest_encodes 62 args (mq_name r) (Vec3_opt_ok _) (QuatC_opt_ok _) Hn).
  - destruct r. cbn [args MoorRequestArgs_pos MoorRequestArgs_rot].
    rewrite Vec3_opt_read, QuatC_opt_read by done. view_arm_at.
Qed.

Lemma econ_txn_reads_back seq t :
  inU 32 seq -> EconTxn_ok t -> reads_back (client_envelope seq (PEconTxn t)) seq (PEconTxn t).
Proof.
  intros Hs (Ht & Ha & Hk & Hn). cbn [client_envelope]. cbv zeta. write_string builder_new_law Hn.
  set (args := mkEconTxnArgs _ _ _ _).
  pose proof (EconTxn_created b _ args (VStr <$> et_note t) Hw R Ht Ha Hk) as H1.
  destruct (EconTxn_create args b) as [o b1].
  eapply (finish_reads_back b1 _ o _ TEconTxn EconTxn_view); try done.
  - held.
  - apply (EconTxn_encodes 62 args (et_note t) Ht Ha Hk Hn).
  - destruct t. view_arm_at.
Qed.

Lemma trade_request_reads_back seq r :
  inU 32 seq -> MarketTradeRequest_ok r ->
  reads_back (client_envelope seq (PMarketTradeRequest r)) seq (PMarketTradeRequest r).
Proof.
  intros Hs (Ht & Hp & Hi & Hq & Hu). cbn [client_envelope]. cbv zeta.
  set (args := mkMarketTradeRequestArgs _ _ _ _ _).
  pose proof (MarketTradeRequest_created builder_new [] args builder_new_law Ht Hp Hi Hq Hu) as H1.
  destruct (MarketTradeRequest_create args builder_new) as [o b1].
  eapply (finish_reads_back b1 _ o _ TMarketTradeRequest MarketTradeRequest_view); try done.
  - held.
  - apply (MarketTradeRequest_encodes 62 args Ht Hp Hi Hq Hu).
  - destruct r. view_arm_at.
Qed.

Lemma chat_send_reads_back seq c :
  inU 32 seq -> ChatSend_ok c -> reads_back (client_envelope seq (PChatSend c)) seq (PChatSend c).
Proof.
  intros Hs (Ht & Hc). cbn [client_envelope]. cbv zeta. write_string builder_new_law Ht.
  set (args := mkChatSendArgs _ _).
  pose proof (ChatSend_created b _ args (VStr <$> ct_text c) Hw R Hc) as H1.
  destruct (ChatSend_create args b) as [o b1].
  eapply (finish_reads_back b1 _ o _ TChatSend ChatSend_view); try done.
  - held.
  - apply (ChatSend_encodes 62 args (ct_text c) Ht Hc).
  - destruct c. view_arm_at.
Qed.

(** ** Decoding arbitrary bytes *)
Lemma decode_sound bytes e :
  decode_envelope bytes = Some e ->
  exists tab l, root_as_envelope bytes = Some tab /\ e = Envelope_view tab /\ reads tab l /\
    verify run_verifier max_depth (FTable TEnvelope) (VTab l) = true.
Proof.
  unfold decode_envelope. destruct (root_as_envelope bytes) as [tab|] eqn:E; [|done]. intros [= <-].
  destruct (root_sound _ _ _ _ E) as (l & Hr & Hv). eauto 10.
Qed.

(** The discriminant slot of a verified envelope is a [u8]. *)
Lemma Envelope_key n tab l :
  reads tab l -> verify run_verifier n (FTable TEnvelope) (VTab l) = true ->
  forall v, slot Envelope_VT_PAYLOAD_TYPE l = Some v -> scalar_shape U8 v = true.
Proof.
  intros Hr Hv v Hs. destruct n as [|n]; [done|]. cbn [verify] in Hv.
  change (run_verifier TEnvelope) with Envelope_run_verifier in Hv. cbn [Envelope_run_verifier forallb] in Hv.
  apply andb_true_iff in Hv as [_ Hv]. apply andb_true_iff in Hv as [Hv _]. cbn [visit_ok] in Hv.
  rewrite Hs in Hv. destruct (slot Envelope_VT_PAYLOAD l); [|done].
  destruct v as [[] k| | | | | |]; try done. apply andb_true_iff in Hv as [Hk _]. simpl. by rewrite Hk.
Qed.

(** [get] with a default answers on a slot of the right shape. *)
Lemma get_answers tab l t vt d :
  reads tab l -> (forall v, slot vt l = Some v -> scalar_shape t v = true) ->
  is_Some (get (FScalar t) tab vt (Some d)).
Proof.
  intros Hr Hs. destruct (slot vt l) as [v|] eqn:E.
  - destruct (get_present tab l (FScalar t) vt (Some d) v Hr E (Hs v eq_refl)) as (x & -> & _). eauto.
  - rewrite (get_absent tab l) by done. eauto.
Qed.

(** The fuzz target: a call that would panic is [None]. *)
Definition fuzz_target (data : list Z) : option (option Table) :=
  match root_as_envelope data with
  | None => Some None
  | Some env =>
      _ ← get (FScalar U32) env Envelope_VT_SEQ (Some 0);
      payload_type ← get (FScalar U8) env Envelope_VT_PAYLOAD_TYPE (Some Payload_NONE);
      Some (if payload_type =? Payload_ClientHello then payload_as_client_hello env
            else if payload_type =? Payload_ClientState then payload_as_client_state env
            else if payload_type =? Payload_EconTxn then payload_as_econ_txn env
            else if payload_type =? Payload_MarketTradeRequest then payload_as_market_trade_request env
            else if payload_type =? Payload_MoorRequest then payload_as_moor_request env
            else if payload_type =? Payload_ChatSend then payload_as_chat_send env
            else None)
  end.

(** The discriminants the server handles. *)
Definition client_tags : list Z :=
  [Payload_ClientHello; Payload_ClientState; Payload_EconTxn; Payload_MarketTradeRequest;
   Payload_MoorRequest; Payload_ChatSend].

Lemma fuzz_arm n tab l T tag :
  reads tab l -> verify run_verifier n (FTable TEnvelope) (VTab l) = true ->
  Envelope_payload_type tab = tag -> tag <> Payload_NONE -> Envelope_payload_arm tag = Some (FTable T) ->
  is_Some (if Envelope_payload_type tab =? tag then (fun t => t) <$> Envelope_payload tab else None).
Proof.
  intros Hr Hv Ht Hne Ha. rewrite Ht, Z.eqb_refl.
  destruct (Envelope_arm n tab l T Hr Hv) as (k & tab' & l' & -> & _); [by rewrite Ht..|]. eauto.
Qed.

End Codec.

(** ** Theorems *)

(** C12.  What a client writes is what the server reads.  On any FlatBuffers runtime
    that keeps its documented laws, a client message of any kind, with fields of
    their Rust types, written through the generated bindings is stamped with the
    file identifier, and if its buffer is within the verifier's size limit
    [decode_envelope] returns its sequence number and exactly that message. *)
Theorem client_messages_decode `{FBL : FlatBuffersLaws} (seq : Z) (m : Payload) :
  inU 32 seq -> from_client m = true -> Payload_typed m ->
  envelope_buffer_has_identifier (client_envelope seq m) = true /\
  (len (client_envelope seq m) <= max_buffer ->
   decode_envelope (client_envelope seq m) = Some (mkEnvelope seq m)).
Proof.
  intros Hs Hc Hm. destruct m; try discriminate Hc; cbn [Payload_typed] in Hm.
  - by apply client_hello_reads_back.
  - by apply client_state_reads_back.
  - by apply moor_request_reads_back.
  - by apply econ_txn_reads_back.
  - by apply chat_send_reads_back.
  - by apply trade_request_reads_back.
Qed.

Definition sample_hello : Payload :=
  PClientHello (mkClientHello 1 (Some "ahab"%string) (Some "tok-123"%string) None None (Some "api"%string)).

Lemma client_messages_decode_witness :
  decode_envelope (client_envelope 7 sample_hello) = Some (mkEnvelope 7 sample_hello).
Proof.
  apply (client_messages_decode 7 sample_hello).
  - unfold inU. lia.
  - reflexivity.
  - repeat split; try (intros s [= <-]); reflexivity.
  - vm_compute. discriminate.
Defined.

(** C15.  What the server's control messages say is what a client reads: hello,
    clock, mooring, ledger, market and chat replies carry the identifier, decode
    within the verifier's limit to their sequence number and payload, and every
    field reads back as it was given, except that an inline float equal to the
    default reads back as [0.0], so that a negative zero loses its sign. *)
Theorem control_messages_roundtrip `{FBL : FlatBuffersLaws} (seq : Z) :
  inU 32 seq ->
  (forall accepted reason player_id server_name balance caps clock seed epoch_day,
     is_str reason -> inU 64 player_id -> is_str server_name -> inS 64 balance -> Caps_ok caps ->
     clock_ok clock -> inU 64 seed -> inU 32 epoch_day ->
     reads_back (server_hello seq accepted reason player_id server_name balance caps clock seed epoch_day) seq
       (PServerHello (mkServerHello accepted (Some reason) player_id (Some server_name) balance
          (Some (caps_read caps)) (Some (clock_read clock)) (Some (mkWeatherSeed seed epoch_day))))) /\
  (forall clock, clock_ok clock -> reads_back (world_clock seq clock) seq (PWorldClock (clock_read clock))) /\
  (forall accepted record reason, oall MooringSnap_ok record -> is_str reason ->
     reads_back (moor_ack seq accepted record reason) seq
       (PMoorAck (mkMoorAck accepted (mooring_read <$> record) (Some reason)))) /\
  (forall ack, inU 64 (Ledger.ack_txn_id ack) -> inS 64 (Ledger.new_balance ack) ->
     is_str (Ledger.reason ack) ->
     reads_back (ledger_ack seq ack) seq
       (PLedgerAck (mkLedgerAckMsg (Ledger.ack_txn_id ack) (Ledger.accepted ack) (Ledger.new_balance ack)
          (Some (Ledger.reason ack))))) /\
  (forall ack, inU 64 (Market.ack_txn_id ack) -> inU 32 (Market.ack_port_id ack) ->
     inU 32 (Market.ack_item_id ack) -> inS 64 (Market.stock ack) -> inS 64 (Market.price ack) ->
     is_str (Market.reason ack) ->
     reads_back (market_state_ack seq ack) seq
       (PMarketStateAck (mkMarketStateAck (Market.ack_txn_id ack) (Market.accepted ack)
          (Market.ack_port_id ack) (Market.ack_item_id ack) (Market.stock ack) (Market.price ack)
          (Some (Market.reason ack))))) /\
  (forall player_id display_name text channel t_ms,
     inU 64 player_id -> is_str display_name -> is_str text -> inU 8 channel -> inU 32 t_ms ->
     reads_back (chat_broadcast seq player_id display_name text channel t_ms) seq
       (PChatBroadcast (mkChatBroadcast player_id (Some display_name) (Some text) channel t_ms))).
Proof.
  intros Hs. split; [intros; by apply server_hello_reads_back|]. split; [intros; by apply world_clock_reads_back|].
  split; [intros; by apply moor_ack_reads_back|]. split; [intros; by apply ledger_ack_reads_back|].
  split; [intros; by apply market_state_ack_reads_back|]. intros; by apply chat_broadcast_reads_back.
Qed.

Lemma control_messages_roundtrip_witness :
  reads_back (chat_broadcast 5 42 "ahab" "ahoy" 0 123) 5
    (PChatBroadcast (mkChatBroadcast 42 (Some "ahab"%string) (Some "ahoy"%string) 0 123)).
Proof.
  apply (control_messages_roundtrip 5); unfold inU; try reflexivity; lia.
Defined.

(** C29.  Snapshots and interest updates read back entry by entry and in order:
    as long as the finished buffer is at most 64 KiB (the limit under which nothing
    in it exceeds the verifier's own; a datagram is far shorter), every player, boat
    and mooring of a snapshot and every cell of an interest update is what a client
    decodes, with its position, rotation and velocity bit for bit.  Every buffer,
    of any length, carries the file identifier. *)
Theorem snapshot_messages_roundtrip `{FBL : FlatBuffersLaws} (seq : Z) (players : list PlayerSnap)
    (boats : list BoatSnap) :
  inU 32 seq -> Forall PlayerSnap_ok players -> Forall BoatSnap_ok boats ->
  (forall server_tick, inU 32 server_tick ->
     reads_back (snapshot_delta seq server_tick players boats) seq
       (PSnapshotDelta (mkSnapshotDelta server_tick (Some (player_read <$> players))
                          (Some (boat_read <$> boats))))) /\
  (forall c moorings, cell_ok (cell_xy c) -> Forall MooringSnap_ok moorings ->
     reads_back (cell_snapshot seq c players boats moorings) seq
       (PCellSnapshot (mkCellSnapshot (Some (cell_xy c)) (Some (player_read <$> players))
          (Some (boat_read <$> boats)) (Some (mooring_read <$> moorings))))) /\
  (forall added removed, Forall (fun c => cell_ok (cell_xy c)) added ->
     Forall (fun c => cell_ok (cell_xy c)) removed ->
     reads_back (aoi_update seq added removed) seq
       (PAoiUpdate (mkAoiUpdateMsg (Some (cell_xy <$> added)) (Some (cell_xy <$> removed))))).
Proof.
  intros Hs Hp Hb. split; [intros; by apply snapshot_delta_reads_back|].
  split; [intros; by apply cell_snapshot_reads_back|]. intros; by apply aoi_update_reads_back.
Qed.

Definition sample_player : PlayerSnap :=
  mkPlayerSnap 7 (f32_of_Z 1, f32_of_Z (-2), S754_zero true) (zero32, zero32, zero32, f32_of_Z 1) 0 10.

Lemma snapshot_messages_roundtrip_witness :
  decode_envelope (snapshot_delta 9 100 [sample_player] []) =
  Some (mkEnvelope 9 (PSnapshotDelta (mkSnapshotDelta 100 (Some [player_read sample_player]) (Some [])))).
Proof.
  apply (snapshot_messages_roundtrip 9 [sample_player] []).
  - unfold inU. lia.
  - repeat constructor; unfold inU; simpl; try lia; reflexivity.
  - constructor.
  - unfold inU. lia.
  - vm_compute. discriminate.
Defined.

(** Every field of a decoded message is of its Rust type, whatever bytes
    arrived: integers within their width, strings valid UTF-8, floats IEEE single
    precision values, nested tables and vectors likewise; and a discriminant never
    disagrees with its payload. *)
Lemma decoded_messages_typed `{FBL : FlatBuffersLaws} (bytes : list Z) (e : Envelope) :
  decode_envelope bytes = Some e -> inU 32 (env_seq e) /\ Payload_typed (env_payload e).
Proof.
  intros H. destruct (decode_sound bytes e H) as (tab & l & _ & -> & Hr & Hv).
  destruct (Envelope_reads_as _ tab l Hr Hv) as [Hs Hp]. split; [by apply bool_decide_eq_true in Hs|done].
Qed.

(** The decoder's contract holds on arbitrary bytes: the fuzz target never
    panics, the accessors it calls always answer, and when the discriminant is one
    the server handles, the payload behind it is there. *)
Lemma fuzz_target_completes `{FBL : FlatBuffersLaws} (data : list Z) :
  exists r, fuzz_target data = Some r /\
  forall env, root_as_envelope data = Some env -> Envelope_payload_type env ∈ client_tags -> is_Some r.
Proof.
  unfold fuzz_target. destruct (root_as_envelope data) as [env|] eqn:E; [|by eexists].
  destruct (root_sound _ _ _ _ E) as (l & Hr & Hv).
  assert (is_Some (get (FScalar U32) env Envelope_VT_SEQ (Some 0))) as [sq Hsq].
  { apply (get_answers env l); [done|].
    intros v Hs. destruct (verify_field run_verifier max_depth TEnvelope l (FScalar U32) "seq"
      Envelope_VT_SEQ false Hv ltac:(by left) v Hs) as [k Hk]. by apply verify_shape in Hk. }
  assert (is_Some (get (FScalar U8) env Envelope_VT_PAYLOAD_TYPE (Some Payload_NONE))) as [k Hk].
  { apply (get_answers env l); [done|]. by apply (Envelope_key max_depth env l). }
  rewrite Hsq. cbn [mbind option_bind]. rewrite Hk. cbn [mbind option_bind].
  assert (Ht : Envelope_payload_type env = k) 
    by (change (default Payload_NONE (get (FScalar U8) env Envelope_VT_PAYLOAD_TYPE (Some Payload_NONE)) = k);
        by rewrite Hk).
  eexists. split; [reflexivity|]. intros env' [= <-] Hin. rewrite Ht in Hin.
  pose proof (fun T => fuzz_arm max_depth env l T k Hr Hv Ht) as Harm.
  repeat (apply elem_of_cons in Hin as [->|Hin];
    [eapply Harm; [done|reflexivity]|]). by apply elem_of_nil in Hin.
Qed.

(** C17.  Decoding arbitrary bytes is safe and typed.  Whatever arrived, every
    field of a decoded message is of its Rust type: integers within their width,
    strings valid UTF-8, floats IEEE single precision values, nested tables and
    vectors likewise, and the discriminant never disagrees with the payload.  The
    fuzz target, which calls the unwrapping accessors on every accepted buffer,
    never panics, and finds the payload behind every discriminant the server
    handles. *)
Theorem decoding_typed `{FBL : FlatBuffersLaws} (bytes : list Z) :
  (forall e, decode_envelope bytes = Some e -> inU 32 (env_seq e) /\ Payload_typed (env_payload e)) /\
  exists r, fuzz_target bytes = Some r /\
    forall env, root_as_envelope bytes = Some env -> Envelope_payload_type env ∈ client_tags -> is_Some r.
Proof. split; [apply decoded_messages_typed|apply fuzz_target_completes]. Qed.

Lemma decoding_typed_witness :
  decode_envelope (client_envelope 7 sample_hello) = Some (mkEnvelope 7 sample_hello) /\
  (inU 32 7 /\ Payload_typed sample_hello) /\
  (exists r, fuzz_target (FB := tree_runtime) (client_envelope 7 sample_hello) = Some r /\ is_Some r) /\
  fuzz_target (FB := tree_runtime) [0; 0; 0] = Some None.
Proof.
  assert (E : decode_envelope (client_envelope 7 sample_hello) = Some (mkEnvelope 7 sample_hello))
    by (vm_compute; reflexivity).
  destruct (decoding_typed (FB := tree_runtime) (client_envelope 7 sample_hello)) as (Ht & r & Ef & H).
  split; [exact E|]. split; [exact (Ht _ E)|]. split; [|reflexivity].
  exists r. split; [exact Ef|]. destruct (root_as_envelope (client_envelope 7 sample_hello)) as [env|] eqn:Er.
  - apply (H env eq_refl). vm_compute in Er. injection Er as <-. vm_compute. left.
  - vm_compute in Er. discriminate Er.
Defined.
