(* ===== verification/Bindings.v ===== *)
(** * The rest of the generated bindings

    What server/crates/sw-contracts/src/generated/envelope_generated.rs has besides
    the tables: the [Debug] text of every struct and table, the glue that reads and
    writes structs and the discriminant in a buffer, and the roots the server does
    not use (size prefixed, with options, unchecked).  The runtime functions they
    call are a second interface, [FlatBuffersMore], with what it documents as
    [FlatBuffersMoreLaws]; the trees of [FlatTree] are an instance.

    The lemmas at the end: a struct pushed into a buffer is the one followed there;
    the [Debug] text of an accepted buffer never shows the text for a union that does
    not match its discriminant; a message finished with a size prefix reads as the
    same message. *)

From S2P Require Import Prelude Float Wire Structs Flat Tables TableSpecs FlatTree Codec CodecProps.

(** ** What is handed to a [Formatter]

    [debug_struct], [field] and [finish] of [core::fmt], as a tree; [DWord] is text
    written as it is, [DStr] a string shown as a literal. *)
Inductive Dbg :=
| DInt (n : Z)
| DF32 (x : f32)
| DBool (b : bool)
| DStr (s : string)
| DWord (s : string)
| DNone
| DSome (d : Dbg)
| DList (l : list Dbg)
| DStruct (name : string) (fields : list (string * Dbg)).

Class Debug (A : Type) := fmt : A -> Dbg.

#[global] Instance debug_dbg : Debug Dbg := fun d => d.
#[global] Instance debug_int : Debug Z := DInt.
#[global] Instance debug_f32 : Debug f32 := DF32.
#[global] Instance debug_bool : Debug bool := DBool.
#[global] Instance debug_str : Debug string := DStr.
#[global] Instance debug_option `{Debug A} : Debug (option A) :=
  fun o => match o with Some x => DSome (fmt x) | None => DNone end.
#[global] Instance debug_list `{Debug A} : Debug (list A) := fun l => DList (map fmt l).

Record DebugStruct := mkDebugStruct { ds_name : string; ds_fields : list (string * Dbg) }.

Definition debug_struct (name : string) : DebugStruct := mkDebugStruct name [].
Definition ds_field (name : string) (d : Dbg) (ds : DebugStruct) : DebugStruct :=
  mkDebugStruct (ds_name ds) (ds_fields ds ++ [(name, d)]).
Definition ds_finish (ds : DebugStruct) : Dbg := DStruct (ds_name ds) (ds_fields ds).

Definition invalid_union : string := "InvalidFlatbuffer: Union discriminant does not match value.".

(** [<[u8]>::copy_from_slice], which panics on different lengths. *)
Definition copy_from_slice (dst src : list Z) : option (list Z) :=
  if decide (length dst = length src) then Some src else None.

(** ** The runtime functions they call *)
Class FlatBuffersMore `{FB : FlatBuffers} := {
  VerifierOptions : Type;
  default_options : VerifierOptions;
  table_new : list Z -> Z -> Table;
  read_scalar_at : list Z -> Z -> Z;
  emplace_scalar : list Z -> Z -> list Z;
  follow_cast_ref : nat -> list Z -> Z -> list Z;
  in_buffer : nat -> list Z -> Z -> bool;
  root_with_opts :
    VerifierOptions -> (TableTy -> list visit) -> TableTy -> list Z -> option Table;
  root_unchecked : (list Z -> Z -> Table) -> list Z -> Table;
  size_prefixed_root : (TableTy -> list visit) -> TableTy -> list Z -> option Table;
  size_prefixed_root_with_opts :
    VerifierOptions -> (TableTy -> list visit) -> TableTy -> list Z -> option Table;
  size_prefixed_root_unchecked : (list Z -> Z -> Table) -> list Z -> Table;
  finish_size_prefixed : WIPOffset -> option string -> Builder -> Builder
}.

(** [follow] casts the bytes at a location, [in_buffer] checks that they are inside,
    the roots with options and the unchecked ones do what the plain ones do, and
    a size prefix changes the framing only. *)
Class FlatBuffersMoreLaws `{FBL : FlatBuffersLaws} {FBM : FlatBuffersMore} := {
  follow_cast_law n buf loc :
    0 <= loc -> loc + Z.of_nat n <= len buf ->
    follow_cast_ref n buf loc = slice (Z.to_nat loc) (Z.to_nat loc + n) buf;
  in_buffer_law n buf loc : in_buffer n buf loc = true -> 0 <= loc /\ loc + Z.of_nat n <= len buf;
  read_emplace_law dst p pre :
    dst <> [] -> inU 8 p -> read_scalar_at (pre ++ emplace_scalar dst p) (len pre) = p;
  root_default_law rv T buf : root_with_opts default_options rv T buf = root rv T buf;
  root_unchecked_law rv T buf tab : root rv T buf = Some tab -> root_unchecked table_new buf = tab;
  prefixed_default_law rv T buf :
    size_prefixed_root_with_opts default_options rv T buf = size_prefixed_root rv T buf;
  prefixed_unchecked_law rv T buf tab :
    size_prefixed_root rv T buf = Some tab -> size_prefixed_root_unchecked table_new buf = tab;
  prefixed_complete b O o l rv T id :
    repr b O None -> (o, VTab l) ∈ O -> verify rv max_depth (FTable T) (VTab l) = true ->
    String.length id = 4%nat -> len (finished_data (finish_size_prefixed o (Some id) b)) <= max_buffer ->
    exists tab, size_prefixed_root rv T (finished_data (finish_size_prefixed o (Some id) b)) = Some tab /\
      reads tab l;
  prefixed_identifier_law b O o v id :
    repr b O None -> (o, v) ∈ O -> String.length id = 4%nat ->
    buffer_has_identifier (finished_data (finish_size_prefixed o (Some id) b)) id true = true
}.

Section Bindings.
Context `{FBM : FlatBuffersMore}.

(** ** Vec3 *)
Definition Vec3_fmt (s : list Z) : Dbg :=
  let ds := debug_struct "Vec3" in
  let ds := ds_field "x" (fmt (Vec3_x s)) ds in
  let ds := ds_field "y" (fmt (Vec3_y s)) ds in
  let ds := ds_field "z" (fmt (Vec3_z s)) ds in
  ds_finish ds.
Definition Vec3_follow (buf : list Z) (loc : Z) : list Z := follow_cast_ref 12 buf loc.
Definition Vec3_push (s dst : list Z) : option (list Z) := copy_from_slice dst s.
Definition Vec3_alignment : Z := 4.
Definition Vec3_run_verifier (v : list Z) (pos : Z) : bool := in_buffer 12 v pos.

(** ** QuatC *)
Definition QuatC_fmt (s : list Z) : Dbg :=
  let ds := debug_struct "QuatC" in
  let ds := ds_field "x" (fmt (QuatC_x s)) ds in
  let ds := ds_field "y" (fmt (QuatC_y s)) ds in
  let ds := ds_field "z" (fmt (QuatC_z s)) ds in
  let ds := ds_field "w" (fmt (QuatC_w s)) ds in
  ds_finish ds.
Definition QuatC_follow (buf : list Z) (loc : Z) : list Z := follow_cast_ref 16 buf loc.
Definition QuatC_push (s dst : list Z) : option (list Z) := copy_from_slice dst s.
Definition QuatC_alignment : Z := 4.
Definition QuatC_run_verifier (v : list Z) (pos : Z) : bool := in_buffer 16 v pos.

(** ** GridCell *)
Definition GridCell_fmt (s : list Z) : Dbg :=
  let ds := debug_struct "GridCell" in
  let ds := ds_field "cx" (fmt (GridCell_cx s)) ds in
  let ds := ds_field "cz" (fmt (GridCell_cz s)) ds in
  ds_finish ds.
Definition GridCell_follow (buf : list Z) (loc : Z) : list Z := follow_cast_ref 8 buf loc.
Definition GridCell_push (s dst : list Z) : option (list Z) := copy_from_slice dst s.
Definition GridCell_alignment : Z := 4.
Definition GridCell_run_verifier (v : list Z) (pos : Z) : bool := in_buffer 8 v pos.

(** ** The discriminant *)
Definition ENUM_MIN_PAYLOAD : Z := 0.
Definition ENUM_MAX_PAYLOAD : Z := 15.
Definition ENUM_VALUES_PAYLOAD : list Z :=
  [Payload_NONE; Payload_ClientHello; Payload_ServerHello; Payload_ClientState;
   Payload_SnapshotDelta; Payload_AoiUpdate; Payload_CellSnapshot; Payload_MoorRequest;
   Payload_MoorAck; Payload_EconTxn; Payload_LedgerAck; Payload_ChatSend;
   Payload_ChatBroadcast; Payload_WorldClock; Payload_MarketTradeRequest; Payload_MarketStateAck].
Definition Payload_follow (buf : list Z) (loc : Z) : Z := read_scalar_at buf loc.
Definition Payload_push (p : Z) (dst : list Z) : list Z := emplace_scalar dst p.
(** One byte is its own little-endian form. *)
Definition Payload_to_little_endian (p : Z) : Z := p.
Definition Payload_from_little_endian (v : Z) : Z := v.
Definition Payload_run_verifier (v : list Z) (pos : Z) : bool := in_buffer 1 v pos.

(** ** WorldClock *)
Definition WorldClock_follow (buf : list Z) (loc : Z) : Table := table_new buf loc.
Definition WorldClock_fmt (tab : Table) : Dbg :=
  let ds := debug_struct "WorldClock" in
  let ds := ds_field "day" (fmt (WorldClock_day tab)) ds in
  let ds := ds_field "time_of_day" (fmt (WorldClock_time_of_day tab)) ds in
  let ds := ds_field "moon_phase" (fmt (WorldClock_moon_phase tab)) ds in
  ds_finish ds.

(** ** WeatherSeed *)
Definition WeatherSeed_follow (buf : list Z) (loc : Z) : Table := table_new buf loc.
Definition WeatherSeed_fmt (tab : Table) : Dbg :=
  let ds := debug_struct "WeatherSeed" in
  let ds := ds_field "seed" (fmt (WeatherSeed_seed tab)) ds in
  let ds := ds_field "epoch_day" (fmt (WeatherSeed_epoch_day tab)) ds in
  ds_finish ds.

(** ** CapabilityManifest *)
Definition CapabilityManifest_follow (buf : list Z) (loc : Z) : Table := table_new buf loc.
Definition CapabilityManifest_fmt (tab : Table) : Dbg :=
  let ds := debug_struct "CapabilityManifest" in
  let ds := ds_field "protocol_version" (fmt (CapabilityManifest_protocol_version tab)) ds in
  let ds := ds_field "features" (fmt (CapabilityManifest_features tab)) ds in
  let ds := ds_field "tick_hz" (fmt (CapabilityManifest_tick_hz tab)) ds in
  let ds := ds_field "snapshot_hz" (fmt (CapabilityManifest_snapshot_hz tab)) ds in
  let ds := ds_field "aoi_radius_cells" (fmt (CapabilityManifest_aoi_radius_cells tab)) ds in
  let ds := ds_field "cell_size_m" (fmt (CapabilityManifest_cell_size_m tab)) ds in
  ds_finish ds.

(** ** ClientHello *)
Definition ClientHello_follow (buf : list Z) (loc : Z) : Table := table_new buf loc.
Definition ClientHello_fmt (tab : Table) : Dbg :=
  let ds := debug_struct "ClientHello" in
  let ds := ds_field "protocol_version" (fmt (ClientHello_protocol_version tab)) ds in
  let ds := ds_field "display_name" (fmt (ClientHello_display_name tab)) ds in
  let ds := ds_field "token" (fmt (ClientHello_token tab)) ds in
  let ds := ds_field "game_build" (fmt (ClientHello_game_build tab)) ds in
  let ds := ds_field "mod_version" (fmt (ClientHello_mod_version tab)) ds in
  let ds := ds_field "api_surface_hash" (fmt (ClientHello_api_surface_hash tab)) ds in
  ds_finish ds.

(** ** ServerHello *)
Definition ServerHello_follow (buf : list Z) (loc : Z) : Table := table_new buf loc.
Definition ServerHello_fmt (tab : Table) : Dbg :=
  let ds := debug_struct "ServerHello" in
  let ds := ds_field "accepted" (fmt (ServerHello_accepted tab)) ds in
  let ds := ds_field "reason" (fmt (ServerHello_reason tab)) ds in
  let ds := ds_field "player_id" (fmt (ServerHello_player_id tab)) ds in
  let ds := ds_field "server_name" (fmt (ServerHello_server_name tab)) ds in
  let ds := ds_field "balance_gold" (fmt (ServerHello_balance_gold tab)) ds in
  let ds := ds_field "capabilities" (fmt (CapabilityManifest_fmt <$> ServerHello_capabilities tab)) ds in
  let ds := ds_field "clock" (fmt (WorldClock_fmt <$> ServerHello_clock tab)) ds in
  let ds := ds_field "weather" (fmt (WeatherSeed_fmt <$> ServerHello_weather tab)) ds in
  ds_finish ds.

(** ** PlayerState *)
Definition PlayerState_follow (buf : list Z) (loc : Z) : Table := table_new buf loc.
Definition PlayerState_fmt (tab : Table) : Dbg :=
  let ds := debug_struct "PlayerState" in
  let ds := ds_field "player_id" (fmt (PlayerState_player_id tab)) ds in
  let ds := ds_field "pos" (fmt (Vec3_fmt <$> PlayerState_pos tab)) ds in
  let ds := ds_field "rot" (fmt (QuatC_fmt <$> PlayerState_rot tab)) ds in
  let ds := ds_field "aboard_boat" (fmt (PlayerState_aboard_boat tab)) ds in
  let ds := ds_field "t_ms" (fmt (PlayerState_t_ms tab)) ds in
  ds_finish ds.

(** ** BoatState *)
Definition BoatState_follow (buf : list Z) (loc : Z) : Table := table_new buf loc.
Definition BoatState_fmt (tab : Table) : Dbg :=
  let ds := debug_struct "BoatState" in
  let ds := ds_field "boat_id" (fmt (BoatState_boat_id tab)) ds in
  let ds := ds_field "owner" (fmt (BoatState_owner tab)) ds in
  let ds := ds_field "pos" (fmt (Vec3_fmt <$> BoatState_pos tab)) ds in
  let ds := ds_field "rot" (fmt (QuatC_fmt <$> BoatState_rot tab)) ds in
  let ds := ds_field "vel" (fmt (Vec3_fmt <$> BoatState_vel tab)) ds in
  let ds := ds_field "t_ms" (fmt (BoatState_t_ms tab)) ds in
  ds_finish ds.

(** ** ClientState *)
Definition ClientState_follow (buf : list Z) (loc : Z) : Table := table_new buf loc.
Definition ClientState_fmt (tab : Table) : Dbg :=
  let ds := debug_struct "ClientState" in
  let ds := ds_field "pos" (fmt (Vec3_fmt <$> ClientState_pos tab)) ds in
  let ds := ds_field "rot" (fmt (QuatC_fmt <$> ClientState_rot tab)) ds in
  let ds := ds_field "vel" (fmt (Vec3_fmt <$> ClientState_vel tab)) ds in
  let ds := ds_field "aboard_boat" (fmt (ClientState_aboard_boat tab)) ds in
  let ds := ds_field "t_ms" (fmt (ClientState_t_ms tab)) ds in
  ds_finish ds.

(** ** SnapshotDelta *)
Definition SnapshotDelta_follow (buf : list Z) (loc : Z) : Table := table_new buf loc.
Definition SnapshotDelta_fmt (tab : Table) : Dbg :=
  let ds := debug_struct "SnapshotDelta" in
  let ds := ds_field "server_tick" (fmt (SnapshotDelta_server_tick tab)) ds in
  let ds := ds_field "players" (fmt (map PlayerState_fmt <$> SnapshotDelta_players tab)) ds in
  let ds := ds_field "boats" (fmt (map BoatState_fmt <$> SnapshotDelta_boats tab)) ds in
  ds_finish ds.

(** ** MoorageRecord *)
Definition MoorageRecord_follow (buf : list Z) (loc : Z) : Table := table_new buf loc.
Definition MoorageRecord_fmt (tab : Table) : Dbg :=
  let ds := debug_struct "MoorageRecord" in
  let ds := ds_field "boat_id" (fmt (MoorageRecord_boat_id tab)) ds in
  let ds := ds_field "owner" (fmt (MoorageRecord_owner tab)) ds in
  let ds := ds_field "cell" (fmt (GridCell_fmt <$> MoorageRecord_cell tab)) ds in
  let ds := ds_field "pos" (fmt (Vec3_fmt <$> MoorageRecord_pos tab)) ds in
  let ds := ds_field "rot" (fmt (QuatC_fmt <$> MoorageRecord_rot tab)) ds in
  let ds := ds_field "name" (fmt (MoorageRecord_name tab)) ds in
  let ds := ds_field "created_at" (fmt (MoorageRecord_created_at tab)) ds in
  ds_finish ds.

(** ** MoorRequest *)
Definition MoorRequest_follow (buf : list Z) (loc : Z) : Table := table_new buf loc.
Definition MoorRequest_fmt (tab : Table) : Dbg :=
  let ds := debug_struct "MoorRequest" in
  let ds := ds_field "pos" (fmt (Vec3_fmt <$> MoorRequest_pos tab)) ds in
  let ds := ds_field "rot" (fmt (QuatC_fmt <$> MoorRequest_rot tab)) ds in
  let ds := ds_field "name" (fmt (MoorRequest_name tab)) ds in
  ds_finish ds.

(** ** MoorAck *)
Definition MoorAck_follow (buf : list Z) (loc : Z) : Table := table_new buf loc.
Definition MoorAck_fmt (tab : Table) : Dbg :=
  let ds := debug_struct "MoorAck" in
  let ds := ds_field "accepted" (fmt (MoorAck_accepted tab)) ds in
  let ds := ds_field "record" (fmt (MoorageRecord_fmt <$> MoorAck_record tab)) ds in
  let ds := ds_field "reason" (fmt (MoorAck_reason tab)) ds in
  ds_finish ds.

(** ** AoiUpdate *)
Definition AoiUpdate_follow (buf : list Z) (loc : Z) : Table := table_new buf loc.
Definition AoiUpdate_fmt (tab : Table) : Dbg :=
  let ds := debug_struct "AoiUpdate" in
  let ds := ds_field "added" (fmt (map GridCell_fmt <$> AoiUpdate_added tab)) ds in
  let ds := ds_field "removed" (fmt (map GridCell_fmt <$> AoiUpdate_removed tab)) ds in
  ds_finish ds.

(** ** CellSnapshot *)
Definition CellSnapshot_follow (buf : list Z) (loc : Z) : Table := table_new buf loc.
Definition CellSnapshot_fmt (tab : Table) : Dbg :=
  let ds := debug_struct "CellSnapshot" in
  let ds := ds_field "cell" (fmt (GridCell_fmt <$> CellSnapshot_cell tab)) ds in
  let ds := ds_field "players" (fmt (map PlayerState_fmt <$> CellSnapshot_players tab)) ds in
  let ds := ds_field "boats" (fmt (map BoatState_fmt <$> CellSnapshot_boats tab)) ds in
  let ds := ds_field "moorings" (fmt (map MoorageRecord_fmt <$> CellSnapshot_moorings tab)) ds in
  ds_finish ds.

(** ** EconTxn *)
Definition EconTxn_follow (buf : list Z) (loc : Z) : Table := table_new buf loc.
Definition EconTxn_fmt (tab : Table) : Dbg :=
  let ds := debug_struct "EconTxn" in
  let ds := ds_field "txn_id" (fmt (EconTxn_txn_id tab)) ds in
  let ds := ds_field "amount_gold" (fmt (EconTxn_amount_gold tab)) ds in
  let ds := ds_field "kind" (fmt (EconTxn_kind tab)) ds in
  let ds := ds_field "note" (fmt (EconTxn_note tab)) ds in
  ds_finish ds.

(** ** LedgerAck *)
Definition LedgerAck_follow (buf : list Z) (loc : Z) : Table := table_new buf loc.
Definition LedgerAck_fmt (tab : Table) : Dbg :=
  let ds := debug_struct "LedgerAck" in
  let ds := ds_field "txn_id" (fmt (LedgerAck_txn_id tab)) ds in
  let ds := ds_field "accepted" (fmt (LedgerAck_accepted tab)) ds in
  let ds := ds_field "new_balance" (fmt (LedgerAck_new_balance tab)) ds in
  let ds := ds_field "reason" (fmt (LedgerAck_reason tab)) ds in
  ds_finish ds.

(** ** MarketTradeRequest *)
Definition MarketTradeRequest_follow (buf : list Z) (loc : Z) : Table := table_new buf loc.
Definition MarketTradeRequest_fmt (tab : Table) : Dbg :=
  let ds := debug_struct "MarketTradeRequest" in
  let ds := ds_field "txn_id" (fmt (MarketTradeRequest_txn_id tab)) ds in
  let ds := ds_field "port_id" (fmt (MarketTradeRequest_port_id tab)) ds in
  let ds := ds_field "item_id" (fmt (MarketTradeRequest_item_id tab)) ds in
  let ds := ds_field "qty" (fmt (MarketTradeRequest_qty tab)) ds in
  let ds := ds_field "unit_price" (fmt (MarketTradeRequest_unit_price tab)) ds in
  ds_finish ds.

(** ** MarketStateAck *)
Definition MarketStateAck_follow (buf : list Z) (loc : Z) : Table := table_new buf loc.
Definition MarketStateAck_fmt (tab : Table) : Dbg :=
  let ds := debug_struct "MarketStateAck" in
  let ds := ds_field "txn_id" (fmt (MarketStateAck_txn_id tab)) ds in
  let ds := ds_field "accepted" (fmt (MarketStateAck_accepted tab)) ds in
  let ds := ds_field "port_id" (fmt (MarketStateAck_port_id tab)) ds in
  let ds := ds_field "item_id" (fmt (MarketStateAck_item_id tab)) ds in
  let ds := ds_field "stock" (fmt (MarketStateAck_stock tab)) ds in
  let ds := ds_field "price" (fmt (MarketStateAck_price tab)) ds in
  let ds := ds_field "reason" (fmt (MarketStateAck_reason tab)) ds in
  ds_finish ds.

(** ** ChatSend *)
Definition ChatSend_follow (buf : list Z) (loc : Z) : Table := table_new buf loc.
Definition ChatSend_fmt (tab : Table) : Dbg :=
  let ds := debug_struct "ChatSend" in
  let ds := ds_field "text" (fmt (ChatSend_text tab)) ds in
  let ds := ds_field "channel" (fmt (ChatSend_channel tab)) ds in
  ds_finish ds.

(** ** ChatBroadcast *)
Definition ChatBroadcast_follow (buf : list Z) (loc : Z) : Table := table_new buf loc.
Definition ChatBroadcast_fmt (tab : Table) : Dbg :=
  let ds := debug_struct "ChatBroadcast" in
  let ds := ds_field "player_id" (fmt (ChatBroadcast_player_id tab)) ds in
  let ds := ds_field "display_name" (fmt (ChatBroadcast_display_name tab)) ds in
  let ds := ds_field "text" (fmt (ChatBroadcast_text tab)) ds in
  let ds := ds_field "channel" (fmt (ChatBroadcast_channel tab)) ds in
  let ds := ds_field "t_ms" (fmt (ChatBroadcast_t_ms tab)) ds in
  ds_finish ds.

(** ** Envelope *)
Definition Envelope_follow (buf : list Z) (loc : Z) : Table := table_new buf loc.
Definition Envelope_fmt (tab : Table) : Dbg :=
  let ds := debug_struct "Envelope" in
  let ds := ds_field "seq" (fmt (Envelope_seq tab)) ds in
  let ds := ds_field "payload_type" (DWord (Payload_fmt (Envelope_payload_type tab))) ds in
  let ds :=
    let arm (f : Table -> Dbg) (o : option Table) : DebugStruct :=
      match o with
      | Some x => ds_field "payload" (f x) ds
      | None => ds_field "payload" (fmt invalid_union) ds
      end in
    let payload_type := Envelope_payload_type tab in
    if payload_type =? Payload_ClientHello then arm ClientHello_fmt (payload_as_client_hello tab)
    else if payload_type =? Payload_ServerHello then arm ServerHello_fmt (payload_as_server_hello tab)
    else if payload_type =? Payload_ClientState then arm ClientState_fmt (payload_as_client_state tab)
    else if payload_type =? Payload_SnapshotDelta then arm SnapshotDelta_fmt (payload_as_snapshot_delta tab)
    else if payload_type =? Payload_AoiUpdate then arm AoiUpdate_fmt (payload_as_aoi_update tab)
    else if payload_type =? Payload_CellSnapshot then arm CellSnapshot_fmt (payload_as_cell_snapshot tab)
    else if payload_type =? Payload_MoorRequest then arm MoorRequest_fmt (payload_as_moor_request tab)
    else if payload_type =? Payload_MoorAck then arm MoorAck_fmt (payload_as_moor_ack tab)
    else if payload_type =? Payload_EconTxn then arm EconTxn_fmt (payload_as_econ_txn tab)
    else if payload_type =? Payload_LedgerAck then arm LedgerAck_fmt (payload_as_ledger_ack tab)
    else if payload_type =? Payload_ChatSend then arm ChatSend_fmt (payload_as_chat_send tab)
    else if payload_type =? Payload_ChatBroadcast then arm ChatBroadcast_fmt (payload_as_chat_broadcast tab)
    else if payload_type =? Payload_WorldClock then arm WorldClock_fmt (payload_as_world_clock tab)
    else if payload_type =? Payload_MarketTradeRequest then arm MarketTradeRequest_fmt (payload_as_market_trade_request tab)
    else if payload_type =? Payload_MarketStateAck then arm MarketStateAck_fmt (payload_as_market_state_ack tab)
    else ds_field "payload" DNone ds in
  ds_finish ds.

(** ** The other roots *)
Definition size_prefixed_root_as_envelope (buf : list Z) : option Table :=
  size_prefixed_root run_verifier TEnvelope buf.
Definition root_as_envelope_with_opts (opts : VerifierOptions) (buf : list Z) : option Table :=
  root_with_opts opts run_verifier TEnvelope buf.
Definition size_prefixed_root_as_envelope_with_opts (opts : VerifierOptions) (buf : list Z) : option Table :=
  size_prefixed_root_with_opts opts run_verifier TEnvelope buf.
Definition root_as_envelope_unchecked (buf : list Z) : Table := root_unchecked Envelope_follow buf.
Definition size_prefixed_root_as_envelope_unchecked (buf : list Z) : Table :=
  size_prefixed_root_unchecked Envelope_follow buf.
Definition envelope_size_prefixed_buffer_has_identifier (buf : list Z) : bool :=
  buffer_has_identifier buf ENVELOPE_IDENTIFIER true.
Definition finish_size_prefixed_envelope_buffer (root : WIPOffset) (b : Builder) : Builder :=
  finish_size_prefixed root (Some ENVELOPE_IDENTIFIER) b.


(** ** What they guarantee *)

(** The one entry of a [Debug] text that depends on the payload. *)
Definition shows_payload (d p : Dbg) : Prop :=
  exists seq tag, d = DStruct "Envelope" [("seq", DInt seq); ("payload_type", DWord tag); ("payload", p)]%string.

End Bindings.

Section Guarantees.
Context `{FBL : FlatBuffersLaws} {FBM : FlatBuffersMore} {FBML : FlatBuffersMoreLaws}.

(** A struct pushed into a buffer is the one followed there. *)
Lemma pushed_follow n (s dst d pre post : list Z) :
  length s = n -> copy_from_slice dst s = Some d ->
  d = s /\ follow_cast_ref n (pre ++ d ++ post) (len pre) = s.
Proof.
  intros Hn H. unfold copy_from_slice in H. case_decide; [|done]. injection H as <-. split; [done|].
  rewrite follow_cast_law by (unfold len; rewrite ?length_app; lia).
  unfold len, slice. rewrite Nat2Z.id, drop_app_length, Nat.add_comm, Nat.add_sub, <- Hn. apply take_app_length.
Qed.

Lemma Vec3_pushed s dst d pre post :
  length s = 12%nat -> Vec3_push s dst = Some d -> Vec3_follow (pre ++ d ++ post) (len pre) = s.
Proof. intros Hs H. by apply (pushed_follow 12 s dst d). Qed.

Lemma QuatC_pushed s dst d pre post :
  length s = 16%nat -> QuatC_push s dst = Some d -> QuatC_follow (pre ++ d ++ post) (len pre) = s.
Proof. intros Hs H. by apply (pushed_follow 16 s dst d). Qed.

Lemma GridCell_pushed s dst d pre post :
  length s = 8%nat -> GridCell_push s dst = Some d -> GridCell_follow (pre ++ d ++ post) (len pre) = s.
Proof. intros Hs H. by apply (pushed_follow 8 s dst d). Qed.

Lemma Payload_pushed p dst pre :
  dst <> [] -> inU 8 p -> Payload_follow (pre ++ Payload_push p dst) (len pre) = p.
Proof. apply read_emplace_law. Qed.

(** A struct the verifier let through is read inside the buffer. *)
Lemma Vec3_verified_inside v pos :
  Vec3_run_verifier v pos = true -> length (Vec3_follow v pos) = 12%nat.
Proof.
  intros [H1 H2]%in_buffer_law. unfold Vec3_follow. rewrite follow_cast_law by done.
  unfold slice. rewrite length_take, length_drop. unfold len in H2. lia.
Qed.

(** The [Debug] text of whatever the verifier accepts shows the message: never the
    text for a union without its value. *)
Lemma Envelope_fmt_valid buf tab :
  root_as_envelope buf = Some tab ->
  exists p, shows_payload (Envelope_fmt tab) p /\ p <> DStr invalid_union.
Proof.
  intros H. destruct (root_sound _ _ _ _ H) as (l & Hr & Hv).
  destruct (Envelope_reads_as _ _ _ Hr Hv) as [_ Hp]. cbn [Envelope_view env_payload] in Hp.
  unfold Envelope_view_payload in Hp. unfold Envelope_fmt, shows_payload. cbv zeta in *.
  repeat match type of Hp with Payload_typed (if ?b then _ else _) =>
    destruct b; [match type of Hp with Payload_typed (match ?o with _ => _ end) =>
      destruct o; [eexists; split; [by do 2 eexists|done]|done] end|] end.
  eexists. split; [by do 2 eexists|done].
Qed.

(** The roots with the default options and the unchecked ones agree with the plain root. *)
Lemma roots_agree buf :
  root_as_envelope_with_opts default_options buf = root_as_envelope buf /\
  size_prefixed_root_as_envelope_with_opts default_options buf = size_prefixed_root_as_envelope buf /\
  (forall tab, root_as_envelope buf = Some tab -> root_as_envelope_unchecked buf = tab) /\
  (forall tab, size_prefixed_root_as_envelope buf = Some tab ->
     size_prefixed_root_as_envelope_unchecked buf = tab).
Proof.
  split; [apply root_default_law|]. split; [apply prefixed_default_law|]. split; intros tab H.
  - by apply root_unchecked_law in H.
  - by apply prefixed_unchecked_law in H.
Qed.

(** A message finished with a size prefix carries the identifier and reads as the
    message that [finish_envelope] would have written. *)
Lemma size_prefixed_reads_back {A} b O o l T (view : Table -> A) w seq tag p :
  repr b O None -> (o, VTab l) ∈ O -> encodes run_verifier 63 T view l w ->
  inU 32 seq -> inU 8 tag -> tag <> Payload_NONE -> Envelope_payload_arm tag = Some (FTable T) ->
  view_arm tag view w p ->
  let r := Envelope_create (mkEnvelopeArgs seq tag (Some o)) b in
  let bytes := finished_data (finish_size_prefixed_envelope_buffer r.1 r.2) in
  envelope_size_prefixed_buffer_has_identifier bytes = true /\
  (len bytes <= max_buffer ->
   Envelope_view <$> size_prefixed_root_as_envelope bytes = Some (mkEnvelope seq p)).
Proof.
  intros Hr Ho Henc Hs Ht Hne Ha Hp.
  destruct (envelope_around b O o l T view w seq tag p) as (le & H1 & Hv & Hview); [done..|].
  destruct (Envelope_create _ b) as [env b1]. cbn [fst snd] in *. split.
  - eapply prefixed_identifier_law; [exact H1|by left|done].
  - intros Hl.
    destruct (prefixed_complete b1 _ env le run_verifier TEnvelope ENVELOPE_IDENTIFIER H1)
      as (tab & Hroot & Hrd); [by left|exact Hv|done|exact Hl|].
    unfold size_prefixed_root_as_envelope, finish_size_prefixed_envelope_buffer. rewrite Hroot. cbn [fmap option_fmap option_map].
    by rewrite (Hview tab Hrd).
Qed.

End Guarantees.

(** ** The trees as an instance *)
Definition tree_at (buf : list Z) (loc : Z) : slots :=
  match des (length buf) (drop (Z.to_nat loc) buf) with Some (VTab l, _) => l | _ => [] end.

Definition tree_root_at (depth : nat) (rv : TableTy -> list visit) (T : TableTy) (buf : list Z) : option slots :=
  match des (length buf) (drop 4 buf) with
  | Some (VTab l, _) => if verify rv depth (FTable T) (VTab l) then Some l else None
  | _ => None
  end.

#[global] Instance tree_more : FlatBuffersMore := {|
  VerifierOptions := nat;
  default_options := max_depth;
  table_new := tree_at;
  read_scalar_at buf loc := default 0 (buf !! Z.to_nat loc);
  emplace_scalar dst p := p :: drop 1 dst;
  follow_cast_ref n buf loc := slice (Z.to_nat loc) (Z.to_nat loc + n) buf;
  in_buffer n buf loc := bool_decide (0 <= loc /\ loc + Z.of_nat n <= len buf);
  root_with_opts := tree_root_at;
  root_unchecked f buf := f buf 4;
  size_prefixed_root rv T buf := tree_root_at max_depth rv T (drop 4 buf);
  size_prefixed_root_with_opts depth rv T buf := tree_root_at depth rv T (drop 4 buf);
  size_prefixed_root_unchecked f buf := f (drop 4 buf) 4;
  finish_size_prefixed o id b :=
    let b := finish o id b in
    mkTreeBuilder (tb_objects b) (tb_open b) (le_bytes 4 (len (tb_data b)) ++ tb_data b)
|}.

Lemma drop_prefix z (l : list Z) : drop 4 (le_bytes 4 z ++ l) = l.
Proof. apply drop_le_app. Qed.

#[global] Instance tree_more_laws : FlatBuffersMoreLaws.
Proof.
  constructor.
  - done.
  - intros n buf loc H. by apply bool_decide_eq_true in H.
  - intros dst p pre _ _. cbn -[len]. unfold len. rewrite Nat2Z.id.
    rewrite list_lookup_middle by done. done.
  - done.
  - intros rv T buf tab. change (root rv T buf) with (tree_root_at max_depth rv T buf).
    unfold tree_root_at. change (root_unchecked table_new buf) with (tree_at buf 4). unfold tree_at.
    change (Z.to_nat 4) with 4%nat. destruct (des _ _) as [[v r]|]; [|done]. destruct v; try done.
    destruct (verify _ _ _ _); [|done]. by intros [= ->].
  - done.
  - intros rv T buf tab. change (size_prefixed_root rv T buf) with (tree_root_at max_depth rv T (drop 4 buf)).
    unfold tree_root_at. change (size_prefixed_root_unchecked table_new buf) with (tree_at (drop 4 buf) 4).
    unfold tree_at. change (Z.to_nat 4) with 4%nat. destruct (des _ _) as [[v r]|]; [|done]. destruct v; try done.
    destruct (verify _ _ _ _); [|done]. by intros [= ->].
  - intros b O o l rv T id Hr Ho Hv Hid Hl.
    destruct (root_complete b O o l rv T id Hr Ho Hv Hid) as (tab & Ht & Hrd).
    { revert Hl. cbn -[le_bytes len ser bytes_of_string]. rewrite len_app.
      pose proof (len_nonneg (le_bytes 4 (len (tb_data (finish o (Some id) b))))). cbn -[le_bytes len ser bytes_of_string] in *. lia. }
    exists tab. split; [|exact Hrd]. rewrite <- Ht. cbn -[le_bytes]. by rewrite drop_prefix.
  - intros b O o v id Hr Ho Hid. cbn -[le_bytes]. apply bool_decide_eq_true_2.
    rewrite drop_prefix. apply take_app_length'. by rewrite length_bytes_of_string.
Qed.
