(* ===== verification/Server.v ===== *)
(** * The authoritative server: state and message handlers (server.rs)

    Models the first half of server/crates/sw-server/src/server.rs: the state,
    the session registry, and one definition per inbound message.  A handler
    takes the readings of the clocks ([Env]) and returns its [Result] with the
    new state, keeping whatever it wrote before an error.  Sends go through the
    transport of Host.v, whose [tx] records the attempts: a socket error is only
    logged by the server, so it changes no state. *)

From stdpp Require Import pretty.
From Stdlib Require Import Ascii.
From S2P Require Import Structs Flat Tables.
From S2P Require Import Prelude Float World Clock Config Econ RateLimit Wire Host.
From S2P Require Import Persist EconStore Codec.

(** The order [IpAddr] derives: V4 before V6. *)
Definition ip_le (a b : IpAddr) : Prop :=
  match a, b with
  | IpV4 x, IpV4 y | IpV6 x, IpV6 y => x <= y
  | IpV4 _, IpV6 _ => True
  | IpV6 _, IpV4 _ => False
  end.

#[global] Instance ip_le_dec : RelDecision ip_le.
Proof. intros [] []; simpl; apply _. Defined.

(** ** Constants *)
Definition CONNECT_KEY : string := "sailwind-online".
Definition FEATURES : list string :=
  ["unreliable"%string; "aoi"%string; "econ"%string; "market"%string; "moorage"%string; "chat"%string].
Definition KEY_CLOCK_EPOCH : string := "clock_epoch_ms".
Definition KEY_WEATHER_SEED : string := "weather_seed".
Definition SNAPSHOT_ENTITY_SCAN_PER_PACKET : nat := 1024.
Definition CHAT_QUEUE_ITEMS : nat := 256.
Definition CHAT_QUEUE_BYTES : Z := Z.of_nat CHAT_QUEUE_ITEMS * (MTU - HEADER_SIZE).
Definition FANOUT_QUEUE_RECIPIENTS : Z := (Z.of_nat CHAT_QUEUE_ITEMS + 1) * DEFAULT_MAX_PEERS.
Definition FANOUT_RECIPIENT_SCANS_PER_TICK : Z := DEFAULT_MAX_PEERS.
Definition FANOUT_SENDS_PER_TICK : Z := DEFAULT_MAX_PEERS.
Definition DIRTY_DB_UPDATES_PER_TICK : nat := 8.
Definition SHUTDOWN_FLUSH_ATTEMPTS : nat := 3.
Definition AOI_WORK_ITEMS_PER_TICK : nat := 8.
Definition AOI_CELLS_PER_UPDATE : nat := 32.
Definition CELL_ENTITY_SCAN_PER_WORK : nat := 8.
Definition CELL_ENTITIES_PER_PACKET : nat := 5.
Definition CELL_MOORINGS_PER_PACKET : Z := 1.
Definition MAX_MOORING_NAME_BYTES : Z := 835.
Definition MOOR_NAME_TOO_LONG_REASON : string := "mooring name exceeds server limit".

(** ** State *)
Record CellHydration := mkHydration {
  hy_cell : Cell;
  hy_player_cursor : option Z;
  hy_players_remaining : nat;
  hy_mooring_cursor : option Z;
  hy_players_complete : bool;
  hy_sent_any : bool
}.

#[global] Instance CellHydration_eta : Settable CellHydration :=
  mkSettable (fun r => mkHydration (hy_cell r) (hy_player_cursor r) (hy_players_remaining r)
    (hy_mooring_cursor r) (hy_players_complete r) (hy_sent_any r)).

Record FanoutRecipient := mkRecipient { fr_peer : Z; fr_generation : Z }.

(** An [Arc<[FanoutRecipient]>]: [au_ptr] is its address, distinct for distinct
    allocations. *)
Record Audience := mkAudience { au_ptr : Z; au_entries : list FanoutRecipient }.

Record FanoutJob := mkJob {
  jb_bytes : list Z;
  jb_sender_cell : option Cell;
  jb_recipients : Audience;
  jb_next_recipient : nat
}.

#[global] Instance FanoutJob_eta : Settable FanoutJob :=
  mkSettable (fun r => mkJob (jb_bytes r) (jb_sender_cell r) (jb_recipients r) (jb_next_recipient r)).

Record Session := mkSession {
  ss_generation : Z;
  ss_player_id : Z;
  ss_identity_hash : string;
  ss_display_name : string;
  ss_aboard_boat : Z;
  ss_pos : vec3;
  ss_rot : quat;
  ss_vel : vec3;
  ss_t_ms : Z;
  ss_sub : Subscription;
  ss_cell : option Cell;
  ss_dirty : bool;
  ss_snapshot_cursor : option Z;
  ss_snapshot_remaining : nat;
  ss_snapshot_last_visit_tick : Z;
  ss_published_cells : gset Cell;
  ss_hydration_cells : gset Cell;
  ss_hydration_cursor : option Cell;
  ss_active_hydration : option CellHydration
}.

#[global] Instance Session_eta : Settable Session :=
  mkSettable (fun r => mkSession (ss_generation r) (ss_player_id r) (ss_identity_hash r)
    (ss_display_name r) (ss_aboard_boat r) (ss_pos r) (ss_rot r) (ss_vel r) (ss_t_ms r) (ss_sub r)
    (ss_cell r) (ss_dirty r) (ss_snapshot_cursor r) (ss_snapshot_remaining r)
    (ss_snapshot_last_visit_tick r) (ss_published_cells r) (ss_hydration_cells r)
    (ss_hydration_cursor r) (ss_active_hydration r)).

Record Server := mkServer {
  cfg : Config;
  host : Host;
  db : Db;
  sworld : World;
  sessions : gmap Z Session;
  player_peers : gmap Z Z;
  player_order : gset Z;
  snapshot_recipients : gset Z;
  snapshot_recipient_cursor : option Z;
  aoi_recipients : gset Z;
  aoi_recipient_cursor : option Z;
  chat_fanout : list FanoutJob;
  chat_fanout_bytes : Z;
  clock_fanout : option FanoutJob;
  fanout_audience_cache : option Audience;
  fanout_prefer_clock : bool;
  dirty_players : gset Z;
  flush_players : gset Z;
  flush_paused : bool;
  identity_players : gmap string Z;
  next_session_generation : Z;
  sv_seq : Z;
  snapshot_tick : Z;
  epoch_ms : Z;
  weather_seed : Z;
  weather_epoch_day : Z;
  hello_limiter : RateLimiter;
  source_session_limiter : BoundedRateLimiter IpAddr;
  reconnect_limiter : BoundedRateLimiter Z;
  new_session_limiter : GlobalRateLimiter;
  trade_limiter : RateLimiter;
  client_state_limiter : RateLimiter;
  chat_limiter : RateLimiter;
  econ_limiter : RateLimiter;
  moor_limiter : RateLimiter;
  next_audience : Z
}.

#[global] Instance Server_eta : Settable Server :=
  mkSettable (fun r => mkServer (cfg r) (host r) (db r) (sworld r) (sessions r) (player_peers r)
    (player_order r) (snapshot_recipients r) (snapshot_recipient_cursor r) (aoi_recipients r)
    (aoi_recipient_cursor r) (chat_fanout r) (chat_fanout_bytes r) (clock_fanout r)
    (fanout_audience_cache r) (fanout_prefer_clock r) (dirty_players r) (flush_players r)
    (flush_paused r) (identity_players r) (next_session_generation r) (sv_seq r) (snapshot_tick r)
    (epoch_ms r) (weather_seed r) (weather_epoch_day r) (hello_limiter r)
    (source_session_limiter r) (reconnect_limiter r) (new_session_limiter r) (trade_limiter r)
    (client_state_limiter r) (chat_limiter r) (econ_limiter r) (moor_limiter r) (next_audience r)).

(** The clock readings of one event: milliseconds since boot, the wall clock
    when the event is dispatched and when a reply is built, and the uptime. *)
Record Env := mkEnv {
  e_admission_ms : Z;
  e_now_ms : Z;
  e_clock_ms : Z;
  e_uptime_ms : Z
}.

(** [anyhow::Error]: a database error, a message, or a failed assertion (a panic
    of the program). *)
Inductive SrvError :=
| DbError (e : Persist.Error)
| SrvMsg (msg : string)
| Panic.

(** ** Helpers *)

(** [token_hash]: 64-bit FNV-1a, as sixteen hexadecimal digits. *)
Definition fnv_step (h b : Z) : Z := wrapU 64 (Z.lxor h b * 0x100000001b3).

Definition fnv1a (bytes : list Z) : Z := fold_left fnv_step bytes 0xcbf29ce484222325.

Definition hex_digit (n : Z) : ascii :=
  match String.get (Z.to_nat n) "0123456789abcdef" with Some c => c | None => "0"%char end.

Definition hex16 (h : Z) : string :=
  String.string_of_list_ascii
    ((fun i => hex_digit (Z.land (Z.shiftr h (4 * (15 - Z.of_nat i))) 15)) <$> seq 0 16).

(** [str::as_bytes] of the token; strings are byte strings. *)
Definition token_hash (token : string) : string := hex16 (fnv1a (bytes_of_string token)).

Definition is_ascii_hexdigit (b : Z) : bool :=
  between 48 57 b || between 65 70 b || between 97 102 b.

Definition validate_hello_string (value : option string) (field : string) (required : bool)
    (max_len : Z) : result string (option string) :=
  if required && (match value with None => true | Some s => bool_decide (s = ""%string) end)
  then Err ("missing " +:+ field)
  else if match value with Some s => negb (string_within_limit s max_len) | None => false end
  then Err (field +:+ " exceeds maximum length (" +:+ pretty max_len +:+ " bytes)")
  else Ok value.

Definition vec3_of (v : option vec3) : vec3 :=
  default (S754_zero false, S754_zero false, S754_zero false) v.

Definition quat_of (q : option quat) : quat :=
  default (S754_zero false, S754_zero false, S754_zero false, one32) q.

Definition player_snap (s : Session) : PlayerSnap :=
  mkPlayerSnap (ss_player_id s) (ss_pos s) (ss_rot s) (ss_aboard_boat s) (ss_t_ms s).

Definition boat_snap (s : Session) : BoatSnap :=
  mkBoatSnap (ss_aboard_boat s) (ss_player_id s) (ss_pos s) (ss_rot s) (ss_vel s) (ss_t_ms s).

Definition mooring_snap (row : MooringRow) : MooringSnap :=
  mkMooringSnap (wrapU 64 (mo_boat_id row)) (wrapU 64 (mo_owner row))
    (mo_cell_x row, mo_cell_z row) (mo_pos row) (mo_rot row) (mo_name row)
    (wrapU 64 (mo_created_at row)).

(** [ordered_peers_after]: the set in cyclic order after the cursor. *)
Definition ordered_after (s : gset Z) (cursor : option Z) (limit : nat) : list Z :=
  let l := btree_iter Z.le s in
  let limit := Nat.min limit (size s) in
  match cursor with
  | Some c => take limit (filter (fun x => c < x) l ++ filter (fun x => x <= c) l)
  | None => take limit l
  end.

Definition ordered_peers_after (peers : gset Z) (cursor : option Z) (limit : nat) : list Z :=
  ordered_after peers cursor limit.

Definition cell_key (c : Cell) : Z * Z := (cz c, cx c).

Definition cell_le (a b : Cell) : Prop := lex Z.le Z.le (cell_key a) (cell_key b).

#[global] Instance cell_le_dec : RelDecision cell_le.
Proof. intros a b. unfold cell_le. apply _. Defined.

(** [next_hydration_cell]: the least cell after the cursor, else the least. *)
Definition next_hydration_cell (cells : gset Cell) (cursor : option Cell) : option Cell :=
  let all := merge_sort cell_le (elements cells) in
  match cursor with
  | Some c =>
      match head (filter (fun x => ~ cell_le x c) all) with
      | Some x => Some x
      | None => head all
      end
  | None => head all
  end.

(** ** Loading the identities *)
Definition load_identity_players_up_to (max_players : Z)
    : Db -> result SrvError (gmap string Z) * Db := fun db =>
  match player_identities (Z.min (max_players + 1) u32_max) db with
  | (Err e, db) => (Err (DbError e), db)
  | (Ok rows, db) =>
      if decide (len rows > max_players)
      then (Err (SrvMsg ("players table exceeds the hard identity ceiling of " +:+ pretty max_players)), db)
      else
        let step acc (row : string * Z) :=
          let? m := acc in
          let '(identity_hash, player_id) := row in
          if bool_decide (String.length identity_hash <> 16%nat)
             || negb (forallb is_ascii_hexdigit (bytes_of_string identity_hash)) then
            Err (SrvMsg "persisted player identity hash has an invalid shape")
          else if decide (player_id < 0) then
            Err (SrvMsg "persisted player id must be nonnegative")
          else Ok (<[identity_hash := player_id]> m) in
        (fold_left step rows (Ok ∅), db)
  end.

Definition load_identity_players : Db -> result SrvError (gmap string Z) * Db :=
  load_identity_players_up_to MAX_PLAYER_ROWS.

(** [str::parse] of a decimal integer with an optional sign. *)
Fixpoint parse_digits (acc : Z) (l : list Z) : option Z :=
  match l with
  | [] => Some acc
  | b :: l => if between 48 57 b then parse_digits (10 * acc + (b - 48)) l else None
  end.

Definition parse_nonempty (l : list Z) : option Z :=
  match l with [] => None | _ => parse_digits 0 l end.

Definition parse_i64 (s : string) : option Z :=
  let v := match bytes_of_string s with
           | 45 :: l => Z.opp <$> parse_nonempty l
           | 43 :: l => parse_nonempty l
           | l => parse_nonempty l
           end in
  match v with Some z => if decide (inS 64 z) then Some z else None | None => None end.

Definition parse_u64 (s : string) : option Z :=
  let v := match bytes_of_string s with
           | 43 :: l => parse_nonempty l
           | l => parse_nonempty l
           end in
  match v with Some z => if decide (inU 64 z) then Some z else None | None => None end.

Definition lift_db {A} (r : result Persist.Error A * Db) : result SrvError A * Db :=
  match r with (Ok a, d) => (Ok a, d) | (Err e, d) => (Err (DbError e), d) end.

(** [Server::new]: [now] and [rand] are the wall clock and the random seed; a
    failing bind is the environment's. *)
Definition server_new (c : Config) (d : Db) (now rand : Z) : result SrvError Server * Db :=
  try! _, d := lift_db (init false d) in
  try! identity_players, d := load_identity_players d in
  try! epoch, d := lift_db (world_get_or_init KEY_CLOCK_EPOCH (pretty now) d) in
  let epoch_ms := default now (parse_i64 epoch) in
  try! seed_str, d := lift_db (world_get_or_init KEY_WEATHER_SEED (pretty rand) d) in
  let weather_seed := default 0 (parse_u64 seed_str) in
  let weather_epoch_day := day (clock_from_epoch epoch_ms epoch_ms) in
  match bind_with_limits CONNECT_KEY (max_transport_peers_usize c)
          (max_transport_peers_per_ip_usize c), grid_new (Config.cell_size_m c) with
  | Ok h, Some g =>
      (Ok (mkServer c h d (world_new g) ∅ ∅ ∅ ∅ None ∅ None [] 0 None None true ∅ ∅ false
             identity_players 0 0 0 epoch_ms weather_seed weather_epoch_day
             (limiter_new (hello_min_interval_ms_i64 c))
             (bounded_new (source_session_min_interval_ms_i64 c)
                (Z.to_nat (max_transport_peers_usize c)))
             (bounded_new (hello_min_interval_ms_i64 c)
                (Nat.max (size identity_players) (Z.to_nat (max_player_rows_u32 c))))
             (global_new (new_session_min_interval_ms_i64 c))
             (limiter_new (trade_min_interval_ms_i64 c))
             (limiter_new (client_state_min_interval_ms_i64 c))
             (limiter_new (chat_min_interval_ms_i64 c))
             (limiter_new (econ_min_interval_ms_i64 c))
             (limiter_new (moor_min_interval_ms_i64 c)) 0), d)
  | Err e, _ => (Err (SrvMsg e), d)
  | Ok _, None => (Err Panic, d)
  end.

(** ** Primitives on the state *)
Section Handlers.
Context `{FB : FlatBuffers}.

(** A database operation of the server. *)
Definition on_db {A} (m : M A) (s : Server) : result SrvError A * Server :=
  match m (db s) with
  | (Ok a, d) => (Ok a, s <| db := d |>)
  | (Err e, d) => (Err (DbError e), s <| db := d |>)
  end.

Definition next_seq (s : Server) : Z * Server :=
  let n := wrapU 32 (sv_seq s + 1) in (n, s <| sv_seq := n |>).

Definition send (peer : Z) (bytes : list Z) (s : Server) : Server :=
  s <| host ::= fun h => (send_unreliable peer bytes (Ok tt) h).2 |>.

Definition send_bounded (peer : Z) (bytes : list Z) (s : Server) : bool * Server :=
  if decide (len bytes > MTU - HEADER_SIZE) then (false, s) else (true, send peer bytes s).

(** [caps]: the two [expect]s hold for a validated configuration. *)
Definition caps (s : Server) : Caps :=
  mkCaps (default 0 (tick_hz_u8 (cfg s))) (default 0 (snapshot_hz_u8 (cfg s)))
    (Z.min (aoi_radius_cells (cfg s)) 255) (World.cell_size_m (w_grid (sworld s))) FEATURES.

Definition clock_now (env : Env) (s : Server) : WorldClock :=
  clock_from_epoch (epoch_ms s) (e_clock_ms env).

Definition send_hello (env : Env) (peer : Z) (accepted : bool) (reason : string)
    (player_id balance_gold : Z) (s : Server) : Server :=
  let '(n, s) := next_seq s in
  send peer (server_hello n accepted reason player_id (server_name (cfg s)) balance_gold (caps s)
               (clock_now env s) (weather_seed s) (weather_epoch_day s)) s.

Definition send_accepted_hello (env : Env) (peer player_id balance_gold : Z) (s : Server) : Server :=
  send_hello env peer true "" player_id balance_gold s.

Definition reject_hello (env : Env) (peer : Z) (reason : string) (s : Server) : Server :=
  send_hello env peer false reason 0 0 s.

Definition session_by_player (player_id : Z) (s : Server) : option Session :=
  match player_peers s !! player_id with
  | Some peer =>
      match sessions s !! peer with
      | Some ss => if decide (ss_player_id ss = player_id) then Some ss else None
      | None => None
      end
  | None => None
  end.

(** ** The session registry *)
Definition schedule_aoi (peer : Z) (s : Server) : Server :=
  match sessions s !! peer with
  | None => s
  | Some _ => s <| aoi_recipients ::= union {[peer]} |>
  end.

Definition invalidate_fanout_jobs (s : Server) : Server :=
  s <| chat_fanout := [] |> <| chat_fanout_bytes := 0 |> <| clock_fanout := None |>
    <| fanout_audience_cache := None |>.

(** The peers in order, numbered from one. *)
Definition rekeyed (s : Server) : list (Z * Z) :=
  zip_with (fun peer i => (peer, Z.of_nat i)) (btree_iter Z.le (dom (sessions s)))
    (seq 1 (size (sessions s))).

Definition rekey_live_session_generations (s : Server) : result SrvError unit * Server :=
  let live_session_count := Z.of_nat (size (sessions s)) in
  if decide (live_session_count > max_transport_peers_usize (cfg s))
  then (Err (SrvMsg "live session count exceeds configured transport limit"), s)
  else
    let keys := rekeyed s in
    let s := invalidate_fanout_jobs s in
    let m := fold_left (fun m (x : Z * Z) => alter (fun ss => ss <| ss_generation := x.2 |>) x.1 m)
               keys (sessions s) in
    (Ok tt, s <| sessions := m |> <| next_session_generation := live_session_count |>).

Definition allocate_session_generation (s : Server) : result SrvError Z * Server :=
  try! _, s := (if decide (next_session_generation s = u64_max)
                then rekey_live_session_generations s else (Ok tt, s)) in
  match checked_u 64 (next_session_generation s + 1) with
  | None => (Err (SrvMsg "session generation exhausted"), s)
  | Some g => (Ok g, s <| next_session_generation := g |>)
  end.

Definition register_session (peer : Z) (session : Session) (s : Server) : result SrvError unit * Server :=
  if decide (is_Some (sessions s !! peer)) then (Err (SrvMsg "peer already owns a session"), s) else
  match player_peers s !! ss_player_id session with
  | Some existing_peer =>
      (Err (SrvMsg ("player already owns session peer " +:+ pretty existing_peer)), s)
  | None =>
  try! generation, s := allocate_session_generation s in
  let session := session <| ss_generation := generation |> in
  let player_id := ss_player_id session in
  let s := s <| sessions ::= <[peer := session]> |> <| player_peers ::= <[player_id := peer]> |>
             <| player_order ::= union {[player_id]} |> <| snapshot_recipients ::= union {[peer]} |>
             <| fanout_audience_cache := None |> in
  let s := if ss_dirty session then s <| dirty_players ::= union {[player_id]} |> else s in
  (Ok tt, schedule_aoi peer s)
  end.

(** [unregister_session]; the two index operations of its work record are the
    two set removals. *)
Definition unregister_session (peer : Z) (s : Server) : option Session * Server :=
  match sessions s !! peer with
  | None => (None, s)
  | Some session =>
      let s := s <| sessions ::= delete peer |> in
      let s := if decide (player_peers s !! ss_player_id session = Some peer)
               then s <| player_peers ::= delete (ss_player_id session) |>
                      <| player_order ::= (.∖ {[ss_player_id session]}) |>
               else s in
      (Some session,
       s <| snapshot_recipients ::= (.∖ {[peer]}) |> <| aoi_recipients ::= (.∖ {[peer]}) |>
         <| fanout_audience_cache := None |>)
  end.

(** [emit_aoi]: a changed interest set is delivered from the tick loop. *)
Definition emit_aoi (peer : Z) (aoi : AoiUpdate) (s : Server) : Server :=
  if aoi_is_empty aoi then s else schedule_aoi peer s.

(** ** ClientHello *)

(** The session a hello creates, before its generation is allocated. *)
Definition new_session (player_id : Z) (identity_hash name : string) (sub : Subscription)
    (origin : Cell) : Session :=
  mkSession 0 player_id identity_hash name 0 (vec3_of None) (quat_of None) (vec3_of None) 0
    sub (Some origin) true None 0 0 ∅ ∅ None None.

(** The checks of a hello before any session work: the token and the name, or
    the reason of the rejection. *)
Definition check_hello (hello : ClientHello) (s : Server) : result string (string * option string) :=
  if decide (ch_protocol_version hello <> PROTOCOL_VERSION) then
    Err ("protocol version mismatch: client " +:+ pretty (ch_protocol_version hello)
           +:+ ", server " +:+ pretty PROTOCOL_VERSION)
  else
  let max_string_len := max_wire_string_len_usize (cfg s) in
  let? _ := validate_hello_string (ch_api_surface_hash hello) "API surface hash" true max_string_len in
  let? token := validate_hello_string (ch_token hello) "token" true max_string_len in
  let? display_name := validate_hello_string (ch_display_name hello) "display name" false max_string_len in
  let? _ := validate_hello_string (ch_game_build hello) "game build" false max_string_len in
  let? _ := validate_hello_string (ch_mod_version hello) "mod version" false max_string_len in
  Ok (default ""%string token, display_name).

(** The three admission limiters: the source address, then the identity's
    reconnect cooldown or the process-wide gate for a new one. *)
Definition admit_session (source_ip : IpAddr) (known : option Z) (now : Z) (s : Server)
    : bool * Server :=
  let '(ok, l) := bounded_allow ip_le source_ip now (source_session_limiter s) in
  let s := s <| source_session_limiter := l |> in
  if negb ok then (false, s) else
  match known with
  | Some player_id =>
      let '(ok, l) := bounded_allow Z.le player_id now (reconnect_limiter s) in
      (ok, s <| reconnect_limiter := l |>)
  | None =>
      let '(ok, l) := global_allow now (new_session_limiter s) in
      (ok, s <| new_session_limiter := l |>)
  end.

(** The identity index follows the admitted row. *)
Definition index_identity (identity_hash : string) (player_id : Z) (known : option Z) (now : Z)
    (s : Server) : result SrvError unit * Server :=
  match known with
  | Some expected =>
      if decide (player_id <> expected)
      then (Err (SrvMsg "persisted identity index disagrees with admitted player"), s)
      else (Ok tt, s)
  | None =>
      if decide (Z.of_nat (size (identity_players s)) >= MAX_PLAYER_ROWS)
      then (Err (SrvMsg "persisted identity index reached its hard ceiling"), s)
      else
        let s := s <| identity_players ::= <[identity_hash := player_id]> |> in
        (Ok tt, s <| reconnect_limiter := (bounded_allow Z.le player_id now (reconnect_limiter s)).2 |>)
  end.

(** A session of the same player on another peer is evicted. *)
Definition evict_superseded (peer player_id : Z) (s : Server) : result SrvError unit * Server :=
  match player_peers s !! player_id with
  | Some pp =>
      if decide (pp = peer) then (Ok tt, s) else
      let '(ok, s) := match peer_addr pp (host s) with
                      | Some _ => let '(ok, h) := disconnect pp (host s) in (ok, s <| host := h |>)
                      | None => (true, s)
                      end in
      if negb ok then (Err (SrvMsg "failed to evict superseded transport peer"), s) else
      let '(_, s) := unregister_session pp s in
      (Ok tt, s <| hello_limiter ::= limiter_clear pp |>)
  | None => (Ok tt, s)
  end.

(** The new session: subscribed and placed at the origin, registered, answered. *)
Definition open_session (env : Env) (peer player_id gold : Z) (identity_hash name : string)
    (s : Server) : result SrvError unit * Server :=
  match subscription_new (aoi_radius_i32 (cfg s)) with
  | None => (Err Panic, s)
  | Some sub =>
      let origin := cell_of (w_grid (sworld s)) (S754_zero false) (S754_zero false) in
      match recenter origin sub with
      | None => (Err Panic, s)
      | Some (aoi, sub) =>
          let s := s <| sworld ::= fun w => (place_in_cell player_id origin w).2 |> in
          try! _, s := register_session peer (new_session player_id identity_hash name sub origin) s in
          let s := send_accepted_hello env peer player_id gold s in
          (Ok tt, emit_aoi peer aoi s)
      end
  end.

Definition on_hello_at (env : Env) (peer : Z) (hello : ClientHello) (s : Server)
    : result SrvError unit * Server :=
  let '(ok, l) := limiter_allow peer (e_admission_ms env) (hello_limiter s) in
  let s := s <| hello_limiter := l |> in
  if negb ok then (Ok tt, s) else
  match check_hello hello s with
  | Err reason => (Ok tt, reject_hello env peer reason s)
  | Ok (token, display_name) =>
      let name := default "sailor"%string display_name in
      let identity_hash := token_hash token in
      match sessions s !! peer with
      | Some session =>
          if decide (ss_identity_hash session <> identity_hash)
          then (Ok tt, reject_hello env peer "identity change requires a new connection" s)
          else
            try! balance, s := on_db (player_balance (wrapS 64 (ss_player_id session))) s in
            (Ok tt, send_accepted_hello env peer (ss_player_id session) balance s)
      | None =>
          match peer_addr peer (host s) with
          | None => (Ok tt, s)
          | Some addr =>
              let known := identity_players s !! identity_hash in
              let '(ok, s) := admit_session (addr_ip addr) known (e_admission_ms env) s in
              if negb ok then (Ok tt, reject_hello env peer "server busy; retry" s) else
              try! admission, s := on_db (admit_player_by_token identity_hash name (e_now_ms env)
                                            (max_player_rows_u32 (cfg s))) s in
              match admission with
              | CapacityReached => (Ok tt, reject_hello env peer "server player capacity reached" s)
              | PlayerAdmitted player =>
                  if decide (pl_id player < 0)
                  then (Err (SrvMsg "admitted player id must be nonnegative"), s) else
                  let player_id := pl_id player in
                  try! _, s := index_identity identity_hash player_id known (e_admission_ms env) s in
                  try! _, s := evict_superseded peer player_id s in
                  open_session env peer player_id (pl_gold player) identity_hash name s
              end
          end
      end
  end.

(** ** ClientState *)
Definition on_client_state (peer : Z) (m : ClientState) (now_ms : Z) (s : Server)
    : result SrvError unit * Server :=
  match sessions s !! peer with
  | None => (Ok tt, s)
  | Some ss =>
      let player_id := ss_player_id ss in
      let '(ok, l) := limiter_allow player_id now_ms (client_state_limiter s) in
      let s := s <| client_state_limiter := l |> in
      if negb ok then (Ok tt, s) else
      match sanitize_motion (vec3_of (cs_pos m)) (quat_of (cs_rot m)) (vec3_of (cs_vel m)) with
      | None => (Ok tt, s)
      | Some motion =>
          let '(x, _, z) := World.pos motion in
          let s := s <| sworld ::= fun w => (place player_id x z w).2 |> in
          let cell := default (cell_of (w_grid (sworld s)) x z)
                        (cell_of_entity player_id (sworld s)) in
          match recenter cell (ss_sub ss) with
          | None => (Err Panic, s)
          | Some (aoi, sub) =>
              let ss := ss <| ss_pos := World.pos motion |> <| ss_rot := World.rot motion |>
                           <| ss_vel := World.vel motion |> <| ss_aboard_boat := cs_aboard_boat m |>
                           <| ss_t_ms := cs_t_ms m |> <| ss_dirty := true |>
                           <| ss_sub := sub |> <| ss_cell := Some cell |> in
              let s := s <| sessions ::= <[peer := ss]> |>
                         <| dirty_players ::= union {[player_id]} |> in
              (Ok tt, emit_aoi peer aoi s)
          end
      end
  end.

(** ** EconTxn *)
Definition on_econ (env : Env) (peer : Z) (m : EconTxn) (s : Server) : result SrvError unit * Server :=
  match sessions s !! peer with
  | None => (Ok tt, s)
  | Some ss =>
      let player_id := ss_player_id ss in
      let note := default ""%string (et_note m) in
      if negb (string_within_limit note (max_wire_string_len_usize (cfg s))) then (Ok tt, s) else
      try! recorded, s := on_db (Persist.lookup_txn (wrapS 64 (et_txn_id m))) s in
      let '(ok, s) := match recorded with
                      | Some _ => (true, s)
                      | None => let '(ok, l) := limiter_allow player_id (e_admission_ms env) (econ_limiter s) in
                                (ok, s <| econ_limiter := l |>)
                      end in
      if negb ok then (Ok tt, s) else
      let txn := Ledger.mkTxn (et_txn_id m) (et_amount_gold m) (et_kind m) note in
      try! ack, s := on_db (fun d => let '(r, st) := Ledger.apply player_id txn (db_ledger_new d (e_now_ms env)) in
                                     (r, dl_db st)) s in
      let '(n, s) := next_seq s in
      (Ok tt, send peer (ledger_ack n ack) s)
  end.

(** ** MarketTradeRequest *)
Definition on_trade (env : Env) (peer : Z) (m : MarketTradeRequest) (s : Server)
    : result SrvError unit * Server :=
  match sessions s !! peer with
  | None => (Ok tt, s)
  | Some ss =>
      let player_id := ss_player_id ss in
      let trade := Market.mkTrade (mr_txn_id m) (mr_port_id m) (mr_item_id m) (mr_qty m) (mr_unit_price m) in
      try! recorded, s := on_db (Persist.lookup_trade (mr_txn_id m)) s in
      let '(ok, s) := match recorded with
                      | Some _ => (true, s)
                      | None => let '(ok, l) := limiter_allow player_id (e_admission_ms env) (trade_limiter s) in
                                (ok, s <| trade_limiter := l |>)
                      end in
      if negb ok then
        try! state, s := on_db (market_state (mr_port_id m) (mr_item_id m)) s in
        let '(stock, price) := default (0, 0) state in
        let '(n, s) := next_seq s in
        (Ok tt, send peer (market_state_ack n (Market.mkMarketAck (mr_txn_id m) false (mr_port_id m)
                             (mr_item_id m) stock price "rate limited")) s)
      else
        try! ack, s := on_db (fun d => let '(r, st) := Market.apply trade (mkDbMarketStore d (e_now_ms env)) in
                                       (r, dm_db st)) s in
        let '(n, s) := next_seq s in
        (Ok tt, send peer (market_state_ack n ack) s)
  end.

(** ** MoorRequest *)
Definition on_moor (env : Env) (peer : Z) (m : MoorRequest) (s : Server) : result SrvError unit * Server :=
  match sessions s !! peer with
  | None => (Ok tt, s)
  | Some ss =>
      let owner := ss_player_id ss in
      let boat_id := if decide (ss_aboard_boat ss <> 0) then ss_aboard_boat ss else owner in
      match sanitize_motion (vec3_of (mq_pos m)) (quat_of (mq_rot m)) (vec3_of None) with
      | None => (Ok tt, s)
      | Some motion =>
          let name := default "mooring"%string (mq_name m) in
          let name_limit := Z.min (max_wire_string_len_usize (cfg s)) MAX_MOORING_NAME_BYTES in
          if negb (string_within_limit name name_limit) then
            let '(n, s) := next_seq s in
            (Ok tt, (send_bounded peer (moor_ack n false None MOOR_NAME_TOO_LONG_REASON) s).2)
          else
          let '(ok, l) := limiter_allow owner (e_admission_ms env) (moor_limiter s) in
          let s := s <| moor_limiter := l |> in
          if negb ok then (Ok tt, s) else
          let '(x, _, z) := World.pos motion in
          let cell := cell_of (w_grid (sworld s)) x z in
          let row := mkMooringRow (wrapS 64 boat_id) (wrapS 64 owner) (cx cell) (cz cell)
                       (World.pos motion) (World.rot motion) name (e_now_ms env) in
          try! _, s := on_db (upsert_mooring row) s in
          let snap := mkMooringSnap boat_id owner (cx cell, cz cell) (World.pos motion) (World.rot motion)
                        name (wrapU 64 (e_now_ms env)) in
          let '(n, s) := next_seq s in
          (Ok tt, send peer (moor_ack n true (Some snap) "") s)
      end
  end.

(** ** ChatSend *)

(** The entries the queued jobs and the cache keep alive, each allocation
    counted once. *)
Definition retained_audiences (s : Server) : list Audience :=
  option_list (fanout_audience_cache s) ++ (jb_recipients <$> chat_fanout s)
    ++ (jb_recipients <$> option_list (clock_fanout s)).

Fixpoint retained_from (seen : gset Z) (l : list Audience) : Z :=
  match l with
  | [] => 0
  | a :: l =>
      if decide (au_ptr a ∈ seen) then retained_from seen l
      else len (au_entries a) + retained_from ({[au_ptr a]} ∪ seen) l
  end.

Definition retained_fanout_audience_entries (s : Server) : Z := retained_from ∅ (retained_audiences s).

Definition live_recipients (s : Server) : list FanoutRecipient :=
  omap (fun peer => (fun ss => mkRecipient peer (ss_generation ss)) <$> sessions s !! peer)
    (btree_iter Z.le (snapshot_recipients s)).

Definition capture_fanout_recipients (s : Server) : option Audience * Server :=
  match fanout_audience_cache s with
  | Some cached => (Some cached, s)
  | None =>
      let recipients := take (Z.to_nat (max_transport_peers_usize (cfg s))) (live_recipients s) in
      if bool_decide (recipients = [])
         || match checked_u 64 (retained_fanout_audience_entries s + len recipients) with
            | None => true
            | Some entries => bool_decide (entries > FANOUT_QUEUE_RECIPIENTS)
            end
      then (None, s)
      else
        let audience := mkAudience (next_audience s) recipients in
        (Some audience, s <| fanout_audience_cache := Some audience |> <| next_audience ::= Z.succ |>)
  end.

Definition on_chat (env : Env) (peer : Z) (m : ChatSend) (s : Server) : Server :=
  match sessions s !! peer with
  | None => s
  | Some ss =>
      match ss_cell ss with
      | None => s
      | Some cell =>
          let text := default ""%string (ct_text m) in
          if negb (string_within_limit text (max_wire_string_len_usize (cfg s))) then s else
          if decide (CHAT_QUEUE_ITEMS <= length (chat_fanout s))%nat then s else
          if decide (chat_fanout_bytes s > CHAT_QUEUE_BYTES - (MTU - HEADER_SIZE)) then s else
          let '(ok, l) := limiter_allow (ss_player_id ss) (e_admission_ms env) (chat_limiter s) in
          let s := s <| chat_limiter := l |> in
          if negb ok then s else
          let '(n, s) := next_seq s in
          let bytes := chat_broadcast n (ss_player_id ss) (ss_display_name ss) text (ct_channel m)
                         (e_uptime_ms env) in
          if decide (len bytes > MTU - HEADER_SIZE) then s else
          match capture_fanout_recipients s with
          | (None, s) => s
          | (Some recipients, s) =>
              s <| chat_fanout_bytes ::= Z.add (len bytes) |>
                <| chat_fanout ::= fun q => q ++ [mkJob bytes (Some cell) recipients 0] |>
          end
      end
  end.

(** ** Disconnects *)
Definition touch_last_seen_for_flush (player_id now : Z) (s : Server) : result SrvError unit * Server :=
  on_db (touch_last_seen player_id now) s.

Definition on_disconnect (env : Env) (peer : Z) (reason : DisconnectReason) (s : Server)
    : result SrvError unit * Server :=
  let s := s <| hello_limiter ::= limiter_clear peer |> in
  match unregister_session peer s with
  | (None, s) => (Ok tt, s)
  | (Some ss, s) =>
      let pid := ss_player_id ss in
      let s := s <| sworld ::= world_remove pid |>
                 <| trade_limiter ::= limiter_clear pid |>
                 <| client_state_limiter ::= limiter_clear pid |>
                 <| chat_limiter ::= limiter_clear pid |>
                 <| econ_limiter ::= limiter_clear pid |>
                 <| moor_limiter ::= limiter_clear pid |>
                 <| flush_players ::= union {[pid]} |> in
      match touch_last_seen_for_flush (wrapS 64 pid) (e_now_ms env) s with
      | (Err e, s) => (Err e, s <| flush_paused := true |>)
      | (Ok _, s) => (Ok tt, s <| flush_players ::= (.∖ {[pid]}) |> <| dirty_players ::= (.∖ {[pid]}) |>)
      end
  end.

(** ** Dispatch *)
Definition handle_data_at (env : Env) (peer : Z) (bytes : list Z) (s : Server)
    : result SrvError unit * Server :=
  match decode_envelope bytes with
  | None => (Ok tt, s)
  | Some e =>
      match env_payload e with
      | PClientHello h => on_hello_at env peer h s
      | PClientState m => on_client_state peer m (e_admission_ms env) s
      | PEconTxn m => on_econ env peer m s
      | PMarketTradeRequest m => on_trade env peer m s
      | PMoorRequest m => on_moor env peer m s
      | PChatSend m => (Ok tt, on_chat env peer m s)
      | _ => (Ok tt, s)
      end
  end.

Definition handle_event (env : Env) (ev : Event) (s : Server) : result SrvError unit * Server :=
  match ev with
  | Connected _ => (Ok tt, s)
  | Data peer bytes => handle_data_at env peer bytes s
  | Disconnected peer reason => on_disconnect env peer reason s
  end.
End Handlers.
