(* ===== verification/Sched.v ===== *)
(** * The fixed tick: snapshots, interest delivery, fan-out and persistence (server.rs)

    Models the second half of server/crates/sw-server/src/server.rs: the bounded
    work of one tick, each kind with its counters, the tick that composes them
    and the shutdown. *)

From stdpp Require Import pretty.
From S2P Require Import Structs Flat Tables.
From S2P Require Import Prelude Float World Clock Config Econ RateLimit Wire Host.
From S2P Require Import Persist EconStore Codec Server.

Record SnapshotTickWork := mkSnapshotWork {
  sn_recipient_visits : nat;
  sn_candidates_examined : nat;
  sn_player_states_encoded : nat;
  sn_packets : nat;
  sn_encoded_bytes : Z
}.

#[global] Instance SnapshotTickWork_eta : Settable SnapshotTickWork :=
  mkSettable (fun r => mkSnapshotWork (sn_recipient_visits r) (sn_candidates_examined r)
    (sn_player_states_encoded r) (sn_packets r) (sn_encoded_bytes r)).

Record AoiTickWork := mkAoiWork {
  ao_recipient_visits : nat;
  ao_persisted_queries : nat;
  ao_packets : nat;
  ao_cells_completed : nat;
  ao_moorings_encoded : nat;
  ao_corrupt_moorings_skipped : nat
}.

#[global] Instance AoiTickWork_eta : Settable AoiTickWork :=
  mkSettable (fun r => mkAoiWork (ao_recipient_visits r) (ao_persisted_queries r) (ao_packets r)
    (ao_cells_completed r) (ao_moorings_encoded r) (ao_corrupt_moorings_skipped r)).

Record FanoutTickWork := mkFanoutWork {
  fa_recipient_scans : nat;
  fa_sends : nat;
  fa_encoded_bytes : Z;
  fa_jobs_completed : nat
}.

#[global] Instance FanoutTickWork_eta : Settable FanoutTickWork :=
  mkSettable (fun r => mkFanoutWork (fa_recipient_scans r) (fa_sends r) (fa_encoded_bytes r)
    (fa_jobs_completed r)).

(** [Duration] in nanoseconds, as in Host.v. *)
Definition FLUSH_INTERVAL : Z := 5 * nanos_per_sec.

Section Sched.
Context `{FB : FlatBuffers}.

Definition update_session (peer : Z) (f : Session -> Session) (s : Server) : Server :=
  s <| sessions ::= alter f peer |>.

(** ** Snapshots *)
Definition player_candidates_after (cursor : option Z) (limit : nat) (s : Server) : list Z :=
  ordered_after (player_order s) cursor limit.

(** The first fifteen other players within the interest radius, in cyclic order
    after the recipient. *)
Definition visible (self_pid : Z) (cell : Cell) (s : Server) (player_id : Z) : bool :=
  negb (bool_decide (player_id = self_pid)) &&
  match session_by_player player_id s with
  | Some ss => match ss_cell ss with
               | Some other => bool_decide (chebyshev_distance other cell <= aoi_radius_i32 (cfg s))
               | None => false
               end
  | None => false
  end.

Definition select_visible (self_pid : Z) (cell : Cell) (s : Server) : list Z :=
  take (Z.to_nat SNAPSHOT_VISIBILITY_CEILING)
    (List.filter (visible self_pid cell s)
       (player_candidates_after (Some self_pid) SNAPSHOT_ENTITY_SCAN_PER_PACKET s)).

(** [selected.iter().position(|&id| id == cursor)]. *)
Fixpoint position (x : Z) (l : list Z) : option nat :=
  match l with
  | [] => None
  | y :: l => if decide (y = x) then Some O else S <$> position x l
  end.

(** The window of [selected] a packet carries: where it starts, and how many
    entries of the current round are left. *)
Definition snapshot_window (cursor : option Z) (remaining : nat) (selected : list Z)
    : nat * nat :=
  let cursor_position := cursor ≫= fun c => position c selected in
  let remaining := if bool_decide (remaining = O) || bool_decide (cursor_position = None)
                   then length selected else Nat.min remaining (length selected) in
  let start := match cursor_position with
               | Some p => ((p + 1) mod length selected)%nat
               | None => O
               end in
  (start, remaining).

(** [selected[(start + offset) % selected.len()]] for the offsets below [count]. *)
Definition window_entries (selected : list Z) (start count : nat) : list Z :=
  omap (fun offset => selected !! ((start + offset) mod length selected)%nat) (seq 0 count).

Definition boats_of (l : list Session) : list BoatSnap :=
  boat_snap <$> filter (fun ss => ss_aboard_boat ss <> 0) l.

Definition snapshot_to (server_tick peer : Z) (work : SnapshotTickWork) (s : Server)
    : SnapshotTickWork * Server :=
  match sessions s !! peer with
  | None => (work, s)
  | Some ss =>
      match ss_cell ss with
      | None => (work, s)
      | Some cell =>
          let nominal_cadence := Z.min (ticks_per_snapshot (cfg s)) u32_max in
          if bool_decide (ss_snapshot_last_visit_tick ss <> 0)
             && bool_decide (wrapU 32 (server_tick - ss_snapshot_last_visit_tick ss) < nominal_cadence)
          then (work, s)
          else
          let s := update_session peer (fun x => x <| ss_snapshot_last_visit_tick := server_tick |>) s in
          let work := work <| sn_recipient_visits ::= S |>
                           <| sn_candidates_examined ::= Nat.add (length
                                (player_candidates_after (Some (ss_player_id ss))
                                   SNAPSHOT_ENTITY_SCAN_PER_PACKET s)) |> in
          let selected := select_visible (ss_player_id ss) cell s in
          match selected with
          | [] => (work, update_session peer (fun x => x <| ss_snapshot_cursor := None |>
                                                         <| ss_snapshot_remaining := O |>) s)
          | _ =>
              let '(start, remaining) :=
                snapshot_window (ss_snapshot_cursor ss) (ss_snapshot_remaining ss) selected in
              let emit_count := Nat.min remaining (Z.to_nat SNAPSHOT_ENTITIES_PER_PACKET) in
              let entries := window_entries selected start emit_count in
              let shown := omap (fun pid => session_by_player pid s) entries in
              let players := player_snap <$> shown in
              let boats := boats_of shown in
              let s := update_session peer (fun x => x <| ss_snapshot_cursor := list.last entries |>
                                                       <| ss_snapshot_remaining := (remaining - emit_count)%nat |>) s in
              match players, boats with
              | [], [] => (work, s)
              | _, _ =>
                  let '(n, s) := next_seq s in
                  let bytes := snapshot_delta n server_tick players boats in
                  let work := work <| sn_player_states_encoded ::= Nat.add (length players) |> in
                  let '(sent, s) := send_bounded peer bytes s in
                  (if sent then work <| sn_packets ::= S |> <| sn_encoded_bytes ::= Z.add (len bytes) |>
                   else work, s)
              end
          end
      end
  end.

Definition each {W} (f : Z -> W -> Server -> W * Server) (l : list Z) (work : W) (s : Server)
    : W * Server :=
  fold_left (fun '(w, s) peer => f peer w s) l (work, s).

Definition broadcast_snapshots (s : Server) : SnapshotTickWork * Server :=
  let s := s <| snapshot_tick := wrapU 32 (snapshot_tick s + 1) |> in
  let server_tick := snapshot_tick s in
  let recipients := ordered_peers_after (snapshot_recipients s) (snapshot_recipient_cursor s)
                      (Z.to_nat SNAPSHOT_PACKETS_PER_TICK) in
  let s := match list.last recipients with
           | Some l => s <| snapshot_recipient_cursor := Some l |>
           | None => s
           end in
  each (snapshot_to server_tick) recipients (mkSnapshotWork 0 0 0 0 0) s.

(** ** Interest delivery *)
Definition session_has_aoi_work (peer : Z) (s : Server) : bool :=
  match sessions s !! peer with
  | Some ss => bool_decide (ss_published_cells ss <> sub_cells (ss_sub ss))
               || bool_decide (ss_active_hydration ss <> None)
               || bool_decide (ss_hydration_cells ss <> ∅)
  | None => false
  end.

(** The next chunk of the difference between the published and the subscribed
    cells, removals first, in row order. *)
Definition by_row (l : gset Cell) : list Cell := merge_sort cell_le (elements l).

Definition drop_hydration (cell : Cell) (ss : Session) : Session :=
  match ss_active_hydration ss with
  | Some active => if decide (hy_cell active = cell) then ss <| ss_active_hydration := None |> else ss
  | None => ss
  end.

Definition publish_removed (ss : Session) (cell : Cell) : Session :=
  drop_hydration cell (ss <| ss_published_cells ::= (.∖ {[cell]}) |>
                          <| ss_hydration_cells ::= (.∖ {[cell]}) |>).

Definition publish_added (ss : Session) (cell : Cell) : Session :=
  ss <| ss_published_cells ::= union {[cell]} |> <| ss_hydration_cells ::= union {[cell]} |>.

Definition next_aoi_chunk (peer : Z) (s : Server) : option (list Cell * list Cell) * Server :=
  match sessions s !! peer with
  | None => (None, s)
  | Some ss =>
      let removed := take AOI_CELLS_PER_UPDATE (by_row (ss_published_cells ss ∖ sub_cells (ss_sub ss))) in
      let remaining := (AOI_CELLS_PER_UPDATE - length removed)%nat in
      let added := take remaining (by_row (sub_cells (ss_sub ss) ∖ ss_published_cells ss)) in
      match added, removed with
      | [], [] => (None, s)
      | _, _ =>
          let ss := fold_left publish_removed removed ss in
          let ss := fold_left publish_added added ss in
          (Some (added, removed), s <| sessions ::= <[peer := ss]> |>)
      end
  end.

Definition prepare_cell_hydration (peer : Z) (active_players : nat) (s : Server)
    : option (Cell * option Z * nat * bool) * Server :=
  match sessions s !! peer with
  | None => (None, s)
  | Some ss =>
      let ss := match ss_active_hydration ss with
                | Some active =>
                    if negb (contains (ss_sub ss) (hy_cell active))
                       || bool_decide (hy_cell active ∉ ss_published_cells ss)
                    then ss <| ss_active_hydration := None |> else ss
                | None => ss
                end in
      let ss' := match ss_active_hydration ss with
                 | Some _ => Some ss
                 | None =>
                     match next_hydration_cell (ss_hydration_cells ss) (ss_hydration_cursor ss) with
                     | None => None
                     | Some cell =>
                         Some (ss <| ss_hydration_cells ::= (.∖ {[cell]}) |>
                                  <| ss_hydration_cursor := Some cell |>
                                  <| ss_active_hydration := Some (mkHydration cell None active_players
                                       None (bool_decide (active_players = O)) false) |>)
                     end
                 end in
      match ss' with
      | None => (None, s <| sessions ::= <[peer := ss]> |>)
      | Some ss =>
          ((fun h => (hy_cell h, hy_player_cursor h, hy_players_remaining h, hy_players_complete h))
             <$> ss_active_hydration ss,
           s <| sessions ::= <[peer := ss]> |>)
      end
  end.

Definition update_hydration (peer : Z) (f : CellHydration -> CellHydration) (s : Server) : Server :=
  update_session peer (fun ss => ss <| ss_active_hydration ::= fmap f |>) s.

Definition active_hydration_of (peer : Z) (s : Server) : option CellHydration :=
  sessions s !! peer ≫= ss_active_hydration.

(** The scan of the candidate players of a cell, up to a full packet: the
    sessions found, how many candidates were examined, and the last one. *)
Fixpoint scan_cell (cell : Cell) (s : Server) (candidates : list Z) (found : list Session)
    (examined : nat) (last_examined : option Z) : list Session * nat * option Z :=
  match candidates with
  | [] => (found, examined, last_examined)
  | pid :: rest =>
      let examined := S examined in
      let last_examined := Some pid in
      match session_by_player pid s with
      | None => scan_cell cell s rest found examined last_examined
      | Some ss =>
          if decide (ss_cell ss <> Some cell)
          then scan_cell cell s rest found examined last_examined
          else
            let found := found ++ [ss] in
            if decide (length found = CELL_ENTITIES_PER_PACKET) then (found, examined, last_examined)
            else scan_cell cell s rest found examined last_examined
      end
  end.

Definition or_else {A} (a b : option A) : option A := match a with Some _ => a | None => b end.

(** The player half of a cell's hydration. *)
Definition hydrate_players (peer : Z) (cell : Cell) (player_cursor : option Z)
    (players_remaining : nat) (work : AoiTickWork) (s : Server) : bool * AoiTickWork * Server :=
  let candidates := player_candidates_after player_cursor
                      (Nat.min players_remaining CELL_ENTITY_SCAN_PER_WORK) s in
  let '(found, examined, last_examined) := scan_cell cell s candidates [] O None in
  let players := player_snap <$> found in
  let boats := boats_of found in
  let left h := (hy_players_remaining h - examined)%nat in
  let completed h := bool_decide (left h = O) || bool_decide (examined = O) in
  let completed_scan := match active_hydration_of peer s with
                        | Some h => completed h
                        | None => false
                        end in
  let s := update_hydration peer
             (fun h => (h <| hy_player_cursor := or_else last_examined (hy_player_cursor h) |>
                          <| hy_players_remaining := left h |>
                          <| hy_players_complete := completed h || hy_players_complete h |>)) s in
  let '(work, s) :=
    match players, boats with
    | [], [] => (work, s)
    | _, _ =>
        let '(n, s) := next_seq s in
        let '(sent, s) := send_bounded peer (cell_snapshot n cell players boats []) s in
        if sent then (work <| ao_packets ::= S |>,
                      update_hydration peer (fun h => h <| hy_sent_any := true |>) s)
        else (work, s)
    end in
  if negb completed_scan then (true, work, s) else (session_has_aoi_work peer s, work, s).

(** The mooring half: one row per work item, then the end of the cell. *)
Definition hydrate_moorings (peer : Z) (cell : Cell) (work : AoiTickWork) (s : Server)
    : result SrvError bool * AoiTickWork * Server :=
  let mooring_cursor := active_hydration_of peer s ≫= hy_mooring_cursor in
  match on_db (moorings_in_cell_after (cx cell) (cz cell) mooring_cursor
                 (Z.min CELL_MOORINGS_PER_PACKET MAX_MOORINGS_PAGE_ROWS)) s with
  | (Err e, s) => (Err e, work, s)
  | (Ok rows, s) =>
      let work := work <| ao_persisted_queries ::= S |> in
      match rows with
      | row :: _ =>
          let s := update_hydration peer (fun h => h <| hy_mooring_cursor := Some (mo_boat_id row) |>) s in
          if decide (Z.of_nat (String.length (mo_name row)) <= MAX_MOORING_NAME_BYTES) then
            let '(n, s) := next_seq s in
            let '(sent, s) := send_bounded peer (cell_snapshot n cell [] [] [mooring_snap row]) s in
            if sent then (Ok true, work <| ao_packets ::= S |> <| ao_moorings_encoded ::= S |>,
                          update_hydration peer (fun h => h <| hy_sent_any := true |>) s)
            else (Ok true, work, s)
          else (Ok true, work <| ao_corrupt_moorings_skipped ::= S |>, s)
      | [] =>
          let sent_any := match active_hydration_of peer s with
                          | Some h => hy_sent_any h
                          | None => false
                          end in
          let '(work, s) :=
            if sent_any then (work, s) else
            let '(n, s) := next_seq s in
            let '(sent, s) := send_bounded peer (cell_snapshot n cell [] [] []) s in
            (if sent then work <| ao_packets ::= S |> else work, s) in
          let s := update_session peer (fun ss => ss <| ss_active_hydration := None |>) s in
          (Ok (session_has_aoi_work peer s), work <| ao_cells_completed ::= S |>, s)
      end
  end.

Definition process_one_aoi_work (peer : Z) (work : AoiTickWork) (s : Server)
    : result SrvError bool * AoiTickWork * Server :=
  match next_aoi_chunk peer s with
  | (Some (added, removed), s) =>
      let '(n, s) := next_seq s in
      let '(sent, s) := send_bounded peer (aoi_update n added removed) s in
      let work := if sent then work <| ao_packets ::= S |> else work in
      (Ok (session_has_aoi_work peer s), work, s)
  | (None, s) =>
      match prepare_cell_hydration peer (size (player_order s)) s with
      | (None, s) => (Ok (session_has_aoi_work peer s), work, s)
      | (Some (cell, player_cursor, players_remaining, players_complete), s) =>
          if negb players_complete then
            let '(more, work, s) := hydrate_players peer cell player_cursor players_remaining work s in
            (Ok more, work, s)
          else hydrate_moorings peer cell work s
      end
  end.

Definition aoi_visit (peer : Z) (work : AoiTickWork) (s : Server) : AoiTickWork * Server :=
  let s := s <| aoi_recipients ::= (.∖ {[peer]}) |> in
  match sessions s !! peer with
  | None => (work, s)
  | Some _ =>
      let work := work <| ao_recipient_visits ::= S |> in
      let '(r, work, s) := process_one_aoi_work peer work s in
      let needs_more := match r with Ok more => more | Err _ => true end in
      (work, if needs_more then schedule_aoi peer s else s)
  end.

Definition process_aoi_work (s : Server) : AoiTickWork * Server :=
  let recipients := ordered_peers_after (aoi_recipients s) (aoi_recipient_cursor s)
                      AOI_WORK_ITEMS_PER_TICK in
  let s := match list.last recipients with
           | Some l => s <| aoi_recipient_cursor := Some l |>
           | None => s
           end in
  each aoi_visit recipients (mkAoiWork 0 0 0 0 0 0) s.

(** ** Fan-out *)
Definition broadcast_clock (env : Env) (s : Server) : Server :=
  let clock := clock_now env s in
  let '(n, s) := next_seq s in
  let bytes := world_clock n clock in
  let s := s <| clock_fanout := None |> in
  match capture_fanout_recipients s with
  | (None, s) => s
  | (Some recipients, s) => s <| clock_fanout := Some (mkJob bytes None recipients 0) |>
  end.

Definition should_send (job : FanoutJob) (r : FanoutRecipient) (s : Server) : bool :=
  match sessions s !! fr_peer r with
  | Some ss => bool_decide (ss_generation ss = fr_generation r)
               && match jb_sender_cell job with
                  | None => true
                  | Some cell => contains (ss_sub ss) cell
                  end
  | None => false
  end.

(** The inner loop over the recipients left in a job; the structural argument
    is that list. *)
Fixpoint fanout_job (scan_budget send_budget : nat) (todo : list FanoutRecipient) (job : FanoutJob)
    (work : FanoutTickWork) (s : Server) : FanoutJob * FanoutTickWork * Server :=
  match todo with
  | [] => (job, work, s)
  | r :: todo =>
      if decide (fa_recipient_scans work < scan_budget)%nat then
        if decide (fa_sends work < send_budget)%nat then
          let job := job <| jb_next_recipient ::= S |> in
          let work := work <| fa_recipient_scans ::= S |> in
          if should_send job r s then
            fanout_job scan_budget send_budget todo job
              (work <| fa_sends ::= S |> <| fa_encoded_bytes ::= Z.add (len (jb_bytes job)) |>)
              (send (fr_peer r) (jb_bytes job) s)
          else fanout_job scan_budget send_budget todo job work s
        else (job, work, s)
      else (job, work, s)
  end.

Fixpoint fanout_loop (fuel scan_budget send_budget : nat) (work : FanoutTickWork) (s : Server)
    : option (FanoutTickWork * Server) :=
  match fuel with
  | O => None
  | S fuel =>
      if decide (scan_budget <= fa_recipient_scans work)%nat then Some (work, s) else
      if decide (send_budget <= fa_sends work)%nat then Some (work, s) else
      let from_clock := bool_decide (clock_fanout s <> None)
                        && (fanout_prefer_clock s || bool_decide (chat_fanout s = [])) in
      let '(next, s) :=
        if from_clock then (clock_fanout s, s <| clock_fanout := None |>)
        else (head (chat_fanout s), s <| chat_fanout ::= tail |>) in
      match next with
      | None =>
          if bool_decide (clock_fanout s = None) && bool_decide (chat_fanout s = []) then Some (work, s)
          else fanout_loop fuel scan_budget send_budget work (s <| fanout_prefer_clock ::= negb |>)
      | Some job =>
          let '(job, work, s) :=
            fanout_job scan_budget send_budget
              (drop (jb_next_recipient job) (au_entries (jb_recipients job))) job work s in
          if decide (jb_next_recipient job = length (au_entries (jb_recipients job))) then
            let work := work <| fa_jobs_completed ::= S |> in
            let s := if from_clock then s <| fanout_prefer_clock := false |>
                     else s <| chat_fanout_bytes ::= fun b => Z.max 0 (b - len (jb_bytes job)) |>
                            <| fanout_prefer_clock := true |> in
            fanout_loop fuel scan_budget send_budget work s
          else
            Some (work, if from_clock then s <| clock_fanout := Some job |>
                        else s <| chat_fanout ::= cons job |>)
      end
  end.

(** Every round of the outer loop takes a job off the queues for good, or is the
    last, so the jobs and two more rounds are enough fuel. *)
Definition fanout_fuel (s : Server) : nat :=
  (length (chat_fanout s) + length (option_list (clock_fanout s)) + 2)%nat.

Definition process_fanout_work_with_budget (recipient_scan_budget send_budget : nat) (s : Server)
    : option (FanoutTickWork * Server) :=
  fanout_loop (fanout_fuel s) recipient_scan_budget send_budget (mkFanoutWork 0 0 0 0) s.

Definition process_fanout_work (s : Server) : option (FanoutTickWork * Server) :=
  process_fanout_work_with_budget (Z.to_nat FANOUT_RECIPIENT_SCANS_PER_TICK)
    (Z.to_nat FANOUT_SENDS_PER_TICK) s.

(** ** Persistence *)
Definition begin_dirty_flush (s : Server) : Server :=
  s <| flush_paused := false |> <| flush_players ::= union (dirty_players s) |>
    <| dirty_players := ∅ |>.

(** [session.dirty = value], for the player's own session. *)
Definition set_dirty (player_id : Z) (value : bool) (s : Server) : Server :=
  match player_peers s !! player_id with
  | Some peer =>
      update_session peer
        (fun ss => if decide (ss_player_id ss = player_id) then ss <| ss_dirty := value |> else ss) s
  | None => s
  end.

Fixpoint flush_each (now : Z) (player_ids : list Z) (db_updates : nat) (s : Server)
    : result SrvError nat * Server :=
  match player_ids with
  | [] => (Ok db_updates, s)
  | player_id :: rest =>
      match touch_last_seen_for_flush (wrapS 64 player_id) now s with
      | (Err e, s) => (Err e, s <| flush_paused := true |>)
      | (Ok _, s) =>
          let s := s <| flush_players ::= (.∖ {[player_id]}) |> in
          let still_dirty := bool_decide (player_id ∈ dirty_players s) in
          flush_each now rest (S db_updates) (set_dirty player_id still_dirty s)
      end
  end.

(** [process_dirty_flush_at]: its work record is the number of updates. *)
Definition process_dirty_flush_at (now : Z) (s : Server) : result SrvError nat * Server :=
  if flush_paused s then (Ok O, s)
  else flush_each now (take DIRTY_DB_UPDATES_PER_TICK (btree_iter Z.le (flush_players s))) O s.

(** [flush_all]: every live, dirty or queued player, up to three attempts. *)
Fixpoint flush_attempt (now : Z) (attempt : list Z) (pending : gset Z) (last_error : option SrvError)
    (s : Server) : gset Z * option SrvError * Server :=
  match attempt with
  | [] => (pending, last_error, s)
  | player_id :: rest =>
      match touch_last_seen_for_flush (wrapS 64 player_id) now s with
      | (Ok _, s) =>
          let s := s <| flush_players ::= (.∖ {[player_id]}) |>
                     <| dirty_players ::= (.∖ {[player_id]}) |> in
          flush_attempt now rest (pending ∖ {[player_id]}) last_error (set_dirty player_id false s)
      | (Err e, s) => flush_attempt now rest pending (Some e) s
      end
  end.

(** The error of a failed shutdown: how many players are left, and the last
    error. *)
Inductive ShutdownError := ShutdownFailed (failed : nat) (last_error : option SrvError).

Fixpoint flush_attempts (n : nat) (now : Z) (pending : gset Z) (last_error : option SrvError)
    (s : Server) : result ShutdownError unit * Server :=
  match n with
  | O => (Err (ShutdownFailed (size pending) last_error), s)
  | S n =>
      if decide (pending = ∅) then (Ok tt, s) else
      let '(pending, last_error, s) :=
        flush_attempt now (btree_iter Z.le pending) pending last_error s in
      flush_attempts n now pending last_error s
  end.

Definition flush_pending (s : Server) : gset Z :=
  list_to_set (ss_player_id <$> (map_to_list (sessions s)).*2) ∪ dirty_players s ∪ flush_players s.

Definition flush_all (now : Z) (s : Server) : result ShutdownError unit * Server :=
  let pending := flush_pending s in
  let s := s <| flush_players ::= union pending |> in
  flush_attempts SHUTDOWN_FLUSH_ATTEMPTS now pending None s.

(** ** The tick *)
Record TickInput := mkTickInput {
  ti_frame_start : Z;
  ti_script : list SockStep;
  ti_env : nat -> Env
}.

(** The events are handled in order, a failing one only logged; [ti_env] gives
    the clock readings of the i-th event, and of the rest of the tick at the
    number of events. *)
Fixpoint handle_events (envs : nat -> Env) (i : nat) (events : list Event) (s : Server) : Server :=
  match events with
  | [] => s
  | ev :: rest => handle_events envs (S i) rest (handle_event (envs i) ev s).2
  end.

Record LoopState := mkLoop { lp_tick : Z; lp_last_flush : Z; lp_server : Server }.

Definition tick (ti : TickInput) (l : LoopState) : option LoopState :=
  let s := lp_server l in
  let '(events, h) := poll (ti_script ti) (ti_frame_start ti) (host s) in
  let s := handle_events (ti_env ti) O events (s <| host := h |>) in
  let env := ti_env ti (length events) in
  let '(_, s) := process_aoi_work s in
  let '(_, s) := broadcast_snapshots s in
  match process_fanout_work s with
  | None => None
  | Some (_, s) =>
      let '(_, s) := process_dirty_flush_at (e_now_ms env) s in
      let s := if decide (lp_tick l mod ticks_per_clock_broadcast (cfg s) = 0)
               then broadcast_clock env s else s in
      let '(last_flush, s) :=
        if decide (FLUSH_INTERVAL <= since (ti_frame_start ti) (lp_last_flush l))
        then (ti_frame_start ti, begin_dirty_flush s) else (lp_last_flush l, s) in
      Some (mkLoop (wrapU 64 (lp_tick l + 1)) last_flush s)
  end.

(** [run]: the ticks until the running flag drops, then the final flush and the
    transport shutdown. *)
Fixpoint ticks (inputs : list TickInput) (l : LoopState) : option LoopState :=
  match inputs with
  | [] => Some l
  | ti :: rest => match tick ti l with None => None | Some l => ticks rest l end
  end.

Definition run (inputs : list TickInput) (start now : Z) (s : Server)
    : option (result ShutdownError unit * Server) :=
  match ticks inputs (mkLoop 0 start s) with
  | None => None
  | Some l =>
      let '(r, s) := flush_all now (lp_server l) in
      Some (r, s <| host ::= fun h => (shutdown h).2 |>)
  end.
End Sched.
