(* ===== verification/ServerInv.v ===== *)
(** * Invariants of the server

    The indexes of server.rs agree with the session table, queued fan-out never
    names a generation that could be handed out again, per-session interest
    state stays bounded, and every session belongs to a live transport peer
    whenever the events of a tick are handled.  All of it is kept by every
    handler and every kind of tick work. *)

From S2P Require Import Structs Flat Tables.
From S2P Require Import Prelude Float World Clock Config Econ RateLimit Wire Host.
From S2P Require Import HostInv Persist EconStore Codec Server Sched.

#[global] Instance FanoutRecipient_eq_dec : EqDecision FanoutRecipient.
Proof. solve_decision. Defined.

#[global] Instance Audience_eq_dec : EqDecision Audience.
Proof. solve_decision. Defined.

(** ** Definitions *)

(** The session table, its two indexes of players, the two recipient sets and
    the generation counter. *)
Record Registry (ss : gmap Z Session) (pp : gmap Z Z) (po sr ar : gset Z) (next : Z) : Prop := {
  rg_owner peer x : ss !! peer = Some x -> pp !! ss_player_id x = Some peer;
  rg_peer pid peer : pp !! pid = Some peer -> exists x, ss !! peer = Some x /\ ss_player_id x = pid;
  rg_order : po = dom pp;
  rg_recipients : sr = dom ss;
  rg_aoi : ar ⊆ dom ss;
  rg_generation peer x : ss !! peer = Some x -> 1 <= ss_generation x <= next;
  rg_distinct p q x y : ss !! p = Some x -> ss !! q = Some y -> ss_generation x = ss_generation y -> p = q;
  rg_next : 0 <= next <= u64_max
}.

Definition entries_total (l : list Audience) : Z := foldr (fun a n => len (au_entries a) + n) 0 l.

(** Retained audiences: their generations are old, their addresses allocated and
    distinct, and their entries within the limit. *)
Record Retained (next next_aud : Z) (l : list Audience) : Prop := {
  rt_generation a r : a ∈ l -> r ∈ au_entries a -> fr_generation r <= next;
  rt_allocated a : a ∈ l -> au_ptr a < next_aud;
  rt_distinct a b : a ∈ l -> b ∈ l -> au_ptr a = au_ptr b -> a = b;
  rt_entries : retained_from ∅ l <= FANOUT_QUEUE_RECIPIENTS
}.

Definition audiences (cache : option Audience) (chat : list FanoutJob) (clock : option FanoutJob)
    : list Audience :=
  option_list cache ++ (jb_recipients <$> chat) ++ (jb_recipients <$> option_list clock).

Definition queued_bytes (q : list FanoutJob) : Z := foldr (fun j n => len (jb_bytes j) + n) 0 q.

Definition live_of (ss : gmap Z Session) (sr : gset Z) : list FanoutRecipient :=
  omap (fun peer => (fun x => mkRecipient peer (ss_generation x)) <$> ss !! peer) (btree_iter Z.le sr).

Definition job_ok (j : FanoutJob) : Prop :=
  len (jb_bytes j) <= MTU - HEADER_SIZE /\
  (jb_next_recipient j <= length (au_entries (jb_recipients j)))%nat.

(** The fan-out queues: within their bounds, their byte count exact, and the
    cached audience the one a fresh capture would build. *)
Record Queues (max : nat) (ss : gmap Z Session) (sr : gset Z) (chat : list FanoutJob) (bytes : Z)
    (clock : option FanoutJob) (cache : option Audience) (next next_aud : Z) : Prop := {
  qu_items : (length chat <= CHAT_QUEUE_ITEMS)%nat;
  qu_bytes : bytes = queued_bytes chat;
  qu_chat : Forall job_ok chat;
  qu_clock j : clock = Some j -> (jb_next_recipient j <= length (au_entries (jb_recipients j)))%nat;
  qu_cache a : cache = Some a -> au_entries a = take max (live_of ss sr);
  qu_retained : Retained next next_aud (audiences cache chat clock)
}.

(** A session marked dirty is scheduled to be written. *)
Definition Dirty (ss : gmap Z Session) (dirty flush : gset Z) : Prop :=
  forall peer x, ss !! peer = Some x -> ss_dirty x = true -> ss_player_id x ∈ dirty ∪ flush.

Definition block (radius : Z) : nat := Z.to_nat ((2 * radius + 1) * (2 * radius + 1)).

(** A session is placed in its cell, and its interest sets are bounded. *)
Record SessionOk (radius : Z) (w : gmap Z Cell) (x : Session) : Prop := {
  so_cell : exists c, ss_cell x = Some c /\ w !! ss_player_id x = Some c;
  so_radius : sub_radius (ss_sub x) = radius;
  so_sub : (size (sub_cells (ss_sub x)) <= block radius)%nat;
  so_published : (size (ss_published_cells x) <= block radius)%nat;
  so_hydration : ss_hydration_cells x ⊆ ss_published_cells x;
  so_active h : ss_active_hydration x = Some h -> hy_cell h ∈ ss_published_cells x
}.

Definition peer_limit (s : Server) : nat := Z.to_nat (max_transport_peers_usize (cfg s)).

Definition server_inv (s : Server) : Prop :=
  (Registry (sessions s) (player_peers s) (player_order s) (snapshot_recipients s)
    (aoi_recipients s) (next_session_generation s) /\
  Queues (peer_limit s) (sessions s) (snapshot_recipients s) (chat_fanout s)
    (chat_fanout_bytes s) (clock_fanout s) (fanout_audience_cache s) (next_session_generation s)
    (next_audience s)) /\
  Dirty (sessions s) (dirty_players s) (flush_players s) /\
  map_Forall (fun _ => SessionOk (aoi_radius_i32 (cfg s)) (w_cell_of (sworld s))) (sessions s) /\
  WorldInv (sworld s) /\
  HostInv (host s) /\ max_peers (host s) = peer_limit s /\ 0 <= aoi_radius_i32 (cfg s).

(** Every session belongs to a live peer, or to one whose disconnection is still
    to be handled. *)
Definition good (pending : gset Z) (s : Server) : Prop :=
  server_inv s /\ dom (sessions s) ⊆ live_ids (host s) ∪ pending.

(** ** Retained audiences *)
Lemma entries_total_Permutation l l' : l ≡ₚ l' -> entries_total l = entries_total l'.
Proof. induction 1; simpl; lia. Qed.

Lemma retained_upper l seen L :
  (forall a, a ∈ l -> au_ptr a ∉ seen -> a ∈ L) -> retained_from seen l <= entries_total L.
Proof.
  revert seen L. induction l as [|a l IH]; intros seen L HL; simpl.
  { clear HL. induction L; simpl; [done|]. unfold len in *. lia. }
  case_decide as Hd; [apply IH; set_solver|].
  assert (Ha : a ∈ L) by set_solver. apply elem_of_Permutation in Ha as [L' EL].
  rewrite (entries_total_Permutation _ _ EL). simpl. apply Zplus_le_compat_l, IH.
  intros b Hb Hn. assert (Hb' : b ∈ a :: L') by (rewrite <- EL; set_solver). set_solver.
Qed.

Lemma retained_lower l seen L :
  (forall a b, a ∈ l -> b ∈ l -> au_ptr a = au_ptr b -> a = b) ->
  NoDup L -> (forall a, a ∈ L -> a ∈ l /\ au_ptr a ∉ seen) -> entries_total L <= retained_from seen l.
Proof.
  revert seen L. induction l as [|a l IH]; intros seen L Hinj Hnd HL; simpl.
  { destruct L as [|b L]; [done|]. destruct (HL b); [left|]. by rewrite elem_of_nil in *. }
  assert (Hinj' : forall x y, x ∈ l -> y ∈ l -> au_ptr x = au_ptr y -> x = y)
    by (intros; apply Hinj; [by right..|done]).
  case_decide as Hd.
  { apply IH; [done..|]. intros b Hb. destruct (HL b Hb) as [[->|]%elem_of_cons ?]; done. }
  destruct (decide (a ∈ L)) as [Ha|Ha].
  - apply elem_of_Permutation in Ha as [L' EL]. rewrite (entries_total_Permutation _ _ EL). simpl.
    rewrite EL in Hnd. apply NoDup_cons in Hnd as [Hn Hnd].
    apply Zplus_le_compat_l, IH; [done..|]. intros b Hb.
    destruct (HL b) as [Hbl Hs]; [rewrite EL; by right|].
    assert (b <> a) by (by intros ->).
    assert (au_ptr b <> au_ptr a) by (intros E; apply Hinj in E; [done|done|by left]). set_solver.
  - trans (retained_from ({[au_ptr a]} ∪ seen) l); [|unfold len; lia].
    apply IH; [done..|]. intros b Hb. destruct (HL b Hb) as [Hbl Hs].
    assert (b <> a) by (by intros ->).
    assert (au_ptr b <> au_ptr a) by (intros E; apply Hinj in E; [done|done|by left]). set_solver.
Qed.

Lemma retained_subset next aud l l' : l' ⊆ l -> Retained next aud l -> Retained next aud l'.
Proof.
  intros Hs [Hg Ha Hd He]. split.
  { intros a r Hin. apply Hg. by apply Hs. }
  { intros a Hin. apply Ha. by apply Hs. }
  { intros a b Hin Hin'. apply Hd; by apply Hs. }
  trans (entries_total (remove_dups l')).
  { apply retained_upper. intros a Hin _. by apply elem_of_remove_dups. }
  trans (retained_from ∅ l); [|done]. apply retained_lower; [done|apply NoDup_remove_dups|].
  intros a. rewrite elem_of_remove_dups. intros Hin. split; [by apply Hs|set_solver].
Qed.

(** Enqueueing the same audience again retains nothing more. *)
Lemma retained_dup next aud l a l' :
  a ∈ l -> l' ⊆ a :: l -> Retained next aud l -> Retained next aud l'.
Proof. intros Ha Hs. apply retained_subset. set_solver. Qed.

Lemma retained_seen_ext l seen seen' :
  (forall a, a ∈ l -> au_ptr a ∈ seen <-> au_ptr a ∈ seen') -> retained_from seen l = retained_from seen' l.
Proof.
  revert seen seen'. induction l as [|a l IH]; intros seen seen' Hs; simpl; [done|].
  pose proof (Hs a ltac:(left)) as Ha. repeat case_decide; [apply IH; set_solver|tauto|tauto|].
  f_equal. apply IH. intros b Hb. rewrite !elem_of_union. rewrite (Hs b); [done|by right].
Qed.

(** A fresh allocation adds its entries. *)
Lemma retained_fresh next aud l a :
  Retained next aud l -> au_ptr a = aud -> (forall r, r ∈ au_entries a -> fr_generation r <= next) ->
  retained_from ∅ l + len (au_entries a) <= FANOUT_QUEUE_RECIPIENTS ->
  Retained next (aud + 1) (a :: l).
Proof.
  intros [Hg Ha Hd He] Hp Hr Hl. split.
  - intros b r [->|Hb]%elem_of_cons; eauto.
  - intros b [->|Hb]%elem_of_cons; [lia|]. specialize (Ha b Hb). lia.
  - intros b c [->|Hb]%elem_of_cons [->|Hc]%elem_of_cons E; [done|..|by eauto].
    + specialize (Ha c Hc). lia.
    + specialize (Ha b Hb). lia.
  - simpl. rewrite decide_False by set_solver.
    rewrite (retained_seen_ext l _ ∅); [lia|]. intros b Hb. specialize (Ha b Hb).
    rewrite elem_of_union, elem_of_singleton. split; [intros [?|?]; [lia|done]|by right].
Qed.

Lemma retained_next next next' aud l : next <= next' -> Retained next aud l -> Retained next' aud l.
Proof. intros Hn [Hg Ha Hd He]. split; [|done..]. intros a r H1 H2. specialize (Hg a r H1 H2). lia. Qed.

Lemma retained_empty next aud : Retained next aud [].
Proof. split; [intros; set_solver..|]. done. Qed.

(** ** The registry *)
Definition same_ids (x y : Session) : Prop :=
  ss_generation y = ss_generation x /\ ss_player_id y = ss_player_id x.

Lemma registry_update ss pp po sr ar next peer x y :
  Registry ss pp po sr ar next -> ss !! peer = Some x -> same_ids x y ->
  Registry (<[peer := y]> ss) pp po sr ar next.
Proof.
  intros [Ho Hp Hpo Hsr Har Hg Hd Hn] Hx [Eg Ep].
  assert (Hdom : dom (<[peer := y]> ss) = dom ss) by (apply dom_insert_lookup_L; eauto).
  assert (Hlk : forall q z, <[peer := y]> ss !! q = Some z ->
    exists z', ss !! q = Some z' /\ ss_generation z = ss_generation z' /\ ss_player_id z = ss_player_id z').
  { intros q z Hq. destruct (decide (q = peer)) as [->|].
    - rewrite lookup_insert_eq in Hq. injection Hq as <-. eauto.
    - rewrite lookup_insert_ne in Hq by done. eauto. }
  split; rewrite ?Hdom; try done.
  - intros q z Hq. destruct (Hlk _ _ Hq) as (z' & Hz & _ & ->). eauto.
  - intros pid q Hq. destruct (Hp _ _ Hq) as (z & Hz & <-). destruct (decide (q = peer)) as [->|].
    + exists y. rewrite lookup_insert_eq. split; [done|]. congruence.
    + exists z. by rewrite lookup_insert_ne.
  - intros q z Hq. destruct (Hlk _ _ Hq) as (z' & Hz & -> & _). eauto.
  - intros p q z z' H1 H2 E. destruct (Hlk _ _ H1) as (a & Ha & Ea & _).
    destruct (Hlk _ _ H2) as (b & Hb & Eb & _). eapply Hd; [done..|congruence].
Qed.

Lemma registry_insert ss pp po sr ar next peer x :
  Registry ss pp po sr ar next -> ss !! peer = None -> pp !! ss_player_id x = None ->
  ss_generation x = next + 1 -> next + 1 <= u64_max ->
  Registry (<[peer := x]> ss) (<[ss_player_id x := peer]> pp) ({[ss_player_id x]} ∪ po)
    ({[peer]} ∪ sr) ({[peer]} ∪ ar) (next + 1).
Proof.
  intros [Ho Hp -> -> Har Hg Hd Hn] Hx Hpx Eg Hb. split; rewrite ?dom_insert_L; try done.
  - intros q z. rewrite !lookup_insert. destruct (decide (peer = q)) as [->|]; [intros [= <-]; by rewrite decide_True|].
    intros Hq. rewrite decide_False; [by eauto|]. intros E. rewrite E, (Ho _ _ Hq) in Hpx. done.
  - intros pid q. rewrite lookup_insert. case_decide; [intros [= <-]; exists x; by rewrite lookup_insert_eq|].
    intros Hq. destruct (Hp _ _ Hq) as (z & Hz & E). exists z. rewrite lookup_insert_ne; [done|congruence].
  - set_solver.
  - intros q z. rewrite lookup_insert. case_decide; [intros [= <-]; lia|]. intros Hq%Hg. lia.
  - intros p q z z'. rewrite !lookup_insert. repeat case_decide; intros; simplify_eq; [done|..|by eauto].
    + assert (ss_generation z' <= next) by (eapply Hg; done). lia.
    + assert (ss_generation z <= next) by (eapply Hg; done). lia.
  - lia.
Qed.

Lemma registry_delete ss pp po sr ar next peer x :
  Registry ss pp po sr ar next -> ss !! peer = Some x ->
  Registry (delete peer ss) (delete (ss_player_id x) pp) (po ∖ {[ss_player_id x]})
    (sr ∖ {[peer]}) (ar ∖ {[peer]}) next.
Proof.
  intros [Ho Hp -> -> Har Hg Hd Hn] Hx. split; rewrite ?dom_delete_L; try done.
  - intros q z. rewrite !lookup_delete. case_decide; [done|]. intros Hq. rewrite decide_False; [by eauto|].
    intros E. apply Ho in Hq, Hx. congruence.
  - intros pid q. rewrite lookup_delete. case_decide; [done|]. intros Hq.
    destruct (Hp _ _ Hq) as (z & Hz & E). exists z. rewrite lookup_delete_ne; [done|congruence].
  - set_solver.
  - intros q z. rewrite lookup_delete. case_decide; [done|]. eauto.
  - intros p q z z'. rewrite !lookup_delete. repeat case_decide; [done..|]. eauto.
Qed.

(** The generations handed out by a rekey. *)
Definition set_generations (keys : list (Z * Z)) (m : gmap Z Session) : gmap Z Session :=
  fold_left (fun m (x : Z * Z) => alter (fun ss => ss <| ss_generation := x.2 |>) x.1 m) keys m.

Lemma set_generations_lookup keys m p :
  NoDup keys.*1 ->
  set_generations keys m !! p =
    match (list_to_map keys : gmap Z Z) !! p with
    | Some g => (fun x => x <| ss_generation := g |>) <$> m !! p
    | None => m !! p
    end.
Proof.
  unfold set_generations. revert m. induction keys as [|[k g] keys IH]; intros m; simpl; [done|].
  intros [Hk Hnd]%NoDup_cons. rewrite IH by done. rewrite lookup_alter, lookup_insert.
  case_decide; [subst|done]. by rewrite not_elem_of_list_to_map_1.
Qed.

Lemma rekeyed_spec s :
  (rekeyed s).*1 = btree_iter Z.le (dom (sessions s)) /\
  (rekeyed s).*2 = Z.of_nat <$> seq 1 (size (sessions s)).
Proof.
  unfold rekeyed. assert (El : length (btree_iter Z.le (dom (sessions s))) = length (seq 1 (size (sessions s)))).
  { by rewrite length_btree_iter, length_seq, size_dom. }
  revert El. generalize (btree_iter Z.le (dom (sessions s))) (seq 1 (size (sessions s))).
  induction l as [|p l IH]; intros [|i k]; simpl; intros E; try done.
  injection E as E. destruct (IH k E) as [E1 E2]. split; f_equal; [exact E1|exact E2].
Qed.

(** After a rekey the live peers hold distinct generations from one up. *)
Lemma rekey_lookup s p x :
  set_generations (rekeyed s) (sessions s) !! p = Some x ->
  exists y g, sessions s !! p = Some y /\ x = y <| ss_generation := g |> /\ (p, g) ∈ rekeyed s /\
    1 <= g <= Z.of_nat (size (sessions s)).
Proof.
  destruct (rekeyed_spec s) as [E1 E2].
  assert (Hnd : NoDup (rekeyed s).*1) by (rewrite E1; apply NoDup_btree_iter).
  rewrite set_generations_lookup by done. destruct (list_to_map (rekeyed s) !! p) as [g|] eqn:Eg.
  - destruct (sessions s !! p) as [y|] eqn:Ey; simpl; [|done]. intros [= <-]. exists y, g.
    apply elem_of_list_to_map_2 in Eg. split_and!; try done.
    all: assert (Hg : g ∈ (rekeyed s).*2) by (apply list_elem_of_fmap; by exists (p, g));
      rewrite E2 in Hg; apply list_elem_of_fmap in Hg as (i & -> & Hi%elem_of_seq); lia.
  - intros Hx. apply not_elem_of_list_to_map in Eg. destruct Eg. rewrite E1.
    apply elem_of_btree_iter, elem_of_dom. eauto.
Qed.

Lemma rekey_distinct s p q g : (p, g) ∈ rekeyed s -> (q, g) ∈ rekeyed s -> p = q.
Proof.
  destruct (rekeyed_spec s) as [_ E2]. intros Hp Hq.
  apply list_elem_of_lookup in Hp as [i Hi]. apply list_elem_of_lookup in Hq as [j Hj].
  assert (i = j) as ->; [|congruence].
  assert (Hnd : NoDup (rekeyed s).*2).
  { rewrite E2. apply NoDup_fmap_2; [intros a b; lia|apply NoDup_seq]. }
  eapply NoDup_lookup; [done|by rewrite list_lookup_fmap, Hi|by rewrite list_lookup_fmap, Hj].
Qed.

Lemma rekey_dom s : dom (set_generations (rekeyed s) (sessions s)) = dom (sessions s).
Proof.
  apply set_eq. intros p. rewrite !elem_of_dom, set_generations_lookup.
  - case_match; [by rewrite fmap_is_Some|done].
  - rewrite (proj1 (rekeyed_spec s)). apply NoDup_btree_iter.
Qed.

Lemma registry_rekey s pp po sr ar next :
  Registry (sessions s) pp po sr ar next -> Z.of_nat (size (sessions s)) <= u64_max ->
  Registry (set_generations (rekeyed s) (sessions s)) pp po sr ar (Z.of_nat (size (sessions s))).
Proof.
  intros [Ho Hp -> Hsr Har Hg Hd Hn] Hb. split; rewrite ?rekey_dom; try done.
  - intros p x (y & g & Hy & -> & _)%rekey_lookup. simpl. eauto.
  - intros pid p Hpp. destruct (Hp _ _ Hpp) as (y & Hy & <-).
    assert (Hin : p ∈ dom (set_generations (rekeyed s) (sessions s))) by (rewrite rekey_dom; by apply elem_of_dom).
    apply elem_of_dom in Hin as [x Hx]. exists x. split; [done|].
    apply rekey_lookup in Hx as (y' & g & Hy' & -> & _). simpl. congruence.
  - intros p x (y & g & Hy & -> & _ & Hr)%rekey_lookup. done.
  - intros p q x y (x' & g & _ & -> & Hx & _)%rekey_lookup (y' & g' & _ & -> & Hy & _)%rekey_lookup.
    simpl. intros <-. by eapply rekey_distinct.
  - lia.
Qed.

(** ** Queues *)
Lemma live_of_update ss sr peer x y :
  ss !! peer = Some x -> ss_generation y = ss_generation x -> live_of (<[peer := y]> ss) sr = live_of ss sr.
Proof.
  intros Hx E. unfold live_of. apply list_omap_ext. apply Forall_Forall2_diag, Forall_forall.
  intros p _. rewrite lookup_insert. case_decide; [subst|done]. rewrite Hx. simpl. by rewrite E.
Qed.

Lemma queues_update max ss sr chat bytes clock cache next aud peer x y :
  Queues max ss sr chat bytes clock cache next aud -> ss !! peer = Some x -> same_ids x y ->
  Queues max (<[peer := y]> ss) sr chat bytes clock cache next aud.
Proof.
  intros [Hi Hb Hc Hk Ha Hr] Hx [E _]. split; try done. intros a Ea. by rewrite (live_of_update _ _ _ x), (Ha a).
Qed.

(** Dropping the cached audience lets the membership change. *)
Lemma queues_forget max ss sr chat bytes clock cache next aud ss' sr' next' :
  Queues max ss sr chat bytes clock cache next aud -> next <= next' ->
  Queues max ss' sr' chat bytes clock None next' aud.
Proof.
  intros [Hi Hb Hc Hk Ha Hr] Hn. split; try done. apply (retained_next next); [done|].
  eapply retained_subset, Hr. unfold audiences. simpl. set_solver.
Qed.

Lemma queues_empty max ss sr next aud : Queues max ss sr [] 0 None None next aud.
Proof. split; simpl; try done; [unfold CHAT_QUEUE_ITEMS; lia|apply retained_empty]. Qed.

Lemma live_of_generation ss sr next a :
  (forall peer x, ss !! peer = Some x -> 1 <= ss_generation x <= next) ->
  a ∈ live_of ss sr -> fr_generation a <= next.
Proof.
  intros Hg Ha. apply list_elem_of_omap in Ha as (p & _ & Hp).
  destruct (ss !! p) as [x|] eqn:Ex; [|done]. injection Hp as <-. simpl. by apply (Hg p).
Qed.

(** ** Sessions *)
Lemma sessions_ok_update ss pp po sr ar next r w w' peer x y :
  Registry ss pp po sr ar next -> ss !! peer = Some x -> same_ids x y ->
  map_Forall (fun _ => SessionOk r w) ss -> SessionOk r w' y ->
  (forall pid, pid <> ss_player_id y -> w' !! pid = w !! pid) ->
  map_Forall (fun _ => SessionOk r w') (<[peer := y]> ss).
Proof.
  intros HR Hx [_ Ep] Hall Hy Hw q z. rewrite lookup_insert. case_decide as Hd; [intros [= <-]; done|].
  intros Hq. destruct (Hall q z Hq) as [(c & Hc & Hwc) ? ? ? ?]. split; try done.
  exists c. rewrite Hw; [done|]. intros E. destruct Hd.
  apply (rg_owner _ _ _ _ _ _ HR) in Hq, Hx. congruence.
Qed.

Lemma dirty_update ss dirty flush dirty' flush' peer y :
  Dirty ss dirty flush -> (ss_dirty y = true -> ss_player_id y ∈ dirty' ∪ flush') ->
  (forall q z, q <> peer -> ss !! q = Some z -> ss_player_id z ∈ dirty ∪ flush ->
     ss_player_id z ∈ dirty' ∪ flush') ->
  Dirty (<[peer := y]> ss) dirty' flush'.
Proof.
  intros HD Hy Hsub q z. rewrite lookup_insert. case_decide; [intros [= <-]; done|]. eauto.
Qed.

(** A session replaced by one with the same identity and sound interest sets. *)
Lemma good_session P s peer x y :
  good P s -> sessions s !! peer = Some x -> same_ids x y -> ss_dirty y = ss_dirty x ->
  SessionOk (aoi_radius_i32 (cfg s)) (w_cell_of (sworld s)) y ->
  good P (s <| sessions ::= <[peer := y]> |>).
Proof.
  intros (([HR HQ] & HD & HS & HW & HH) & Hlive) Hx Hids Hdirty Hok. split.
  - split; [split|]; [by eapply registry_update|by eapply queues_update|]. split; [|split; [|done]].
    + apply (dirty_update _ (dirty_players s) (flush_players s)); [done| |done].
      rewrite Hdirty. destruct Hids as [_ ->]. eauto.
    + by eapply sessions_ok_update.
  - simpl. rewrite dom_insert_lookup_L by eauto. done.
Qed.

Lemma good_ok P s peer x :
  good P s -> sessions s !! peer = Some x -> SessionOk (aoi_radius_i32 (cfg s)) (w_cell_of (sworld s)) x.
Proof. intros ((_ & _ & HS & _) & _). apply HS. Qed.

Lemma alter_cases (f : Session -> Session) peer (m : gmap Z Session) :
  alter f peer m = match m !! peer with Some x => <[peer := f x]> m | None => m end.
Proof.
  apply map_eq. intros q. rewrite lookup_alter. destruct (m !! peer) as [x|] eqn:E.
  - rewrite lookup_insert. case_decide; subst; by rewrite ?E.
  - case_decide; subst; by rewrite ?E.
Qed.

(** An update that only touches fields the invariant does not read, or keeps
    what it says of them. *)
Lemma good_update P s peer f :
  good P s ->
  (forall x, sessions s !! peer = Some x -> same_ids x (f x) /\ ss_dirty (f x) = ss_dirty x /\
     SessionOk (aoi_radius_i32 (cfg s)) (w_cell_of (sworld s)) (f x)) ->
  good P (update_session peer f s).
Proof.
  intros HG Hf. unfold update_session. destruct (sessions s !! peer) as [x|] eqn:Ex.
  - destruct (Hf x eq_refl) as (Hi & Hd & Hok).
    replace (s <| sessions ::= alter f peer |>) with (s <| sessions ::= <[peer := f x]> |>).
    { by eapply good_session. }
    cbn. by rewrite alter_cases, Ex.
  - replace (s <| sessions ::= alter f peer |>) with (s <| sessions ::= fun m => m |>); [exact HG|].
    cbn. by rewrite alter_cases, Ex.
Qed.

(** ** The transport *)
Lemma send_live id payload io h :
  HostInv h -> HostInv (send_unreliable id payload io h).2 /\
  live_ids (send_unreliable id payload io h).2 = live_ids h /\
  max_peers (send_unreliable id payload io h).2 = max_peers h.
Proof.
  intros HI. split; [by apply send_unreliable_inv|]. unfold send_unreliable.
  case_decide; [done|]. repeat (case_match; [|done]). split; [by apply live_ids_ext|done].
Qed.

Section Keep.
Context `{FB : FlatBuffers}.

Lemma good_host P P' s h :
  good P s -> HostInv h -> max_peers h = max_peers (host s) ->
  dom (sessions s) ⊆ live_ids h ∪ P' -> good P' (s <| host := h |>).
Proof.
  intros ((HR & HD & HS & HW & HH & Hm & Hr) & _) Hh Em Hl. split; [|done].
  split; [exact HR|]. split; [exact HD|]. split; [exact HS|]. split; [exact HW|].
  split; [exact Hh|]. split; [etrans; [exact Em|exact Hm]|exact Hr].
Qed.

Lemma good_send P peer bytes s : good P s -> good P (send peer bytes s).
Proof.
  intros HG. pose proof HG as ((_ & _ & _ & _ & HH & _) & Hl).
  destruct (send_live peer bytes (Ok tt) (host s) HH) as (HH' & El & Em).
  apply (good_host P); [done..|]. by rewrite El.
Qed.

Lemma good_send_bounded P peer bytes s : good P s -> good P (send_bounded peer bytes s).2.
Proof. intros HG. unfold send_bounded. case_decide; [done|]. by apply good_send. Qed.

Lemma good_seq P s : good P s -> good P (next_seq s).2.
Proof. intros HG. exact HG. Qed.

Lemma good_reply P env peer accepted reason pid gold s :
  good P s -> good P (send_hello env peer accepted reason pid gold s).
Proof. intros HG. unfold send_hello. simpl. apply good_send. exact HG. Qed.

Lemma on_db_frame {A} (m : M A) s : exists d, (on_db m s).2 = s <| db := d |>.
Proof. unfold on_db. destruct (m (db s)) as [[a|e] d]; eauto. Qed.

(** ** Registering and unregistering *)
Lemma rekey_good P s : good P s -> good P (rekey_live_session_generations s).2.
Proof.
  intros (([HR HQ] & HD & HS & HW & HH & Hm & Hr) & Hl). unfold rekey_live_session_generations.
  case_decide as Hb; [by split|].
  assert (Hlk : forall p x, set_generations (rekeyed s) (sessions s) !! p = Some x ->
    exists y g, sessions s !! p = Some y /\ x = y <| ss_generation := g |>).
  { intros p x (y & g & Hy & E & _)%rekey_lookup. eauto. }
  split; [split; [split|split; [|split; [|split; [exact HW|done]]]]|]; simpl.
  - apply (registry_rekey s _ _ _ _ _ HR).
    unfold max_transport_peers_usize, clampZ, MAX_TRANSPORT_PEERS, u64_max in *. lia.
  - apply queues_empty.
  - intros p x Hx. destruct (Hlk p x Hx) as (y & g & Hy & ->). simpl. eauto.
  - intros p x Hx. destruct (Hlk p x Hx) as (y & g & Hy & ->). destruct (HS p y Hy). by split.
  - etrans; [|exact Hl]. rewrite <- rekey_dom. done.
Qed.

(** What a generation is allocated from: the same tables, up to a rekey. *)
Definition same_tables (s s0 : Server) : Prop :=
  dom (sessions s0) = dom (sessions s) /\ player_peers s0 = player_peers s /\
  sworld s0 = sworld s /\ cfg s0 = cfg s /\ host s0 = host s /\
  dirty_players s0 = dirty_players s.

Lemma rekey_tables s : same_tables s (rekey_live_session_generations s).2.
Proof.
  unfold rekey_live_session_generations. case_decide; [done|].
  unfold same_tables. simpl. split; [|done]. apply rekey_dom.
Qed.

Lemma allocate_generation P s :
  good P s ->
  exists s0, good P s0 /\ same_tables s s0 /\
    match allocate_session_generation s with
    | (Ok g, s') => g = next_session_generation s0 + 1 /\ g <= u64_max /\
                    s' = s0 <| next_session_generation := g |>
    | (Err _, s') => s' = s0
    end.
Proof.
  intros HG. unfold allocate_session_generation.
  assert (Hc : forall s0, good P s0 ->
    match match checked_u 64 (next_session_generation s0 + 1) with
          | Some g => (Ok g, s0 <| next_session_generation := g |>)
          | None => (Err (SrvMsg "session generation exhausted"), s0) end : result SrvError Z * Server with
    | (Ok g, s') => g = next_session_generation s0 + 1 /\ g <= u64_max /\
                    s' = s0 <| next_session_generation := g |>
    | (Err _, s') => s' = s0
    end).
  { intros s0 _. unfold checked_u. case_decide as Hi; [|done].
    unfold inU, u64_max in *. split_and!; [done|lia|done]. }
  case_decide.
  - pose proof (rekey_good P s HG) as HG'. pose proof (rekey_tables s) as HT.
    destruct (rekey_live_session_generations s) as [[u|e] s0]; simpl in *; exists s0; [|done].
    split_and!; [done..|by apply Hc].
  - exists s. split_and!; [done|by split_and!|by apply Hc].
Qed.

Lemma good_register P s peer x :
  good P s -> peer ∈ live_ids (host s) ->
  SessionOk (aoi_radius_i32 (cfg s)) (w_cell_of (sworld s)) x ->
  good P (register_session peer x s).2.
Proof.
  intros HG Hpeer Hok. unfold register_session. case_decide as Hs; [done|].
  destruct (player_peers s !! ss_player_id x) eqn:Epp; [done|].
  destruct (allocate_generation P s HG) as (s0 & HG0 & (Ed & Ep & Ew & Ec & Eh & Edp) & Ha).
  destruct (allocate_session_generation s) as [[g|e] s']; [|by subst].
  destruct Ha as (Eg & Hb & ->).
  assert (Hs0 : sessions s0 !! peer = None).
  { apply not_elem_of_dom. rewrite Ed. apply not_elem_of_dom. by apply eq_None_not_Some. }
  destruct HG0 as (([HR HQ] & HD & HS & HW & HH & Hm & Hr) & Hl).
  set (y := x <| ss_generation := g |>).
  assert (HR' := registry_insert _ _ _ _ _ _ peer y HR Hs0).
  assert (HQ' : Queues (peer_limit s0) (<[peer := y]> (sessions s0))
                  ({[peer]} ∪ snapshot_recipients s0) (chat_fanout s0) (chat_fanout_bytes s0)
                  (clock_fanout s0) None g (next_audience s0)) by (eapply queues_forget; [done|lia]).
  assert (HS' : map_Forall (fun _ => SessionOk (aoi_radius_i32 (cfg s0)) (w_cell_of (sworld s0)))
                  (<[peer := y]> (sessions s0))).
  { apply map_Forall_insert_2; [|done]. rewrite Ec, Ew. by destruct Hok; split. }
  assert (Hl' : dom (<[peer := y]> (sessions s0)) ⊆ live_ids (host s0) ∪ P).
  { rewrite dom_insert_L, Eh. rewrite Eh in Hl. set_solver. }
  rewrite Ep in HR'. specialize (HR' Epp Eg ltac:(lia)). rewrite <- Eg in HR'.
  assert (Hsch : forall D (t : Server), t = (s0 <| next_session_generation := g |>
       <| sessions ::= <[peer := y]> |> <| player_peers ::= <[ss_player_id y := peer]> |>
       <| player_order ::= union {[ss_player_id y]} |> <| snapshot_recipients ::= union {[peer]} |>
       <| fanout_audience_cache := None |> <| dirty_players := D |>) ->
     Dirty (<[peer := y]> (sessions s0)) D (flush_players s0) -> good P (schedule_aoi peer t)).
  { intros D t -> HD'. unfold schedule_aoi. simpl. rewrite lookup_insert_eq.
    split; [split; [split|split; [|split; [|split; [|done]]]]|]; simpl; rewrite ?Ep; done. }
  destruct (ss_dirty y) eqn:Edy; simpl.
  - eapply (Hsch ({[ss_player_id y]} ∪ dirty_players s0)); [done|].
    apply (dirty_update _ (dirty_players s0) (flush_players s0)); [done|set_solver|set_solver].
  - eapply (Hsch (dirty_players s0)); [done|].
    apply (dirty_update _ (dirty_players s0) (flush_players s0)); [done|by rewrite Edy|done].
Qed.

(** The registry without a peer: what the tables become, and who is gone. *)
Lemma good_unregister P s peer x :
  good ({[peer]} ∪ P) s -> sessions s !! peer = Some x ->
  let '(o, s') := unregister_session peer s in
  o = Some x /\ good P s' /\ sessions s' = delete peer (sessions s) /\
  player_peers s' = delete (ss_player_id x) (player_peers s) /\
  host s' = host s /\ cfg s' = cfg s.
Proof.
  intros (([HR HQ] & HD & HS & HW & HH & Hm & Hr) & Hl) Hx. unfold unregister_session.
  pose proof (rg_owner _ _ _ _ _ _ HR _ _ Hx) as Hpp. rewrite Hx. simpl. rewrite decide_True by done.
  split_and!; try done.
  split; [split; [split|split; [|split; [|done]]]|]; simpl.
  - by apply registry_delete.
  - by eapply queues_forget.
  - intros q z. rewrite lookup_delete. case_decide; [done|]. apply HD.
  - intros q z. rewrite lookup_delete. case_decide; [done|]. apply HS.
  - rewrite dom_delete_L. set_solver.
Qed.

Lemma good_unregister_None P s peer :
  good ({[peer]} ∪ P) s -> sessions s !! peer = None ->
  unregister_session peer s = (None, s) /\ good P s.
Proof.
  intros (HI & Hl) Hx. unfold unregister_session. rewrite Hx. split; [done|]. split; [done|].
  apply not_elem_of_dom in Hx. set_solver.
Qed.

(** No session of a player: its place in the world is free to change. *)
Definition absent (pid : Z) (ss : gmap Z Session) : Prop :=
  forall q z, ss !! q = Some z -> ss_player_id z <> pid.

Lemma absent_player s pid : server_inv s -> player_peers s !! pid = None -> absent pid (sessions s).
Proof.
  intros ([HR _] & _) Hn q z Hq <-. apply (rg_owner _ _ _ _ _ _ HR) in Hq. congruence.
Qed.

Lemma good_world P s w pid :
  good P s -> absent pid (sessions s) -> WorldInv w ->
  (forall p, p <> pid -> w_cell_of w !! p = w_cell_of (sworld s) !! p) ->
  good P (s <| sworld := w |>).
Proof.
  intros ((HRQ & HD & HS & HW & HH) & Hl) Ha Hw Hag. split; [|exact Hl].
  split; [exact HRQ|]. split; [exact HD|]. split; [|split; [exact Hw|exact HH]].
  intros q z Hq. destruct (HS q z Hq) as [(c & Hc & Hcw) ? ? ? ? ?]. split; try done.
  exists c. split; [done|]. simpl. rewrite Hag; [done|]. by eapply Ha.
Qed.

Lemma good_flush_sets P s dirty flush pid :
  good P s -> absent pid (sessions s) ->
  (dirty_players s ∪ flush_players s) ∖ {[pid]} ⊆ dirty ∪ flush ->
  good P (s <| flush_players := flush |> <| dirty_players := dirty |>).
Proof.
  intros ((HRQ & HD & HS & HW & HH) & Hl) Ha Hsub. split; [|exact Hl].
  split; [exact HRQ|]. split; [|split; [exact HS|split; [exact HW|exact HH]]].
  intros q z Hq Hd. specialize (HD q z Hq Hd). specialize (Ha q z Hq). simpl. set_solver.
Qed.

Lemma good_db P s d : good P s -> good P (s <| db := d |>).
Proof. intros HG. exact HG. Qed.

Lemma good_on_disconnect P env peer reason s :
  good ({[peer]} ∪ P) s -> good P (on_disconnect env peer reason s).2.
Proof.
  intros HG. unfold on_disconnect.
  set (s1 := s <| hello_limiter ::= limiter_clear peer |>).
  assert (HG1 : good ({[peer]} ∪ P) s1) by exact HG. clearbody s1. clear s HG. rename s1 into s.
  destruct (sessions s !! peer) as [x|] eqn:Ex.
  2:{ by destruct (good_unregister_None P s peer HG1 Ex) as [-> HG]. }
  pose proof (good_unregister P s peer x HG1 Ex) as Hu.
  destruct (unregister_session peer s) as [o s'].
  destruct Hu as (-> & HG & Es & Epp & _). set (pid := ss_player_id x).
  assert (Hab : absent pid (sessions s')).
  { apply absent_player; [apply HG|]. rewrite Epp. apply lookup_delete_eq. }
  destruct (world_remove_spec pid (sworld s')) as (HW & Ew & _); [apply HG|].
  assert (HG2 : good P (s' <| sworld := world_remove pid (sworld s') |>)).
  { apply (good_world _ _ _ pid); [done..|]. intros p Hp. by rewrite Ew, lookup_delete_ne. }
  unfold touch_last_seen_for_flush, on_db. simpl.
  destruct (touch_last_seen (wrapS 64 pid) (e_now_ms env) (db s')) as [[u|e] d]; simpl.
  - exact (good_flush_sets P _ (dirty_players s' ∖ {[pid]})
             (({[pid]} ∪ flush_players s') ∖ {[pid]}) pid HG2 Hab ltac:(set_solver)).
  - exact (good_flush_sets P _ (dirty_players s') ({[pid]} ∪ flush_players s') pid HG2 Hab
             ltac:(set_solver)).
Qed.

(** ** Hellos *)
Lemma disconnect_live id h :
  HostInv h -> HostInv (disconnect id h).2 /\ max_peers (disconnect id h).2 = max_peers h /\
  live_ids (disconnect id h).2 = live_ids h ∖ {[id]} /\
  ((disconnect id h).1 = false -> (disconnect id h).2 = h).
Proof.
  intros HI. split; [by apply disconnect_inv|]. destruct HI as [HT _].
  destruct (decide (id ∈ live_ids h)) as [Hin|Hin].
  - apply elem_of_live_ids in Hin as (a & p & Ha & <-).
    assert (Epa : peer_addr (p_id p) h = Some a) by (apply peer_addr_spec; eauto).
    destruct (remove_peer_at_spec h a p HT Ha) as (h' & Er & _ & Ep & _ & _ & _ & _ & Hc & _).
    unfold disconnect. rewrite Epa, Er. simpl. split; [apply Hc|]. split; [|done].
    rewrite <- (live_ids_delete h h' a p HT Ha Ep). by apply live_ids_ext.
  - rewrite (disconnect_gone id h HT Hin). simpl. split_and!; [done|set_solver|done].
Qed.

Lemma cover_evict (A L P : gset Z) p : A ⊆ L ∪ P -> A ⊆ L ∖ {[p]} ∪ ({[p]} ∪ P).
Proof. intros HA x Hx. specialize (HA x Hx). destruct (decide (x = p)); set_solver. Qed.

Lemma cover_more (A L P Q : gset Z) : A ⊆ L ∪ P -> A ⊆ L ∪ (Q ∪ P).
Proof. set_solver. Qed.

(** After an eviction the player has no session, and the joining peer neither
    gained a session nor lost its connection. *)
Lemma good_evict P s peer pid :
  good P s -> sessions s !! peer = None -> peer ∈ live_ids (host s) ->
  let '(r, s') := evict_superseded peer pid s in
  good P s' /\ cfg s' = cfg s /\
  (r = Ok tt -> sessions s' !! peer = None /\ player_peers s' !! pid = None /\ peer ∈ live_ids (host s')).
Proof.
  intros HG Hs Hpeer. unfold evict_superseded.
  destruct (player_peers s !! pid) as [pp|] eqn:Epp; [|done].
  pose proof HG as (([HR _] & _ & _ & _ & HH & _) & Hl).
  destruct (rg_peer _ _ _ _ _ _ HR _ _ Epp) as (x & Hx & Ex).
  rewrite decide_False by (intros ->; congruence).
  destruct (disconnect_live pp (host s) HH) as (HH' & Em & El & Hf).
  destruct (match peer_addr pp (host s) with Some _ => _ | None => _ end) as [ok s1] eqn:Ed.
  assert (H1 : good ({[pp]} ∪ P) s1 /\ sessions s1 = sessions s /\ player_peers s1 = player_peers s /\
     cfg s1 = cfg s /\ peer ∈ live_ids (host s1) /\ (ok = false -> s1 = s <| host := host s |>)).
  { destruct (peer_addr pp (host s)).
    - destruct (disconnect pp (host s)) as [b h]. simpl in *. injection Ed as <- <-.
      split_and!; try done.
      + apply (good_host P); [done..|]. rewrite El. by apply cover_evict.
      + simpl. rewrite El. apply elem_of_difference. split; [done|].
        rewrite elem_of_singleton. intros ->. congruence.
      + intros Eb. by rewrite Hf.
    - injection Ed as <- <-. split_and!; try done. split; [apply HG|]. by apply cover_more. }
  destruct H1 as (HG1 & Es1 & Ep1 & Ec1 & Hp1 & Hok). destruct ok; simpl.
  - rewrite <- Es1 in Hx. pose proof (good_unregister P s1 pp x HG1 Hx) as Hu.
    destruct (unregister_session pp s1) as [o s2]. destruct Hu as (-> & HG2 & Es2 & Ep2 & Eh2 & Ec2).
    split; [exact HG2|]. split; [simpl; congruence|]. intros _. simpl.
    rewrite Es2, Es1, Ep2, Ex, Eh2. split_and!; [|apply lookup_delete_eq|done].
    rewrite lookup_delete_ne; [done|]. intros ->. congruence.
  - rewrite (Hok eq_refl). done.
Qed.

Lemma length_cells c r : 0 <= r < 2 ^ 29 -> length (block_cells c r) = block r.
Proof.
  intros Hr. unfold block_cells. rewrite (wrapS_id 32 (- r)) by (unfold inS; lia).
  assert (El : length (zrange (- r) r) = Z.to_nat (2 * r + 1)).
  { unfold zrange. rewrite length_fmap, length_seq. f_equal. lia. }
  assert (H : forall l, length (l ≫= fun dz => (fun dx => mkCell (wrapS 32 (cx c + dx))
            (wrapS 32 (cz c + dz))) <$> zrange (- r) r) = (length l * Z.to_nat (2 * r + 1))%nat).
  { induction l as [|d l IH]; [done|].
    rewrite bind_cons, length_app, length_fmap, El, IH. simpl. lia. }
  rewrite H, El. unfold block. rewrite Z2Nat.inj_mul by lia. done.
Qed.

Lemma size_list_to_set_le {A} `{Countable A} (l : list A) : (size (list_to_set l : gset A) <= length l)%nat.
Proof.
  induction l as [|c l IH]; [done|]. simpl.
  rewrite size_union_alt, size_singleton.
  pose proof (subseteq_size (list_to_set l ∖ {[c]}) (list_to_set l : gset A) ltac:(set_solver)). lia.
Qed.

(** The configured radius is far below the one that panics. *)
Lemma radius_small c : 0 <= aoi_radius_i32 c -> 0 <= aoi_radius_i32 c < 2 ^ 29.
Proof. unfold aoi_radius_i32, MAX_AOI_RADIUS_CELLS. lia. Qed.

Lemma recenter_bounded c sub u sub' :
  recenter c sub = Some (u, sub') -> 0 <= sub_radius sub < 2 ^ 29 ->
  (size (sub_cells sub) <= block (sub_radius sub))%nat ->
  sub_radius sub' = sub_radius sub /\ (size (sub_cells sub') <= block (sub_radius sub))%nat.
Proof.
  intros E Hr Hs. unfold recenter in E. case_decide; [by injection E as _ <-|].
  rewrite cells_in_radius_small in E by done. injection E as _ <-. simpl. split; [done|].
  rewrite <- (length_cells c) by done. apply size_list_to_set_le.
Qed.

Lemma new_session_ok s pid h name sub u sub' c :
  subscription_new (aoi_radius_i32 (cfg s)) = Some sub -> recenter c sub = Some (u, sub') ->
  w_cell_of (sworld s) !! pid = Some c ->
  SessionOk (aoi_radius_i32 (cfg s)) (w_cell_of (sworld s)) (new_session pid h name sub' c).
Proof.
  unfold subscription_new. case_decide as Hr; [|done]. intros [= <-] E Hw.
  destruct (recenter_bounded _ _ _ _ E) as [Er Eb]; [by apply radius_small|apply Nat.le_0_l|].
  simpl in Er, Eb. split; simpl; try done; [eauto|apply Nat.le_0_l].
Qed.

Lemma good_emit P peer aoi s : good P s -> good P (emit_aoi peer aoi s).
Proof.
  intros HG. unfold emit_aoi, schedule_aoi. case_match; [done|]. destruct (sessions s !! peer) eqn:E; [|done].
  pose proof HG as (([HR HQ] & Hrest) & Hl). split; [|exact Hl]. split; [|exact Hrest]. split; [|exact HQ].
  destruct HR. split; try done. simpl. apply elem_of_dom_2 in E. set_solver.
Qed.

Lemma good_open P env peer pid gold h name s :
  good P s -> absent pid (sessions s) -> peer ∈ live_ids (host s) ->
  good P (open_session env peer pid gold h name s).2.
Proof.
  intros HG Hab Hp. unfold open_session.
  destruct (subscription_new (aoi_radius_i32 (cfg s))) as [sub|] eqn:Esub; [|done].
  set (c := cell_of _ _ _). destruct (recenter c sub) as [[aoi sub']|] eqn:Erec; [|exact HG].
  pose proof (new_session_ok (s <| sworld ::= fun w => (place_in_cell pid c w).2 |>) pid h name sub aoi sub' c
    Esub Erec) as Hok.
  destruct (place_spec pid c (sworld s)) as (HW & Ew & _); [apply HG|].
  assert (HG1 : good P (s <| sworld ::= fun w => (place_in_cell pid c w).2 |>)).
  { apply (good_world P s _ pid); [done..|]. intros q Hq. by rewrite Ew, lookup_insert_ne. }
  set (s1 := s <| sworld ::= _ |>) in *.
  assert (HG2 := good_register P s1 peer (new_session pid h name sub' c) HG1 Hp).
  destruct (register_session peer _ s1) as [[u|e] s2]; simpl in *.
  - apply good_emit, good_reply, HG2, Hok. by rewrite Ew, lookup_insert_eq.
  - apply HG2, Hok. by rewrite Ew, lookup_insert_eq.
Qed.

Lemma peer_addr_live s peer a : HostInv (host s) -> peer_addr peer (host s) = Some a -> peer ∈ live_ids (host s).
Proof. intros [HT _] Hp. apply peer_addr_spec in Hp as (p & Hp & <-); [|done]. apply elem_of_live_ids. eauto. Qed.

Lemma good_admit P ip known now s :
  good P s -> good P (admit_session ip known now s).2 /\
  sessions (admit_session ip known now s).2 = sessions s /\
  host (admit_session ip known now s).2 = host s.
Proof.
  intros HG. unfold admit_session. destruct (bounded_allow _ _ _ _) as [[] l]; simpl; [|split; [exact HG|done]].
  destruct known; [destruct (bounded_allow _ _ _ _)|destruct (global_allow _ _)]; simpl;
    (split; [exact HG|done]).
Qed.

Lemma good_index P h pid known now s :
  good P s -> good P (index_identity h pid known now s).2 /\
  sessions (index_identity h pid known now s).2 = sessions s /\
  host (index_identity h pid known now s).2 = host s.
Proof.
  intros HG. unfold index_identity. destruct known; case_decide; (split; [exact HG|done]).
Qed.

Lemma good_hello P env peer hello s : good P s -> good P (on_hello_at env peer hello s).2.
Proof.
  intros HG. unfold on_hello_at. destruct (limiter_allow _ _ _) as [ok l].
  set (s1 := s <| hello_limiter := l |>). assert (HG1 : good P s1) by exact HG.
  clearbody s1. clear s HG. rename s1 into s, HG1 into HG.
  destruct ok; simpl; [|done].
  destruct (check_hello hello s) as [[token dn]|reason]; [|by apply good_reply].
  destruct (sessions s !! peer) as [x|] eqn:Ex.
  { case_decide; [by apply good_reply|].
    destruct (on_db_frame (player_balance (wrapS 64 (ss_player_id x))) s) as [d Ed].
    destruct (on_db _ s) as [[b|e] s']; simpl in *; subst; [|exact HG]. apply good_reply. exact HG. }
  destruct (peer_addr peer (host s)) as [a|] eqn:Ea; [|done].
  apply peer_addr_live in Ea as Hlive; [|apply HG].
  destruct (good_admit P (addr_ip a) (identity_players s !! token_hash token) (e_admission_ms env) s HG)
    as (HG1 & Es1 & Eh1).
  destruct (admit_session _ _ _ s) as [ok s1]. simpl in HG1, Es1, Eh1.
  rewrite <- Es1 in Ex. rewrite <- Eh1 in Hlive.
  destruct ok; simpl; [|by apply good_reply].
  destruct (on_db_frame (admit_player_by_token (token_hash token) (default "sailor"%string dn) (e_now_ms env)
              (max_player_rows_u32 (cfg s1))) s1) as [d Ed].
  destruct (on_db _ s1) as [[adm|e] s2]; simpl in Ed |- *;
    (assert (HG2 : good P s2) by (rewrite Ed; exact HG1)); [|exact HG2].
  assert (Ex2 : sessions s2 !! peer = None) by (by rewrite Ed).
  assert (Hl2 : peer ∈ live_ids (host s2)) by (by rewrite Ed).
  destruct adm as [pl|]; [|apply good_reply; exact HG2].
  case_decide; [exact HG2|].
  destruct (good_index P (token_hash token) (pl_id pl) (identity_players s !! token_hash token)
              (e_admission_ms env) s2 HG2) as (HG3 & Es3 & Eh3).
  destruct (index_identity _ _ _ _ s2) as [[u|e] s3]; simpl in HG3, Es3, Eh3; [|exact HG3].
  pose proof (good_evict P s3 peer (pl_id pl) HG3) as Hev. rewrite Es3, Eh3 in Hev.
  specialize (Hev Ex2 Hl2).
  destruct (evict_superseded peer (pl_id pl) s3) as [[u'|e] s4]; destruct Hev as (HG4 & _ & Hok); [|exact HG4].
  destruct u'. destruct (Hok eq_refl) as (Es4 & Ep4 & Hl4).
  apply good_open; [done| |done]. apply absent_player; [apply HG4|done].
Qed.

(** ** The other messages *)
Lemma good_client_state P peer m now s : good P s -> good P (on_client_state peer m now s).2.
Proof.
  intros HG. unfold on_client_state. destruct (sessions s !! peer) as [x|] eqn:Ex; [|done].
  destruct (limiter_allow _ _ _) as [[] l]; [|exact HG]. simpl.
  destruct (sanitize_motion _ _ _) as [mo|]; [|exact HG]. destruct (World.pos mo) as [[px py] pz].
  set (pid := ss_player_id x). set (c := cell_of (w_grid (sworld s)) px pz).
  destruct (place_spec pid c (sworld s)) as (HW & Ew & _); [apply HG|].
  change (place pid px pz (sworld s)) with (place_in_cell pid c (sworld s)).
  set (w := (place_in_cell pid c (sworld s)).2) in *.
  assert (Ec : default (cell_of (w_grid w) px pz) (cell_of_entity pid w) = c).
  { unfold cell_of_entity. by rewrite Ew, lookup_insert_eq. }
  rewrite Ec. pose proof (good_ok P s peer x HG Ex) as Hok.
  destruct (recenter_runs c (ss_sub x)) as (aoi & sub & Erec).
  { rewrite (so_radius _ _ _ Hok). apply radius_small, HG. }
  destruct (recenter_bounded c (ss_sub x) aoi sub Erec) as [Er Eb].
  { rewrite (so_radius _ _ _ Hok). apply radius_small, HG. } { rewrite (so_radius _ _ _ Hok). apply Hok. }
  rewrite Erec. simpl snd. apply good_emit.
  destruct HG as (([HR HQ] & HD & HS & _ & HH) & Hl).
  split; [split; [split|split; [|split; [|split; [exact HW|exact HH]]]]|]; simpl.
  - by eapply registry_update.
  - by eapply queues_update.
  - apply (dirty_update _ (dirty_players s) (flush_players s)); [done|set_solver|set_solver].
  - eapply sessions_ok_update; [done|done|done|done| |].
    + destruct Hok as [_ Hr Hs Hp Hh Ha]. rewrite Hr in Er, Eb. split; simpl; try done.
      exists c. split; [done|]. by rewrite Ew, lookup_insert_eq.
    + intros q Hq. by rewrite Ew, lookup_insert_ne.
  - by rewrite dom_insert_lookup_L by eauto.
Qed.

(** A client state is always taken: its subscription's radius does not panic. *)
Lemma client_state_runs P peer m now s : good P s -> (on_client_state peer m now s).1 = Ok tt.
Proof.
  intros HG. unfold on_client_state. destruct (sessions s !! peer) as [x|] eqn:Ex; [|done].
  destruct (limiter_allow _ _ _) as [[] l]; [|done]. simpl.
  destruct (sanitize_motion _ _ _) as [mo|]; [|done]. destruct (World.pos mo) as [[px py] pz].
  match goal with |- context [recenter ?c _] => destruct (recenter_runs c (ss_sub x)) as (aoi & sub & Erec) end.
  { rewrite (so_radius _ _ _ (good_ok P s peer x HG Ex)). apply radius_small, HG. }
  by rewrite Erec.
Qed.

(** A handler that only sends, uses the database and charges a limiter. *)
Ltac db_step :=
  match goal with
  | HG : good ?P ?s |- context [on_db ?m ?s] =>
      let d := fresh "d" in let E := fresh "E" in
      destruct (on_db_frame m s) as [d E];
      let r := fresh "r" in let s' := fresh "s" in
      destruct (on_db m s) as [r s']; simpl in E;
      let H := fresh "HG" in
      assert (H : good P s') by (rewrite E; exact HG); clear E; clear HG; rename H into HG;
      destruct r; [|exact HG]
  end.

Lemma good_econ P env peer m s : good P s -> good P (on_econ env peer m s).2.
Proof.
  intros HG. unfold on_econ. destruct (sessions s !! peer) as [x|]; [|done].
  case_match; [done|]. db_step.
  destruct (match a with Some _ => _ | None => _ end) as [ok s1] eqn:E1.
  assert (HG1 : good P s1).
  { destruct a; [by injection E1 as <- <-|].
    destruct (limiter_allow _ _ _); injection E1 as <- <-; exact HG. }
  destruct ok; simpl; [|done]. clear HG. db_step. simpl. apply good_send. exact HG1.
Qed.

Lemma good_trade P env peer m s : good P s -> good P (on_trade env peer m s).2.
Proof.
  intros HG. unfold on_trade. destruct (sessions s !! peer) as [x|]; [|done]. db_step.
  destruct (match a with Some _ => _ | None => _ end) as [ok s1] eqn:E1.
  assert (HG1 : good P s1).
  { destruct a; [by injection E1 as <- <-|].
    destruct (limiter_allow _ _ _); injection E1 as <- <-; exact HG. }
  clear HG. destruct ok; simpl; db_step.
  - simpl. apply good_send. exact HG1.
  - destruct (default (0, 0) a0) as [stock price]. simpl. apply good_send. exact HG1.
Qed.

Lemma good_moor P env peer m s : good P s -> good P (on_moor env peer m s).2.
Proof.
  intros HG. unfold on_moor. destruct (sessions s !! peer) as [x|]; [|done].
  destruct (sanitize_motion _ _ _) as [mo|]; [|done]. case_match.
  { apply (good_send_bounded P peer _ (next_seq s).2). exact HG. }
  destruct (limiter_allow _ _ _) as [ok l]. cbv beta iota zeta.
  set (s1 := s <| moor_limiter := l |>). assert (HG1 : good P s1) by exact HG. clearbody s1. clear HG.
  destruct ok; simpl; [|exact HG1]. destruct (World.pos mo) as [[px py] pz]. db_step. simpl. apply good_send. exact HG1.
Qed.

(** ** Enqueueing fan-out *)
Definition with_queues (s : Server) (chat : list FanoutJob) (bytes : Z) (clock : option FanoutJob)
    (cache : option Audience) (aud : Z) (prefer : bool) : Server :=
  s <| chat_fanout := chat |> <| chat_fanout_bytes := bytes |> <| clock_fanout := clock |>
    <| fanout_audience_cache := cache |> <| next_audience := aud |> <| fanout_prefer_clock := prefer |>.

Definition queues_ok (s : Server) (chat : list FanoutJob) (bytes : Z) (clock : option FanoutJob)
    (cache : option Audience) (aud : Z) : Prop :=
  Queues (peer_limit s) (sessions s) (snapshot_recipients s) chat bytes clock cache
    (next_session_generation s) aud.

Lemma good_queues P s chat bytes clock cache aud prefer :
  good P s -> queues_ok s chat bytes clock cache aud -> good P (with_queues s chat bytes clock cache aud prefer).
Proof.
  intros (([HR _] & Hrest) & Hl) HQ. split; [|exact Hl]. split; [|exact Hrest]. split; [exact HR|exact HQ].
Qed.

Lemma capture_spec P s :
  good P s ->
  match capture_fanout_recipients s with
  | (o, s') => exists cache aud, s' = s <| fanout_audience_cache := cache |> <| next_audience := aud |> /\
      queues_ok s (chat_fanout s) (chat_fanout_bytes s) (clock_fanout s) cache aud /\
      (forall a, o = Some a -> cache = Some a)
  end.
Proof.
  intros (([HR HQ] & Hrest) & Hl). unfold capture_fanout_recipients.
  destruct (fanout_audience_cache s) as [a|] eqn:Ec.
  { exists (Some a), (next_audience s). split_and!; [by destruct s; simpl in *; subst|exact HQ|done]. }
  destruct (bool_decide _ || _) eqn:Eb.
  { exists None, (next_audience s). split_and!; [by destruct s; simpl in *; subst|exact HQ|done]. }
  apply orb_false_iff in Eb as [_ Eb]. unfold checked_u in Eb. case_decide as Hu; [|done].
  apply bool_decide_eq_false in Eb.
  set (a := mkAudience _ _). exists (Some a), (next_audience s + 1). split_and!; [done| |congruence].
  destruct HQ as [Hi Hby Hch Hck _ Hrt]. split; try done; [intros ? [= <-]; done|].
  unfold audiences in *. simpl. apply retained_fresh; [done|done| |].
  - intros r Hr. unfold a in Hr. simpl in Hr. apply elem_of_take in Hr as (i & Hr & _).
    apply list_elem_of_lookup_2 in Hr. eapply live_of_generation; [apply HR|exact Hr].
  - unfold retained_fanout_audience_entries, retained_audiences in Eb. rewrite Ec in Eb.
    simpl in Eb |- *. unfold len in *. lia.
Qed.

Lemma queued_bytes_app q j : queued_bytes (q ++ [j]) = queued_bytes q + len (jb_bytes j).
Proof. induction q as [|k q IH]; simpl; [lia|]. unfold len in *. lia. Qed.

Lemma good_chat P env peer m s : good P s -> good P (on_chat env peer m s).
Proof.
  intros HG. unfold on_chat. destruct (sessions s !! peer) as [x|]; [|done].
  destruct (ss_cell x) as [c|]; [|done].
  case_match; [done|]. case_decide as Hn; [done|]. case_decide as Hb; [done|].
  destruct (limiter_allow _ _ _) as [[] l]; [|exact HG]. cbv beta iota zeta. simpl negb. cbv iota.
  set (s1 := s <| chat_limiter := l |>). assert (HG1 : good P s1) by exact HG.
  assert (E1 : chat_fanout s1 = chat_fanout s) by done. clearbody s1.
  pose proof (good_seq P s1 HG1) as HG2. assert (E2 : chat_fanout (next_seq s1).2 = chat_fanout s1) by done.
  destruct (next_seq s1) as [n s2]. simpl in HG2, E2.
  case_decide as Hm; [done|]. pose proof (capture_spec P s2 HG2) as Hc.
  destruct (capture_fanout_recipients s2) as [o s3]. destruct Hc as (cache & aud & -> & HQ & Ho).
  assert (HG3 := good_queues P s2 _ _ _ cache aud (fanout_prefer_clock s2) HG2 HQ).
  destruct o as [a|]; [|exact HG3].
  rewrite (Ho a eq_refl) in *. clear HG3.
  set (j := mkJob _ (Some c) a O).
  assert (HQ' : queues_ok s2 (chat_fanout s2 ++ [j]) (len (jb_bytes j) + chat_fanout_bytes s2)
                  (clock_fanout s2) (Some a) aud).
  2:{ exact (good_queues P s2 _ _ _ _ _ (fanout_prefer_clock s2) HG2 HQ'). }
  destruct HQ as [Hi Hby Hch Hck Hca Hrt]. split; simpl; try done.
  - rewrite length_app. simpl. rewrite E2, E1. lia.
  - rewrite queued_bytes_app, Hby. simpl. lia.
  - apply Forall_app. split; [done|]. constructor; [|done]. split; simpl; lia.
  - apply (retained_dup _ _ (audiences (Some a) (chat_fanout s2) (clock_fanout s2)) a);
      [..|exact Hrt]; clear -c; unfold audiences; set_solver.
Qed.

Lemma good_clock P env s : good P s -> good P (broadcast_clock env s).
Proof.
  intros HG. unfold broadcast_clock. simpl.
  set (s1 := with_queues (next_seq s).2 (chat_fanout s) (chat_fanout_bytes s) None
               (fanout_audience_cache s) (next_audience s) (fanout_prefer_clock s)).
  assert (HG1 : good P s1).
  { apply good_queues; [exact HG|]. destruct HG as (([_ [Hi Hby Hch Hck Hca Hrt]] & _) & _).
    split; try done. eapply retained_subset, Hrt. unfold audiences. set_solver. }
  match goal with |- context [capture_fanout_recipients ?t] => change t with s1 end. clearbody s1.
  pose proof (capture_spec P s1 HG1) as Hc.
  destruct (capture_fanout_recipients s1) as [o s2]. destruct Hc as (cache & aud & -> & HQ & Ho).
  destruct o as [a|].
  - rewrite (Ho a eq_refl) in *.
    set (j := mkJob _ None a O).
    assert (HQ' : queues_ok s1 (chat_fanout s1) (chat_fanout_bytes s1) (Some j) (Some a) aud).
    2:{ exact (good_queues P s1 _ _ _ _ _ (fanout_prefer_clock s1) HG1 HQ'). }
    destruct HQ as [Hi Hby Hch Hck Hca Hrt]. split; try done; [intros ? [= <-]; simpl; lia|].
    apply (retained_dup _ _ (audiences (Some a) (chat_fanout s1) (clock_fanout s1)) a);
      [..|exact Hrt]; clear; unfold audiences; set_solver.
  - exact (good_queues P s1 (chat_fanout s1) (chat_fanout_bytes s1) (clock_fanout s1) cache aud
             (fanout_prefer_clock s1) HG1 HQ).
Qed.

(** ** Events *)
Lemma good_event P env ev s :
  (forall peer r, ev <> Disconnected peer r) -> good P s -> good P (handle_event env ev s).2.
Proof.
  intros Hnd HG. destruct ev as [p|p bytes|p r]; simpl; [done| |by destruct (Hnd p r)].
  unfold handle_data_at. destruct (decode_envelope bytes) as [e|]; [|done].
  destruct (env_payload e); simpl; try done.
  - by apply good_hello.
  - by apply good_client_state.
  - by apply good_moor.
  - by apply good_econ.
  - by apply good_chat.
  - by apply good_trade.
Qed.

(** ** Tick work *)

(** An update of the session's own bookkeeping keeps the invariant. *)
Lemma good_bookkeeping P s peer f :
  good P s ->
  (forall x, ss_generation (f x) = ss_generation x /\ ss_player_id (f x) = ss_player_id x /\
     ss_dirty (f x) = ss_dirty x /\ ss_cell (f x) = ss_cell x /\ ss_sub (f x) = ss_sub x /\
     ss_published_cells (f x) = ss_published_cells x /\ ss_hydration_cells (f x) = ss_hydration_cells x /\
     (ss_active_hydration (f x) = None \/
      hy_cell <$> ss_active_hydration (f x) = hy_cell <$> ss_active_hydration x)) ->
  good P (update_session peer f s).
Proof.
  intros HG Hf. apply good_update; [done|]. intros x Hx.
  destruct (Hf x) as (Eg & Ep & Ed & Ec & Es & Epu & Eh & Ea). split; [done|]. split; [done|].
  destruct (good_ok P s peer x HG Hx) as [Hc Hr Hsu Hpu Hhy Hac].
  split; rewrite ?Ec, ?Ep, ?Es, ?Epu, ?Eh; try done.
  intros h Hh. rewrite Hh in Ea. destruct Ea as [|Ea]; [done|].
  destruct (ss_active_hydration x) as [h'|]; [|done]. simpl in Ea. injection Ea as ->. by apply Hac.
Qed.

Lemma each_good {W} (f : Z -> W -> Server -> W * Server) P l w s :
  (forall p w s, good P s -> good P (f p w s).2) -> good P s -> good P (each f l w s).2.
Proof.
  intros Hf. unfold each. revert w s. induction l as [|p l IH]; intros w s HG; simpl; [done|].
  specialize (Hf p w s HG). destruct (f p w s). by apply IH.
Qed.

Lemma good_snapshot_to P tick peer w s : good P s -> good P (snapshot_to tick peer w s).2.
Proof.
  intros HG. unfold snapshot_to. destruct (sessions s !! peer) as [x|]; [|done].
  destruct (ss_cell x) as [c|]; [|done]. case_match; [done|].
  set (s1 := update_session peer _ s).
  assert (HG1 : good P s1) by (apply good_bookkeeping; [done|]; intros; simpl; eauto 10).
  clearbody s1. destruct (select_visible _ _ s1); [simpl; apply good_bookkeeping; [done|]; intros; simpl; eauto 10|].
  destruct (snapshot_window _ _ _) as [start rem].
  set (s2 := update_session peer _ s1).
  assert (HG2 : good P s2) by (apply good_bookkeeping; [done|]; intros; simpl; eauto 10). clearbody s2.
  cbv zeta.
  destruct (player_snap <$> _), (boats_of _); try done.
  all: pose proof (good_seq P s2 HG2) as HG3; destruct (next_seq s2) as [n s3]; simpl in HG3.
  all: match goal with |- context [send_bounded ?p ?b ?t] =>
         pose proof (good_send_bounded P p b t HG3) as HG4; destruct (send_bounded p b t) end.
  all: exact HG4.
Qed.

Lemma good_snapshots P s : good P s -> good P (broadcast_snapshots s).2.
Proof.
  intros HG. unfold broadcast_snapshots. apply each_good; [intros; by apply good_snapshot_to|].
  case_match; exact HG.
Qed.

(** ** Interest chunks *)
Definition stale (x : Session) : gset Cell := ss_published_cells x ∖ sub_cells (ss_sub x).
Definition missing (x : Session) : gset Cell := sub_cells (ss_sub x) ∖ ss_published_cells x.
Definition backlog (x : Session) : nat := (size (stale x) + size (missing x))%nat.

Definition chunk_removed (x : Session) : list Cell := take AOI_CELLS_PER_UPDATE (by_row (stale x)).
Definition chunk_added (x : Session) : list Cell :=
  take (AOI_CELLS_PER_UPDATE - length (chunk_removed x)) (by_row (missing x)).
Definition publish (x : Session) : Session :=
  fold_left publish_added (chunk_added x) (fold_left publish_removed (chunk_removed x) x).

Lemma elem_of_by_row c l : c ∈ by_row l <-> c ∈ l.
Proof. unfold by_row. by rewrite merge_sort_Permutation, elem_of_elements. Qed.

Lemma NoDup_by_row l : NoDup (by_row l).
Proof. unfold by_row. rewrite merge_sort_Permutation. apply NoDup_elements. Qed.

Lemma NoDup_take_rows n l : NoDup (take n (by_row l)).
Proof. pose proof (NoDup_by_row l) as H. rewrite <- (take_drop n (by_row l)) in H.
  by apply NoDup_app in H as [H _]. Qed.

Lemma elem_of_take_rows n c l : c ∈ take n (by_row l) -> c ∈ l.
Proof. intros (i & Hc & _)%elem_of_take. apply list_elem_of_lookup_2 in Hc. by apply elem_of_by_row. Qed.

Lemma length_by_row l : length (by_row l) = size l.
Proof. unfold by_row. by rewrite merge_sort_Permutation. Qed.

(** Fields a chunk leaves alone. *)
Definition same_core (x y : Session) : Prop :=
  same_ids x y /\ ss_dirty y = ss_dirty x /\ ss_cell y = ss_cell x /\ ss_sub y = ss_sub x.

Lemma publish_removed_spec l x :
  let y := fold_left publish_removed l x in
  same_core x y /\ ss_published_cells y = ss_published_cells x ∖ list_to_set l /\
  ss_hydration_cells y = ss_hydration_cells x ∖ list_to_set l /\
  (forall h, ss_active_hydration y = Some h -> ss_active_hydration x = Some h /\ hy_cell h ∉ l).
Proof.
  revert x. induction l as [|c l IH]; intros x; simpl.
  { split; [done|]. split_and!; [set_solver..|]. intros h Hh. split; [done|apply not_elem_of_nil]. }
  destruct (IH (publish_removed x c)) as (((Eg & Ep) & Ed & Ec & Es) & Epu & Ehy & Hac).
  assert (Hf : same_core x (publish_removed x c) /\
     ss_published_cells (publish_removed x c) = ss_published_cells x ∖ {[c]} /\
     ss_hydration_cells (publish_removed x c) = ss_hydration_cells x ∖ {[c]} /\
     (forall h, ss_active_hydration (publish_removed x c) = Some h ->
        ss_active_hydration x = Some h /\ hy_cell h <> c)).
  { unfold publish_removed, drop_hydration. simpl. destruct (ss_active_hydration x) as [h|] eqn:Eh; simpl.
    - case_decide; simpl; (split; [done|]); (split; [done|]); (split; [done|]); [done|].
      rewrite ?Eh. intros ? [= <-]. done.
    - rewrite ?Eh. done. }
  destruct Hf as (((Eg' & Ep') & Ed' & Ec' & Es') & Epu' & Ehy' & Hac').
  split_and!; [unfold same_core, same_ids; split_and!; congruence|rewrite Epu, Epu'; set_solver|
    rewrite Ehy, Ehy'; set_solver|].
  intros h Hh. destruct (Hac h Hh) as [Hh' Hn]. destruct (Hac' h Hh') as [Hh'' Hne].
  split; [done|]. rewrite not_elem_of_cons. done.
Qed.

Lemma publish_added_spec l x :
  let y := fold_left publish_added l x in
  same_core x y /\ ss_published_cells y = list_to_set l ∪ ss_published_cells x /\
  ss_hydration_cells y = list_to_set l ∪ ss_hydration_cells x /\
  ss_active_hydration y = ss_active_hydration x.
Proof.
  revert x. induction l as [|c l IH]; intros x; simpl; [split; [done|set_solver]|].
  destruct (IH (publish_added x c)) as (Hc & Epu & Ehy & Hac).
  split; [exact Hc|]. rewrite Epu, Ehy, Hac. unfold publish_added. simpl. split_and!; [set_solver..|done].
Qed.

(** What one chunk does: the oldest rows of the backlog, at most 32 cells. *)
Lemma publish_spec x :
  same_core x (publish x) /\
  stale (publish x) = stale x ∖ list_to_set (chunk_removed x) /\
  missing (publish x) = missing x ∖ list_to_set (chunk_added x) /\
  ss_published_cells (publish x) =
    list_to_set (chunk_added x) ∪ ss_published_cells x ∖ list_to_set (chunk_removed x) /\
  ss_hydration_cells (publish x) =
    list_to_set (chunk_added x) ∪ ss_hydration_cells x ∖ list_to_set (chunk_removed x) /\
  (forall h, ss_active_hydration (publish x) = Some h ->
     ss_active_hydration x = Some h /\ hy_cell h ∉ chunk_removed x).
Proof.
  destruct (publish_removed_spec (chunk_removed x) x) as (((Eg & Ep) & Ed & Ec & Es) & Epu & Ehy & Hac).
  destruct (publish_added_spec (chunk_added x) (fold_left publish_removed (chunk_removed x) x))
    as (((Eg' & Ep') & Ed' & Ec' & Es') & Epu' & Ehy' & Hac').
  fold (publish x) in *. rewrite Epu in Epu'. rewrite Ehy in Ehy'.
  pose proof (fun c => elem_of_take_rows _ c (missing x) : c ∈ chunk_added x -> _) as Ha.
  pose proof (fun c => elem_of_take_rows _ c (stale x) : c ∈ chunk_removed x -> _) as Hr.
  assert (Esub : ss_sub (publish x) = ss_sub x) by congruence.
  split_and!; [unfold same_core, same_ids; split_and!; congruence|..|done|done|].
  - unfold stale in *. rewrite Epu', Esub. apply set_eq. intros c. specialize (Ha c). unfold missing in Ha. set_solver.
  - unfold missing in *. rewrite Epu', Esub. apply set_eq. intros c. specialize (Hr c). unfold stale in Hr. set_solver.
  - intros h Hh. rewrite Hac' in Hh. by apply Hac.
Qed.

Lemma size_difference_list (X : gset Cell) l :
  NoDup l -> (forall c, c ∈ l -> c ∈ X) -> (size (X ∖ list_to_set l) = size X - length l)%nat.
Proof.
  intros Hnd Hl. rewrite size_difference; [by rewrite size_list_to_set|].
  intros c. rewrite elem_of_list_to_set. apply Hl.
Qed.

Lemma backlog_publish x : (backlog (publish x) = backlog x - AOI_CELLS_PER_UPDATE)%nat.
Proof.
  destruct (publish_spec x) as (_ & Es & Em & _). unfold backlog. rewrite Es, Em.
  rewrite !size_difference_list; [|by apply NoDup_take_rows|intros c; apply elem_of_take_rows|by apply NoDup_take_rows|intros c; apply elem_of_take_rows].
  unfold chunk_added, chunk_removed. rewrite !length_take, !length_by_row. lia.
Qed.

Lemma publish_ok r w x : SessionOk r w x -> SessionOk r w (publish x).
Proof.
  intros [Hc Hr Hsu Hpu Hhy Hac].
  destruct (publish_spec x) as (((Eg & Ep) & Ed & Ec & Es) & Est & _ & Epu & Ehy & Hac').
  split; rewrite ?Ec, ?Ep, ?Es; try done.
  - destruct (decide (size (stale x) < AOI_CELLS_PER_UPDATE)%nat) as [Hlt|Hge].
    + etrans; [|exact Hsu]. apply subseteq_size. rewrite <- Es. intros c Hc'.
      destruct (decide (c ∈ sub_cells (ss_sub (publish x)))) as [|Hn]; [done|].
      assert (Hst : c ∈ stale (publish x)) by (by apply elem_of_difference).
      rewrite Est in Hst. unfold chunk_removed in Hst.
      rewrite take_ge in Hst by (rewrite length_by_row; lia).
      apply elem_of_difference in Hst as [Hst Hn']. destruct Hn'.
      apply elem_of_list_to_set. by apply elem_of_by_row.
    + assert (Hz : chunk_added x = []).
      { unfold chunk_added, chunk_removed. rewrite length_take, length_by_row.
        replace (AOI_CELLS_PER_UPDATE - _)%nat with O by lia. done. }
      rewrite Epu, Hz. etrans; [|exact Hpu]. apply subseteq_size. set_solver.
  - rewrite Epu, Ehy. set_solver.
  - intros h Hh. destruct (Hac' h Hh) as [Hh' Hn]. rewrite Epu. specialize (Hac h Hh'). set_solver.
Qed.
End Keep.
