(* ===== verification/TickInv.v ===== *)
(** * The tick keeps the invariants, and what it delivers

    The tick work of Sched.v against the invariant of ServerInv.v, and the
    theorems on the server: the invariant over whole runs, the delivery of
    interest changes, the fan-out budgets, the fairness of the rounds and the
    final flush. *)

From S2P Require Import Structs Flat Tables.
From S2P Require Import Prelude Float World Clock Config Econ RateLimit Wire Host.
From S2P Require Import HostInv Persist EconStore Codec Server Sched ServerInv.

Section Keep.
Context `{FB : FlatBuffers}.

(** ** Interest delivery *)
Lemma next_aoi_chunk_eq peer s :
  next_aoi_chunk peer s =
    match sessions s !! peer with
    | None => (None, s)
    | Some x =>
        match chunk_added x, chunk_removed x with
        | [], [] => (None, s)
        | _, _ => (Some (chunk_added x, chunk_removed x), s <| sessions ::= <[peer := publish x]> |>)
        end
    end.
Proof. reflexivity. Qed.

Lemma good_publish P s peer x :
  good P s -> sessions s !! peer = Some x -> good P (s <| sessions ::= <[peer := publish x]> |>).
Proof.
  intros HG Hx. destruct (publish_spec x) as ((Hi & Hd & _) & _).
  eapply good_session; [done..|]. by apply publish_ok, (good_ok P s peer).
Qed.

Lemma good_chunk P peer s : good P s -> good P (next_aoi_chunk peer s).2.
Proof.
  intros HG. rewrite next_aoi_chunk_eq. destruct (sessions s !! peer) as [x|] eqn:Ex; [|done].
  pose proof (good_publish P s peer x HG Ex). by destruct (chunk_added x), (chunk_removed x).
Qed.

Lemma next_hydration_in cells cursor c : next_hydration_cell cells cursor = Some c -> c ∈ cells.
Proof.
  assert (Hh : forall l, head l = Some c -> c ∈ l) by (intros [|? ?] [= ->]; left).
  assert (Hs : c ∈ merge_sort cell_le (elements cells) -> c ∈ cells).
  { rewrite merge_sort_Permutation. apply elem_of_elements. }
  unfold next_hydration_cell. destruct cursor as [k|]; [|eauto].
  destruct (head (filter _ _)) as [d|] eqn:Eh; [|eauto]. intros [= ->].
  apply Hs. apply Hh in Eh. by apply list_elem_of_filter in Eh as [_ ?].
Qed.

Lemma good_prepare P peer n s : good P s -> good P (prepare_cell_hydration peer n s).2.
Proof.
  intros HG. unfold prepare_cell_hydration. destruct (sessions s !! peer) as [x|] eqn:Ex; [|done].
  set (y := match ss_active_hydration x with Some _ => _ | None => x end).
  assert (Hy : y = x \/ y = x <| ss_active_hydration := None |>).
  { unfold y. destruct (ss_active_hydration x); [|by left]. case_match; eauto. }
  clearbody y. pose proof (good_ok P s peer x HG Ex) as Hok.
  assert (Hyo : same_ids x y /\ ss_dirty y = ss_dirty x /\
                SessionOk (aoi_radius_i32 (cfg s)) (w_cell_of (sworld s)) y).
  { destruct Hy as [->| ->]; [done|]. destruct Hok. done. }
  destruct Hyo as (Hi & Hd & Hyo).
  assert (Hput : forall z, same_ids y z -> ss_dirty z = ss_dirty y ->
     SessionOk (aoi_radius_i32 (cfg s)) (w_cell_of (sworld s)) z ->
     good P (s <| sessions ::= <[peer := z]> |>)).
  { intros z [Hz1 Hz2] Hzd Hz. eapply good_session; [done..| | |done]; [|congruence].
    destruct Hi. split; congruence. }
  destruct (ss_active_hydration y) as [h|]; [by apply Hput|].
  destruct (next_hydration_cell _ _) as [c|] eqn:En; [|by apply Hput].
  apply next_hydration_in in En. apply Hput; [done..|].
  destruct Hyo as [Hc Hr Hsu Hpu Hhy Hac]. split; simpl; try done; [set_solver|].
  intros h [= <-]. simpl. set_solver.
Qed.

Lemma good_hydration_field P s peer f :
  good P s -> (forall h, hy_cell (f h) = hy_cell h) -> good P (update_hydration peer f s).
Proof.
  intros HG Hf. apply good_bookkeeping; [done|]. intros x. simpl. split_and!; try done.
  right. destruct (ss_active_hydration x); simpl; [by rewrite Hf|done].
Qed.

Lemma good_seq_send P peer g s :
  good P s -> good P (let '(n, t) := next_seq s in send_bounded peer (g n) t).2.
Proof. intros HG. simpl. apply (good_send_bounded P peer _ (next_seq s).2). exact HG. Qed.

Lemma good_hydrate_players P peer c cur rem w s :
  good P s -> good P (hydrate_players peer c cur rem w s).2.
Proof.
  intros HG. unfold hydrate_players. destruct (scan_cell _ _ _ _ _ _) as [[found examined] lastx].
  set (done_scan := match active_hydration_of peer s with Some _ => _ | None => _ end).
  set (s1 := update_hydration peer _ s).
  assert (HG1 : good P s1) by (by apply good_hydration_field). clearbody s1. clear HG. cbv zeta.
  set (r := match player_snap <$> found, boats_of found with [], [] => _ | _, _ => _ end).
  assert (HG2 : good P r.2).
  { unfold r. pose proof (good_seq_send P peer
      (fun n => cell_snapshot n c (player_snap <$> found) (boats_of found) []) s1 HG1) as H.
    destruct (next_seq s1) as [n t]. destruct (send_bounded _ _ t) as [[] t']; simpl in H.
    all: destruct (player_snap <$> found), (boats_of found); try done.
    all: by apply good_hydration_field. }
  clearbody r. destruct r as [w' s2]. destruct done_scan; exact HG2.
Qed.

Lemma good_hydrate_moorings P peer c w s : good P s -> good P (hydrate_moorings peer c w s).2.
Proof.
  intros HG. unfold hydrate_moorings.
  match goal with |- context [on_db ?m s] => destruct (on_db_frame m s) as [d Ed]; destruct (on_db m s) as [r s1] end.
  simpl in Ed. assert (HG1 : good P s1) by (rewrite Ed; exact HG). clear Ed HG.
  destruct r as [rows|e]; [|done]. destruct rows as [|row rows].
  - match goal with |- context [if ?b then (?w1, s1) else _] =>
      set (r := if b then (w1, s1) else _) end.
    assert (HG2 : good P r.2).
    { unfold r. case_match; [done|]. pose proof (good_seq_send P peer (fun n => cell_snapshot n c [] [] []) s1 HG1) as Hs.
      destruct (next_seq s1) as [n t]. by destruct (send_bounded _ _ t). }
    clearbody r. destruct r as [w' s2]. simpl. apply good_bookkeeping; [done|]. intros x. simpl. eauto 10.
  - set (s2 := update_hydration peer _ s1).
    assert (HG2 : good P s2) by (by apply good_hydration_field). clearbody s2. case_decide; [|done].
    pose proof (good_seq_send P peer (fun n => cell_snapshot n c [] [] [mooring_snap row]) s2 HG2) as Hs.
    destruct (next_seq s2) as [n t]. destruct (send_bounded _ _ t) as [[] t']; simpl in *; [|done].
    by apply good_hydration_field.
Qed.

Lemma good_one_aoi P peer w s : good P s -> good P (process_one_aoi_work peer w s).2.
Proof.
  intros HG. unfold process_one_aoi_work. pose proof (good_chunk P peer s HG) as HG1.
  destruct (next_aoi_chunk peer s) as [[[a r]|] s1]; simpl in HG1.
  - pose proof (good_seq_send P peer (fun n => aoi_update n a r) s1 HG1) as H.
    destruct (next_seq s1) as [n t]. by destruct (send_bounded _ _ t).
  - pose proof (good_prepare P peer (size (player_order s1)) s1 HG1) as HG2.
    destruct (prepare_cell_hydration peer _ s1) as [[[[[c cur] rem] fin]|] s2]; [|done]. simpl in HG2.
    destruct fin; simpl; [by apply good_hydrate_moorings|].
    pose proof (good_hydrate_players P peer c cur rem w s2 HG2).
    by destruct (hydrate_players peer c cur rem w s2) as [[m w'] s3].
Qed.

Lemma good_aoi_set P s ar : good P s -> ar ⊆ dom (sessions s) -> good P (s <| aoi_recipients := ar |>).
Proof.
  intros (([HR HQ] & Hrest) & Hl) Ha. split; [|exact Hl]. split; [|exact Hrest]. split; [|exact HQ].
  destruct HR. by split.
Qed.

Lemma good_schedule P peer s : good P s -> good P (schedule_aoi peer s).
Proof.
  intros HG. unfold schedule_aoi. destruct (sessions s !! peer) eqn:E; [|done].
  apply good_aoi_set; [done|]. apply elem_of_dom_2 in E.
  pose proof (rg_aoi _ _ _ _ _ _ (proj1 (proj1 (proj1 HG)))) as Ha. clear HG. set_solver.
Qed.

Lemma good_aoi_visit P peer w s : good P s -> good P (aoi_visit peer w s).2.
Proof.
  intros HG. unfold aoi_visit. set (s1 := s <| aoi_recipients ::= _ |>).
  assert (HG1 : good P s1).
  { apply good_aoi_set; [done|].
    pose proof (rg_aoi _ _ _ _ _ _ (proj1 (proj1 (proj1 HG)))) as Ha. clear HG s1. set_solver. }
  clearbody s1. destruct (sessions s1 !! peer); [|done]. cbv zeta.
  match goal with |- context [process_one_aoi_work peer ?w1 s1] =>
    pose proof (good_one_aoi P peer w1 s1 HG1) as H; destruct (process_one_aoi_work peer w1 s1) as [[r w'] s2] end.
  simpl in *. case_match; [|done]. by apply good_schedule.
Qed.

Lemma good_aoi P s : good P s -> good P (process_aoi_work s).2.
Proof.
  intros HG. unfold process_aoi_work. apply each_good; [intros; by apply good_aoi_visit|].
  case_match; exact HG.
Qed.

(** ** Fan-out *)

(** A send that the recipient check let through: its session is live, holds the
    captured generation, and is interested in the sender's cell. *)
Definition entitled (job : FanoutJob) (s : Server) (r : FanoutRecipient) : Prop :=
  exists x, sessions s !! fr_peer r = Some x /\ ss_generation x = fr_generation r /\
    forall c, jb_sender_cell job = Some c -> c ∈ sub_cells (ss_sub x).

(** The sends of a job, in order. *)
Definition deliver (job : FanoutJob) (l : list FanoutRecipient) (s : Server) : Server :=
  fold_left (fun s r => send (fr_peer r) (jb_bytes job) s) l s.

Definition same_but_host (s s' : Server) : Prop := s' = s <| host := host s' |>.

Lemma deliver_frame job l s : same_but_host s (deliver job l s).
Proof.
  unfold deliver. revert s. induction l as [|r l IH]; intros s; simpl; [by destruct s|].
  unfold same_but_host in *. rewrite IH at 1. done.
Qed.

Lemma should_send_entitled job r s : should_send job r s = true <-> entitled job s r.
Proof.
  unfold should_send, entitled. destruct (sessions s !! fr_peer r) as [x|].
  - rewrite andb_true_iff, bool_decide_eq_true. destruct (jb_sender_cell job) as [c|].
    + unfold contains. rewrite bool_decide_eq_true. naive_solver.
    + naive_solver.
  - naive_solver.
Qed.

(** The recipients a queue still owes a decision, in the order it is served. *)
Record Item := mkItem { it_clock : bool; it_bytes : list Z; it_cell : option Cell; it_recipient : FanoutRecipient }.

Definition job_items (clock : bool) (j : FanoutJob) : list Item :=
  mkItem clock (jb_bytes j) (jb_sender_cell j)
    <$> drop (jb_next_recipient j) (au_entries (jb_recipients j)).

Definition chat_items (q : list FanoutJob) : list Item := q ≫= job_items false.
Definition clock_items (o : option FanoutJob) : list Item := option_list o ≫= job_items true.

Definition wants (s : Server) (i : Item) : bool :=
  should_send (mkJob (it_bytes i) (it_cell i) (mkAudience 0 []) O) (it_recipient i) s.

(** The datagrams of a list of decisions, sent in order. *)
Definition send_items (l : list Item) (s : Server) : Server :=
  fold_left (fun s i => send (fr_peer (it_recipient i)) (it_bytes i) s) l s.

Lemma send_items_frame l s : send_items l s = s <| host := host (send_items l s) |>.
Proof.
  unfold send_items. revert s. induction l as [|r l IH]; intros s; simpl; [by destruct s|].
  rewrite IH at 1. done.
Qed.

Lemma good_send_items P l s : good P s -> good P (send_items l s).
Proof.
  unfold send_items. revert s. induction l as [|i l IH]; intros s HG; simpl; [done|].
  by apply IH, good_send.
Qed.

Lemma filter_wants_send peer bytes l s : List.filter (wants (send peer bytes s)) l = List.filter (wants s) l.
Proof. done. Qed.

Definition exhausted (scan_budget send_budget : nat) (w : FanoutTickWork) : Prop :=
  (scan_budget <= fa_recipient_scans w \/ send_budget <= fa_sends w)%nat.

Definition within_budget (scan_budget send_budget : nat) (w : FanoutTickWork) : Prop :=
  (fa_recipient_scans w <= scan_budget /\ fa_sends w <= send_budget)%nat.

(** The work a list of decisions is counted as. *)
Definition counted (w w' : FanoutTickWork) (l : list Item) (s : Server) : Prop :=
  fa_recipient_scans w' = (fa_recipient_scans w + length l)%nat /\
  fa_sends w' = (fa_sends w + length (List.filter (wants s) l))%nat.

(** The inner loop: a prefix of the recipients is decided, each sent to exactly
    when entitled, until the job or a budget ends. *)
Definition job_progress (clock : bool) (sb db : nat) (job : FanoutJob) (w : FanoutTickWork) (s : Server)
    (r : FanoutJob * FanoutTickWork * Server) : Prop :=
  let '(job', w', s') := r in
  exists l, job_items clock job = l ++ job_items clock job' /\
    job' = job <| jb_next_recipient := (jb_next_recipient job + length l)%nat |> /\
    s' = send_items (List.filter (wants s) l) s /\ counted w w' l s /\ within_budget sb db w' /\
    fa_jobs_completed w' = fa_jobs_completed w /\
    (job_items clock job' = [] \/ exhausted sb db w').

Lemma job_progress_nil clock sb db job w s :
  within_budget sb db w -> (job_items clock job = [] \/ exhausted sb db w) ->
  job_progress clock sb db job w s (job, w, s).
Proof.
  intros Hw He. exists []. simpl. rewrite Nat.add_0_r. split; [done|]. split; [by destruct job|].
  split; [done|]. split; [unfold counted; simpl; lia|]. done.
Qed.

Lemma fanout_job_spec clock sb db todo job w s :
  within_budget sb db w -> todo = drop (jb_next_recipient job) (au_entries (jb_recipients job)) ->
  job_progress clock sb db job w s (fanout_job sb db todo job w s).
Proof.
  revert job w s. induction todo as [|r todo IH]; intros job w s Hw Ht; cbn [fanout_job]; cbv zeta.
  { apply job_progress_nil; [done|]. left. unfold job_items. by rewrite <- Ht. }
  case_decide as Hs; [|apply job_progress_nil; [done|]; right; left; lia].
  case_decide as Hd; [|apply job_progress_nil; [done|]; right; right; lia].
  set (job1 := job <| jb_next_recipient ::= S |>).
  assert (Ht1 : todo = drop (jb_next_recipient job1) (au_entries (jb_recipients job1))).
  { simpl. replace (S (jb_next_recipient job)) with (jb_next_recipient job + 1)%nat by lia.
    rewrite <- drop_drop, <- Ht. done. }
  set (i := mkItem clock (jb_bytes job) (jb_sender_cell job) r).
  assert (Ei : job_items clock job = i :: job_items clock job1).
  { unfold job_items. rewrite <- Ht1, <- Ht. done. }
  assert (Ew : should_send job1 r s = wants s i) by done.
  destruct Hw as [Hw1 Hw2]. destruct (should_send job1 r s) eqn:Es.
  - specialize (IH job1 (w <| fa_recipient_scans ::= S |> <| fa_sends ::= S |>
                           <| fa_encoded_bytes ::= Z.add (len (jb_bytes job1)) |>)
                  (send (fr_peer r) (jb_bytes job1) s)).
    destruct (fanout_job _ _ _ _ _ _) as [[job' w'] s']. unfold job_progress in IH |- *.
    destruct IH as (l & El & Ej & Est & [Ec1 Ec2] & Hb & Hj & Hend); [split; simpl; lia|done|].
    exists (i :: l). rewrite Ei, El. split_and!; try done.
    + rewrite Ej. unfold job1. simpl. by rewrite Nat.add_succ_r.
    + rewrite Est. simpl. rewrite <- Ew. done.
    + unfold counted. simpl in Ec1, Ec2 |- *. rewrite <- Ew. simpl. rewrite filter_wants_send in Ec2. lia.
  - specialize (IH job1 (w <| fa_recipient_scans ::= S |>) s).
    destruct (fanout_job _ _ _ _ _ _) as [[job' w'] s']. unfold job_progress in IH |- *.
    destruct IH as (l & El & Ej & Est & [Ec1 Ec2] & Hb & Hj & Hend); [split; simpl; lia|done|].
    exists (i :: l). rewrite Ei, El. split_and!; try done.
    + rewrite Ej. unfold job1. simpl. by rewrite Nat.add_succ_r.
    + rewrite Est. simpl. rewrite <- Ew. done.
    + unfold counted. simpl in Ec1, Ec2 |- *. rewrite <- Ew. lia.
Qed.

Definition chat_of (l : list Item) : list Item := List.filter (fun i => negb (it_clock i)) l.
Definition clock_of (l : list Item) : list Item := List.filter it_clock l.

Lemma job_items_flag clock j l rest :
  job_items clock j = l ++ rest ->
  chat_of l = (if clock then [] else l) /\ clock_of l = (if clock then l else []).
Proof.
  intros E. assert (Hf : Forall (fun i => it_clock i = clock) l).
  { apply Forall_forall. intros i Hi. assert (Hin : i ∈ job_items clock j) by (rewrite E; set_solver).
    unfold job_items in Hin. by apply list_elem_of_fmap in Hin as (r & -> & _). }
  clear E. induction Hf as [|i l Hi Hf IH]; [by destruct clock|].
  unfold chat_of, clock_of in *. simpl. destruct IH as [-> ->]. rewrite Hi. by destruct clock.
Qed.

Lemma send_items_host l s s' : host s = host s' -> host (send_items l s) = host (send_items l s').
Proof.
  unfold send_items. revert s s'. induction l as [|i l IH]; intros s s' E; simpl; [done|].
  apply IH. simpl. by rewrite E.
Qed.

(** What the loop guarantees: each recipient owed a decision is decided once, in
    the order of its queue, and sent to exactly when entitled; the loop stops
    only at a budget or with nothing queued. *)
Definition fanout_result (P : gset Z) (sb db : nat) (w : FanoutTickWork) (s : Server)
    (r : option (FanoutTickWork * Server)) : Prop :=
  exists w' s' l, r = Some (w', s') /\ good P s' /\ sessions s' = sessions s /\
    chat_items (chat_fanout s) = chat_of l ++ chat_items (chat_fanout s') /\
    clock_items (clock_fanout s) = clock_of l ++ clock_items (clock_fanout s') /\
    host s' = host (send_items (List.filter (wants s) l) s) /\
    counted w w' l s /\ within_budget sb db w' /\
    (exhausted sb db w' \/ (chat_fanout s' = [] /\ clock_fanout s' = None)).

Lemma fanout_result_stop P sb db w s :
  good P s -> within_budget sb db w -> (exhausted sb db w \/ (chat_fanout s = [] /\ clock_fanout s = None)) ->
  fanout_result P sb db w s (Some (w, s)).
Proof.
  intros HG Hw He. exists w, s, []. do 6 (split; [done|]). split; [unfold counted; simpl; lia|done].
Qed.

Lemma fanout_result_cons P sb db w w1 s s2 r l :
  fanout_result P sb db w1 s2 r -> sessions s2 = sessions s ->
  host s2 = host (send_items (List.filter (wants s) l) s) -> counted w w1 l s ->
  chat_items (chat_fanout s) = chat_of l ++ chat_items (chat_fanout s2) ->
  clock_items (clock_fanout s) = clock_of l ++ clock_items (clock_fanout s2) ->
  fanout_result P sb db w s r.
Proof.
  intros (w' & s' & l' & Er & HG & Es & Ec & Ek & Eh & [C1 C2] & Hw & He) Es2 Eh2 [D1 D2] Ec2 Ek2.
  assert (Ew : forall l, List.filter (wants s2) l = List.filter (wants s) l).
  { intros k. apply List.filter_ext. intros i. unfold wants, should_send. by rewrite Es2. }
  exists w', s', (l ++ l'). split; [done|]. split; [done|]. split; [congruence|].
  unfold chat_of, clock_of in *. rewrite !List.filter_app, Ec2, Ec, Ek2, Ek, !app_assoc.
  split; [done|]. split; [done|]. rewrite Ew in Eh, C2. split.
  { rewrite Eh. unfold send_items. rewrite fold_left_app. by apply send_items_host. }
  split; [|done]. unfold counted. rewrite List.filter_app, !length_app. lia.
Qed.

Lemma queues_sub P s chat bytes clock :
  good P s -> (length chat <= length (chat_fanout s))%nat -> bytes = queued_bytes chat ->
  Forall job_ok chat ->
  (forall j, clock = Some j -> (jb_next_recipient j <= length (au_entries (jb_recipients j)))%nat) ->
  (forall a, a ∈ jb_recipients <$> chat -> a ∈ jb_recipients <$> chat_fanout s) ->
  (forall a, a ∈ jb_recipients <$> option_list clock -> a ∈ jb_recipients <$> option_list (clock_fanout s)) ->
  queues_ok s chat bytes clock (fanout_audience_cache s) (next_audience s).
Proof.
  intros (([_ [Hi Hby Hch Hck Hca Hrt]] & _) & _) Hlen Hb Hok Hcl Hc1 Hc2. split; try done; [lia|].
  eapply retained_subset, Hrt. unfold audiences. intros a. rewrite !elem_of_app. naive_solver.
Qed.

(** A job with some of its recipients decided. *)
Definition advance (j : FanoutJob) (n : nat) : FanoutJob :=
  j <| jb_next_recipient := (jb_next_recipient j + n)%nat |>.

Lemma advance_cursor clock j l rest :
  (jb_next_recipient j <= length (au_entries (jb_recipients j)))%nat ->
  job_items clock j = l ++ rest ->
  (jb_next_recipient (advance j (length l)) <= length (au_entries (jb_recipients j)))%nat.
Proof.
  intros Hn E. apply (f_equal length) in E. unfold job_items in E.
  rewrite length_fmap, length_drop, length_app in E. simpl. lia.
Qed.

Lemma advance_incomplete clock j :
  (jb_next_recipient j <= length (au_entries (jb_recipients j)))%nat ->
  jb_next_recipient j <> length (au_entries (jb_recipients j)) -> job_items clock j <> [].
Proof.
  intros Hn Hne E. apply (f_equal length) in E. unfold job_items in E.
  rewrite length_fmap, length_drop in E. simpl in E. lia.
Qed.

Lemma advance_complete clock j :
  jb_next_recipient j = length (au_entries (jb_recipients j)) -> job_items clock j = [].
Proof. intros E. unfold job_items. by rewrite E, drop_all. Qed.

(** The state after some sends, with the queues as given. *)
Definition settled (s : Server) (l : list Item) (chat : list FanoutJob) (bytes : Z)
    (clock : option FanoutJob) (prefer : bool) : Server :=
  with_queues (s <| host := host (send_items l s) |>) chat bytes clock (fanout_audience_cache s)
    (next_audience s) prefer.

Lemma good_settled P s l chat bytes clock prefer :
  good P s -> queues_ok s chat bytes clock (fanout_audience_cache s) (next_audience s) ->
  good P (settled s l chat bytes clock prefer).
Proof.
  intros HG HQ. apply good_queues; [|exact HQ].
  assert (HG1 := good_send_items P l s HG). by rewrite send_items_frame in HG1.
Qed.

Lemma fanout_clock_step P fuel sb db w s j :
  (forall w s, good P s -> within_budget sb db w ->
     (length (chat_fanout s) + length (option_list (clock_fanout s)) < fuel)%nat ->
     fanout_result P sb db w s (fanout_loop fuel sb db w s)) ->
  good P s -> within_budget sb db w -> clock_fanout s = Some j -> (length (chat_fanout s) < fuel)%nat ->
  let '(job, work, t) := fanout_job sb db (drop (jb_next_recipient j) (au_entries (jb_recipients j))) j w
                           (s <| clock_fanout := None |>) in
  fanout_result P sb db w s
    (if decide (jb_next_recipient job = length (au_entries (jb_recipients job)))
     then fanout_loop fuel sb db (work <| fa_jobs_completed ::= S |>) (t <| fanout_prefer_clock := false |>)
     else Some (work, t <| clock_fanout := Some job |>)).
Proof.
  intros IH HG Hw Ej Hf. pose proof HG as (([_ [_ Hby Hch Hck _ _]] & _) & _).
  pose proof (fanout_job_spec true sb db _ j w (s <| clock_fanout := None |>) Hw eq_refl) as Hp.
  destruct (fanout_job _ _ _ _ _ _) as [[j' w1] s1].
  destruct Hp as (l & El & -> & Es1 & Hc & Hw1 & _ & Hend). fold (advance j (length l)) in *.
  destruct (job_items_flag true j l _ El) as [Ech Ecl].
  assert (Hcur := advance_cursor true j l _ (Hck j Ej) El).
  set (l' := List.filter (wants (s <| clock_fanout := None |>)) l) in Es1.
  rewrite send_items_frame, (send_items_host l' _ s) in Es1 by done. subst s1. case_decide as Hcomp.
  - match goal with |- fanout_result _ _ _ _ _ (fanout_loop _ _ _ _ ?t) =>
      change t with (settled s l' (chat_fanout s) (chat_fanout_bytes s) None false) end.
    eapply (fanout_result_cons _ _ _ _ _ _ _ _ l);
      [apply IH; [|exact Hw1|simpl; lia]|done|done|exact Hc|by rewrite Ech|].
    + apply good_settled; [done|]. apply (queues_sub P); [done..|]. simpl. set_solver.
    + rewrite Ej. unfold clock_items at 1. simpl. rewrite app_nil_r, El, Ecl.
      rewrite (advance_complete true) by exact Hcomp. done.
  - match goal with |- fanout_result _ _ _ _ _ (Some (_, ?t)) =>
      change t with (settled s l' (chat_fanout s) (chat_fanout_bytes s)
                       (Some (advance j (length l))) (fanout_prefer_clock s)) end.
    eapply (fanout_result_cons _ _ _ _ _ _ _ _ l);
      [apply fanout_result_stop; [|exact Hw1|]|done|done|exact Hc|by rewrite Ech|].
    + apply good_settled; [done|]. apply (queues_sub P); [done..|intros ? [= <-]; exact Hcur|done|].
      by rewrite Ej.
    + left. destruct Hend as [Hend|]; [|done]. by destruct (advance_incomplete true _ Hcur Hcomp).
    + rewrite Ej. unfold clock_items. simpl. rewrite !app_nil_r, El, Ecl. done.
Qed.

Lemma fanout_chat_step P fuel sb db w s j q :
  (forall w s, good P s -> within_budget sb db w ->
     (length (chat_fanout s) + length (option_list (clock_fanout s)) < fuel)%nat ->
     fanout_result P sb db w s (fanout_loop fuel sb db w s)) ->
  good P s -> within_budget sb db w -> chat_fanout s = j :: q ->
  (length q + length (option_list (clock_fanout s)) < fuel)%nat ->
  let '(job, work, t) := fanout_job sb db (drop (jb_next_recipient j) (au_entries (jb_recipients j))) j w
                           (s <| chat_fanout := q |>) in
  fanout_result P sb db w s
    (if decide (jb_next_recipient job = length (au_entries (jb_recipients job)))
     then fanout_loop fuel sb db (work <| fa_jobs_completed ::= S |>)
            (t <| chat_fanout_bytes ::= fun b => Z.max 0 (b - len (jb_bytes job)) |>
               <| fanout_prefer_clock := true |>)
     else Some (work, t <| chat_fanout ::= cons job |>)).
Proof.
  intros IH HG Hw Ej Hf. pose proof HG as (([_ [_ Hby Hch Hck _ _]] & _) & _).
  pose proof (fanout_job_spec false sb db _ j w (s <| chat_fanout := q |>) Hw eq_refl) as Hp.
  destruct (fanout_job _ _ _ _ _ _) as [[j' w1] s1].
  destruct Hp as (l & El & -> & Es1 & Hc & Hw1 & _ & Hend). fold (advance j (length l)) in *.
  destruct (job_items_flag false j l _ El) as [Ech Ecl]. rewrite Ej in Hby, Hch.
  apply Forall_cons in Hch as [[Hjb Hjc] Hch].
  assert (Hcur := advance_cursor false j l _ Hjc El).
  assert (Hq : 0 <= queued_bytes q) by (clear; induction q; simpl; [lia|]; unfold len; lia).
  set (l' := List.filter (wants (s <| chat_fanout := q |>)) l) in Es1.
  rewrite send_items_frame, (send_items_host l' _ s) in Es1 by done. subst s1. case_decide as Hcomp.
  - match goal with |- fanout_result _ _ _ _ _ (fanout_loop _ _ _ _ ?t) =>
      change t with (settled s l' q (Z.max 0 (chat_fanout_bytes s - len (jb_bytes j)))
                       (clock_fanout s) true) end.
    eapply (fanout_result_cons _ _ _ _ _ _ _ _ l);
      [apply IH; [|exact Hw1|simpl; lia]|done|done|exact Hc| |by rewrite Ecl].
    + apply good_settled; [done|]. simpl in Hby.
      apply (queues_sub P); [done|rewrite Ej; simpl; lia|lia|done|done|rewrite Ej; set_solver|done].
    + rewrite Ej. unfold chat_items. rewrite bind_cons, El, Ech.
      rewrite (advance_complete false) by exact Hcomp. by rewrite app_nil_r.
  - match goal with |- fanout_result _ _ _ _ _ (Some (_, ?t)) =>
      change t with (settled s l' (advance j (length l) :: q) (chat_fanout_bytes s)
                       (clock_fanout s) (fanout_prefer_clock s)) end.
    eapply (fanout_result_cons _ _ _ _ _ _ _ _ l);
      [apply fanout_result_stop; [|exact Hw1|]|done|done|exact Hc| |by rewrite Ecl].
    + apply good_settled; [done|].
      apply (queues_sub P); [done|by rewrite Ej|exact Hby|by constructor|done|by rewrite Ej|done].
    + left. destruct Hend as [Hend|]; [|done]. by destruct (advance_incomplete false _ Hcur Hcomp).
    + rewrite Ej. unfold chat_items. rewrite bind_cons, El, Ech, <- app_assoc. done.
Qed.

Lemma fanout_loop_spec P fuel sb db w s :
  good P s -> within_budget sb db w ->
  (length (chat_fanout s) + length (option_list (clock_fanout s)) < fuel)%nat ->
  fanout_result P sb db w s (fanout_loop fuel sb db w s).
Proof.
  revert w s. induction fuel as [|fuel IH]; intros w s HG Hw Hf; [lia|]. cbn [fanout_loop]. cbv zeta.
  case_decide as Hs; [apply fanout_result_stop; [done..|by left; left]|].
  case_decide as Hd; [apply fanout_result_stop; [done..|by left; right]|].
  destruct (bool_decide (clock_fanout s <> None) && _) eqn:Ef.
  - apply andb_true_iff in Ef as [Ek _]. apply bool_decide_eq_true in Ek.
    destruct (clock_fanout s) as [j|] eqn:Ej; [clear Ek|done].
    pose proof (fanout_clock_step P fuel sb db w s j IH HG Hw Ej) as Hstep. simpl in Hf.
    destruct (fanout_job _ _ _ _ _ _) as [[j' w1] s1]. apply Hstep. lia.
  - destruct (chat_fanout s) as [|j q] eqn:Ej.
    + assert (Ek : clock_fanout s = None).
      { apply andb_false_iff in Ef as [Ef|Ef]; [by apply bool_decide_eq_false, dec_stable in Ef|].
        rewrite bool_decide_true, orb_true_r in Ef by done. done. }
      assert (E : s <| chat_fanout ::= tail |> = s) by (destruct s; simpl in *; by subst).
      rewrite E, Ek, Ej. simpl. apply fanout_result_stop; [done..|by right].
    + pose proof (fanout_chat_step P fuel sb db w s j q IH HG Hw Ej) as Hstep. simpl in Hf |- *.
      rewrite Ej. destruct (fanout_job _ _ _ _ _ _) as [[j' w1] s1]. apply Hstep. lia.
Qed.

(** ** Persistence *)
Lemma good_flushed P s pid value dirty flush :
  good P s -> (dirty_players s ∪ flush_players s) ∖ {[pid]} ⊆ dirty ∪ flush ->
  (value = true -> pid ∈ dirty ∪ flush) ->
  good P (set_dirty pid value (s <| flush_players := flush |> <| dirty_players := dirty |>)).
Proof.
  intros HG Hsub Hv. unfold set_dirty.
  change (player_peers (s <| flush_players := flush |> <| dirty_players := dirty |>)) with (player_peers s).
  destruct (player_peers s !! pid) as [peer|] eqn:Epp.
  2:{ apply (good_flush_sets _ _ _ _ pid); [done| |done]. apply absent_player; [apply HG|done]. }
  pose proof HG as (([HR HQ] & HD & HS & HW & HH) & Hl).
  destruct (rg_peer _ _ _ _ _ _ HR _ _ Epp) as (x & Hx & Ex).
  set (y := x <| ss_dirty := value |>).
  assert (E : update_session peer (fun ss => if decide (ss_player_id ss = pid) then ss <| ss_dirty := value |> else ss)
                (s <| flush_players := flush |> <| dirty_players := dirty |>)
              = s <| flush_players := flush |> <| dirty_players := dirty |> <| sessions := <[peer := y]> (sessions s) |>).
  { unfold update_session. cbn. rewrite alter_cases, Hx, decide_True by done. done. }
  rewrite E. split; [split; [split|split; [|split; [|split; [exact HW|exact HH]]]]|]; simpl.
  - by eapply registry_update.
  - by eapply queues_update.
  - apply (dirty_update _ (dirty_players s) (flush_players s)); [done|intros Hyd; simpl; rewrite Ex; by apply Hv|].
    intros q z Hq Hz Hin. apply Hsub. rewrite elem_of_difference, elem_of_singleton. split; [done|].
    intros Ez. apply (rg_owner _ _ _ _ _ _ HR) in Hz. congruence.
  - eapply sessions_ok_update; [done..| |done]. destruct (HS peer x Hx). by split.
  - by rewrite dom_insert_lookup_L by eauto.
Qed.

Lemma good_flush_each P now l n s : good P s -> good P (flush_each now l n s).2.
Proof.
  revert n s. induction l as [|pid l IH]; intros n s HG; cbn [flush_each]; [done|].
  unfold touch_last_seen_for_flush. destruct (on_db_frame (touch_last_seen (wrapS 64 pid) now) s) as [d Ed].
  destruct (on_db _ s) as [[u|e] s1]; simpl in Ed;
    (assert (HG1 : good P s1) by (rewrite Ed; exact HG)); [|exact HG1].
  cbv zeta. apply IH. clear Ed.
  apply (good_flushed P s1 pid (bool_decide (pid ∈ dirty_players s1)) (dirty_players s1)
    (flush_players s1 ∖ {[pid]}) HG1).
  - clear. intros q. set_unfold. naive_solver.
  - rewrite bool_decide_eq_true. clear. set_solver.
Qed.

Lemma good_flush_at P now s : good P s -> good P (process_dirty_flush_at now s).2.
Proof. intros HG. unfold process_dirty_flush_at. case_match; [done|]. by apply good_flush_each. Qed.

Lemma good_begin_flush P s : good P s -> good P (begin_dirty_flush s).
Proof.
  intros ((HRQ & HD & HS & HW & HH) & Hl). split; [|exact Hl].
  split; [exact HRQ|]. split; [|split; [exact HS|split; [exact HW|exact HH]]].
  intros q z Hq Hd. specialize (HD q z Hq Hd). simpl. set_solver.
Qed.

(** ** The tick *)

(** The peers a batch still reports as disconnected. *)
Definition leaving (events : list Event) : gset Z :=
  list_to_set (omap (fun e => match e with Disconnected p _ => Some p | _ => None end) events).

Lemma leaving_cons e events :
  leaving (e :: events) = match e with Disconnected p _ => {[p]} | _ => ∅ end ∪ leaving events.
Proof. unfold leaving. destruct e; simpl; set_solver. Qed.

Lemma good_events envs i events s : good (leaving events) s -> good ∅ (handle_events envs i events s).
Proof.
  revert i s. induction events as [|e events IH]; intros i s HG; cbn [handle_events]; [done|].
  apply IH. rewrite leaving_cons in HG. destruct e as [p|p b|p r].
  - apply good_event; [done|]. by rewrite union_empty_l_L in HG.
  - apply good_event; [done|]. by rewrite union_empty_l_L in HG.
  - by apply good_on_disconnect.
Qed.

Lemma observe_all_leaving events live live' p :
  observe_all live events = Some live' -> p ∈ live -> p ∈ live' ∪ leaving events.
Proof.
  revert live. induction events as [|e events IH]; intros live Ho Hp; simpl in Ho.
  { injection Ho as ->. set_solver. }
  destruct (observe live e) as [live1|] eqn:E; [|done]. rewrite leaving_cons.
  destruct (decide (p ∈ live1)) as [Hp1|Hp1]; [specialize (IH live1 Ho Hp1); set_solver|].
  destruct e as [q|q b|q r]; simpl in E; case_decide; simplify_eq.
  - destruct Hp1. set_solver.
  - done.
  - destruct (decide (p = q)); set_solver.
Qed.

Lemma poll_spec_server script now h :
  HostInv h -> let '(events, h') := poll script now h in
  HostInv h' /\ max_peers h' = max_peers h /\ live_ids h ⊆ live_ids h' ∪ leaving events.
Proof.
  intros HI. pose proof (poll_spec script now h HI) as Hp. unfold poll.
  destruct (poll_with_work script now h) as [[events work] h'].
  destruct Hp as [[[HT HW Ho _ _] [Em _]] _]. split; [by split|]. split; [done|].
  intros p Hp. by eapply observe_all_leaving.
Qed.

Definition tick_good (l : LoopState) : Prop := good ∅ (lp_server l).

Lemma tick_spec ti l : tick_good l -> exists l', tick ti l = Some l' /\ tick_good l'.
Proof.
  intros HG. unfold tick_good, tick in *. destruct l as [t lf s]. cbn [lp_server lp_tick lp_last_flush] in *.
  pose proof HG as ((_ & _ & _ & _ & HH & _) & Hl).
  pose proof (poll_spec_server (ti_script ti) (ti_frame_start ti) (host s) HH) as Hp.
  destruct (poll _ _ _) as [events h]. destruct Hp as (HH' & Em & Hlv).
  assert (HG1 : good (leaving events) (s <| host := h |>)).
  { apply (good_host ∅); [done..|]. rewrite union_empty_r_L in Hl. etrans; [exact Hl|exact Hlv]. }
  apply (good_events (ti_env ti) O) in HG1. set (s1 := handle_events _ _ _ _) in *. clearbody s1.
  apply good_aoi in HG1. destruct (process_aoi_work s1) as [w1 s2]. simpl in HG1.
  apply good_snapshots in HG1. destruct (broadcast_snapshots s2) as [w2 s3]. simpl in HG1.
  destruct (fanout_loop_spec ∅ (fanout_fuel s3) (Z.to_nat FANOUT_RECIPIENT_SCANS_PER_TICK)
              (Z.to_nat FANOUT_SENDS_PER_TICK) (mkFanoutWork 0 0 0 0) s3 HG1)
    as (w3 & s4 & l & E & HG4 & _); [split; simpl; lia|unfold fanout_fuel; lia|].
  unfold process_fanout_work, process_fanout_work_with_budget. rewrite E.
  apply (good_flush_at _ (e_now_ms (ti_env ti (length events)))) in HG4.
  destruct (process_dirty_flush_at _ s4) as [r5 s5]. simpl in HG4. cbv zeta.
  match goal with |- context [if decide (?a mod ?b = 0) then ?x else ?y] =>
    set (s6 := if decide (a mod b = 0) then x else y) end.
  assert (HG6 : good ∅ s6) by (unfold s6; case_decide; [by apply good_clock|done]). clearbody s6.
  case_decide; eexists; (split; [reflexivity|]); simpl; [by apply good_begin_flush|done].
Qed.

Lemma ticks_spec inputs l : tick_good l -> exists l', ticks inputs l = Some l' /\ tick_good l'.
Proof.
  revert l. induction inputs as [|ti inputs IH]; intros l HG; simpl; [eauto|].
  destruct (tick_spec ti l HG) as (l1 & -> & HG1). by apply IH.
Qed.

Lemma good_sessions_bound s : good ∅ s -> (size (sessions s) <= peer_limit s)%nat.
Proof.
  intros ((_ & _ & _ & _ & [HT _] & <- & _) & Hl). rewrite union_empty_r_L in Hl.
  rewrite <- size_dom. etrans; [apply subseteq_size, Hl|]. unfold live_ids.
  etrans; [apply size_list_to_set_le|]. rewrite length_fmap, length_map_to_list.
  pose proof (inv_count _ HT). pose proof (inv_slots_len _ HT). lia.
Qed.
End Keep.
