(* ===== verification/ServerProps.v ===== *)
(** * What the server promises

    The theorems on server.rs: its invariant over whole runs from start-up, what a
    hello does to its sender's session, delivery of interest changes and of queued fan-out
    within their budgets, the fairness of the round-robin schedulers, and the
    accounting of the final flush. *)

From S2P Require Import Structs Flat Tables.
From S2P Require Import Prelude Float World Clock Config Econ RateLimit Wire Host.
From S2P Require Import HostInv Persist EconStore Codec FlatTree CodecProps Server Sched ServerInv TickInv.

(** ** Start-up *)
Lemma empty_server_good c h g d ids epoch seed day l1 l2 l3 l4 l5 l6 l7 l8 l9 :
  HostInv h -> max_peers h = Z.to_nat (max_transport_peers_usize c) -> live_ids h = ∅ ->
  0 <= aoi_radius_i32 c ->
  good ∅ (mkServer c h d (world_new g) ∅ ∅ ∅ ∅ None ∅ None [] 0 None None true ∅ ∅ false
            ids 0 0 0 epoch seed day l1 l2 l3 l4 l5 l6 l7 l8 l9 0).
Proof.
  intros HH Hm Hl Hr. split; [|simpl; by rewrite dom_empty_L].
  split; [split|split; [|split; [|split; [|done]]]]; simpl.
  - split; intros; rewrite ?lookup_empty in *; try done.
  - apply queues_empty.
  - intros p x Hx. by rewrite lookup_empty in Hx.
  - apply map_Forall_empty.
  - apply world_new_inv.
Qed.

Lemma server_new_good c d now rand s d' :
  server_new c d now rand = (Ok s, d') -> 0 <= aoi_radius_cells c -> good ∅ s.
Proof.
  unfold server_new, lift_db. intros E Hr.
  destruct (init false d) as [[u|e] d1]; [|done].
  destruct (load_identity_players d1) as [[ids|e] d2]; [|done].
  destruct (world_get_or_init KEY_CLOCK_EPOCH _ d2) as [[ep|e] d3]; [|done].
  destruct (world_get_or_init KEY_WEATHER_SEED _ d3) as [[sd|e] d4]; [|done].
  unfold bind_with_limits in E. case_decide as Hb; [done|].
  destruct (grid_new _) as [g|]; [|done]. injection E as <- _.
  apply empty_server_good; [|done|done|unfold aoi_radius_i32, MAX_AOI_RADIUS_CELLS; lia].
  unfold max_transport_peers_usize, max_transport_peers_per_ip_usize, clampZ in *. apply empty_inv; lia.
Qed.

(** ** Round robins *)

(** The cyclic order after a cursor. *)
Definition rot (c : option Z) (l : list Z) : list Z :=
  match c with
  | Some c => filter (fun x => c < x) l ++ filter (fun x => x <= c) l
  | None => l
  end.

Lemma ordered_after_rot s c n : ordered_after s c n = take (Nat.min n (size s)) (rot c (btree_iter Z.le s)).
Proof. unfold ordered_after. by destruct c. Qed.

(** An increasing list splits at any bound. *)
Lemma sorted_split l c :
  StronglySorted Z.lt l -> filter (fun x => x <= c) l ++ filter (fun x => c < x) l = l.
Proof.
  induction 1 as [|a l Hs IH Ha]; [done|]. rewrite !filter_cons.
  destruct (decide (a <= c)); destruct (decide (c < a)); try lia; simpl; [by rewrite IH|].
  rewrite filter_none, filter_all; [done|..]; intros x Hx; rewrite Forall_forall in Ha; specialize (Ha x Hx); lia.
Qed.

Lemma rot_at l u c v : StronglySorted Z.lt l -> l = u ++ c :: v -> rot (Some c) l = v ++ u ++ [c].
Proof.
  intros Hs ->. unfold rot. apply StronglySorted_app in Hs as (Hc & Hu & Hv).
  apply StronglySorted_inv in Hv as [Hv Hcv]. rewrite Forall_forall in Hcv.
  rewrite !filter_app, !filter_cons. rewrite (decide_False (P := c < c)), (decide_True (P := c <= c)) by lia.
  rewrite (filter_none (fun x => c < x) u), (filter_all (fun x => c < x) v),
    (filter_all (fun x => x <= c) u), (filter_none (fun x => x <= c) v); [done|..];
    intros x Hx; try (specialize (Hcv x Hx); lia); specialize (Hc x c Hx ltac:(left)); lia.
Qed.

(** A round moves what it visited to the end of the cyclic order. *)
Lemma rot_advance l c u c' v :
  StronglySorted Z.lt l -> rot c l = u ++ c' :: v -> rot (Some c') l = v ++ u ++ [c'].
Proof.
  intros Hs E. destruct c as [c|]; [|by apply rot_at]. simpl in E.
  pose proof (sorted_split l c Hs) as El. revert E El.
  generalize (filter (fun x => c < x) l) (filter (fun x => x <= c) l). intros A B E El.
  apply app_eq_inv in E as [(k & EA & EB)|(k & EA & EB)].
  - destruct k as [|y k]; simpl in EB.
    + rewrite app_nil_r in EA. subst A B. rewrite (rot_at l [] c' (v ++ u)); [|done|by rewrite <- El].
      by rewrite <- app_assoc.
    + injection EB as <- ->. subst A. rewrite (rot_at l (B ++ u) c' k); [|done|by rewrite <- El, <- app_assoc].
      by rewrite <- !app_assoc.
  - subst B u. rewrite (rot_at l k c' (v ++ A)); [|done|by rewrite <- El, <- app_assoc].
    by rewrite <- !app_assoc.
Qed.

Lemma btree_lt s : StronglySorted Z.lt (btree_iter Z.le s).
Proof.
  pose proof (btree_sorted Z.le s) as Hs. pose proof (NoDup_btree_iter Z.le s) as Hn.
  induction Hs as [|a l Hs IH Ha]; [constructor|]. apply NoDup_cons in Hn as [Hal Hn].
  constructor; [by apply IH|]. apply Forall_forall. intros x Hx. rewrite Forall_forall in Ha.
  specialize (Ha x Hx). assert (x <> a) by (by intros ->). lia.
Qed.

Lemma rot_Permutation c l : StronglySorted Z.lt l -> rot c l ≡ₚ l.
Proof. intros Hs. destruct c as [c|]; simpl; [|done]. rewrite Permutation_app_comm. by rewrite sorted_split. Qed.

(** The visits of [k] rounds over an unchanged set. *)
Definition next_cursor (c : option Z) (v : list Z) : option Z :=
  match list.last v with Some x => Some x | None => c end.

Fixpoint rounds (k : nat) (s : gset Z) (c : option Z) (n : nat) : list Z :=
  match k with
  | O => []
  | S k => let v := ordered_peers_after s c n in v ++ rounds k s (next_cursor c v) n
  end.

Lemma rounds_cover k s c n i p :
  (0 < n)%nat -> rot c (btree_iter Z.le s) !! i = Some p -> (i < k * Nat.min n (size s))%nat ->
  p ∈ rounds k s c n.
Proof.
  intros Hn. revert c i. induction k as [|k IH]; intros c i Hi Hk; [lia|]. simpl.
  unfold ordered_peers_after. rewrite ordered_after_rot.
  set (l := btree_iter Z.le s) in *. set (m := Nat.min n (size s)) in *.
  assert (Hl : length (rot c l) = size s).
  { rewrite (rot_Permutation c l) by apply btree_lt. apply length_btree_iter. }
  apply elem_of_app. destruct (decide (i < m)%nat) as [Him|Him].
  { left. apply list_elem_of_lookup. exists i. by rewrite lookup_take_lt. }
  right. assert (Hm : (0 < m)%nat) by (apply lookup_lt_Some in Hi; lia).
  destruct (list.last (take m (rot c l))) as [c'|] eqn:El.
  2:{ apply last_None in El. apply (f_equal length) in El. rewrite length_take in El. simpl in El. lia. }
  apply last_Some in El as [u Eu].
  assert (Er : rot c l = u ++ c' :: drop m (rot c l)).
  { rewrite <- (take_drop m (rot c l)) at 1. rewrite Eu, <- app_assoc. done. }
  apply rot_advance in Er; [|apply btree_lt].
  apply (IH _ (i - m)%nat); [|lia]. unfold next_cursor. rewrite Eu, last_snoc. rewrite Er.
  rewrite lookup_app_l.
  - rewrite lookup_drop. by replace (m + (i - m))%nat with i by lia.
  - rewrite length_drop. apply lookup_lt_Some in Hi. lia.
Qed.

(** Enough rounds reach everyone. *)
Lemma rounds_everyone k s c n p :
  (0 < n)%nat -> (size s <= n * k)%nat -> p ∈ s -> p ∈ rounds k s c n.
Proof.
  intros Hn Hk Hp.
  assert (Hin : p ∈ rot c (btree_iter Z.le s)).
  { rewrite (rot_Permutation _ _ (btree_lt _)). by apply elem_of_btree_iter. }
  apply list_elem_of_lookup in Hin as [i Hi]. eapply rounds_cover; [done|exact Hi|].
  apply lookup_lt_Some in Hi. rewrite (rot_Permutation _ _ (btree_lt _)), length_btree_iter in Hi.
  destruct (Nat.min_spec n (size s)) as [[? ->]|[? ->]]; [lia|]. destruct k; [lia|]. nia.
Qed.

Section Server.
Context `{FB : FlatBuffers}.

(** The recipients of [k] consecutive snapshot broadcasts. *)
Definition snapshot_visits (s : Server) : list Z :=
  ordered_peers_after (snapshot_recipients s) (snapshot_recipient_cursor s)
    (Z.to_nat SNAPSHOT_PACKETS_PER_TICK).

Fixpoint snapshot_rounds (k : nat) (s : Server) : list Z :=
  match k with
  | O => []
  | S k => snapshot_visits s ++ snapshot_rounds k (broadcast_snapshots s).2
  end.

Definition same_rounds (s s' : Server) : Prop :=
  snapshot_recipients s' = snapshot_recipients s /\
  snapshot_recipient_cursor s' = snapshot_recipient_cursor s.

Lemma send_bounded_rounds peer b s : same_rounds s (send_bounded peer b s).2.
Proof. unfold send_bounded. by case_decide. Qed.

Lemma snapshot_to_rounds tick peer w s : same_rounds s (snapshot_to tick peer w s).2.
Proof.
  unfold snapshot_to. destruct (sessions s !! peer) as [x|]; [|done].
  destruct (ss_cell x) as [c|]; [|done]. case_match; [done|].
  destruct (select_visible _ _ _); [done|]. destruct (snapshot_window _ _ _) as [start rem].
  cbv zeta. set (t := update_session peer _ (update_session _ _ s)).
  assert (Ht : same_rounds s t) by done. clearbody t.
  destruct (player_snap <$> _), (boats_of _); try done.
  all: unfold next_seq; cbv zeta iota beta.
  all: match goal with |- context [send_bounded ?p ?b ?t'] =>
         pose proof (send_bounded_rounds p b t') as [E1 E2]; destruct (send_bounded p b t') as [ok s'] end.
  all: destruct Ht as [H1 H2]; split; [rewrite <- H1; exact E1|rewrite <- H2; exact E2].
Qed.

Lemma each_rounds {W} (f : Z -> W -> Server -> W * Server) l w s :
  (forall p w s, same_rounds s (f p w s).2) -> same_rounds s (each f l w s).2.
Proof.
  intros Hf. unfold each. revert w s. induction l as [|p l IH]; intros w s; simpl; [done|].
  pose proof (Hf p w s) as [E1 E2]. destruct (f p w s) as [w' s']. simpl in *.
  destruct (IH w' s') as [E3 E4]. split; congruence.
Qed.

Lemma broadcast_rounds s :
  snapshot_recipients (broadcast_snapshots s).2 = snapshot_recipients s /\
  snapshot_recipient_cursor (broadcast_snapshots s).2 =
    next_cursor (snapshot_recipient_cursor s) (snapshot_visits s).
Proof.
  unfold broadcast_snapshots.
  match goal with |- context [each ?f ?l ?w ?t] =>
    destruct (each_rounds f l w t) as [E1 E2]; [intros; apply snapshot_to_rounds|] end.
  rewrite E1, E2. unfold next_cursor, snapshot_visits. split; [by case_match|].
  simpl. destruct (list.last _); done.
Qed.

Lemma snapshot_rounds_eq k s :
  snapshot_rounds k s = rounds k (snapshot_recipients s) (snapshot_recipient_cursor s)
    (Z.to_nat SNAPSHOT_PACKETS_PER_TICK).
Proof.
  revert s. induction k as [|k IH]; intros s; simpl; [done|]. rewrite IH.
  destruct (broadcast_rounds s) as [-> ->]. done.
Qed.

(** ** Interest chunks *)

(** [n] work items of one peer that find a chunk to send. *)
Fixpoint chunk_run (n : nat) (peer : Z) (s : Server) : list AoiUpdate * Server :=
  match n with
  | O => ([], s)
  | S n =>
      match next_aoi_chunk peer s with
      | (Some (a, r), s) => let '(l, s) := chunk_run n peer s in (mkAoiUpdate a r :: l, s)
      | (None, s) => ([], s)
      end
  end.

Lemma backlog_zero x : backlog x = O -> ss_published_cells x = sub_cells (ss_sub x).
Proof.
  unfold backlog, stale, missing. intros E.
  assert (E1 : size (ss_published_cells x ∖ sub_cells (ss_sub x)) = O) by lia.
  assert (E2 : size (sub_cells (ss_sub x) ∖ ss_published_cells x) = O) by lia.
  apply size_empty_inv in E1, E2. apply set_eq. intros c. split; intros Hc.
  - destruct (decide (c ∈ sub_cells (ss_sub x))); [done|]. set_solver.
  - destruct (decide (c ∈ ss_published_cells x)); [done|]. set_solver.
Qed.

Lemma chunk_empty x : chunk_added x = [] -> chunk_removed x = [] -> backlog x = O.
Proof.
  unfold chunk_added. intros Ea Er. rewrite Er in Ea. unfold chunk_removed in Er.
  apply (f_equal length) in Ea, Er. rewrite length_take, length_by_row in Ea, Er.
  cbn [length] in *. unfold backlog, AOI_CELLS_PER_UPDATE in *. lia.
Qed.

Lemma chunk_size x : (length (chunk_added x) + length (chunk_removed x) <= AOI_CELLS_PER_UPDATE)%nat.
Proof.
  unfold chunk_added. rewrite length_take.
  assert (length (chunk_removed x) <= AOI_CELLS_PER_UPDATE)%nat by (unfold chunk_removed; rewrite length_take; lia).
  lia.
Qed.

Lemma chunk_run_spec n peer s x :
  sessions s !! peer = Some x -> (backlog x <= n * AOI_CELLS_PER_UPDATE)%nat ->
  let '(msgs, s') := chunk_run n peer s in
  Forall (fun u => (length (added u) + length (removed u) <= AOI_CELLS_PER_UPDATE)%nat) msgs /\
  fold_left (fun v u => apply_delta u v) msgs (ss_published_cells x) = sub_cells (ss_sub x) /\
  exists y, sessions s' !! peer = Some y /\ ss_sub y = ss_sub x /\
    ss_published_cells y = sub_cells (ss_sub x) /\ backlog y = O.
Proof.
  revert s x. induction n as [|n IH]; intros s x Hx Hb.
  { simpl. assert (Hz : backlog x = O) by lia. pose proof (backlog_zero x Hz). eauto 10. }
  cbn [chunk_run]. rewrite next_aoi_chunk_eq, Hx.
  assert (Hstep : forall (b : bool), (if b then backlog x = O else True) ->
    let '(msgs, s') := (if b then ([], s) else
        let '(l, s') := chunk_run n peer (s <| sessions ::= <[peer := publish x]> |>) in
        (mkAoiUpdate (chunk_added x) (chunk_removed x) :: l, s')) in
    Forall (fun u => (length (added u) + length (removed u) <= AOI_CELLS_PER_UPDATE)%nat) msgs /\
    fold_left (fun v u => apply_delta u v) msgs (ss_published_cells x) = sub_cells (ss_sub x) /\
    exists y, sessions s' !! peer = Some y /\ ss_sub y = ss_sub x /\
      ss_published_cells y = sub_cells (ss_sub x) /\ backlog y = O).
  { intros [|] Hz; [pose proof (backlog_zero x Hz); simpl; eauto 10|].
    destruct (publish_spec x) as ((_ & _ & _ & Es) & _ & _ & Epu & _).
    specialize (IH (s <| sessions ::= <[peer := publish x]> |>) (publish x)).
    destruct (chunk_run n peer _) as [msgs s'].
    destruct IH as (Hf & Hr & Hy); [apply lookup_insert_eq|rewrite backlog_publish; lia|].
    rewrite Es in Hr, Hy. split; [constructor; [apply chunk_size|done]|]. split; [|done].
    simpl. rewrite <- Hr. f_equal. rewrite Epu. unfold apply_delta. simpl. set_solver. }
  destruct (chunk_added x) as [|a la] eqn:Ea, (chunk_removed x) as [|r lr] eqn:Er;
    [apply (Hstep true), chunk_empty; done|..].
  all: specialize (Hstep false I); destruct (chunk_run n peer _) as [l s']; exact Hstep.
Qed.

(** ** Creation of sessions *)
Lemma validate_ok v field required max o :
  validate_hello_string v field required max = Ok o ->
  o = v /\ (forall t, v = Some t -> Z.of_nat (String.length t) <= max) /\
  (required = true -> exists t, v = Some t /\ t <> ""%string).
Proof.
  unfold validate_hello_string, string_within_limit. destruct (required && _) eqn:E1; [done|].
  destruct (match v with Some s => negb _ | None => false end) eqn:E2; [done|]. intros [= <-]. split; [done|]. split.
  - intros t ->. apply negb_false_iff, bool_decide_eq_true in E2. done.
  - intros ->. destruct v as [t|]; [|done]. simpl in E1. apply bool_decide_eq_false in E1. eauto.
Qed.

Lemma check_hello_ok hello s token dn :
  check_hello hello s = Ok (token, dn) ->
  ch_protocol_version hello = PROTOCOL_VERSION /\ ch_token hello = Some token /\ token <> ""%string /\
  Z.of_nat (String.length token) <= max_wire_string_len_usize (cfg s) /\ dn = ch_display_name hello.
Proof.
  unfold check_hello. case_decide as Hv; [done|].
  destruct (validate_hello_string (ch_api_surface_hash hello) _ _ _); [|done].
  destruct (validate_hello_string (ch_token hello) _ _ _) as [t|] eqn:Et; [|done].
  destruct (validate_hello_string (ch_display_name hello) _ _ _) as [n|] eqn:En; [|done].
  destruct (validate_hello_string (ch_game_build hello) _ _ _); [|done].
  destruct (validate_hello_string (ch_mod_version hello) _ _ _); [|done].
  intros [= <- <-]. apply validate_ok in Et as (-> & Hl & Hr). apply validate_ok in En as (-> & _).
  destruct (Hr eq_refl) as (t & Ht & Hne). rewrite Ht. simpl. eauto 10.
Qed.

Lemma sessions_emit peer aoi s : sessions (emit_aoi peer aoi s) = sessions s.
Proof. unfold emit_aoi, schedule_aoi. by repeat case_match. Qed.

Lemma sessions_reply env peer ok reason pid gold s :
  sessions (send_hello env peer ok reason pid gold s) = sessions s.
Proof. done. Qed.

Lemma sessions_on_db {A} (m : M A) s : sessions (on_db m s).2 = sessions s.
Proof. destruct (on_db_frame m s) as [d ->]. done. Qed.

Lemma sessions_register peer x s :
  sessions s !! peer = None ->
  match register_session peer x s with
  | (Ok _, s') => exists g, sessions s' !! peer = Some (x <| ss_generation := g |>)
  | (Err _, s') => sessions s' !! peer = None
  end.
Proof.
  intros Hn. unfold register_session. rewrite decide_False by (rewrite Hn; by intros [? ?]).
  destruct (player_peers s !! _); [done|].
  assert (Hk : sessions (rekey_live_session_generations s).2 !! peer = None).
  { apply not_elem_of_dom. rewrite (proj1 (rekey_tables s)). by apply not_elem_of_dom. }
  assert (Ha : sessions (allocate_session_generation s).2 !! peer = None).
  { unfold allocate_session_generation. case_decide.
    - destruct (rekey_live_session_generations s) as [[u|e] t]; simpl in *; [|done]. by case_match.
    - by case_match. }
  destruct (allocate_session_generation s) as [[g|e] t]; [|done]. exists g.
  unfold schedule_aoi. destruct (ss_dirty _); simpl; rewrite lookup_insert_eq; simpl; by rewrite lookup_insert_eq.
Qed.

Lemma sessions_unregister peer pp s :
  sessions s !! peer = None -> sessions (unregister_session pp s).2 !! peer = None.
Proof.
  intros Hn. unfold unregister_session. destruct (sessions s !! pp) eqn:E; [|done].
  assert (Hd : delete pp (sessions s) !! peer = None).
  { rewrite lookup_delete. by case_decide. }
  simpl. by case_decide.
Qed.

Lemma sessions_evict peer pid s :
  sessions s !! peer = None -> sessions (evict_superseded peer pid s).2 !! peer = None.
Proof.
  intros Hn. unfold evict_superseded. destruct (player_peers s !! pid) as [pp|]; [|done].
  case_decide; [done|].
  set (r := match peer_addr pp (host s) with Some _ => _ | None => _ end).
  assert (Hr : sessions r.2 = sessions s).
  { unfold r. destruct (peer_addr pp (host s)); [|done]. by destruct (disconnect pp (host s)). }
  clearbody r. destruct r as [ok t]. simpl in Hr. destruct ok; simpl; [|by rewrite Hr].
  pose proof (sessions_unregister peer pp t) as Hu. destruct (unregister_session pp t) as [o t'].
  simpl in *. apply Hu. by rewrite Hr.
Qed.

Lemma sessions_open env peer pid gold h name s :
  sessions s !! peer = None ->
  match open_session env peer pid gold h name s with
  | (Ok _, s') => exists x, sessions s' !! peer = Some x /\ ss_player_id x = pid /\ ss_identity_hash x = h
  | (Err _, s') => sessions s' !! peer = None
  end.
Proof.
  intros Hn. unfold open_session. destruct (subscription_new _) as [sub|]; [|done].
  destruct (recenter _ sub) as [[aoi sub']|]; [|done].
  match goal with |- context [register_session peer ?x ?t] =>
    pose proof (sessions_register peer x t Hn) as Hr; destruct (register_session peer x t) as [[u|e] t'] end;
    [|done].
  destruct Hr as [g Hg]. eexists. rewrite sessions_emit. unfold send_accepted_hello.
  rewrite sessions_reply. split; [exact Hg|done].
Qed.

Lemma good_admit_frame ip known now s :
  sessions (admit_session ip known now s).2 = sessions s /\
  db (admit_session ip known now s).2 = db s /\ cfg (admit_session ip known now s).2 = cfg s.
Proof.
  unfold admit_session. destruct (bounded_allow _ _ _ _) as [[] l]; simpl; [|done].
  by destruct known; [destruct (bounded_allow _ _ _ _)|destruct (global_allow _ _)].
Qed.

(** A hello from a peer without a session. *)
Lemma hello_creates env peer hello s :
  sessions s !! peer = None ->
  match on_hello_at env peer hello s with
  | (r, s') => sessions s' !! peer = None \/
      exists token row x, ch_protocol_version hello = PROTOCOL_VERSION /\
        ch_token hello = Some token /\ token <> ""%string /\
        Z.of_nat (String.length token) <= max_wire_string_len_usize (cfg s) /\
        is_Some (peer_addr peer (host s)) /\
        (admit_player_by_token (token_hash token) (default "sailor"%string (ch_display_name hello))
           (e_now_ms env) (max_player_rows_u32 (cfg s)) (db s)).1 = Ok (PlayerAdmitted row) /\
        r = Ok tt /\ sessions s' !! peer = Some x /\ ss_player_id x = pl_id row /\
        ss_identity_hash x = token_hash token
  end.
Proof.
  intros Hn. unfold on_hello_at. destruct (limiter_allow _ _ _) as [[] l]; [|by left].
  cbv zeta. cbn [negb]. set (s0 := s <| hello_limiter := l |>).
  assert (E0 : sessions s = sessions s0 /\ host s = host s0 /\ cfg s = cfg s0 /\ db s = db s0) by done.
  clearbody s0. destruct E0 as (Es & Eh & Ecf & Edb). rewrite Es in Hn. rewrite Eh, Ecf, Edb.
  clear s Es Eh Ecf Edb. rename s0 into s.
  destruct (check_hello hello _) as [[token dn]|reason] eqn:Ec; [|by left].
  apply check_hello_ok in Ec as (Hv & Ht & Hne & Hl & ->).
  rewrite Hn. destruct (peer_addr peer (host s)) as [a|] eqn:Ea; [|by left].
  match goal with |- context [admit_session ?ip ?k ?now ?t] =>
    pose proof (good_admit_frame ip k now t) as Ha; destruct (admit_session ip k now t) as [ok s1] end.
  simpl in Ha. destruct Ha as (Es1 & Ed1 & Ec1). destruct ok; cbn [negb]; [|left; simpl; by rewrite Es1].
  unfold on_db. rewrite Ed1, Ec1.
  match goal with |- context [admit_player_by_token ?a ?b ?c ?d ?e] =>
    destruct (admit_player_by_token a b c d e) as [[[row|]|er] d'] eqn:Eadm end;
    [|left; simpl; by rewrite Es1|left; simpl; by rewrite Es1].
  case_decide; [left; simpl; by rewrite Es1|].
  match goal with |- context [index_identity ?h ?p ?k ?now ?t] =>
    assert (E2 : sessions (index_identity h p k now t).2 = sessions s1);
      [unfold index_identity; destruct k; by case_decide|];
    destruct (index_identity h p k now t) as [[u|er] s2] end; simpl in E2; [|left; by rewrite E2, Es1].
  pose proof (sessions_evict peer (pl_id row) s2) as Hev.
  destruct (evict_superseded peer (pl_id row) s2) as [[u'|er] s3]; simpl in Hev;
    [|left; apply Hev; by rewrite E2, Es1].
  pose proof (sessions_open env peer (pl_id row) (pl_gold row) (token_hash token)
    (default "sailor"%string (ch_display_name hello)) s3) as Hop.
  destruct (open_session _ _ _ _ _ _ s3) as [[u''|er] s4]; [|left; apply Hop, Hev; by rewrite E2, Es1].
  right. destruct Hop as (x & Hx & Hp & Hh); [apply Hev; by rewrite E2, Es1|].
  exists token, row, x. rewrite ?Ea, ?Eadm. destruct u''. eauto 12.
Qed.

(** ** The final flush *)

(** The player's row, if there is one, was written at [now]. *)
Definition saved (now pid : Z) (s : Server) : Prop :=
  forall row, players (tables (db s)) !! wrapS 64 pid = Some row -> pl_last_seen row = now.

(** A write keeps what is known of the other rows, for any property of their
    times that holds now. *)
Definition written (P : Z -> Prop) (pid : Z) (s : Server) : Prop :=
  forall row, players (tables (db s)) !! wrapS 64 pid = Some row -> P (pl_last_seen row).

Lemma touch_written (P : Z -> Prop) now pid s :
  P now ->
  let '(r, s') := touch_last_seen_for_flush (wrapS 64 pid) now s in
  (forall q, written P q s -> written P q s') /\ (r = Ok tt -> written P pid s') /\
  (faults (db s) = [] -> r = Ok tt /\ faults (db s') = []) /\ (exists d, s' = s <| db := d |>).
Proof.
  intros Hn. unfold touch_last_seen_for_flush, on_db.
  assert (Hf : faults (db s) = [] ->
    let '(r, d) := touch_last_seen (wrapS 64 pid) now (db s) in r = Ok tt /\ faults d = []).
  { unfold touch_last_seen, exec. destruct (db s) as [t f]. simpl. intros ->. by rewrite stmt_run. }
  destruct (touch_last_seen (wrapS 64 pid) now (db s)) as [r d] eqn:E.
  apply exec_cases in E. destruct r as [u|e]; (split; [|split; [|split; [|by eexists]]]).
  - intros q Hq row. simpl. rewrite E. simpl. rewrite lookup_alter. case_decide; [|apply Hq].
    rewrite fmap_Some. by intros (r & _ & ->).
  - intros _ row. simpl. rewrite E. simpl. rewrite lookup_alter_eq, fmap_Some. by intros (r & _ & ->).
  - intros H. destruct (Hf H) as [_ ?]. by destruct u.
  - intros q Hq row. simpl. rewrite E. apply Hq.
  - done.
  - intros H. by destruct (Hf H).
Qed.

Lemma touch_saved now pid s :
  let '(r, s') := touch_last_seen_for_flush (wrapS 64 pid) now s in
  (forall q, saved now q s -> saved now q s') /\ (r = Ok tt -> saved now pid s') /\
  (faults (db s) = [] -> r = Ok tt /\ faults (db s') = []).
Proof.
  pose proof (touch_written (fun t => t = now) now pid s eq_refl) as H.
  destruct (touch_last_seen_for_flush _ now s) as [r s']. destruct H as (H1 & H2 & H3 & _). done.
Qed.

(** What is still to be written, while the players of [all] are flushed. *)
Record Flushing (now : Z) (all pending : gset Z) (s : Server) : Prop := {
  fl_queue : flush_players s = pending;
  fl_dirty : dirty_players s ⊆ pending;
  fl_pending : pending ⊆ all;
  fl_saved pid : pid ∈ all -> pid ∈ pending \/ saved now pid s
}.

Lemma set_dirty_frame pid value s :
  flush_players (set_dirty pid value s) = flush_players s /\
  dirty_players (set_dirty pid value s) = dirty_players s /\ db (set_dirty pid value s) = db s.
Proof. unfold set_dirty. by case_match. Qed.

Lemma flush_attempt_spec now all l pending e s :
  Flushing now all pending s ->
  let '(pending', _, s') := flush_attempt now l pending e s in
  Flushing now all pending' s' /\
  (faults (db s) = [] -> faults (db s') = [] /\ pending' = pending ∖ list_to_set l).
Proof.
  revert pending e s. induction l as [|pid l IH]; intros pending e s HF; cbn [flush_attempt].
  { split; [done|]. intros Hf. split; [done|]. simpl. set_solver. }
  pose proof (touch_saved now pid s) as Ht.
  unfold touch_last_seen_for_flush, on_db in *.
  destruct (touch_last_seen (wrapS 64 pid) now (db s)) as [[u|er] d].
  - destruct Ht as (Hmono & Hok & Hff). set (s1 := s <| db := d |>) in *.
    match goal with |- context [set_dirty pid false ?t] =>
      destruct (set_dirty_frame pid false t) as (E1 & E2 & E3); set (s2 := set_dirty pid false t) in * end.
    simpl in E1, E2, E3. destruct HF as [Hq Hd Hp Hs].
    assert (HF2 : Flushing now all (pending ∖ {[pid]}) s2).
    { split; [by rewrite E1, Hq|rewrite E2; set_solver|set_solver|]. intros q Hin.
      assert (Hsv : forall q, saved now q s1 -> saved now q s2) by (intros ? Hsv row; rewrite E3; apply Hsv).
      destruct (decide (q = pid)) as [->|Hne]; [right; destruct u; by apply Hsv, Hok|].
      destruct (Hs q Hin) as [Hin'|Hsaved]; [left; set_solver|right; by apply Hsv, Hmono]. }
    specialize (IH (pending ∖ {[pid]}) e s2 HF2).
    destruct (flush_attempt now l _ e s2) as [[p' e'] s']. destruct IH as [IH1 IH2]. split; [done|].
    intros Hf. destruct (Hff Hf) as [_ Ed]. destruct IH2 as [IH2 Ep]; [by rewrite E3|].
    split; [done|]. rewrite Ep. simpl. apply leibniz_equiv. clear. set_solver.
  - destruct Ht as (Hmono & _ & Hff). destruct HF as [Hq Hd Hp Hs].
    assert (HF2 : Flushing now all pending (s <| db := d |>)).
    { split; [done..|]. intros q Hin. destruct (Hs q Hin); [by left|right; by apply Hmono]. }
    specialize (IH pending (Some (DbError er)) _ HF2).
    destruct (flush_attempt now l pending _ _) as [[p' e'] s']. destruct IH as [IH1 _]. split; [done|].
    intros Hf. by destruct (Hff Hf).
Qed.

Lemma flush_attempts_spec now all n pending e s :
  Flushing now all pending s ->
  let '(r, s') := flush_attempts n now pending e s in
  exists pending', Flushing now all pending' s' /\
    match r with Ok _ => pending' = ∅ | Err (ShutdownFailed k _) => size pending' = k end.
Proof.
  revert pending e s. induction n as [|n IH]; intros pending e s HF; cbn [flush_attempts]; [eauto|].
  case_decide; [eauto|]. pose proof (flush_attempt_spec now all (btree_iter Z.le pending) pending e s HF) as Ha.
  destruct (flush_attempt _ _ _ _ s) as [[p' e'] s']. destruct Ha as [Ha _]. by apply IH.
Qed.
End Server.

(** ** A small run: a client connects, says hello and chats *)
Definition demo_hello : ClientHello :=
  mkClientHello PROTOCOL_VERSION (Some "ahab"%string) (Some "secret"%string) None None (Some "api"%string).

Definition demo_env (i : nat) : Env := mkEnv 1000 5000 5000 1000.

Definition demo_connect : TickInput :=
  mkTickInput 0 [demo_step 5000 (demo_request 100 CONNECT_KEY)] demo_env.

Definition demo_data (at_ns : Z) (m : Payload) : TickInput :=
  mkTickInput at_ns [demo_step 5000 (build_unreliable 1 (client_envelope 1 m))] demo_env.

Definition demo_inputs : list TickInput :=
  [demo_connect; demo_data 40000000 (PClientHello demo_hello);
   demo_data 80000000 (PChatSend (mkChatSend (Some "ahoy"%string) 0))].

(** The server after start-up and the inputs. *)
Definition demo_run (inputs : list TickInput) : option Server :=
  match (server_new config_default (mkDb empty_tables []) 5000 42).1 with
  | Ok s => lp_server <$> ticks inputs (mkLoop 0 0 s)
  | Err _ => None
  end.

Lemma demo_start :
  exists s d, server_new config_default (mkDb empty_tables []) 5000 42 = (Ok s, d).
Proof. destruct (server_new _ _ _ _) as [[s|e] d] eqn:E; [eauto|vm_compute in E; discriminate]. Qed.

Lemma demo_good inputs s : demo_run inputs = Some s -> good ∅ s.
Proof.
  destruct demo_start as (s0 & d & E). unfold demo_run. rewrite E. simpl.
  assert (HG : tick_good (mkLoop 0 0 s0)) by (eapply server_new_good; [exact E|vm_compute; discriminate]).
  destruct (ticks_spec inputs _ HG) as (l & -> & Hl). by intros [= <-].
Qed.

Lemma demo_runs : exists s, demo_run demo_inputs = Some s /\ good ∅ s /\ size (sessions s) = 1%nat.
Proof.
  assert (Hb : (fun s => size (sessions s)) <$> demo_run demo_inputs = Some 1%nat) by (vm_compute; reflexivity).
  destruct (demo_run demo_inputs) as [s|] eqn:E; [|discriminate Hb]. injection Hb as Hb.
  exists s. split; [done|]. split; [by eapply demo_good|done].
Qed.

(** ** Theorems *)

(** C2.  Whatever arrives, the server keeps running and its tables stay
    consistent.  From start-up, for any socket input, clock readings and database
    failures, every tick completes, and after it: sessions, player index, player
    order and recipient sets agree; generations of live sessions are distinct and
    never above the counter that queued fan-out was captured under; the chat queue
    is within its item and byte bounds and its byte count exact; the cached
    audience is the current membership and the retained audiences within their
    limit; every dirty session is scheduled to be written; each session is placed
    in its cell and its interest sets hold at most one block of cells; the
    transport tables are sound; and every session belongs to a live transport
    peer, so there are no more sessions than the configured number of peers. *)
Theorem server_runs_soundly `{FB : FlatBuffers} (c : Config) (d d' : Db) (now rand start : Z) (s : Server)
    (inputs : list TickInput) :
  server_new c d now rand = (Ok s, d') -> 0 <= aoi_radius_cells c ->
  exists l, ticks inputs (mkLoop 0 start s) = Some l /\ server_inv (lp_server l) /\
    dom (sessions (lp_server l)) ⊆ live_ids (host (lp_server l)) /\
    (size (sessions (lp_server l)) <= peer_limit (lp_server l))%nat.
Proof.
  intros E Hr. assert (HG : tick_good (mkLoop 0 start s)) by (by eapply server_new_good).
  destruct (ticks_spec inputs _ HG) as (l & El & HGl). exists l. split; [done|]. split; [apply HGl|].
  split; [|by apply good_sessions_bound]. destruct HGl as [_ Hl]. by rewrite union_empty_r_L in Hl.
Qed.

Lemma server_runs_soundly_witness :
  exists s d, server_new config_default (mkDb empty_tables []) 5000 42 = (Ok s, d) /\
  (exists l, ticks demo_inputs (mkLoop 0 0 s) = Some l /\ server_inv (lp_server l) /\
    dom (sessions (lp_server l)) ⊆ live_ids (host (lp_server l)) /\
    (size (sessions (lp_server l)) <= peer_limit (lp_server l))%nat) /\
  (fun t => size (sessions t)) <$> demo_run demo_inputs = Some 1%nat.
Proof.
  destruct demo_start as (s & d & E). exists s, d. split; [exact E|]. split; [|vm_compute; reflexivity].
  apply (@server_runs_soundly tree_runtime config_default (mkDb empty_tables []) d 5000 42 0 s demo_inputs E).
  vm_compute. discriminate.
Defined.

(** C16.  Queued fan-out is delivered exactly, in order and within budget.  One
    call always completes.  Every recipient still owed a decision is decided once,
    chat recipients in the order of the chat queue and clock recipients in theirs,
    and a datagram goes out for exactly those whose session is live, still holds
    the generation captured with the job, and is interested in the sender's cell.
    The scans and sends are what was decided and stay within the two budgets, and
    the call stops early only when a budget is spent. *)
Theorem fanout_exact (scan_budget send_budget : nat) (s : Server) (P : gset Z) :
  good P s ->
  exists w s' l, process_fanout_work_with_budget scan_budget send_budget s = Some (w, s') /\
    chat_items (chat_fanout s) = chat_of l ++ chat_items (chat_fanout s') /\
    clock_items (clock_fanout s) = clock_of l ++ clock_items (clock_fanout s') /\
    host s' = host (send_items (List.filter (wants s) l) s) /\
    (forall i, wants s i = true <->
       exists x, sessions s !! fr_peer (it_recipient i) = Some x /\
         ss_generation x = fr_generation (it_recipient i) /\
         forall c, it_cell i = Some c -> c ∈ sub_cells (ss_sub x)) /\
    fa_recipient_scans w = length l /\ fa_sends w = length (List.filter (wants s) l) /\
    (fa_recipient_scans w <= scan_budget)%nat /\ (fa_sends w <= send_budget)%nat /\
    (fa_recipient_scans w = scan_budget \/ fa_sends w = send_budget \/
     (chat_fanout s' = [] /\ clock_fanout s' = None)).
Proof.
  intros HG.
  destruct (fanout_loop_spec P (fanout_fuel s) scan_budget send_budget (mkFanoutWork 0 0 0 0) s HG)
    as (w & s' & l & E & _ & _ & Hc & Hk & Hh & [C1 C2] & [B1 B2] & He);
    [split; simpl; lia|unfold fanout_fuel; lia|].
  exists w, s', l. simpl in C1, C2. unfold exhausted in He.
  split; [exact E|]. do 3 (split; [done|]). split; [|split; [done|]; split; [done|]; split; [done|]; split; [done|lia || (destruct He as [He|He]; [lia|by right; right])]].
  intros i. unfold wants. rewrite should_send_entitled. done.
Qed.

Lemma fanout_exact_witness :
  exists s w s', demo_run demo_inputs = Some s /\ good ∅ s /\
    process_fanout_work_with_budget 1024 1024 s = Some (w, s').
Proof.
  destruct demo_runs as (s & E & HG & _).
  destruct (fanout_exact 1024 1024 s ∅ HG) as (w & s' & l & Ew & _).
  exists s, w, s'. split; [exact E|]. split; [exact HG|exact Ew].
Defined.

(** Interest changes reach the client, in bounded pieces.  For a session
    whose subscription stays put, the chunks of successive work items carry at most
    32 cells each, and once there are enough of them for the backlog, replaying
    their additions and removals takes the cells published before to exactly the
    subscribed block; then nothing is left to send. *)
Lemma aoi_chunks_converge (n : nat) (peer : Z) (s : Server) (x : Session) :
  sessions s !! peer = Some x -> (backlog x <= n * AOI_CELLS_PER_UPDATE)%nat ->
  let '(msgs, s') := chunk_run n peer s in
  Forall (fun u => (length (added u) + length (removed u) <= 32)%nat) msgs /\
  fold_left (fun v u => apply_delta u v) msgs (ss_published_cells x) = sub_cells (ss_sub x) /\
  next_aoi_chunk peer s' = (None, s').
Proof.
  intros Hx Hb. pose proof (chunk_run_spec n peer s x Hx Hb) as Hc.
  destruct (chunk_run n peer s) as [msgs s']. destruct Hc as (Hf & Hr & y & Hy & _ & _ & Hz).
  split; [exact Hf|]. split; [exact Hr|]. rewrite next_aoi_chunk_eq, Hy.
  assert (Es : size (stale y) = O) by (unfold backlog in Hz; lia).
  assert (Em : size (missing y) = O) by (unfold backlog in Hz; lia).
  assert (Er : chunk_removed y = []).
  { apply length_zero_iff_nil. unfold chunk_removed. rewrite length_take, length_by_row. lia. }
  assert (Ea : chunk_added y = []).
  { apply length_zero_iff_nil. unfold chunk_added. rewrite length_take, length_by_row. lia. }
  by rewrite Er, Ea.
Qed.

(** The server right after the hello was handled, and its session. *)
Definition demo_joined : option (Server * Session) :=
  match demo_run [demo_connect] with
  | Some s =>
      let s' := (handle_data_at (demo_env 0) 1 (client_envelope 1 (PClientHello demo_hello)) s).2 in
      (fun x => (s', x)) <$> sessions s' !! 1
  | None => None
  end.

Lemma demo_joined_backlog : (fun p => backlog p.2) <$> demo_joined = Some 25%nat.
Proof. vm_compute. reflexivity. Qed.

Lemma demo_joined_session s x : demo_joined = Some (s, x) -> sessions s !! 1 = Some x.
Proof.
  unfold demo_joined. destruct (demo_run [demo_connect]) as [s0|]; [|discriminate].
  generalize (handle_data_at (demo_env 0) 1 (client_envelope 1 (PClientHello demo_hello)) s0).2. intros t E.
  destruct (sessions t !! 1) as [y|] eqn:Ey; [|discriminate E]. simpl in E. by injection E as <- <-.
Qed.

Lemma demo_joined_some : exists s x, demo_joined = Some (s, x) /\ backlog x = 25%nat.
Proof.
  pose proof demo_joined_backlog as Hb. destruct demo_joined as [[s x]|]; [|discriminate Hb].
  simpl in Hb. injection Hb as Hb. eauto.
Qed.

Lemma aoi_chunks_converge_witness :
  exists s x, demo_joined = Some (s, x) /\ backlog x = 25%nat /\
    let '(msgs, s') := chunk_run 1 1 s in
    Forall (fun u => (length (added u) + length (removed u) <= 32)%nat) msgs /\
    fold_left (fun v u => apply_delta u v) msgs (ss_published_cells x) = sub_cells (ss_sub x) /\
    next_aoi_chunk 1 s' = (None, s').
Proof.
  destruct demo_joined_some as (s & x & E & Hb). exists s, x. split; [exact E|]. split; [exact Hb|].
  apply (aoi_chunks_converge 1 1 s x (demo_joined_session s x E)).
  rewrite Hb. unfold AOI_CELLS_PER_UPDATE. lia.
Defined.

(** No session is starved of snapshots: from any cursor, if there are at
    most 32 [k] sessions, the recipients of [k] consecutive broadcasts include
    every session, and each broadcast visits at most 32. *)
Lemma snapshots_visit_everyone `{FB : FlatBuffers} (k : nat) (s : Server) (P : gset Z) :
  good P s -> (size (sessions s) <= 32 * k)%nat ->
  (forall peer, is_Some (sessions s !! peer) -> peer ∈ snapshot_rounds k s) /\
  (length (snapshot_visits s) <= 32)%nat.
Proof.
  intros (([HR _] & _) & _) Hk. split.
  - intros peer Hp. rewrite snapshot_rounds_eq.
    apply elem_of_dom in Hp. rewrite <- (rg_recipients _ _ _ _ _ _ HR) in Hp.
    apply rounds_everyone; [change (0 < 32)%nat; lia| |done].
    change (Z.to_nat SNAPSHOT_PACKETS_PER_TICK) with 32%nat. by rewrite (rg_recipients _ _ _ _ _ _ HR), size_dom.
  - unfold snapshot_visits, ordered_peers_after. rewrite ordered_after_rot, length_take.
    change (Z.to_nat SNAPSHOT_PACKETS_PER_TICK) with 32%nat. lia.
Qed.

Lemma snapshots_visit_everyone_witness :
  exists s, demo_run demo_inputs = Some s /\ good ∅ s /\
    (forall peer, is_Some (sessions s !! peer) -> peer ∈ @snapshot_rounds tree_runtime 1 s) /\
    (length (snapshot_visits s) <= 32)%nat.
Proof.
  destruct demo_runs as (s & E & HG & Hb). exists s. split; [exact E|]. split; [exact HG|].
  apply (@snapshots_visit_everyone tree_runtime 1 s ∅ HG). rewrite Hb. lia.
Defined.

(** The accounting of one flush. *)
Lemma flush_all_spec (now : Z) (s : Server) :
  let '(r, s') := flush_all now s in
  (forall pid, pid ∈ flush_pending s -> pid ∈ flush_players s' \/ saved now pid s') /\
  dirty_players s' ⊆ flush_players s' /\
  match r with
  | Ok _ => flush_players s' = ∅
  | Err (ShutdownFailed failed _) => size (flush_players s') = failed
  end /\
  (faults (db s) = [] -> r = Ok tt).
Proof.
  unfold flush_all. set (all := flush_pending s). set (s0 := s <| flush_players ::= union all |>).
  assert (HF : Flushing now all all s0).
  { split; simpl; [|unfold all, flush_pending; set_solver|done|by left].
    unfold all, flush_pending. apply set_eq. set_solver. }
  pose proof (flush_attempts_spec now all SHUTDOWN_FLUSH_ATTEMPTS all None s0 HF) as Hs.
  destruct (flush_attempts _ now all None s0) as [r s'] eqn:E. destruct Hs as (p & [Hq Hd Hp Hsv] & Hr).
  rewrite <- Hq in *. split; [done|]. split; [done|]. split; [done|]. intros Hf.
  cbn [flush_attempts SHUTDOWN_FLUSH_ATTEMPTS] in E. case_decide as He; [by injection E as <- _|].
  pose proof (flush_attempt_spec now all (btree_iter Z.le all) all None s0 HF) as Ha.
  destruct (flush_attempt _ _ _ _ s0) as [[p1 e1] s1]. destruct Ha as [_ Ha]. destruct (Ha Hf) as [_ Ep].
  assert (Hz : p1 = ∅).
  { rewrite Ep. apply set_eq. intros q. rewrite elem_of_difference, elem_of_list_to_set, elem_of_btree_iter. set_solver. }
  subst p1. rewrite Hz in E. rewrite decide_True in E by done. by injection E as <- _.
Qed.

(** A single player whose row is only written by the third attempt: everything is
    saved, and the shutdown still reports a failure, of no player. *)
Definition demo_flaky : option Server :=
  (fun s => s <| db ::= fun d => mkDb (tables d) [true; true; false] |>) <$> demo_run demo_inputs.

Lemma third_attempt_reported_failed :
  match demo_flaky with
  | Some s =>
      let '(r, s') := flush_all 9000 s in
      flush_pending s = {[1]} /\ r = Err (ShutdownFailed 0 (Some (DbError SqliteFailure))) /\
      flush_players s' = ∅ /\ pl_last_seen <$> players (tables (db s')) !! 1 = Some 9000
  | None => False
  end.
Proof. vm_compute. split_and!; reflexivity. Qed.

(** C19.  The final flush accounts for every player.  Whatever statements fail,
    each player that is online, dirty or queued when it starts is afterwards either
    written with the flush time or still queued, no dirty player is forgotten, a
    reported success means that nothing is queued, and a reported failure counts
    exactly the players still queued; a database that does not fail gives success.
    The converse of the third fails: when only the third attempt writes the last
    player, nothing is left queued and the flush still reports a failure, of zero
    players. *)
Theorem flush_all_accounts :
  (forall (now : Z) (s : Server),
     let '(r, s') := flush_all now s in
     (forall pid, pid ∈ flush_pending s -> pid ∈ flush_players s' \/ saved now pid s') /\
     dirty_players s' ⊆ flush_players s' /\
     match r with
     | Ok _ => flush_players s' = ∅
     | Err (ShutdownFailed failed _) => size (flush_players s') = failed
     end /\
     (faults (db s) = [] -> r = Ok tt)) /\
  (exists (now : Z) (s : Server), flush_pending s <> ∅ /\
     let '(r, s') := flush_all now s in
     r = Err (ShutdownFailed 0 (Some (DbError SqliteFailure))) /\ flush_players s' = ∅).
Proof.
  split; [exact flush_all_spec|]. pose proof third_attempt_reported_failed as Hd.
  destruct demo_flaky as [s|]; [|done]. exists 9000, s.
  destruct (flush_all 9000 s) as [r s']. destruct Hd as (-> & -> & -> & _). done.
Qed.
