(* ===== verification/Sessions.v ===== *)
(** * Where sessions come from

    A session's player and identity are set when a hello is accepted and never
    change: [persons] is what every handler and every part of the tick keeps, loses
    an entry of, or extends by the sender of a hello. *)

From S2P Require Import Structs Flat Tables.
From S2P Require Import Prelude Float World Clock Config Econ RateLimit Wire Host.
From S2P Require Import HostInv Persist EconStore Codec FlatTree CodecProps Server Sched ServerInv TickInv ServerProps.

(** Who a session is for. *)
Definition person (x : Session) : Z * string := (ss_player_id x, ss_identity_hash x).

Definition persons (s : Server) : gmap Z (Z * string) := person <$> sessions s.

(** The same sessions, for the same players. *)
Definition Stays (s s' : Server) : Prop := persons s' = persons s.

#[global] Instance stays_preorder : PreOrder Stays.
Proof. split; [done|]. unfold Stays. intros ? ? ?. congruence. Qed.

Lemma persons_lookup s q v :
  persons s !! q = Some v <-> exists x, sessions s !! q = Some x /\ person x = v.
Proof. unfold persons. rewrite lookup_fmap, fmap_Some. naive_solver. Qed.

Lemma persons_none s q : sessions s !! q = None -> persons s !! q = None.
Proof. unfold persons. by rewrite lookup_fmap, fmap_None. Qed.

Lemma persons_alter (f : Session -> Session) q (m : gmap Z Session) :
  (forall x, person (f x) = person x) -> person <$> alter f q m = person <$> m.
Proof.
  intros Hf. apply map_eq. intros i. rewrite !lookup_fmap, lookup_alter. case_decide; [subst|done].
  destruct (m !! _); simpl; by rewrite ?Hf.
Qed.

Lemma persons_insert q x y (m : gmap Z Session) :
  m !! q = Some x -> person y = person x -> person <$> <[q := y]> m = person <$> m.
Proof. intros Hx E. rewrite fmap_insert, insert_id; [done|]. by rewrite lookup_fmap, Hx, E. Qed.

Lemma stays_same s s' : sessions s' = sessions s -> Stays s s'.
Proof. unfold Stays, persons. by intros ->. Qed.

Lemma stays_db {A} (m : M A) s : Stays s (on_db m s).2.
Proof. apply stays_same, sessions_on_db. Qed.

(** ** The registry *)
Lemma stays_rekey s : Stays s (rekey_live_session_generations s).2.
Proof.
  unfold rekey_live_session_generations. case_decide; [done|]. unfold Stays, persons. cbn.
  generalize (rekeyed s) as keys, (sessions s) as m. intros keys. induction keys as [|k keys IH]; intros m; cbn; [done|].
  rewrite IH. by apply persons_alter.
Qed.

Lemma stays_allocate s : Stays s (allocate_session_generation s).2.
Proof.
  unfold allocate_session_generation. case_decide.
  - pose proof (stays_rekey s) as Hr. destruct (rekey_live_session_generations s) as [[u|e] t]; [|exact Hr].
    by case_match.
  - by case_match.
Qed.

Lemma persons_register peer x s :
  match register_session peer x s with
  | (Ok _, s') => persons s' = <[peer := person x]> (persons s)
  | (Err _, s') => persons s' = persons s
  end.
Proof.
  unfold register_session. case_decide; [done|]. destruct (player_peers s !! _); [done|].
  pose proof (stays_allocate s) as Ha. destruct (allocate_session_generation s) as [[g|e] t]; [|exact Ha].
  unfold Stays, persons in *. cbn [snd] in Ha. unfold schedule_aoi.
  destruct (ss_dirty _); cbn; rewrite lookup_insert_eq; cbn; by rewrite fmap_insert, Ha.
Qed.

Lemma persons_unregister peer s : persons (unregister_session peer s).2 ⊆ persons s.
Proof.
  unfold unregister_session. destruct (sessions s !! peer) eqn:E; [|done].
  assert (H : person <$> delete peer (sessions s) ⊆ persons s) by (rewrite fmap_delete; apply delete_subseteq).
  case_decide; exact H.
Qed.

Lemma persons_evict peer pid s : persons (evict_superseded peer pid s).2 ⊆ persons s.
Proof.
  unfold evict_superseded. destruct (player_peers s !! pid) as [pp|]; [|done]. case_decide; [done|].
  set (r := match peer_addr pp (host s) with Some _ => _ | None => _ end).
  assert (Hr : persons r.2 = persons s).
  { unfold r. destruct (peer_addr pp (host s)); [|done]. by destruct (disconnect pp (host s)). }
  clearbody r. destruct r as [ok t]. simpl in Hr. destruct ok; simpl; [|by rewrite Hr].
  pose proof (persons_unregister pp t) as Hu. destruct (unregister_session pp t) as [o t'].
  rewrite Hr in Hu. exact Hu.
Qed.

Section Server.
Context `{FB : FlatBuffers}.

Lemma persons_open env peer pid gold h name s :
  delete peer (persons (open_session env peer pid gold h name s).2) ⊆ persons s.
Proof.
  assert (Hd : forall m : gmap Z (Z * string), delete peer m ⊆ m) by (intros; apply delete_subseteq).
  unfold open_session. destruct (subscription_new _) as [sub|]; [|apply Hd].
  destruct (recenter _ sub) as [[aoi sub']|]; [|apply Hd].
  match goal with |- context [register_session peer ?x ?t] =>
    pose proof (persons_register peer x t) as Hr; destruct (register_session peer x t) as [[u|e] t'] end.
  - cbn [snd]. unfold persons in *. rewrite sessions_emit. unfold send_accepted_hello. rewrite sessions_reply, Hr.
    rewrite delete_insert_eq. apply Hd.
  - cbn [snd]. rewrite Hr. apply Hd.
Qed.

(** A hello changes the session of nobody but its sender, except that the sender's
    older session is gone. *)
Lemma persons_hello env peer hello s : delete peer (persons (on_hello_at env peer hello s).2) ⊆ persons s.
Proof.
  assert (Hd : forall t, persons t ⊆ persons s -> delete peer (persons t) ⊆ persons s)
    by (intros t Ht; etrans; [apply delete_subseteq|exact Ht]).
  unfold on_hello_at. destruct (limiter_allow _ _ _) as [[] l]; cbn [negb]; [|by apply Hd].
  destruct (check_hello hello _) as [[token dn]|reason]; [|by apply Hd].
  change (sessions (s <| hello_limiter := l |>)) with (sessions s). destruct (sessions s !! peer) as [x|] eqn:Ex.
  { case_decide; [by apply Hd|].
    match goal with |- context [on_db ?m ?t] =>
      pose proof (stays_db m t) as E; destruct (on_db m t) as [[b|er] t'] end; apply Hd; unfold Stays in E;
      cbn [snd] in *; change (persons t' ⊆ persons s); rewrite E; done. }
  destruct (peer_addr _ _) as [a|]; [|by apply Hd].
  match goal with |- context [admit_session ?ip ?k ?now ?t] =>
    pose proof (good_admit_frame ip k now t) as [Ha _]; destruct (admit_session ip k now t) as [ok s1] end.
  apply stays_same in Ha. unfold Stays in Ha. cbn [snd] in Ha.
  change (persons s1 = persons s) in Ha.
  destruct ok; cbn [negb]; [|apply Hd; change (persons s1 ⊆ persons s); by rewrite Ha].
  match goal with |- context [on_db ?m ?t] =>
    pose proof (stays_db m t) as E2; destruct (on_db m t) as [[[row|]|er] s2] end; unfold Stays in E2; cbn [snd] in E2;
    [|apply Hd; change (persons s2 ⊆ persons s); by rewrite E2, Ha|apply Hd; cbn [snd]; by rewrite E2, Ha].
  case_decide; [apply Hd; cbn [snd]; by rewrite E2, Ha|].
  match goal with |- context [index_identity ?h ?p ?k ?now ?t] =>
    assert (E3 : persons (index_identity h p k now t).2 = persons s2);
      [unfold index_identity; destruct k; by case_decide|];
    destruct (index_identity h p k now t) as [[u|er] s3] end; cbn [snd] in E3; [|apply Hd; cbn [snd]; by rewrite E3, E2, Ha].
  pose proof (persons_evict peer (pl_id row) s3) as Hev. rewrite E3, E2, Ha in Hev.
  destruct (evict_superseded peer (pl_id row) s3) as [[u'|er] s4]; [|by apply Hd].
  etrans; [apply persons_open|exact Hev].
Qed.

(** ** The other handlers *)
Lemma stays_client_state peer m now s : Stays s (on_client_state peer m now s).2.
Proof.
  unfold on_client_state. destruct (sessions s !! peer) as [x|] eqn:Ex; [|done].
  destruct (limiter_allow _ _ _) as [[] l]; [|done]. cbn [negb].
  destruct (sanitize_motion _ _ _) as [mo|]; [|done]. destruct (World.pos mo) as [[px py] pz].
  destruct (recenter _ _) as [[aoi sub]|]; [|done]. unfold Stays, persons. cbn [snd]. rewrite sessions_emit. cbn.
  by eapply persons_insert.
Qed.

Ltac stays_step :=
  match goal with
  | |- context [on_db ?m ?t] =>
      let E := fresh "E" in pose proof (sessions_on_db m t) as E;
      destruct (on_db m t) as [[?|?] ?]; cbn [snd] in E; [|apply stays_same; cbn [snd]; first [congruence|exact E]]
  end.

Lemma stays_econ env peer m s : Stays s (on_econ env peer m s).2.
Proof.
  unfold on_econ. destruct (sessions s !! peer) as [x|]; [|done]. case_match; [done|]. stays_step.
  destruct (match a with Some _ => _ | None => _ end) as [ok s1] eqn:E1.
  assert (H1 : sessions s1 = sessions s).
  { destruct a; [by injection E1 as _ <-|]. destruct (limiter_allow _ _ _); by injection E1 as _ <-. }
  destruct ok; cbn [negb]; [|by apply stays_same]. stays_step. apply stays_same. cbn. congruence.
Qed.

Lemma stays_trade env peer m s : Stays s (on_trade env peer m s).2.
Proof.
  unfold on_trade. destruct (sessions s !! peer) as [x|]; [|done]. stays_step.
  destruct (match a with Some _ => _ | None => _ end) as [ok s1] eqn:E1.
  assert (H1 : sessions s1 = sessions s).
  { destruct a; [by injection E1 as _ <-|]. destruct (limiter_allow _ _ _); by injection E1 as _ <-. }
  destruct ok; cbn [negb]; stays_step; apply stays_same.
  - cbn. congruence.
  - destruct (default (0, 0) a0) as [stock price]. cbn. congruence.
Qed.

Lemma stays_moor env peer m s : Stays s (on_moor env peer m s).2.
Proof.
  unfold on_moor. destruct (sessions s !! peer) as [x|]; [|done]. destruct (sanitize_motion _ _ _) as [mo|]; [|done].
  case_match; [cbn; unfold send_bounded; by case_decide|]. destruct (limiter_allow _ _ _) as [[] l]; [|done].
  cbn [negb]. destruct (World.pos mo) as [[px py] pz]. stays_step. apply stays_same. exact E.
Qed.

Lemma sessions_capture s : sessions (capture_fanout_recipients s).2 = sessions s.
Proof. unfold capture_fanout_recipients. destruct (fanout_audience_cache s); [done|]. by case_match. Qed.

Lemma stays_chat env peer m s : Stays s (on_chat env peer m s).
Proof.
  unfold on_chat. destruct (sessions s !! peer) as [x|]; [|done]. destruct (ss_cell x); [|done].
  case_match; [done|]. do 2 (case_decide; [done|]). destruct (limiter_allow _ _ _) as [[] l]; cbn [negb]; [|done].
  unfold next_seq. case_decide; [done|].
  match goal with |- context [capture_fanout_recipients ?t] =>
    pose proof (sessions_capture t) as Hc; destruct (capture_fanout_recipients t) as [[a|] t'] end; cbn [snd] in Hc;
    by apply stays_same.
Qed.

Lemma persons_disconnect env peer reason s : persons (on_disconnect env peer reason s).2 ⊆ persons s.
Proof.
  unfold on_disconnect. pose proof (persons_unregister peer (s <| hello_limiter ::= limiter_clear peer |>)) as Hu.
  destruct (unregister_session peer _) as [[x|] t]; [|exact Hu]. cbv zeta. unfold touch_last_seen_for_flush.
  match goal with |- context [on_db ?m ?t'] =>
    pose proof (stays_db m t') as E; destruct (on_db m t') as [[b|er] s'] end; unfold Stays in E; cbn [snd] in *;
    change (persons s' ⊆ persons s); rewrite E; exact Hu.
Qed.

(** ** The tick *)
Lemma sessions_bounded peer b s : sessions (send_bounded peer b s).2 = sessions s.
Proof. unfold send_bounded. by case_decide. Qed.

Lemma stays_update peer f s : (forall x, person (f x) = person x) -> Stays s (update_session peer f s).
Proof. intros Hf. unfold Stays, persons, update_session. cbn. by apply persons_alter. Qed.

Lemma stays_put peer x y s :
  sessions s !! peer = Some x -> person y = person x -> Stays s (s <| sessions ::= <[peer := y]> |>).
Proof. intros Hx E. unfold Stays, persons. cbn. by eapply persons_insert. Qed.

Lemma person_publish x : person (publish x) = person x.
Proof.
  assert (Hr : forall l y, person (fold_left publish_removed l y) = person y).
  { induction l as [|c l IH]; intros y; cbn; [done|]. rewrite IH. unfold publish_removed, drop_hydration.
    cbn. repeat case_match; done. }
  assert (Ha : forall l y, person (fold_left publish_added l y) = person y).
  { induction l as [|c l IH]; intros y; cbn; [done|]. by rewrite IH. }
  unfold publish. by rewrite Ha, Hr.
Qed.

Lemma stays_chunk peer s : Stays s (next_aoi_chunk peer s).2.
Proof.
  rewrite next_aoi_chunk_eq. destruct (sessions s !! peer) as [x|] eqn:Ex; [|done].
  pose proof (stays_put peer x (publish x) s Ex (person_publish x)) as H. destruct (chunk_added x), (chunk_removed x); done.
Qed.

Lemma stays_prepare peer n s : Stays s (prepare_cell_hydration peer n s).2.
Proof.
  unfold prepare_cell_hydration. destruct (sessions s !! peer) as [x|] eqn:Ex; [|done]. cbv zeta.
  set (y := match ss_active_hydration x with Some _ => _ | None => x end).
  assert (Ey : person y = person x) by (unfold y; repeat case_match; done). clearbody y.
  destruct (ss_active_hydration y); [by eapply stays_put|].
  destruct (next_hydration_cell _ _); cbn [snd]; by eapply stays_put.
Qed.

Lemma stays_hydration peer f s : Stays s (update_hydration peer f s).
Proof. by apply stays_update. Qed.

Lemma stays_bounded peer b s : Stays s (send_bounded peer b s).2.
Proof. apply stays_same, sessions_bounded. Qed.

Lemma stays_hydrate_players peer c cur rem w s : Stays s (hydrate_players peer c cur rem w s).2.
Proof.
  unfold hydrate_players. destruct (scan_cell _ _ _ _ _ _) as [[found examined] last]. cbv zeta.
  match goal with |- context [update_hydration peer ?f s] =>
    pose proof (stays_hydration peer f s) as H1; set (s1 := update_hydration peer f s) in * end. clearbody s1.
  match goal with |- context [negb ?b] => set (done_scan := b); clearbody done_scan end.
  destruct (player_snap <$> found), (boats_of found); [destruct done_scan; exact H1|..];
    unfold next_seq;
    (match goal with |- context [send_bounded ?p ?b ?t] => pose proof (stays_bounded p b t) as Hb;
       destruct (send_bounded p b t) as [[] s2] end; cbn [snd] in Hb;
     [etrans; [exact H1|]; etrans; [exact Hb|]; destruct done_scan; exact (stays_hydration _ _ s2)
     |etrans; [exact H1|]; destruct done_scan; exact Hb]).
Qed.

Lemma stays_hydrate_moorings peer c w s : Stays s (hydrate_moorings peer c w s).2.
Proof.
  unfold hydrate_moorings. cbv zeta.
  match goal with |- context [on_db ?m s] =>
    pose proof (stays_db m s) as E; destruct (on_db m s) as [[rows|e] s1] end; cbn [snd] in E; [|exact E].
  etrans; [exact E|]. clear E. destruct rows as [|row rows].
  - destruct (match active_hydration_of peer s1 with Some h => hy_sent_any h | None => false end);
      [by apply stays_update|]. unfold next_seq.
    match goal with |- context [send_bounded peer ?b ?t] => pose proof (stays_bounded peer b t) as Hb;
      destruct (send_bounded peer b t) as [ok s2] end. cbn [snd] in *. etrans; [exact Hb|]. by apply stays_update.
  - match goal with |- context [update_hydration peer ?f s1] =>
      pose proof (stays_hydration peer f s1) as H1; set (s2 := update_hydration peer f s1) in * end. clearbody s2.
    etrans; [exact H1|]. case_decide; [|done]. unfold next_seq.
    match goal with |- context [send_bounded peer ?b ?t] => pose proof (stays_bounded peer b t) as Hb;
      destruct (send_bounded peer b t) as [[] s3] end; cbn [snd] in *; [|exact Hb].
    etrans; [exact Hb|]. apply stays_hydration.
Qed.

Lemma stays_one_aoi peer w s : Stays s (process_one_aoi_work peer w s).2.
Proof.
  unfold process_one_aoi_work. pose proof (stays_chunk peer s) as Hc.
  destruct (next_aoi_chunk peer s) as [[[added removed]|] s1]; cbn [snd] in Hc; (etrans; [exact Hc|]).
  - unfold next_seq. match goal with |- context [send_bounded peer ?b ?t] => pose proof (stays_bounded peer b t) as Hb;
      destruct (send_bounded peer b t) as [ok s2] end. exact Hb.
  - pose proof (stays_prepare peer (size (player_order s1)) s1) as Hp.
    destruct (prepare_cell_hydration _ _ s1) as [[[[[c cur] rem] fin]|] s2]; cbn [snd] in Hp; [|exact Hp].
    etrans; [exact Hp|]. destruct fin; cbn [negb]; [apply stays_hydrate_moorings|].
    pose proof (stays_hydrate_players peer c cur rem w s2) as Hh.
    destruct (hydrate_players peer c cur rem w s2) as [[more w2] s3]. exact Hh.
Qed.

Lemma stays_visit peer w s : Stays s (aoi_visit peer w s).2.
Proof.
  unfold aoi_visit. cbv zeta. destruct (sessions _ !! peer); [|done].
  match goal with |- context [process_one_aoi_work peer ?w' ?t] =>
    pose proof (stays_one_aoi peer w' t) as H; destruct (process_one_aoi_work peer w' t) as [[r w2] s2] end.
  cbn [snd] in *. etrans; [exact H|]. unfold schedule_aoi. destruct (sessions s2 !! peer); by case_match.
Qed.

Lemma stays_each {W} (f : Z -> W -> Server -> W * Server) l w s :
  (forall p w s, Stays s (f p w s).2) -> Stays s (each f l w s).2.
Proof.
  intros Hf. unfold each. revert w s. induction l as [|p l IH]; intros w s; cbn; [done|].
  pose proof (Hf p w s) as H. destruct (f p w s) as [w' s']. cbn [snd] in H. etrans; [exact H|]. apply IH.
Qed.

Lemma stays_snapshot_to tick peer w s : Stays s (snapshot_to tick peer w s).2.
Proof.
  unfold snapshot_to. destruct (sessions s !! peer) as [x|]; [|done].
  destruct (ss_cell x) as [c|]; [|done]. case_match; [done|]. cbv zeta.
  match goal with |- context [update_session peer ?f s] =>
    pose proof (stays_update peer f s (fun _ => eq_refl)) as H1; set (s1 := update_session peer f s) in * end. clearbody s1.
  destruct (select_visible _ _ _); [etrans; [exact H1|by apply stays_update]|].
  destruct (snapshot_window _ _ _) as [start rem].
  match goal with |- context [update_session peer ?f s1] =>
    pose proof (stays_update peer f s1 (fun _ => eq_refl)) as H2; set (s2 := update_session peer f s1) in * end. clearbody s2.
  etrans; [exact H1|]. etrans; [exact H2|]. unfold next_seq.
  destruct (player_snap <$> _), (boats_of _); [done|..];
    match goal with |- context [send_bounded ?p ?b ?t] => pose proof (stays_bounded p b t) as Hb;
      destruct (send_bounded p b t) as [ok s3] end; exact Hb.
Qed.

Lemma stays_fanout_job sb db todo job w s : Stays s (fanout_job sb db todo job w s).2.
Proof.
  revert job w s. induction todo as [|r todo IH]; intros job w s; cbn [fanout_job]; [done|].
  do 2 (case_decide; [|done]). case_match; [|apply IH]. etrans; [|apply IH]. done.
Qed.

Lemma stays_fanout fuel sb db w s w' s' : fanout_loop fuel sb db w s = Some (w', s') -> Stays s s'.
Proof.
  revert w s. induction fuel as [|fuel IH]; intros w s; cbn [fanout_loop]; [done|].
  do 2 (case_decide; [by intros [= _ <-]|]).
  set (from_clock := bool_decide (clock_fanout s <> None) && _).
  destruct (if from_clock then _ else _) as [next s1] eqn:E1.
  assert (H1 : Stays s s1) by (destruct from_clock; by injection E1 as _ <-).
  destruct next as [job|].
  - match goal with |- context [fanout_job ?a ?b ?c ?d ?e s1] => pose proof (stays_fanout_job a b c d e s1) as H2;
      destruct (fanout_job a b c d e s1) as [[job' w2] s2] end. cbn [snd] in H2.
    assert (H3 : Stays s s2) by (by etrans). case_decide.
    + intros Hf%IH. etrans; [exact H3|]. etrans; [|exact Hf]. by destruct from_clock.
    + intros [= _ <-]. etrans; [exact H3|]. by destruct from_clock.
  - destruct (bool_decide (clock_fanout s1 = None) && bool_decide (chat_fanout s1 = [])); [by intros [= _ <-]|].
    intros Hf%IH. etrans; [exact H1|]. exact Hf.
Qed.

Lemma stays_set_dirty pid v s : Stays s (set_dirty pid v s).
Proof. unfold set_dirty. case_match; [|done]. apply stays_update. intros x. by case_decide. Qed.

Lemma stays_flush_each now l n s : Stays s (flush_each now l n s).2.
Proof.
  revert n s. induction l as [|pid l IH]; intros n s; cbn [flush_each]; [done|].
  unfold touch_last_seen_for_flush.
  match goal with |- context [on_db ?m s] => pose proof (stays_db m s) as E; destruct (on_db m s) as [[u|e] s1] end;
    cbn [snd] in E; [|exact E]. etrans; [exact E|]. etrans; [|apply IH].
  match goal with |- context [set_dirty ?p ?v ?t] => exact (stays_set_dirty p v t) end.
Qed.

Lemma stays_clock env s : Stays s (broadcast_clock env s).
Proof.
  unfold broadcast_clock, next_seq.
  match goal with |- context [capture_fanout_recipients ?t] =>
    pose proof (sessions_capture t) as Hc; destruct (capture_fanout_recipients t) as [[a|] t'] end; cbn [snd] in Hc;
    by apply stays_same.
Qed.

(** After its events a tick keeps every session's person. *)
Lemma tick_stays ti l l' :
  tick ti l = Some l' ->
  let '(events, h) := poll (ti_script ti) (ti_frame_start ti) (host (lp_server l)) in
  Stays (handle_events (ti_env ti) O events ((lp_server l) <| host := h |>)) (lp_server l').
Proof.
  unfold tick. destruct (poll _ _ _) as [events h]. set (s1 := handle_events _ _ _ _). clearbody s1. cbv zeta.
  assert (H1 : Stays s1 (process_aoi_work s1).2).
  { unfold process_aoi_work. cbv zeta. etrans; [|apply stays_each; intros; apply stays_visit]. by case_match. }
  destruct (process_aoi_work s1) as [w2 s2]. cbn [snd] in H1.
  assert (H2 : Stays s2 (broadcast_snapshots s2).2).
  { unfold broadcast_snapshots. cbv zeta. etrans; [|apply stays_each; intros; apply stays_snapshot_to]. by case_match. }
  destruct (broadcast_snapshots s2) as [w3 s3]. cbn [snd] in H2.
  unfold process_fanout_work, process_fanout_work_with_budget.
  destruct (fanout_loop _ _ _ _ s3) as [[w4 s4]|] eqn:E4; [|done]. apply stays_fanout in E4.
  assert (H5 : Stays s4 (process_dirty_flush_at (e_now_ms (ti_env ti (length events))) s4).2).
  { unfold process_dirty_flush_at. case_match; [done|apply stays_flush_each]. }
  destruct (process_dirty_flush_at _ s4) as [r5 s5]. cbn [snd] in H5.
  set (s6 := if decide _ then broadcast_clock _ s5 else s5).
  assert (H6 : Stays s5 s6) by (unfold s6; case_decide; [apply stays_clock|done]). clearbody s6.
  assert (H7 : Stays s1 s6) by (do 4 (etrans; [eassumption|]); exact H6).
  case_decide; intros [= <-]; cbn [lp_server]; [|exact H7]. etrans; [exact H7|done].
Qed.

(** ** Accepted hellos *)

Lemma server_new_empty c d now rand s d' : server_new c d now rand = (Ok s, d') -> sessions s = ∅.
Proof.
  unfold server_new, lift_db. intros E. destruct (init false d) as [[u|e] d1]; [|done].
  destruct (load_identity_players d1) as [[ids|e] d2]; [|done].
  destruct (world_get_or_init KEY_CLOCK_EPOCH _ d2) as [[ep|e] d3]; [|done].
  destruct (world_get_or_init KEY_WEATHER_SEED _ d3) as [[sd|e] d4]; [|done].
  destruct (bind_with_limits _ _ _) as [h|e]; [|done].
  destruct (grid_new _) as [g|]; [|done]. by injection E as <- _.
Qed.

(** The bytes are a hello of the right protocol version with a non-empty token
    within the length limit, their sender is a live transport peer without a
    session, and the database admits the token as the player with identity [v]. *)
Definition accepted_hello (env : Env) (peer : Z) (bytes : list Z) (s : Server) (v : Z * string) : Prop :=
  exists e h token row, decode_envelope bytes = Some e /\ env_payload e = PClientHello h /\
    ch_protocol_version h = PROTOCOL_VERSION /\ ch_token h = Some token /\ token <> ""%string /\
    Z.of_nat (String.length token) <= max_wire_string_len_usize (cfg s) /\
    is_Some (peer_addr peer (host s)) /\ sessions s !! peer = None /\
    (admit_player_by_token (token_hash token) (default "sailor"%string (ch_display_name h))
       (e_now_ms env) (max_player_rows_u32 (cfg s)) (db s)).1 = Ok (PlayerAdmitted row) /\
    v = (pl_id row, token_hash token).

(** A hello of a peer that has a session. *)
Lemma hello_again env peer h s x : sessions s !! peer = Some x -> sessions (on_hello_at env peer h s).2 = sessions s.
Proof.
  intros Ex. unfold on_hello_at. destruct (limiter_allow _ _ _) as [[] l]; [|done]. cbv zeta. cbn [negb].
  destruct (check_hello h _) as [[token dn]|reason]; [|done].
  change (sessions (s <| hello_limiter := l |>)) with (sessions s). rewrite Ex.
  case_decide; [done|].
  match goal with |- context [on_db ?m ?t] =>
    pose proof (sessions_on_db m t) as E; destruct (on_db m t) as [[b|er] t'] end; exact E.
Qed.

(** What handling one event does to the sessions. *)
Lemma event_persons env ev s q v :
  let '(r, s') := handle_event env ev s in
  persons s' !! q = Some v ->
  persons s !! q = Some v \/
  exists bytes, ev = Data q bytes /\ r = Ok tt /\ accepted_hello env q bytes s v.
Proof.
  assert (Hsub : forall (r : result SrvError unit) s', persons s' ⊆ persons s -> persons s' !! q = Some v ->
    persons s !! q = Some v \/
    exists bytes, ev = Data q bytes /\ r = Ok tt /\ accepted_hello env q bytes s v).
  { intros r s' Hs Hq. left. by eapply lookup_weaken. }
  assert (Hst : forall p : result SrvError unit * Server, Stays s p.2 -> let '(r, s') := p in
    persons s' !! q = Some v -> persons s !! q = Some v \/
    exists bytes, ev = Data q bytes /\ r = Ok tt /\ accepted_hello env q bytes s v).
  { intros [r s'] Hs. apply Hsub. unfold Stays in Hs. cbn [snd] in Hs. by rewrite Hs. }
  destruct ev as [p|p bytes|p reason]; cbn [handle_event]; [by left| |].
  2: { pose proof (persons_disconnect env p reason s) as H. destruct (on_disconnect env p reason s) as [r s']. by apply Hsub. }
  unfold handle_data_at. destruct (decode_envelope bytes) as [e|] eqn:Ed; [|by left].
  destruct (env_payload e) as [h|m|m|m|m|m|m|m|m|m|m|m|m|m|m| |] eqn:Ep;
    try (by left); try exact (Hst _ (stays_client_state _ _ _ _)); try exact (Hst _ (stays_econ _ _ _ _));
    try exact (Hst _ (stays_trade _ _ _ _)); try exact (Hst _ (stays_moor _ _ _ _));
    try exact (Hst (Ok tt, _) (stays_chat _ _ _ _)).
  pose proof (persons_hello env p h s) as Hother. pose proof (hello_creates env p h s) as Hc.
  pose proof (fun x => hello_again env p h s x) as Hag.
  destruct (on_hello_at env p h s) as [r s']. cbn [snd] in *. intros Hq.
  destruct (decide (q = p)) as [->|Hne].
  2: { left. eapply lookup_weaken; [|exact Hother]. by rewrite lookup_delete_ne. }
  destruct (sessions s !! p) as [x|] eqn:Ex.
  { left. unfold persons in *. by rewrite <- (Hag x eq_refl). }
  destruct (Hc eq_refl) as [Hn|(token & row & y & H1 & H2 & H3 & H4 & H5 & H6 & H7 & Hy & Hid & Hha)].
  - by rewrite (persons_none _ _ Hn) in Hq.
  - right. exists bytes. split; [done|]. split; [done|]. exists e, h, token, row. do 9 (split; [done|]).
    apply persons_lookup in Hq as (z & Hz & <-). rewrite Hy in Hz. injection Hz as <-. unfold person. by rewrite Hid, Hha.
Qed.

(** An accepted hello among the events of a tick. *)
Definition hello_among (envs : nat -> Env) (i : nat) (events : list Event) (s : Server) (q : Z) (v : Z * string) : Prop :=
  exists k bytes, events !! k = Some (Data q bytes) /\
    accepted_hello (envs (i + k)%nat) q bytes (handle_events envs i (take k events) s) v.

Lemma events_persons envs i events s q v :
  persons (handle_events envs i events s) !! q = Some v -> persons s !! q = Some v \/ hello_among envs i events s q v.
Proof.
  revert i s. induction events as [|ev events IH]; intros i s; cbn [handle_events]; [by left|].
  pose proof (event_persons (envs i) ev s q v) as He. intros H.
  destruct (IH _ _ H) as [Hq|(k & bytes & Hk & Ha)].
  - destruct (handle_event (envs i) ev s) as [r s']. destruct (He Hq) as [?|(bytes & -> & _ & Ha)]; [by left|right].
    exists O, bytes. split; [done|]. by rewrite Nat.add_0_r.
  - right. exists (S k), bytes. split; [done|]. cbn [take handle_events]. by rewrite <- Nat.add_succ_comm.
Qed.

(** The hello that an input of the loop brings. *)
Definition hello_in (ti : TickInput) (l : LoopState) (q : Z) (v : Z * string) : Prop :=
  let '(events, h) := poll (ti_script ti) (ti_frame_start ti) (host (lp_server l)) in
  hello_among (ti_env ti) O events ((lp_server l) <| host := h |>) q v.

Lemma tick_persons ti l l' q v :
  tick ti l = Some l' -> persons (lp_server l') !! q = Some v ->
  persons (lp_server l) !! q = Some v \/ hello_in ti l q v.
Proof.
  intros E Hq. apply tick_stays in E. unfold hello_in. destruct (poll _ _ _) as [events h].
  rewrite E in Hq. by apply events_persons in Hq.
Qed.

Lemma ticks_persons inputs l l' q v :
  ticks inputs l = Some l' -> persons (lp_server l') !! q = Some v ->
  persons (lp_server l) !! q = Some v \/
  exists k ti lk, inputs !! k = Some ti /\ ticks (take k inputs) l = Some lk /\ hello_in ti lk q v.
Proof.
  revert l. induction inputs as [|ti inputs IH]; intros l; cbn [ticks]; [by intros [= <-]; left|].
  destruct (tick ti l) as [l1|] eqn:E; [|done]. intros H Hq.
  destruct (IH l1 H Hq) as [H1|(k & ti' & lk & Hk & Hl & Hh)].
  - destruct (tick_persons _ _ _ _ _ E H1) as [?|?]; [by left|right]. by exists O, ti, l.
  - right. exists (S k), ti', lk. split; [done|]. split; [|done]. cbn. by rewrite E.
Qed.
End Server.

(** ** Theorems *)

(** C7.  Sessions come only from accepted hellos.  Whatever event is handled, every
    session there is afterwards, of any peer, was there before for the same player
    and identity, or the event is a message of that very peer: a hello of the right
    protocol version with a non-empty token within the length limit, from a live
    transport peer that had no session, whose identity the database admitted as
    that player.  A message of a peer without a session that is not a hello changes
    nothing at all, and a hello of a peer with a session changes no session.  No
    other work of a tick touches a session's player or identity: in a run from
    start-up every session came from such a hello, received from its peer in one of
    the run's ticks. *)
Theorem session_creation `{FB : FlatBuffers} :
  (forall env ev s q v, let '(r, s') := handle_event env ev s in
     persons s' !! q = Some v ->
     persons s !! q = Some v \/
     exists bytes, ev = Data q bytes /\ r = Ok tt /\ accepted_hello env q bytes s v) /\
  (forall env peer bytes s, sessions s !! peer = None ->
     (forall e h, decode_envelope bytes = Some e -> env_payload e <> PClientHello h) ->
     handle_event env (Data peer bytes) s = (Ok tt, s)) /\
  (forall env peer bytes e h s x, sessions s !! peer = Some x ->
     decode_envelope bytes = Some e -> env_payload e = PClientHello h ->
     sessions (handle_event env (Data peer bytes) s).2 = sessions s) /\
  (forall c d d' now rand start s inputs l q v, server_new c d now rand = (Ok s, d') ->
     ticks inputs (mkLoop 0 start s) = Some l -> persons (lp_server l) !! q = Some v ->
     exists k ti lk, inputs !! k = Some ti /\ ticks (take k inputs) (mkLoop 0 start s) = Some lk /\ hello_in ti lk q v).
Proof.
  split; [intros; apply event_persons|]. split; [|split].
  - intros env peer bytes s Hn Hh. cbn [handle_event]. unfold handle_data_at.
    destruct (decode_envelope bytes) as [e|] eqn:Ed; [|done]. specialize (Hh e).
    destruct (env_payload e) eqn:Ep; try done; [exfalso; by eapply Hh|..];
      unfold on_client_state, on_econ, on_trade, on_moor, on_chat; by rewrite Hn.
  - intros env peer bytes e h s x Hx Hd Hp. cbn [handle_event]. unfold handle_data_at. rewrite Hd, Hp.
    by eapply hello_again.
  - intros c d d' now rand start s inputs l q v E Hl Hq.
    destruct (ticks_persons _ _ _ _ _ Hl Hq) as [H|H]; [|exact H]. exfalso. cbn [lp_server] in H.
    apply persons_lookup in H as (x & Hx & _). by rewrite (server_new_empty _ _ _ _ _ _ E) in Hx.
Qed.

Lemma joined_person :
  (fun s => persons s !! 1) <$> demo_run demo_inputs = Some (Some (1, token_hash "secret")).
Proof. vm_compute. reflexivity. Qed.

Lemma demo_ticks inputs t :
  demo_run inputs = Some t ->
  exists s d l, server_new config_default (mkDb empty_tables []) 5000 42 = (Ok s, d) /\
    ticks inputs (mkLoop 0 0 s) = Some l /\ t = lp_server l.
Proof.
  destruct demo_start as (s & d & E). unfold demo_run. rewrite E. cbn [fst].
  intros (l & El & ->)%fmap_Some. by exists s, d, l.
Qed.

Lemma joined_run :
  exists s d l, server_new config_default (mkDb empty_tables []) 5000 42 = (Ok s, d) /\
    ticks demo_inputs (mkLoop 0 0 s) = Some l /\ persons (lp_server l) !! 1 = Some (1, token_hash "secret").
Proof.
  pose proof joined_person as Hb. destruct (demo_run demo_inputs) as [t|] eqn:Et; [|discriminate Hb].
  apply (inj Some) in Hb. destruct (demo_ticks _ _ Et) as (s & d & l & E & El & ->).
  exists s, d, l. exact (conj E (conj El Hb)).
Qed.

Lemma session_creation_witness :
  exists s d l k ti lk, server_new config_default (mkDb empty_tables []) 5000 42 = (Ok s, d) /\
    ticks demo_inputs (mkLoop 0 0 s) = Some l /\ persons (lp_server l) !! 1 = Some (1, token_hash "secret") /\
    demo_inputs !! k = Some ti /\ ticks (take k demo_inputs) (mkLoop 0 0 s) = Some lk /\
    hello_in ti lk 1 (1, token_hash "secret").
Proof.
  destruct joined_run as (s & d & l & E & El & Hb).
  destruct (proj2 (proj2 (proj2 (@session_creation tree_runtime))) config_default (mkDb empty_tables []) d 5000 42 0 s
    demo_inputs l 1 (1, token_hash "secret") E El Hb) as (k & ti & lk & Hk & Hl & Hh).
  exists s, d, l, k, ti, lk. exact (conj E (conj El (conj Hb (conj Hk (conj Hl Hh))))).
Defined.
