(* ===== verification/Progress.v ===== *)
(** * Progress of the bounded background work (server.rs)

    What the per-tick budgets add up to: the dirty flush writes every queued
    player. *)

From S2P Require Import Prelude Float World Config Host HostInv Persist Structs Flat Tables Codec Server Sched.
From S2P Require Import ServerInv TickInv ServerProps FlatTree CodecProps.

(** ** The dirty flush *)
Section Flush.
Context `{FB : FlatBuffers}.

(** Consecutive ticks of the flush, at the given times. *)
Fixpoint flush_ticks (nows : list Z) (s : Server) : Server :=
  match nows with
  | [] => s
  | now :: rest => flush_ticks rest (process_dirty_flush_at now s).2
  end.

(** [done] left the queue between [s] and [s'], each written at a time of [P]. *)
Record Flushed (P : Z -> Prop) (done : list Z) (s s' : Server) : Prop := {
  fd_queue : flush_players s' = flush_players s ∖ list_to_set done;
  fd_done : Forall (fun pid => written P pid s') done;
  fd_kept pid : written P pid s -> written P pid s';
  fd_dirty : dirty_players s' = dirty_players s
}.

Lemma flushed_nil P s s' :
  flush_players s' = flush_players s -> dirty_players s' = dirty_players s ->
  (forall pid, written P pid s -> written P pid s') -> Flushed P [] s s'.
Proof. intros E1 E2 Hk. split; [rewrite E1; set_solver|constructor|done|done]. Qed.

Lemma flushed_app P l1 l2 s1 s2 s3 :
  Flushed P l1 s1 s2 -> Flushed P l2 s2 s3 -> Flushed P (l1 ++ l2) s1 s3.
Proof.
  intros [Q1 D1 K1 R1] [Q2 D2 K2 R2]. split.
  - rewrite Q2, Q1, list_to_set_app_L. set_solver.
  - apply Forall_app. split; [|done]. eapply Forall_impl; [exact D1|]. auto.
  - auto.
  - by rewrite R2.
Qed.

Lemma flush_each_spec (P : Z -> Prop) now l n s :
  P now ->
  let '(r, s') := flush_each now l n s in
  exists done, done `prefix_of` l /\ Flushed P done s s' /\
    match r with
    | Ok m => done = l /\ m = (n + length l)%nat /\ flush_paused s' = flush_paused s
    | Err _ => flush_paused s' = true
    end /\
    (faults (db s) = [] -> faults (db s') = [] /\ exists m, r = Ok m).
Proof.
  intros Hn. revert n s. induction l as [|pid l IH]; intros n s; cbn [flush_each].
  { exists []. split; [apply prefix_nil|]. split; [by apply flushed_nil|].
    split; [simpl; split_and!; [done|lia|done]|eauto]. }
  pose proof (touch_written P now pid s Hn) as Ht.
  destruct (touch_last_seen_for_flush _ now s) as [[u|e] s1]; destruct Ht as (Hmono & Hok & Hff & d & Es1).
  - match goal with |- context [set_dirty pid ?v ?t] =>
      destruct (set_dirty_frame pid v t) as (E1 & E2 & E3); set (s2 := set_dirty pid v t) in * end.
    assert (Ep : flush_paused s2 = flush_paused s)
      by (unfold s2, set_dirty; rewrite Es1; by case_match).
    assert (H1 : Flushed P [pid] s s2).
    { subst s1. simpl in E1, E2, E3. split; [rewrite E1; set_solver|..|by rewrite E2].
      - constructor; [|done]. destruct u. intros row. rewrite E3. by apply Hok.
      - intros q Hq row. rewrite E3. by apply Hmono. }
    specialize (IH (S n) s2). cbv zeta. fold s2.
    destruct (flush_each now l (S n) s2) as [r s']. destruct IH as (done & Hpre & HF & Hr & Hnf).
    exists (pid :: done). split; [by apply prefix_cons|]. split; [by apply (flushed_app P [pid] done s s2 s')|].
    split.
    + destruct r as [m|e]; [|done]. destruct Hr as (-> & -> & ->). simpl. split_and!; [done|lia|done].
    + intros Hf. apply Hnf. rewrite E3. simpl. by destruct (Hff Hf).
  - exists []. split; [apply prefix_nil|]. subst s1. split; [by apply flushed_nil|]. split; [done|].
    intros Hf. by destruct (Hff Hf).
Qed.

Lemma size_queue_take (X : gset Z) k :
  size (X ∖ list_to_set (take k (btree_iter Z.le X))) = (size X - k)%nat.
Proof.
  assert (Hnd : NoDup (take k (btree_iter Z.le X)))
    by (eapply sublist_NoDup; [apply (NoDup_btree_iter Z.le X)|apply sublist_take]).
  rewrite size_difference.
  - rewrite size_list_to_set by done. rewrite length_take, length_btree_iter. lia.
  - intros x Hx. apply elem_of_list_to_set, elem_of_take in Hx as (i & Hi & _).
    apply (elem_of_btree_iter Z.le). by eapply list_elem_of_lookup_2.
Qed.

(** One tick: at most eight updates, the first of the queue; a failure pauses. *)
Lemma flush_at_spec (P : Z -> Prop) now s :
  P now ->
  let '(r, s') := process_dirty_flush_at now s in
  exists done, Flushed P done s s' /\
    match r with
    | Ok m => (m <= DIRTY_DB_UPDATES_PER_TICK)%nat /\ flush_paused s' = flush_paused s /\
              size (flush_players s') = (size (flush_players s) - m)%nat /\
              (flush_paused s = false -> m = Nat.min (size (flush_players s)) DIRTY_DB_UPDATES_PER_TICK)
    | Err _ => flush_paused s' = true
    end /\
    (faults (db s) = [] -> faults (db s') = [] /\ exists m, r = Ok m).
Proof.
  intros Hn. unfold process_dirty_flush_at. destruct (flush_paused s) eqn:Hp.
  { exists []. split; [by apply flushed_nil|]. split; [split_and!; [lia|done|lia|done]|eauto]. }
  set (l := take _ _). pose proof (flush_each_spec P now l 0 s Hn) as H.
  destruct (flush_each now l 0 s) as [r s']. destruct H as (done & Hpre & HF & Hr & Hff).
  exists done. split; [done|]. split; [|done]. destruct r as [m|e]; [|done].
  destruct Hr as (-> & -> & Ep). rewrite (fd_queue _ _ _ _ HF). unfold l.
  rewrite size_queue_take, length_take, length_btree_iter. rewrite Hp in Ep.
  split_and!; [lia|done|lia|]. intros _. lia.
Qed.

Lemma flush_ticks_spec (P : Z -> Prop) nows s :
  Forall P nows ->
  exists done, Flushed P done s (flush_ticks nows s) /\
    (faults (db s) = [] -> flush_paused s = false ->
     size (flush_players (flush_ticks nows s)) =
       (size (flush_players s) - DIRTY_DB_UPDATES_PER_TICK * length nows)%nat).
Proof.
  intros Hall. revert s. induction Hall as [|now nows Hn _ IH]; intros s; cbn [flush_ticks].
  { exists []. split; [by apply flushed_nil|]. intros _ _. simpl. lia. }
  pose proof (flush_at_spec P now s Hn) as H1. destruct (process_dirty_flush_at now s) as [r s1].
  destruct H1 as (d1 & HF1 & Hr & Hff). destruct (IH s1) as (d2 & HF2 & Hsz). exists (d1 ++ d2).
  split; [by eapply flushed_app|]. intros Hf Hp. destruct (Hff Hf) as [Hf1 [m ->]].
  destruct Hr as (_ & Ep & Em & Emin). simpl. rewrite Hsz by (done || congruence).
  specialize (Emin Hp). unfold DIRTY_DB_UPDATES_PER_TICK in *. simpl. lia.
Qed.

Lemma inv_flush_at now s : server_inv s -> server_inv (process_dirty_flush_at now s).2.
Proof.
  intros Hs. apply (good_flush_at (dom (sessions s))). split; [done|]. set_solver.
Qed.

Lemma inv_flush_ticks nows s : server_inv s -> server_inv (flush_ticks nows s).
Proof. revert s. induction nows as [|now nows IH]; intros s Hs; simpl; [done|]. by apply IH, inv_flush_at. Qed.

Lemma inv_begin_flush s : server_inv s -> server_inv (begin_dirty_flush s).
Proof. intros Hs. apply (good_begin_flush (dom (sessions s))). split; [done|]. set_solver. Qed.
End Flush.

(** A player sails: connect, hello, one pose. *)
Definition sailing_inputs : list TickInput :=
  [demo_connect; demo_data 40000000 (PClientHello demo_hello);
   demo_data 80000000 (PClientState (mkClientState
     (Some (S754_zero false, S754_zero false, S754_zero false))
     (Some (S754_zero false, S754_zero false, S754_zero false, S754_zero false)) None 0 7))].

Lemma sailing_run :
  (fun s => (dirty_players s, flush_players s, faults (db s), ss_dirty <$> (map_to_list (sessions s)).*2))
    <$> demo_run sailing_inputs = Some ({[1]}, ∅, [], [true]).
Proof. vm_compute. reflexivity. Qed.

Lemma sailing_good :
  exists s, demo_run sailing_inputs = Some s /\ server_inv s /\ dirty_players s = {[1]} /\
    flush_players s = ∅ /\ faults (db s) = [].
Proof.
  pose proof sailing_run as H. destruct (demo_run sailing_inputs) as [s|] eqn:E; [|discriminate H].
  injection H as H1 H2 H3 _. exists s. split; [exact eq_refl|].
  split; [exact (proj1 (demo_good sailing_inputs s E))|]. split; [exact H1|split; [exact H2|exact H3]].
Qed.

(** ** Theorems *)

(** C28.  The dirty flush loses nothing and drains.  Whatever statements fail, a
    tick of it makes at most eight updates, every player that leaves the queue was
    written at the time of the tick, no other player enters or leaves the queue or
    the dirty set, a failure pauses the flush with the failed player still queued,
    and the server stays consistent.  And once a flush begins on a database that
    does not fail, [n] ticks write every player that was dirty or queued, if there
    were at most [8 n] of them: the queue and the dirty set are empty and no session
    is marked dirty any more. *)
Theorem dirty_flush_drains `{FB : FlatBuffers} (nows : list Z) (s : Server) :
  server_inv s ->
  (forall now, let '(r, s') := process_dirty_flush_at now s in
     server_inv s' /\ dirty_players s' = dirty_players s /\ flush_players s' ⊆ flush_players s /\
     (forall pid, pid ∈ flush_players s -> pid ∈ flush_players s' \/ saved now pid s') /\
     match r with
     | Ok m => (m <= DIRTY_DB_UPDATES_PER_TICK)%nat /\
               size (flush_players s') = (size (flush_players s) - m)%nat
     | Err _ => flush_paused s' = true
     end) /\
  (faults (db s) = [] ->
   (size (dirty_players s ∪ flush_players s) <= DIRTY_DB_UPDATES_PER_TICK * length nows)%nat ->
   let s' := flush_ticks nows (begin_dirty_flush s) in
   flush_players s' = ∅ /\ dirty_players s' = ∅ /\
   (forall pid, pid ∈ dirty_players s ∪ flush_players s -> written (.∈ nows) pid s') /\
   (forall peer x, sessions s' !! peer = Some x -> ss_dirty x = false)).
Proof.
  intros Hs. split.
  - intros now. pose proof (flush_at_spec (fun t => t = now) now s eq_refl) as H.
    pose proof (inv_flush_at now s Hs) as Hs'. destruct (process_dirty_flush_at now s) as [r s'].
    destruct H as (done & [Hq Hd _ Ed] & Hr & _). split_and!; try done.
    + rewrite Hq. set_solver.
    + intros pid Hin. destruct (decide (pid ∈ done)) as [Hdn|Hdn].
      * right. by apply (proj1 (Forall_forall _ _) Hd).
      * left. rewrite Hq. apply elem_of_difference. by rewrite elem_of_list_to_set.
    + destruct r; [|done]. by destruct Hr as (? & _ & ? & _).
  - intros Hf Hsz s'. set (s0 := begin_dirty_flush s).
    destruct (flush_ticks_spec (.∈ nows) nows s0) as (done & [Hq Hd _ Ed] & Hdr);
      [by apply Forall_forall|].
    assert (Hempty : flush_players s' = ∅).
    { apply leibniz_equiv, size_empty_inv.
      change (size (flush_players (flush_ticks nows s0)) = 0%nat). rewrite Hdr by done.
      change (flush_players s0) with (dirty_players s ∪ flush_players s). lia. }
    split; [done|]. split; [exact Ed|]. split.
    + intros pid Hin. apply (proj1 (Forall_forall _ _) Hd).
      assert (pid ∉ flush_players s') as Hn by (rewrite Hempty; set_solver).
      change s' with (flush_ticks nows s0) in Hn. rewrite Hq, elem_of_difference, elem_of_list_to_set in Hn.
      destruct (decide (pid ∈ done)); [done|]. destruct Hn. by split.
    + intros peer x Hx. destruct (ss_dirty x) eqn:Edx; [|done].
      destruct (inv_flush_ticks nows s0 (inv_begin_flush s Hs)) as (_ & HD & _).
      specialize (HD peer x Hx Edx). rewrite Ed in HD.
      change (flush_players (flush_ticks nows s0)) with (flush_players s') in HD. rewrite Hempty in HD.
      change (dirty_players s0) with (∅ : gset Z) in HD.
      clear -HD. set_solver.
Qed.

Lemma dirty_flush_drains_witness :
  exists s, demo_run sailing_inputs = Some s /\ dirty_players s = {[1]} /\
    let s' := flush_ticks [8000] (begin_dirty_flush s) in
    flush_players s' = ∅ /\ written (.∈ [8000]) 1 s'.
Proof.
  destruct sailing_good as (s & E & Hs & Ed & Ef & Hf). exists s. split; [exact E|split; [exact Ed|]].
  destruct (dirty_flush_drains [8000] s Hs) as [_ H].
  destruct H as (H1 & _ & H3 & _); [exact Hf|rewrite Ed, Ef; vm_compute; lia|].
  split; [exact H1|]. apply H3. rewrite Ed. apply elem_of_union_l, elem_of_singleton. reflexivity.
Defined.
