(* ===== verification/Hydration.v ===== *)
(** * Completeness of cell hydration (server.rs)

    A client that subscribes to a cell is told what is in it by bounded work items
    of [process_one_aoi_work]: at most eight players are examined and five sent per
    item, or one mooring.  This file follows a session's items from the first cell
    that is waiting to the last, while nothing else changes, and shows that together
    they send every player and every mooring of every waiting cell. *)

From S2P Require Import Structs Flat Tables.
From S2P Require Import Prelude Float World Config Host HostInv Persist Codec Server Sched.
From S2P Require Import ServerInv TickInv ServerProps FlatTree CodecProps.

(** ** Messages *)

(** The contents of one [cell_snapshot]. *)
Record CellMsg := mkCellMsg {
  cm_cell : Cell;
  cm_players : list PlayerSnap;
  cm_boats : list BoatSnap;
  cm_moorings : list MooringSnap
}.

Section Hydration.
Context `{FB : FlatBuffers}.
Variable peer : Z.

(** Encode and send messages one after the other; was any within the MTU? *)
Definition tell_one (m : CellMsg) (s : Server) : bool * Server :=
  let '(n, s) := next_seq s in
  send_bounded peer (cell_snapshot n (cm_cell m) (cm_players m) (cm_boats m) (cm_moorings m)) s.

Fixpoint tell (msgs : list CellMsg) (s : Server) : bool * Server :=
  match msgs with
  | [] => (false, s)
  | m :: msgs =>
      let '(sent, s) := tell_one m s in
      let '(any, s) := tell msgs s in (sent || any, s)
  end.

Lemma tell_app l1 l2 s :
  tell (l1 ++ l2) s =
  let '(a, s1) := tell l1 s in let '(b, s2) := tell l2 s1 in (a || b, s2).
Proof.
  revert s. induction l1 as [|m l1 IH]; intros s; cbn [tell app].
  { by destruct (tell l2 s). }
  destruct (tell_one m s) as [sent s1]. rewrite IH. destruct (tell l1 s1) as [a s2].
  destruct (tell l2 s2) as [b s3]. by rewrite orb_assoc.
Qed.

(** Sending only touches the sequence number and the transport. *)
Lemma tell_frame msgs s : exists q h, (tell msgs s).2 = s <| sv_seq := q |> <| host := h |>.
Proof.
  revert s. induction msgs as [|m msgs IH]; intros s; cbn [tell].
  { exists (sv_seq s), (host s). by destruct s. }
  unfold tell_one, next_seq, send_bounded, send. case_decide; cbv zeta;
    (match goal with |- context [tell msgs ?t] => destruct (IH t) as (q & h & E); destruct (tell msgs t) end);
    simpl in E; subst; by do 2 eexists.
Qed.

(** ** A session in the middle of its items *)

(** The server after [msgs] were sent, with [y] as the session of the peer. *)
Definition st (y : Session) (msgs : list CellMsg) (s0 : Server) : Server :=
  (tell msgs s0).2 <| sessions := <[peer := y]> (sessions s0) |>.

Lemma st_session y msgs s0 : sessions (st y msgs s0) !! peer = Some y.
Proof. apply lookup_insert_eq. Qed.

Lemma st_fields y msgs s0 :
  player_order (st y msgs s0) = player_order s0 /\ player_peers (st y msgs s0) = player_peers s0 /\
  db (st y msgs s0) = db s0 /\ sessions (st y msgs s0) = <[peer := y]> (sessions s0).
Proof. unfold st. destruct (tell_frame msgs s0) as (q & h & ->). done. Qed.

Lemma st_update f y msgs s0 : update_session peer f (st y msgs s0) = st (f y) msgs s0.
Proof. unfold update_session, st. cbn. by rewrite alter_insert_eq. Qed.

Lemma st_put y z msgs s0 : (st y msgs s0) <| sessions ::= <[peer := z]> |> = st z msgs s0.
Proof. unfold st. cbn. by rewrite insert_insert_eq. Qed.

Lemma st_tell m y msgs s0 :
  exists sent, tell_one m (st y msgs s0) = (sent, st y (msgs ++ [m]) s0) /\
    (tell (msgs ++ [m]) s0).1 = (tell msgs s0).1 || sent.
Proof.
  unfold st. rewrite tell_app. destruct (tell msgs s0) as [a s1]. cbn [tell fst snd].
  unfold tell_one, next_seq, send_bounded, send. cbn.
  case_decide; eexists; (split; [reflexivity|by destruct a]).
Qed.

(** ** The players of a cell *)
Definition in_cell (c : Cell) (s : Server) (pid : Z) : option Session :=
  match session_by_player pid s with
  | Some x => if decide (ss_cell x = Some c) then Some x else None
  | None => None
  end.

Definition cell_players (c : Cell) (s : Server) (l : list Z) : list Session := omap (in_cell c s) l.

(** A scan takes a prefix of its candidates, at least one if there is one, and
    finds the players of the cell among them, at most a packet full. *)
Lemma scan_cell_spec c s cands found ex l0 :
  (length found < CELL_ENTITIES_PER_PACKET)%nat ->
  exists e, (e <= length cands)%nat /\ (cands <> [] -> (1 <= e)%nat) /\
    scan_cell c s cands found ex l0 =
      (found ++ cell_players c s (take e cands), (ex + e)%nat, or_else (list.last (take e cands)) l0) /\
    (length (found ++ cell_players c s (take e cands)) <= CELL_ENTITIES_PER_PACKET)%nat.
Proof.
  revert found ex l0. induction cands as [|pid cands IH]; intros found ex l0 Hf; cbn [scan_cell].
  { exists 0%nat. rewrite app_nil_r. split_and!; [simpl; lia|done|by rewrite Nat.add_0_r|lia]. }
  assert (Hlast : forall e, or_else (list.last (take (S e) (pid :: cands))) l0 =
                            or_else (list.last (take e cands)) (Some pid)).
  { intros e. cbn [take]. by destruct (take e cands) as [|a l]; [|destruct (list.last (a :: l)) eqn:El;
      [simpl in *; by rewrite El|apply last_None in El]]. }
  assert (Hskip : forall found', found' = found ++ cell_players c s [pid] ->
    (length found' < CELL_ENTITIES_PER_PACKET)%nat ->
    exists e, (e <= length (pid :: cands))%nat /\ (pid :: cands <> [] -> (1 <= e)%nat) /\
      scan_cell c s cands found' (S ex) (Some pid) =
        (found ++ cell_players c s (take e (pid :: cands)), (ex + e)%nat,
         or_else (list.last (take e (pid :: cands))) l0) /\
      (length (found ++ cell_players c s (take e (pid :: cands))) <= CELL_ENTITIES_PER_PACKET)%nat).
  { intros found' -> Hf'. destruct (IH _ (S ex) (Some pid) Hf') as (e & He & _ & Es & Hl).
    exists (S e). rewrite Hlast. rewrite <- app_assoc in Es, Hl.
    change (cell_players c s [pid] ++ cell_players c s (take e cands)) with
      (omap (in_cell c s) [pid] ++ omap (in_cell c s) (take e cands)) in Es, Hl.
    rewrite <- omap_app in Es, Hl. split_and!; [simpl; lia|lia| |exact Hl].
    rewrite Es. simpl. by rewrite Nat.add_succ_r. }
  assert (Ein : cell_players c s [pid] = option_list (in_cell c s pid))
    by (unfold cell_players; simpl; by destruct (in_cell c s pid)).
  revert Ein. unfold in_cell. destruct (session_by_player pid s) as [x|] eqn:Ex; intros Ein;
    [|apply Hskip; [by rewrite Ein, app_nil_r|done]].
  destruct (decide (ss_cell x = Some c)) as [Hc|Hc].
  - rewrite decide_False by (intros H; by apply H). case_decide as Hfull.
    + exists 1%nat. change (take 1 (pid :: cands)) with [pid]. rewrite Ein.
      split_and!; [simpl; lia|lia|by rewrite Nat.add_1_r|change (option_list (Some x)) with [x]; lia].
    + apply Hskip; [by rewrite Ein|]. rewrite length_app in *. cbn [length] in *. lia.
  - rewrite decide_True by done. apply Hskip; [by rewrite Ein, app_nil_r|done].
Qed.

(** ** Only the hydration of the session changes *)
Definition hydrating (x y : Session) : Prop :=
  exists cells cur act, y = x <| ss_hydration_cells := cells |> <| ss_hydration_cursor := cur |>
                              <| ss_active_hydration := act |>.

Definition same_pose (x y : Session) : Prop :=
  player_snap y = player_snap x /\ boat_snap y = boat_snap x /\
  ss_aboard_boat y = ss_aboard_boat x.

Lemma cell_players_st c x y msgs s0 l :
  sessions s0 !! peer = Some x -> hydrating x y ->
  Forall2 same_pose (cell_players c s0 l) (cell_players c (st y msgs s0) l).
Proof.
  intros Hx (cells & cur & act & Hy).
  assert (Hxy : ss_player_id y = ss_player_id x /\ ss_cell y = ss_cell x /\ same_pose x y) by (by subst y).
  destruct Hxy as (Eid & Ec & Hpose). unfold cell_players. induction l as [|pid l IH]; [constructor|].
  assert (H : option_Forall2 same_pose (in_cell c s0 pid) (in_cell c (st y msgs s0) pid)).
  { destruct (st_fields y msgs s0) as (_ & Epp & _ & Es). unfold in_cell, session_by_player. rewrite Epp, Es.
    destruct (player_peers s0 !! pid) as [q|]; [|constructor]. destruct (decide (q = peer)) as [->|Hne].
    - rewrite lookup_insert_eq, Hx, Eid. case_decide; [|constructor]. rewrite Ec. case_decide; by constructor.
    - rewrite lookup_insert_ne by done. destruct (sessions s0 !! q); [|constructor].
      case_decide; [|constructor]. case_decide; by constructor. }
  cbn [omap list_omap]. destruct H; [by constructor|exact IH].
Qed.

Lemma same_pose_snaps l l' :
  Forall2 same_pose l l' -> player_snap <$> l' = player_snap <$> l /\ boats_of l' = boats_of l.
Proof.
  unfold boats_of. induction 1 as [|x y l l' (Hp & Hb & Ha) _ [IH1 IH2]]; [done|].
  split; [by rewrite !fmap_cons, Hp, IH1|]. rewrite !filter_cons, Ha.
  destruct (decide (ss_aboard_boat x <> 0)); rewrite ?fmap_cons, ?Hb; by rewrite IH2.
Qed.

(** ** One work item *)

(** The message of a batch of players, if there are any. *)
Definition players_msg (c : Cell) (batch : list Session) : list CellMsg :=
  match batch with
  | [] => []
  | _ => [mkCellMsg c (player_snap <$> batch) (boats_of batch) []]
  end.

(** Nothing is left to announce. *)
Lemma no_chunk y msgs s0 :
  ss_published_cells y = sub_cells (ss_sub y) -> next_aoi_chunk peer (st y msgs s0) = (None, st y msgs s0).
Proof.
  intros E. unfold next_aoi_chunk. rewrite st_session, E, difference_diag_L. done.
Qed.

Lemma prepare_active y msgs s0 n h :
  ss_active_hydration y = Some h -> hy_cell h ∈ sub_cells (ss_sub y) -> hy_cell h ∈ ss_published_cells y ->
  prepare_cell_hydration peer n (st y msgs s0) =
    (Some (hy_cell h, hy_player_cursor h, hy_players_remaining h, hy_players_complete h), st y msgs s0).
Proof.
  intros Ea Hs Hp. unfold prepare_cell_hydration. rewrite st_session, Ea. unfold contains.
  rewrite bool_decide_true by done. rewrite bool_decide_false by (intros H; by apply H).
  cbn [negb orb]. rewrite Ea, st_put. cbn [fmap option_fmap option_map]. by rewrite Ea.
Qed.

Lemma active_st y msgs s0 : active_hydration_of peer (st y msgs s0) = ss_active_hydration y.
Proof. unfold active_hydration_of. by rewrite st_session. Qed.

(** Resuming after a prefix examines the players that follow it. *)
Lemma candidates_eq (X : gset Z) pre rest k :
  btree_iter Z.le X = pre ++ rest ->
  ordered_after X (list.last pre) (Nat.min (length rest) k) = take k rest.
Proof.
  intros E. rewrite ordered_after_rot. rewrite E.
  assert (Hsz : size X = (length pre + length rest)%nat)
    by (rewrite <- (length_btree_iter Z.le X), E; apply length_app).
  assert (Hr : exists l, rot (list.last pre) (pre ++ rest) = rest ++ l).
  { destruct (list.last pre) as [c|] eqn:El; [|apply last_None in El; subst pre; exists []; simpl; by rewrite app_nil_r].
    apply last_Some in El as [u ->]. exists (u ++ [c]).
    apply rot_at; [rewrite <- E; apply btree_lt|by rewrite <- app_assoc]. }
  destruct Hr as [l ->]. rewrite take_app_le by lia. rewrite Hsz.
  replace (Nat.min (Nat.min (length rest) k) (length pre + length rest))%nat with (Nat.min k (length rest)) by lia.
  destruct (decide (k <= length rest)%nat); [by rewrite Nat.min_l by lia|].
  rewrite Nat.min_r, !take_ge by lia. done.
Qed.

Lemma last_app_or {A} (l1 l2 : list A) : or_else (list.last l2) (list.last l1) = list.last (l1 ++ l2).
Proof. rewrite last_app. by destruct (list.last l2). Qed.

(** The state of a hydration of [c] with [rest] still to examine. *)
Definition examining (c : Cell) (pre rest : list Z) (any : bool) : CellHydration :=
  mkHydration c (list.last pre) (length rest) None (bool_decide (length rest = 0%nat)) any.

(** What holds of the session [y] of a server whose session was [x] and that has
    nothing left to announce. *)
Record Settled (s0 : Server) (x y : Session) : Prop := {
  se_base : sessions s0 !! peer = Some x;
  se_same : hydrating x y;
  se_published : ss_published_cells x = sub_cells (ss_sub x)
}.

Lemma settled_published s0 x y : Settled s0 x y -> ss_published_cells y = sub_cells (ss_sub y).
Proof. intros [_ (cells & cur & act & ->) E]. exact E. Qed.

Lemma settled_active s0 x y act :
  Settled s0 x y -> Settled s0 x (y <| ss_active_hydration := act |>).
Proof. intros [Hb (cells & cur & a & ->) E]. split; [done| |done]. by exists cells, cur, act. Qed.

Lemma st_hydrate f y h msgs s0 :
  ss_active_hydration y = Some h ->
  update_hydration peer f (st y msgs s0) = st (y <| ss_active_hydration := Some (f h) |>) msgs s0.
Proof. intros E. unfold update_hydration. rewrite st_update. destruct y. cbn in *. by rewrite E. Qed.

Lemma same_active y h : ss_active_hydration y = Some h -> y <| ss_active_hydration := Some h |> = y.
Proof. destruct y. cbn. by intros ->. Qed.

Lemma same_any h : h <| hy_sent_any := hy_sent_any h |> = h.
Proof. by destruct h. Qed.

(** Sending a message and recording that something was sent. *)
Lemma send_step m y h msgs s0 :
  ss_active_hydration y = Some h -> hy_sent_any h = (tell msgs s0).1 ->
  exists sent, tell_one m (st y msgs s0) = (sent, st y (msgs ++ [m]) s0) /\
    (if sent then update_hydration peer (fun h => h <| hy_sent_any := true |>) (st y (msgs ++ [m]) s0)
     else st y (msgs ++ [m]) s0) =
    st (y <| ss_active_hydration := Some (h <| hy_sent_any := (tell (msgs ++ [m]) s0).1 |>) |>)
      (msgs ++ [m]) s0.
Proof.
  intros Ha Hany. destruct (st_tell m y msgs s0) as (sent & E & Ed). exists sent. split; [done|].
  rewrite Ed, <- Hany. destruct sent.
  - rewrite (st_hydrate _ y h) by done. by rewrite orb_true_r.
  - by rewrite orb_false_r, same_any, same_active.
Qed.

(** The players of a batch are sent, if there are any. *)
Lemma send_batch c batch y h msgs s0 w :
  ss_active_hydration y = Some h -> hy_sent_any h = (tell msgs s0).1 ->
  let msgs' := msgs ++ players_msg c batch in
  exists w',
    match player_snap <$> batch, boats_of batch with
    | [], [] => (w, st y msgs s0)
    | _, _ =>
        let '(n, s) := next_seq (st y msgs s0) in
        let '(sent, s) := send_bounded peer
                            (cell_snapshot n c (player_snap <$> batch) (boats_of batch) []) s in
        if sent then (w <| ao_packets ::= S |>,
                      update_hydration peer (fun h => h <| hy_sent_any := true |>) s)
        else (w, s)
    end =
    (w', st (y <| ss_active_hydration := Some (h <| hy_sent_any := (tell msgs' s0).1 |>) |>) msgs' s0).
Proof.
  intros Ha Hany. destruct batch as [|b batch].
  { exists w. cbn [players_msg]. rewrite app_nil_r, <- Hany, same_any, same_active by done. done. }
  set (m := mkCellMsg c (player_snap <$> b :: batch) (boats_of (b :: batch)) []).
  destruct (send_step m y h msgs s0 Ha Hany) as (sent & E & Es).
  change (players_msg c (b :: batch)) with [m]. cbv zeta. unfold tell_one in E.
  unfold m in E. cbn [cm_cell cm_players cm_boats cm_moorings] in E. rewrite fmap_cons in *.
  destruct (next_seq (st y msgs s0)) as [n s1]. rewrite E.
  exists (if sent then w <| ao_packets ::= S |> else w). rewrite <- Es. by destruct sent.
Qed.

Lemma players_step c s0 x y msgs pre rest w :
  Settled s0 x y -> c ∈ ss_published_cells y -> rest <> [] ->
  btree_iter Z.le (player_order s0) = pre ++ rest ->
  ss_active_hydration y = Some (examining c pre rest (tell msgs s0).1) ->
  exists e w' b, (1 <= e)%nat /\ (e <= length rest)%nat /\
    (length (cell_players c s0 (take e rest)) <= CELL_ENTITIES_PER_PACKET)%nat /\
    let msgs' := msgs ++ players_msg c (cell_players c s0 (take e rest)) in
    process_one_aoi_work peer w (st y msgs s0) =
      (Ok b, w', st (y <| ss_active_hydration :=
                   Some (examining c (pre ++ take e rest) (drop e rest) (tell msgs' s0).1) |>) msgs' s0).
Proof.
  intros HS Hc Hne HL Ha. pose proof (settled_published _ _ _ HS) as Hpub.
  assert (Hlen : length rest <> 0%nat) by (by destruct rest).
  unfold process_one_aoi_work. rewrite no_chunk by done.
  rewrite (prepare_active y msgs s0 _ _ Ha) by (simpl; by rewrite <- ?Hpub).
  cbn [hy_cell hy_player_cursor hy_players_remaining hy_players_complete examining].
  rewrite bool_decide_false by done. cbn [negb].
  destruct (st_fields y msgs s0) as (Eo & _). unfold hydrate_players, player_candidates_after.
  rewrite Eo, (candidates_eq _ pre rest) by done.
  destruct (scan_cell_spec c (st y msgs s0) (take CELL_ENTITY_SCAN_PER_WORK rest) [] 0 None)
    as (e & He & He1 & Es & Hl); [unfold CELL_ENTITIES_PER_PACKET; simpl; lia|].
  rewrite Es. clear Es. rewrite length_take in He. rewrite take_take, Nat.min_l in * by lia.
  destruct HS as [Hb Hsame Hp]. 
  pose proof (cell_players_st c x y msgs s0 (take e rest) Hb Hsame) as Hpose.
  destruct (same_pose_snaps _ _ Hpose) as [Eps Ebs]. apply Forall2_length in Hpose.
  cbn [app] in *. rewrite Eps, Ebs. rewrite <- Hpose in Hl.
  rewrite active_st, Ha, (st_hydrate _ y _ msgs s0 Ha).
  match goal with |- context [Some ?h] =>
    match h with context [hy_player_cursor] =>
      assert (Eh : h = examining c (pre ++ take e rest) (drop e rest) (tell msgs s0).1) end end.
  { specialize (He1 ltac:(by destruct rest)). unfold examining. cbn. rewrite length_drop. f_equal.
    - rewrite <- last_app_or. by destruct (list.last (take e rest)).
    - rewrite (bool_decide_false (e = 0%nat)), (bool_decide_false (length rest = 0%nat)) by lia.
      by rewrite !orb_false_r. }
  rewrite Eh. clear Eh. set (y1 := y <| ss_active_hydration := _ |>).
  destruct (send_batch c (cell_players c s0 (take e rest)) y1 _ msgs s0 w eq_refl eq_refl) as [w' Ew].
  cbv zeta in Ew |- *. rewrite Ew. exists e, w'.
  match goal with |- context [if negb ?b then _ else (?m, _, _)] => exists (if negb b then true else m) end.
  specialize (He1 ltac:(by destruct rest)). split_and!; [lia|lia|done|]. by destruct (negb _).
Qed.

(** ** The moorings of a cell *)

(** The message of a mooring, unless its name is over the protocol's limit. *)
Definition mooring_msg (c : Cell) (row : MooringRow) : list CellMsg :=
  if decide (Z.of_nat (String.length (mo_name row)) <= MAX_MOORING_NAME_BYTES)
  then [mkCellMsg c [] [] [mooring_snap row]] else [].

Lemma st_same_db y msgs s0 : (st y msgs s0) <| db := db s0 |> = st y msgs s0.
Proof. unfold st. destruct (tell_frame msgs s0) as (q & h & ->). by destruct s0. Qed.

(** Reading the next mooring, on a database that does not fail. *)
Lemma next_mooring c y h msgs s0 rp rr :
  faults (db s0) = [] -> cell_rows (cx c) (cz c) (tables (db s0)) = rp ++ rr ->
  hy_mooring_cursor h = mo_boat_id <$> list.last rp ->
  on_db (moorings_in_cell_after (cx c) (cz c) (hy_mooring_cursor h)
           (Z.min CELL_MOORINGS_PER_PACKET MAX_MOORINGS_PAGE_ROWS)) (st y msgs s0) =
    (Ok (take 1 rr), st y msgs s0).
Proof.
  intros Hf Er Hcur. unfold on_db. destruct (st_fields y msgs s0) as (_ & _ & -> & _).
  assert (Ed : db s0 = mkDb (tables (db s0)) []) by (destruct (db s0); cbn in *; by subst).
  rewrite Ed at 1. rewrite (page_eq _ _ _ _ rp rr); [|by vm_compute|done|done].
  rewrite <- Ed, st_same_db. done.
Qed.

(** A hydration whose players are done, with the rows [rp] behind it. *)
Record Reading (c : Cell) (rp : list MooringRow) (any : bool) (h : CellHydration) : Prop := {
  rd_cell : hy_cell h = c;
  rd_complete : hy_players_complete h = true;
  rd_cursor : hy_mooring_cursor h = mo_boat_id <$> list.last rp;
  rd_any : hy_sent_any h = any
}.

Lemma reading_item c s0 x y h msgs rp w :
  Settled s0 x y -> c ∈ ss_published_cells y -> ss_active_hydration y = Some h ->
  Reading c rp (tell msgs s0).1 h ->
  process_one_aoi_work peer w (st y msgs s0) = hydrate_moorings peer c w (st y msgs s0).
Proof.
  intros HS Hc Ha [Hcell Hcomp _ _]. pose proof (settled_published _ _ _ HS) as Hpub.
  unfold process_one_aoi_work. rewrite no_chunk by done.
  rewrite (prepare_active y msgs s0 _ _ Ha) by (rewrite Hcell; by rewrite <- ?Hpub).
  by rewrite Hcomp, Hcell.
Qed.

Lemma mooring_step c s0 x y h msgs rp row rr w :
  Settled s0 x y -> c ∈ ss_published_cells y -> faults (db s0) = [] ->
  cell_rows (cx c) (cz c) (tables (db s0)) = rp ++ row :: rr ->
  ss_active_hydration y = Some h -> Reading c rp (tell msgs s0).1 h ->
  exists w' h', let msgs' := msgs ++ mooring_msg c row in
    process_one_aoi_work peer w (st y msgs s0) =
      (Ok true, w', st (y <| ss_active_hydration := Some h' |>) msgs' s0) /\
    Reading c (rp ++ [row]) (tell msgs' s0).1 h'.
Proof.
  intros HS Hc Hf Er Ha HR. rewrite (reading_item c s0 x y h msgs rp) by done. destruct HR as [Hcell Hcomp Hcur Hany].
  unfold hydrate_moorings. rewrite active_st, Ha. cbn [mbind option_bind].
  rewrite (next_mooring c y h msgs s0 rp (row :: rr)) by done. cbn [take].
  set (h1 := h <| hy_mooring_cursor := Some (mo_boat_id row) |>).
  rewrite (st_hydrate _ y h) by done. fold h1. set (y1 := y <| ss_active_hydration := Some h1 |>).
  assert (HR1 : forall b, Reading c (rp ++ [row]) b (h1 <| hy_sent_any := b |>))
    by (intros b; split; [done|done| |done]; by rewrite last_snoc).
  unfold mooring_msg. case_decide.
  - set (m := mkCellMsg c [] [] [mooring_snap row]).
    destruct (send_step m y1 h1 msgs s0 eq_refl Hany) as (sent & E & Es).
    unfold tell_one in E. destruct (next_seq (st y1 msgs s0)) as [n s1].
    cbn [cm_cell cm_players cm_boats cm_moorings m] in E. rewrite E.
    exists (if sent then w <| ao_persisted_queries ::= S |> <| ao_packets ::= S |> <| ao_moorings_encoded ::= S |>
            else w <| ao_persisted_queries ::= S |>), (h1 <| hy_sent_any := (tell (msgs ++ [m]) s0).1 |>).
    split; [|apply HR1]. destruct sent; exact (f_equal (fun t => (Ok true, _, t)) Es).
  - eexists _, h1. rewrite app_nil_r. split; [reflexivity|]. rewrite <- Hany.
    exact (eq_ind _ (Reading c (rp ++ [row]) (hy_sent_any h)) (HR1 (hy_sent_any h)) _ (same_any h1)).
Qed.

(** After the last row the cell is done; a client that was sent nothing is told
    that the cell is empty. *)
Lemma finish_step c s0 x y h msgs w :
  Settled s0 x y -> c ∈ ss_published_cells y -> faults (db s0) = [] ->
  ss_active_hydration y = Some h ->
  Reading c (cell_rows (cx c) (cz c) (tables (db s0))) (tell msgs s0).1 h ->
  exists w', let msgs' := msgs ++ (if (tell msgs s0).1 then [] else [mkCellMsg c [] [] []]) in
    let s' := st (y <| ss_active_hydration := None |>) msgs' s0 in
    process_one_aoi_work peer w (st y msgs s0) = (Ok (session_has_aoi_work peer s'), w', s').
Proof.
  intros HS Hc Hf Ha HR. rewrite (reading_item c s0 x y h msgs _ w HS Hc Ha HR). destruct HR as [Hcell Hcomp Hcur Hany].
  unfold hydrate_moorings. rewrite active_st, Ha. cbn [mbind option_bind].
  rewrite (next_mooring c y h msgs s0 (cell_rows (cx c) (cz c) (tables (db s0))) [])
    by (try done; by rewrite app_nil_r). cbn [take]. rewrite active_st, Ha, Hany.
  destruct (tell msgs s0).1.
  - eexists. rewrite app_nil_r, st_update. reflexivity.
  - set (m := mkCellMsg c [] [] []). destruct (st_tell m y msgs s0) as (sent & E & _).
    unfold tell_one in E. destruct (next_seq (st y msgs s0)) as [n s1].
    cbn [cm_cell cm_players cm_boats cm_moorings m] in E. rewrite E. eexists. rewrite st_update. reflexivity.
Qed.

(** ** All items of a cell *)

(** Consecutive work items of the peer. *)
Fixpoint aoi_items (n : nat) (work : AoiTickWork) (s : Server) : result SrvError (AoiTickWork * Server) :=
  match n with
  | O => Ok (work, s)
  | S n =>
      match process_one_aoi_work peer work s with
      | (Err e, _, _) => Err e
      | (Ok _, work, s) => aoi_items n work s
      end
  end.

Lemma aoi_items_app n1 n2 w s w1 s1 :
  aoi_items n1 w s = Ok (w1, s1) -> aoi_items (n1 + n2) w s = aoi_items n2 w1 s1.
Proof.
  revert w s. induction n1 as [|n1 IH]; intros w s; cbn [aoi_items Nat.add]; [by intros [= <- <-]|].
  destruct (process_one_aoi_work peer w s) as [[[b|e] w'] s']; [apply IH|done].
Qed.

Definition batch_msg (c : Cell) (batch : list Session) : CellMsg :=
  mkCellMsg c (player_snap <$> batch) (boats_of batch) [].

Lemma players_items c s0 x y msgs pre rest w :
  Settled s0 x y -> c ∈ ss_published_cells y -> btree_iter Z.le (player_order s0) = pre ++ rest ->
  ss_active_hydration y = Some (examining c pre rest (tell msgs s0).1) ->
  exists n w' batches, (n <= length rest)%nat /\ concat batches = cell_players c s0 rest /\
    Forall (fun b => (1 <= length b <= CELL_ENTITIES_PER_PACKET)%nat) batches /\
    let msgs' := msgs ++ (batch_msg c <$> batches) in
    aoi_items n w (st y msgs s0) =
      Ok (w', st (y <| ss_active_hydration := Some (examining c (pre ++ rest) [] (tell msgs' s0).1) |>) msgs' s0).
Proof.
  intros HS Hc. remember (length rest) as k eqn:Ek. revert pre rest y msgs w HS Hc Ek.
  induction k as [k IH] using lt_wf_ind. intros pre rest y msgs w HS Hc Ek HL Ha.
  destruct (decide (rest = [])) as [->|Hne].
  { exists 0%nat, w, []. split_and!; [lia|done|done|]. cbv zeta. cbn [aoi_items fmap list_fmap]. rewrite !app_nil_r.
    by rewrite same_active by (by rewrite Ha). }
  destruct (players_step c s0 x y msgs pre rest w HS Hc Hne HL Ha) as (e & w1 & b & He1 & He & Hb & Es).
  cbv zeta in Es. set (batch := cell_players c s0 (take e rest)) in *.
  set (msgs1 := msgs ++ players_msg c batch) in *.
  match type of Es with _ = (_, _, st ?z _ _) => set (y1 := z) in * end.
  destruct (IH (length (drop e rest)) ltac:(rewrite length_drop; lia) (pre ++ take e rest) (drop e rest) y1 msgs1 w1)
    as (n & w' & batches & Hn & Econc & Hbs & Ei);
    [by apply settled_active|done|done|by rewrite <- app_assoc, take_drop|done|].
  rewrite <- app_assoc, take_drop in Ei. rewrite length_drop in Hn.
  exists (S n), w', (match batch with [] => batches | _ => batch :: batches end).
  assert (Emsg : msgs1 ++ (batch_msg c <$> batches) =
                 msgs ++ (batch_msg c <$> match batch with [] => batches | _ => batch :: batches end))
    by (unfold msgs1; rewrite <- app_assoc; by destruct batch).
  split_and!; [lia| | |].
  - transitivity (batch ++ concat batches); [by destruct batch|]. rewrite Econc. unfold batch, cell_players.
    by rewrite <- omap_app, take_drop.
  - destruct batch as [|b0 bs]; [done|]. constructor; [simpl in *; lia|done].
  - cbv zeta in Ei |- *. cbn [aoi_items]. rewrite Es, Ei, Emsg. done.
Qed.

Lemma moorings_items c s0 x y h msgs rp rr w :
  Settled s0 x y -> c ∈ ss_published_cells y -> faults (db s0) = [] ->
  cell_rows (cx c) (cz c) (tables (db s0)) = rp ++ rr ->
  ss_active_hydration y = Some h -> Reading c rp (tell msgs s0).1 h ->
  exists w' h', let msgs' := msgs ++ concat (mooring_msg c <$> rr) in
    aoi_items (length rr) w (st y msgs s0) = Ok (w', st (y <| ss_active_hydration := Some h' |>) msgs' s0) /\
    Reading c (rp ++ rr) (tell msgs' s0).1 h'.
Proof.
  intros HS Hc Hf. revert rp y h msgs w HS Hc. induction rr as [|row rr IH]; intros rp y h msgs w HS Hc Er Ha HR.
  { exists w, h. cbv zeta. cbn [aoi_items length concat fmap list_fmap]. rewrite !app_nil_r, same_active by done. done. }
  destruct (mooring_step c s0 x y h msgs rp row rr w HS Hc Hf Er Ha HR) as (w1 & h1 & Es & HR1).
  destruct (IH (rp ++ [row]) (y <| ss_active_hydration := Some h1 |>) h1 (msgs ++ mooring_msg c row) w1)
    as (w' & h' & Ei & HR'); [by apply settled_active|done|by rewrite <- app_assoc|done|done|].
  exists w', h'. cbv zeta in *. cbn [aoi_items length concat fmap list_fmap]. rewrite Es.
  rewrite <- (app_assoc msgs) in Ei, HR'. rewrite <- (app_assoc rp) in HR'. split; [exact Ei|exact HR'].
Qed.

(** ** A whole cell *)

(** [msgs] tell a client everything the server knows of the cell [c]: its players
    and their boats, in the order of the players, and its moorings with a name within
    the limit, in the order of the boats; at most five players or one mooring in a
    message, and at least one message. *)
Record CellTold (c : Cell) (s : Server) (msgs : list CellMsg) : Prop := {
  ct_players : concat (cm_players <$> msgs) =
    player_snap <$> cell_players c s (btree_iter Z.le (player_order s));
  ct_boats : concat (cm_boats <$> msgs) = boats_of (cell_players c s (btree_iter Z.le (player_order s)));
  ct_moorings : concat (cm_moorings <$> msgs) =
    mooring_snap <$> filter (fun row => Z.of_nat (String.length (mo_name row)) <= MAX_MOORING_NAME_BYTES)
                       (cell_rows (cx c) (cz c) (tables (db s)));
  ct_each : Forall (fun m => cm_cell m = c /\ (length (cm_players m) <= CELL_ENTITIES_PER_PACKET)%nat /\
                             (length (cm_moorings m) <= 1)%nat) msgs;
  ct_some : msgs <> []
}.

Lemma concat_const_nil {A B} (f : A -> list B) l : Forall (fun a => f a = []) l -> concat (f <$> l) = [].
Proof. induction 1 as [|a l Ha _ IH]; [done|]. rewrite fmap_cons. simpl. by rewrite Ha, IH. Qed.

Lemma boats_of_concat ls : concat (boats_of <$> ls) = boats_of (concat ls).
Proof.
  unfold boats_of. induction ls as [|l ls IH]; [done|]. rewrite fmap_cons. simpl.
  by rewrite filter_app, fmap_app, IH.
Qed.

Lemma batch_msgs_players c bs : concat (cm_players <$> (batch_msg c <$> bs)) = player_snap <$> concat bs.
Proof. induction bs as [|b bs IH]; [done|]. rewrite !fmap_cons. simpl concat. by rewrite fmap_app, IH. Qed.

Lemma mooring_msgs c rows :
  let msgs := concat (mooring_msg c <$> rows) in
  concat (cm_moorings <$> msgs) =
    mooring_snap <$> filter (fun row => Z.of_nat (String.length (mo_name row)) <= MAX_MOORING_NAME_BYTES) rows /\
  Forall (fun m => cm_cell m = c /\ cm_players m = [] /\ cm_boats m = [] /\ length (cm_moorings m) = 1%nat) msgs.
Proof.
  cbv zeta. induction rows as [|row rows [IH1 IH2]]; [done|]. rewrite fmap_cons, filter_cons. simpl concat.
  unfold mooring_msg at 1 3. case_decide; [|done]. rewrite fmap_app, concat_app, IH1. split; [done|].
  by constructor.
Qed.

Lemma cell_told c s batches tl :
  concat batches = cell_players c s (btree_iter Z.le (player_order s)) ->
  Forall (fun b => (1 <= length b <= CELL_ENTITIES_PER_PACKET)%nat) batches ->
  let core := (batch_msg c <$> batches) ++ concat (mooring_msg c <$> cell_rows (cx c) (cz c) (tables (db s))) in
  tl = [] /\ core <> [] \/ tl = [mkCellMsg c [] [] []] ->
  CellTold c s (core ++ tl).
Proof.
  intros Eb Hb core Htl. set (rows := cell_rows _ _ _) in *. destruct (mooring_msgs c rows) as [Em HF].
  set (ms := concat (mooring_msg c <$> rows)) in *.
  assert (Hnil : Forall (fun m => cm_players m = [] /\ cm_boats m = [] /\ cm_moorings m = [] /\ cm_cell m = c) tl)
    by (destruct Htl as [[-> _]| ->]; by repeat constructor).
  assert (Ems : concat (cm_players <$> ms) = [] /\ concat (cm_boats <$> ms) = [])
    by (split; apply concat_const_nil; eapply Forall_impl; try exact HF; by intros m (_ & ? & ? & _)).
  assert (Etl : concat (cm_players <$> tl) = [] /\ concat (cm_boats <$> tl) = [] /\ concat (cm_moorings <$> tl) = [])
    by (split_and!; apply concat_const_nil; eapply Forall_impl; try exact Hnil; by intros m (? & ? & ? & _)).
  destruct Ems as [Ems1 Ems2]. destruct Etl as (Etl1 & Etl2 & Etl3). unfold core. split.
  - rewrite !fmap_app, !concat_app, Ems1, Etl1, !app_nil_r, <- Eb. apply batch_msgs_players.
  - rewrite !fmap_app, !concat_app, Ems2, Etl2, !app_nil_r, <- Eb, <- boats_of_concat. unfold batch_msg.
    by rewrite <- list_fmap_compose.
  - rewrite !fmap_app, !concat_app, Etl3, app_nil_r, Em.
    rewrite concat_const_nil; [done|]. by apply Forall_fmap, Forall_true.
  - apply Forall_app. split; [apply Forall_app; split|].
    + apply Forall_fmap. eapply Forall_impl; [exact Hb|]. intros b [_ Hl].
      split_and!; [done| |simpl; lia]. by rewrite <- (length_fmap player_snap b) in Hl.
    + eapply Forall_impl; [exact HF|]. intros m (? & -> & _ & ?). split_and!; [done|simpl; lia|lia].
    + eapply Forall_impl; [exact Hnil|]. intros m (-> & _ & -> & ?). split_and!; [done|simpl; lia|simpl; lia].
  - destruct Htl as [[_ Hne]| ->]; [|by intros [_ H]%app_eq_nil].
    intros [H _]%app_eq_nil. by apply Hne.
Qed.

(** A session that has nothing left to announce and no cell in progress. *)
Record Waiting (s : Server) (x : Session) : Prop := {
  wa_session : sessions s !! peer = Some x;
  wa_published : ss_published_cells x = sub_cells (ss_sub x);
  wa_cells : ss_hydration_cells x ⊆ ss_published_cells x;
  wa_active : ss_active_hydration x = None
}.

Definition next_cell (c : Cell) (x : Session) : Session :=
  x <| ss_hydration_cells ::= (.∖ {[c]}) |> <| ss_hydration_cursor := Some c |>.

Lemma tell_quiet msgs s : (tell msgs s).1 = true -> msgs <> [].
Proof. by destruct msgs. Qed.

(** The first item takes the next waiting cell. *)
Lemma first_item c s x w :
  Waiting s x -> next_hydration_cell (ss_hydration_cells x) (ss_hydration_cursor x) = Some c ->
  c ∈ ss_published_cells x ->
  let y := next_cell c x <| ss_active_hydration :=
             Some (examining c [] (btree_iter Z.le (player_order s)) false) |> in
  process_one_aoi_work peer w s = process_one_aoi_work peer w (st y [] s).
Proof.
  intros [Hx Hp Hc Ha] Hn Hin y. unfold process_one_aoi_work. rewrite (no_chunk y [] s) by done.
  assert (En : next_aoi_chunk peer s = (None, s))
    by (unfold next_aoi_chunk; by rewrite Hx, Hp, difference_diag_L).
  rewrite En. rewrite (prepare_active y [] s _ (examining c [] (btree_iter Z.le (player_order s)) false));
    [|done|simpl; by rewrite <- Hp|done].
  assert (Ep : prepare_cell_hydration peer (size (player_order s)) s =
    (Some (c, None, size (player_order s), bool_decide (size (player_order s) = 0%nat)), st y [] s)).
  { unfold prepare_cell_hydration. rewrite Hx, Ha, Ha, Hn. unfold st, y, next_cell, examining.
    rewrite length_btree_iter. reflexivity. }
  rewrite Ep. unfold examining. cbn [hy_cell hy_player_cursor hy_players_remaining hy_players_complete].
  by rewrite length_btree_iter.
Qed.

Lemma cell_items c s x w :
  Waiting s x -> faults (db s) = [] ->
  next_hydration_cell (ss_hydration_cells x) (ss_hydration_cursor x) = Some c -> c ∈ ss_published_cells x ->
  exists n w' msgs,
    (n <= size (player_order s) + length (cell_rows (cx c) (cz c) (tables (db s))) + 1)%nat /\
    CellTold c s msgs /\ aoi_items n w s = Ok (w', st (next_cell c x) msgs s).
Proof.
  intros HW Hf Hn Hin. set (rows := cell_rows _ _ _). set (L := btree_iter Z.le (player_order s)).
  set (y := next_cell c x <| ss_active_hydration := Some (examining c [] L false) |>).
  assert (HS : Settled s x y).
  { destruct HW. split; [done| |done]. eexists _, _, _. reflexivity. }
  destruct (players_items c s x y [] [] L w HS Hin eq_refl eq_refl) as (n1 & w1 & batches & Hn1 & Ec & Hb & E1).
  cbv zeta in E1. set (msgs1 := [] ++ (batch_msg c <$> batches)) in E1.
  match type of E1 with _ = Ok (_, st ?z _ _) => set (y1 := z) in * end.
  destruct (moorings_items c s x y1 _ msgs1 [] rows w1 (settled_active _ _ _ _ HS) Hin Hf eq_refl eq_refl)
    as (w2 & h2 & E2 & HR2); [by split|]. cbv zeta in E2, HR2. set (msgs2 := msgs1 ++ _) in *.
  set (y2 := y1 <| ss_active_hydration := Some h2 |>) in *.
  destruct (finish_step c s x y2 h2 msgs2 w2) as (w3 & E3); [by do 2 apply settled_active|done|done|done|done|].
  cbv zeta in E3. set (tl := if (tell msgs2 s).1 then [] else _) in *.
  exists (n1 + length rows + 1)%nat, w3, (msgs2 ++ tl). split.
  { rewrite <- (length_btree_iter Z.le (player_order s)). fold L rows. lia. }
  split.
  - unfold msgs2, msgs1. apply cell_told; [done|done|]. fold rows.
    unfold tl. destruct (tell msgs2 s).1 eqn:Ed; [left|by right].
    split; [done|]. exact (tell_quiet _ _ Ed).
  - assert (Efirst : aoi_items (n1 + length rows + 1) w s = aoi_items (n1 + length rows + 1) w (st y [] s)).
    { rewrite Nat.add_1_r. cbn [aoi_items]. by rewrite (first_item c s x w HW Hn Hin). }
    rewrite Efirst, <- Nat.add_assoc. rewrite (aoi_items_app _ _ _ _ _ _ E1), (aoi_items_app _ _ _ _ _ _ E2).
    cbn [aoi_items]. rewrite E3. do 3 f_equal. destruct HW as [_ _ _ Ha]. unfold y2, y1, y, next_cell.
    destruct x. cbn in *. by subst.
Qed.

(** ** All waiting cells *)
Lemma next_hydration_some cells cur :
  cells <> ∅ -> exists c, next_hydration_cell cells cur = Some c /\ c ∈ cells.
Proof.
  intros Hne. unfold next_hydration_cell. set (l := merge_sort cell_le (elements cells)).
  assert (Hl : forall c, c ∈ l -> c ∈ cells)
    by (intros c; unfold l; by rewrite merge_sort_Permutation, elem_of_elements).
  assert (Hh : exists c, head l = Some c /\ c ∈ cells).
  { destruct l as [|c l'] eqn:El; [|exists c; split; [done|apply Hl; left]].
    destruct Hne. apply leibniz_equiv, elements_empty_inv.
    by rewrite <- Permutation_nil_r, <- El; unfold l; rewrite merge_sort_Permutation. }
  destruct cur as [c0|]; [|done]. destruct (head (filter _ l)) as [c|] eqn:Ef; [|done].
  exists c. split; [done|]. apply Hl. apply head_Some_elem_of in Ef. by apply list_elem_of_filter in Ef as [_ ?].
Qed.

Lemma tell_st l y msgs s0 : (tell l (st y msgs s0)).2 = st y (msgs ++ l) s0.
Proof.
  revert msgs. induction l as [|m l IH]; intros msgs; cbn [tell]; [by rewrite app_nil_r|].
  destruct (st_tell m y msgs s0) as (sent & -> & _). specialize (IH (msgs ++ [m])).
  destruct (tell l _) as [any s1]. cbn [snd] in *. by rewrite IH, <- app_assoc.
Qed.

Lemma st_st z l y msgs s0 : st z l (st y msgs s0) = st z (msgs ++ l) s0.
Proof.
  unfold st at 1. rewrite tell_st. destruct (st_fields y msgs s0) as (_ & _ & _ & ->).
  rewrite insert_insert_eq. unfold st. reflexivity.
Qed.

Lemma st_self x s : sessions s !! peer = Some x -> st x [] s = s.
Proof. intros Hx. unfold st. cbn [tell snd]. rewrite insert_id by done. by destruct s. Qed.

(** The other cells do not change what there is to tell. *)
Lemma told_st c x y l s msgs :
  sessions s !! peer = Some x -> hydrating x y -> CellTold c (st y l s) msgs -> CellTold c s msgs.
Proof.
  intros Hx Hy [T1 T2 T3 T4 T5]. destruct (st_fields y l s) as (Eo & _ & Ed & _).
  rewrite Eo in T1, T2. rewrite Ed in T3.
  destruct (same_pose_snaps _ _ (cell_players_st c x y l s (btree_iter Z.le (player_order s)) Hx Hy)) as [Ep Eb].
  rewrite Ep in T1. rewrite Eb in T2. by split.
Qed.

Lemma hydrating_next c x : hydrating x (next_cell c x).
Proof. exists (ss_hydration_cells x ∖ {[c]}), (Some c), (ss_active_hydration x). by destruct x. Qed.

Lemma hydrating_refl x : hydrating x x.
Proof. exists (ss_hydration_cells x), (ss_hydration_cursor x), (ss_active_hydration x). by destruct x. Qed.

(** The items a cell may take. *)
Definition cell_cost (s : Server) (c : Cell) : nat :=
  (size (player_order s) + length (cell_rows (cx c) (cz c) (tables (db s))) + 1)%nat.

Lemma all_items s x w :
  Waiting s x -> faults (db s) = [] ->
  exists n w' ds x', ds.*1 ≡ₚ elements (ss_hydration_cells x) /\
    Forall (fun d => CellTold d.1 s d.2) ds /\ (n <= sum_list_with (cell_cost s) ds.*1)%nat /\
    hydrating x x' /\ ss_hydration_cells x' = ∅ /\ ss_active_hydration x' = None /\
    aoi_items n w s = Ok (w', st x' (concat ds.*2) s).
Proof.
  remember (size (ss_hydration_cells x)) as k eqn:Ek. revert s x w Ek.
  induction k as [|k IH]; intros s x w Ek HW Hf.
  { symmetry in Ek. apply size_empty_inv, leibniz_equiv in Ek. destruct HW as [Hx _ _ Ha].
    exists 0%nat, w, [], x. rewrite Ek, elements_empty. split_and!; try done; [apply hydrating_refl|].
    cbn [aoi_items concat fmap list_fmap]. by rewrite st_self. }
  destruct (next_hydration_some (ss_hydration_cells x) (ss_hydration_cursor x)) as (c & Hn & Hc).
  { intros E. rewrite E, size_empty in Ek. lia. }
  pose proof HW as [Hx Hp Hcs Ha].
  destruct (cell_items c s x w HW Hf Hn ltac:(by apply Hcs)) as (n1 & w1 & msgs & Hn1 & HT & E1).
  set (s1 := st (next_cell c x) msgs s) in *.
  destruct (st_fields (next_cell c x) msgs s) as (Eo & _ & Ed & _). fold s1 in Eo, Ed.
  destruct (IH s1 (next_cell c x) w1) as (n2 & w' & ds & x' & Hperm & HT2 & Hn2 & Hh & Hz & Hact & E2).
  - unfold next_cell. cbn. rewrite size_difference by set_solver. rewrite size_singleton. lia.
  - split; [apply st_session|done| |done]. unfold next_cell. cbn. set_solver.
  - by rewrite Ed.
  - exists (n1 + n2)%nat, w', ((c, msgs) :: ds), x'. split_and!; try done.
    + rewrite fmap_cons. cbn [fst]. rewrite Hperm. symmetry.
      rewrite (union_difference_L {[c]} (ss_hydration_cells x)) at 1 by set_solver.
      rewrite elements_disj_union by set_solver. rewrite elements_singleton. done.
    + constructor; [done|]. eapply Forall_impl; [exact HT2|]. intros [c' m'] HT'.
      eapply told_st; [exact Hx|apply hydrating_next|exact HT'].
    + assert (Ecost : cell_cost s1 = cell_cost s) by (unfold cell_cost; by rewrite Eo, Ed).
      rewrite Ecost in Hn2. rewrite fmap_cons. cbn [fst sum_list_with]. fold (cell_cost s c) in Hn1. lia.
    + rewrite (aoi_items_app _ _ _ _ _ _ E1), E2. unfold s1. by rewrite st_st.
Qed.
End Hydration.

(** ** Theorems *)

(** C27.  Cell hydration is complete.  Take a session whose announced cells are its
    subscribed ones and that has no cell in progress, on a database that does not
    fail.  Its work items, one after the other, end with nothing left to do, within
    one item per player, one per mooring and one more for each waiting cell.  They
    change only that session's own hydration and encode, for every waiting cell
    exactly once, messages with all players of the cell and their boats, and all its
    moorings whose name is within the limit, each once and in order; a cell with
    nothing in it is told too.  The messages take the next sequence numbers and are
    sent one after the other, those that fit a datagram. *)
Theorem hydration_complete `{FB : FlatBuffers} (peer : Z) (s : Server) (x : Session) (w : AoiTickWork) :
  server_inv s -> sessions s !! peer = Some x ->
  ss_published_cells x = sub_cells (ss_sub x) -> ss_active_hydration x = None -> faults (db s) = [] ->
  exists n w' ds x',
    let s' := (tell peer (concat ds.*2) s).2 <| sessions := <[peer := x']> (sessions s) |> in
    aoi_items peer n w s = Ok (w', s') /\ session_has_aoi_work peer s' = false /\
    ds.*1 ≡ₚ elements (ss_hydration_cells x) /\ Forall (fun d => CellTold d.1 s d.2) ds /\
    (n <= sum_list_with (cell_cost s) ds.*1)%nat /\ hydrating x x'.
Proof.
  intros (_ & _ & Hok & _) Hx Hp Ha Hf. destruct (Hok peer x Hx) as [_ _ _ _ Hsub _].
  destruct (all_items peer s x w) as (n & w' & ds & x' & Hperm & HT & Hn & Hh & Hz & Hact & E); [by split|done|].
  exists n, w', ds, x'. split_and!; try done. fold (st peer x' (concat ds.*2) s).
  unfold session_has_aoi_work. rewrite st_session, Hz, Hact.
  assert (Ep : ss_published_cells x' = sub_cells (ss_sub x')) by (destruct Hh as (? & ? & ? & ->); exact Hp).
  rewrite Ep, !bool_decide_false by (intros H; by apply H). done.
Qed.

Lemma waiting_run :
  (fun s => (faults (db s),
    (fun x => (bool_decide (ss_published_cells x = sub_cells (ss_sub x)), ss_active_hydration x,
               size (ss_hydration_cells x))) <$> sessions s !! 1))
    <$> demo_run (take 2 demo_inputs) = Some ([], Some (true, None, 25%nat)).
Proof. vm_compute. reflexivity. Qed.

Lemma waiting_good :
  exists s x, demo_run (take 2 demo_inputs) = Some s /\ server_inv s /\ faults (db s) = [] /\
    sessions s !! 1 = Some x /\ ss_published_cells x = sub_cells (ss_sub x) /\
    ss_active_hydration x = None /\ size (ss_hydration_cells x) = 25%nat.
Proof.
  pose proof waiting_run as H. destruct (demo_run (take 2 demo_inputs)) as [s|] eqn:E; [|discriminate H].
  injection H as Hf H. destruct (sessions s !! 1) as [x|] eqn:Ex; [|discriminate H].
  injection H as Hp Ha Hc. exists s, x. split; [exact eq_refl|].
  split; [exact (proj1 (demo_good _ s E))|]. split; [exact Hf|]. split; [exact Ex|].
  split; [by apply bool_decide_eq_true in Hp|]. split; [exact Ha|exact Hc].
Qed.

(** The player of the sample run is told about its 25 cells. *)
Lemma hydration_complete_witness :
  exists s n w' ds s', demo_run (take 2 demo_inputs) = Some s /\
    aoi_items 1 n (mkAoiWork 0 0 0 0 0 0) s = Ok (w', s') /\ length ds = 25%nat /\
    Forall (fun d => CellTold d.1 s d.2) ds.
Proof.
  destruct waiting_good as (s & x & E & Hs & Hf & Hx & Hp & Ha & Hc).
  destruct (hydration_complete 1 s x (mkAoiWork 0 0 0 0 0 0) Hs Hx Hp Ha Hf)
    as (n & w' & ds & x' & Ei & _ & Hperm & HT & _).
  exists s, n, w', ds. eexists. split; [exact E|split; [exact Ei|split; [|exact HT]]].
  apply Permutation_length in Hperm. rewrite length_fmap in Hperm. etransitivity; [exact Hperm|exact Hc].
Defined.
