(* ===== verification/Recurrence.v ===== *)
(** * Freshness of snapshots

    How long a player stays unadvertised to a recipient whose selection does not
    change: the scheduler of [Sched.broadcast_snapshots] as a clocked machine on one
    recipient's slot, the bound on the ticks between two advertisements of the same
    player, and what [Config.snapshot_recurrence_ticks] says about it. *)

From stdpp Require Import pretty.
From S2P Require Import Structs Flat Tables.
From S2P Require Import Prelude Float World Clock Config Econ RateLimit Wire Host HostInv.
From S2P Require Import Persist EconStore Codec FlatTree CodecProps Server Sched.
From S2P Require Import ServerInv TickInv ServerProps.

(** ** One recipient's slot *)
Record Slot := mkSlot {
  sl_cursor : option Z;
  sl_remaining : nat;
  sl_last : Z
}.

Definition slot_of (x : Session) : Slot :=
  mkSlot (ss_snapshot_cursor x) (ss_snapshot_remaining x) (ss_snapshot_last_visit_tick x).

Definition per_packet : nat := Z.to_nat SNAPSHOT_ENTITIES_PER_PACKET.
Definition ceiling : nat := Z.to_nat SNAPSHOT_VISIBILITY_CEILING.

(** The window after a visit: [per_packet] entries further, with a new round when
    the old one is used up. *)
Definition next_window (m : nat) (w : nat * nat) : nat * nat :=
  let '(p, r) := w in
  let e := Nat.min r per_packet in
  (((p + e) mod m)%nat, if decide (r - e = 0)%nat then m else (r - e)%nat).

Section Slot.
Variable sel : list Z.
Variable cadence : Z.

Definition due (tick : Z) (sl : Slot) : bool :=
  negb (bool_decide (sl_last sl <> 0) && bool_decide (wrapU 32 (tick - sl_last sl) < cadence)).

(** What a due visit advertises, and the slot it leaves. *)
Definition emitted (sl : Slot) : list Z :=
  let '(start, remaining) := snapshot_window (sl_cursor sl) (sl_remaining sl) sel in
  window_entries sel start (Nat.min remaining per_packet).

Definition after_emit (tick : Z) (sl : Slot) : Slot :=
  let '(_, remaining) := snapshot_window (sl_cursor sl) (sl_remaining sl) sel in
  mkSlot (list.last (emitted sl)) (remaining - Nat.min remaining per_packet) tick.

Definition visit (tick : Z) (sl : Slot) : Slot := if due tick sl then after_emit tick sl else sl.

Definition window (sl : Slot) : nat * nat := snapshot_window (sl_cursor sl) (sl_remaining sl) sel.

(** ** The windows of successive visits *)
Context (Hnd : NoDup sel) (Hne : sel <> []).
Notation m := (length sel).

Lemma m_pos : (0 < m)%nat.
Proof. destruct sel; [done|simpl; lia]. Qed.

Lemma position_at i q : sel !! i = Some q -> position q sel = Some i.
Proof.
  revert i. clear Hne. induction sel as [|x l IH]; intros i Hi; [done|].
  apply NoDup_cons in Hnd as [Hx Hl]. simpl. destruct i as [|i].
  - injection Hi as ->. by rewrite decide_True.
  - simpl in Hi. rewrite decide_False; [by rewrite (IH Hl i)|].
    intros ->. apply Hx. by eapply list_elem_of_lookup_2.
Qed.

Lemma window_bounds sl : let '(p, r) := window sl in (p < m /\ 1 <= r <= m)%nat.
Proof.
  pose proof m_pos. unfold window, snapshot_window. destruct (sl_cursor sl ≫= _) as [p|]; simpl.
  - split; [apply Nat.mod_upper_bound; lia|]. destruct (bool_decide (sl_remaining sl = O)) eqn:E; simpl; [lia|].
    apply bool_decide_eq_false in E. lia.
  - rewrite orb_true_r. lia.
Qed.

Lemma entries_lookup start count i :
  (i < count)%nat -> window_entries sel start count !! i = sel !! ((start + i) mod m)%nat.
Proof.
  intros Hi. unfold window_entries. pose proof m_pos as Hm.
  assert (Hall : forall k n, (omap (fun o => sel !! ((start + o) mod m)%nat) (seq k n)) =
    (fun o => default 0 (sel !! ((start + o) mod m)%nat)) <$> seq k n).
  { intros k n. revert k. induction n as [|n IH]; intros k; [done|]. simpl.
    destruct (lookup_lt_is_Some_2 sel ((start + k) mod m)%nat) as [v ->]; [apply Nat.mod_upper_bound; lia|].
    by rewrite IH. }
  rewrite Hall, list_lookup_fmap, lookup_seq_lt by done. simpl.
  destruct (lookup_lt_is_Some_2 sel ((start + i) mod m)%nat) as [v ->]; [apply Nat.mod_upper_bound; lia|done].
Qed.

Lemma entries_length start count : length (window_entries sel start count) = count.
Proof.
  destruct (decide (length (window_entries sel start count) < count)%nat) as [H|H].
  - pose proof m_pos. exfalso. assert (Hn : window_entries sel start count !! length (window_entries sel start count) = None)
      by (apply lookup_ge_None; lia).
    rewrite entries_lookup in Hn by done. apply lookup_ge_None in Hn.
    assert (Hu : ((start + length (window_entries sel start count)) mod m < m)%nat)
      by (apply Nat.mod_upper_bound; lia). lia.
  - assert (Hle : (length (window_entries sel start count) <= length (seq 0 count))%nat).
    { unfold window_entries. generalize (seq 0 count). intros l. induction l as [|o l IH]; [done|].
      change (length (match sel !! ((start + o) mod m)%nat with
        | Some y => y :: omap (fun o => sel !! ((start + o) mod m)%nat) l
        | None => omap (fun o => sel !! ((start + o) mod m)%nat) l end) <= S (length l))%nat.
      case_match; cbn [length]; lia. }
    rewrite length_seq in Hle. lia.
Qed.

Lemma after_emit_window tick sl : window (after_emit tick sl) = next_window m (window sl).
Proof.
  pose proof (window_bounds sl) as Hb. pose proof m_pos as Hm. unfold after_emit, emitted, window in *.
  destruct (snapshot_window (sl_cursor sl) (sl_remaining sl) sel) as [p r]. destruct Hb as [Hp Hr].
  unfold next_window. set (e := Nat.min r per_packet).
  assert (He : (1 <= e <= r)%nat) by (unfold e, per_packet, SNAPSHOT_ENTITIES_PER_PACKET; lia). clearbody e.
  cbn [sl_cursor sl_remaining].
  rewrite last_lookup, entries_length. replace (pred e) with (e - 1)%nat by lia.
  rewrite entries_lookup by lia.
  destruct (lookup_lt_is_Some_2 sel ((p + (e - 1)) mod m)%nat) as [v Hv]; [apply Nat.mod_upper_bound; lia|].
  rewrite Hv. unfold snapshot_window. simpl. rewrite (position_at _ _ Hv). simpl. f_equal.
  - rewrite Nat.Div0.add_mod_idemp_l. f_equal. lia.
  - rewrite orb_false_r. destruct (decide (r - e = 0)%nat) as [E|E].
    + by rewrite bool_decide_true.
    + rewrite bool_decide_false by done. lia.
Qed.

Lemma elem_of_emitted sl q :
  q ∈ emitted sl <-> let '(p, r) := window sl in
    exists j, (j < Nat.min r per_packet)%nat /\ sel !! ((p + j) mod m)%nat = Some q.
Proof.
  unfold emitted, window. destruct (snapshot_window _ _ _) as [p r]. rewrite list_elem_of_lookup. split.
  - intros [j Hj]. pose proof (lookup_lt_Some _ _ _ Hj) as Hl. rewrite entries_length in Hl. exists j. split; [done|].
    by rewrite entries_lookup in Hj.
  - intros (j & Hl & Hj). exists j. by rewrite entries_lookup.
Qed.
End Slot.

(** ** When an entry comes round again

    A selection has at most fifteen entries, so that is a finite question. *)
Definition covers (m : nat) (w : nat * nat) (t : nat) : bool :=
  existsb (fun j => Nat.eqb ((w.1 + j) mod m) t) (seq 0 (Nat.min w.2 per_packet)).

(** Is [t] covered by one of the next [k] windows? *)
Fixpoint comes_round (m k : nat) (w : nat * nat) (t : nat) : bool :=
  match k with
  | O => false
  | S k => let w := next_window m w in covers m w t || comes_round m k w t
  end.

Definition chunks (m : nat) : nat := ((m + 4) / 5)%nat.

(** A round is aligned when its packets so far were full. *)
Definition aligned (m : nat) (w : nat * nat) : bool := Nat.eqb ((m - w.2) mod 5) 0.

Definition visits_needed (m : nat) (w : nat * nat) : nat :=
  (chunks m + (if aligned m w then 0 else 1))%nat.

Definition all_come_round (m : nat) : bool :=
  forallb (fun p => forallb (fun r => forallb (fun j =>
    comes_round m (visits_needed m (p, r)) (p, r) ((p + j) mod m)%nat)
    (seq 0 (Nat.min r per_packet))) (seq 1 m)) (seq 0 m).

Lemma small_rounds : forallb all_come_round (seq 1 ceiling) = true.
Proof. vm_compute. reflexivity. Qed.

Lemma entry_comes_round m p r j :
  (1 <= m <= ceiling)%nat -> (p < m)%nat -> (1 <= r <= m)%nat -> (j < Nat.min r per_packet)%nat ->
  comes_round m (visits_needed m (p, r)) (p, r) ((p + j) mod m)%nat = true.
Proof.
  intros Hm Hp Hr Hj. pose proof small_rounds as H. rewrite forallb_forall in H.
  specialize (H m ltac:(apply in_seq; lia)). unfold all_come_round in H. rewrite forallb_forall in H.
  specialize (H p ltac:(apply in_seq; lia)). rewrite forallb_forall in H.
  specialize (H r ltac:(apply in_seq; lia)). rewrite forallb_forall in H.
  apply (H j), in_seq. lia.
Qed.

Lemma comes_round_at m k w t :
  comes_round m k w t = true ->
  exists i, (1 <= i <= k)%nat /\ covers m (Nat.iter i (next_window m) w) t = true.
Proof.
  revert w. induction k as [|k IH]; intros w; cbn [comes_round]; [done|]. cbv zeta. intros [H|H]%orb_true_iff.
  - exists 1%nat. split; [lia|exact H].
  - destruct (IH _ H) as (i & Hi & Hc). exists (S i). split; [lia|]. by rewrite Nat.iter_succ_r.
Qed.

(** ** A slot over time *)
Lemma first_true (f : nat -> bool) a n :
  (exists j, (a < j <= a + n)%nat /\ f j = true /\ forall k, (a < k < j)%nat -> f k = false) \/
  (forall j, (a < j <= a + n)%nat -> f j = false).
Proof.
  induction n as [|n [(j & Hj & Hf & Hk)|IH]].
  - right. intros j. lia.
  - left. exists j. split; [lia|done].
  - destruct (f (a + S n)%nat) eqn:E.
    + left. exists (a + S n)%nat. split; [lia|]. split; [done|]. intros k Hk. apply IH. lia.
    + right. intros j Hj. destruct (decide (j = a + S n)%nat) as [->|]; [done|]. apply IH. lia.
Qed.

Section Timeline.
Variable sel : list Z.
Variables (cadence : Z) (cad round N : nat) (t0 : Z).
Variable seen : nat -> bool.
Variable sl : nat -> Slot.

Definition tick_at (i : nat) : Z := wrapU 32 (t0 + Z.of_nat i).
Definition advertises (i : nat) : bool := seen i && due cadence (tick_at i) (sl i).

Context (Hnd : NoDup sel) (Hlen : (1 <= length sel <= ceiling)%nat).
Context (Hcad : cadence = Z.of_nat cad) (Hcad1 : (1 <= cad)%nat) (Hround : (1 <= round)%nat).
Context (Hsmall : Z.of_nat (cad + round) <= 2 ^ 32).
Context (Hstep : forall i, (i < N)%nat ->
  sl (S i) = if seen i then visit sel cadence (tick_at i) (sl i) else sl i).
Context (Hseen : forall w, (w + round <= N)%nat -> exists i, (w <= i < w + round)%nat /\ seen i = true).

Notation m := (length sel).
Notation gap := (cad + round - 1)%nat.

Lemma sel_nonempty : sel <> [].
Proof. intros E. rewrite E in Hlen. simpl in Hlen. lia. Qed.

(** Without a due visit the slot stays. *)
Lemma slot_waits i j :
  (i <= j <= N)%nat -> (forall k, (i <= k < j)%nat -> advertises k = false) -> sl j = sl i.
Proof.
  intros Hj Hk. induction j as [|j IH]; [by replace i with 0%nat by lia|].
  destruct (decide (i = S j)) as [->|Hne]; [done|].
  rewrite Hstep by lia. assert (E : advertises j = false) by (apply Hk; lia).
  rewrite IH by (try lia; intros k ?; apply Hk; lia). unfold advertises in E. unfold visit.
  rewrite IH in E by (try lia; intros k ?; apply Hk; lia). destruct (seen j); [simpl in E; by rewrite E|done].
Qed.

(** After the cadence the slot is due. *)
Lemma due_later i j t : (cad <= j)%nat -> (j <= gap)%nat -> sl_last t = tick_at i -> due cadence (tick_at (i + j)) t = true.
Proof.
  intros Hj Hg E. unfold due. rewrite negb_true_iff, andb_false_iff. right. apply bool_decide_eq_false.
  rewrite E. unfold tick_at, wrapU. rewrite Nat2Z.inj_add. rewrite <- Zminus_mod.
  replace (t0 + (Z.of_nat i + Z.of_nat j) - (t0 + Z.of_nat i)) with (Z.of_nat j) by lia.
  rewrite Z.mod_small; lia.
Qed.

Lemma next_advert i :
  advertises i = true -> (i + gap < N)%nat ->
  exists i', (i < i' <= i + gap)%nat /\ advertises i' = true /\
    window sel (sl i') = next_window m (window sel (sl i)).
Proof.
  intros Ha HN. pose proof Ha as [Hs Hd]%andb_true_iff.
  assert (Esl : sl (S i) = after_emit sel (tick_at i) (sl i)).
  { rewrite Hstep by lia. rewrite Hs. unfold visit. by rewrite Hd. }
  assert (Ew : window sel (sl (S i)) = next_window m (window sel (sl i))).
  { rewrite Esl. apply after_emit_window; [exact Hnd|exact sel_nonempty]. }
  destruct (first_true advertises i gap) as [(j & Hj & Hf & Hk)|Hno].
  - exists j. split; [done|]. split; [done|]. rewrite <- Ew. f_equal. apply slot_waits; [lia|].
    intros k Hk'. apply Hk. lia.
  - exfalso. destruct (Hseen (i + cad)%nat) as (j & Hj & Hsj); [lia|].
    assert (Hadv : advertises j = true); [|rewrite Hno in Hadv; [done|lia]].
    unfold advertises. rewrite Hsj. simpl. replace j with (i + (j - i))%nat at 1 by lia. apply due_later; [lia..|].
    rewrite (slot_waits (S i) j); [|lia|intros k Hk; apply Hno; lia].
    rewrite Esl. unfold after_emit. by destruct (snapshot_window _ _ _).
Qed.

Lemma adverts i k :
  advertises i = true -> (i + k * gap < N)%nat ->
  exists i', (i + k <= i' <= i + k * gap)%nat /\ advertises i' = true /\
    window sel (sl i') = Nat.iter k (next_window m) (window sel (sl i)).
Proof.
  intros Ha. induction k as [|k IH]; intros HN; [exists i; split; [lia|done]|].
  destruct IH as (j & Hj & Haj & Ej); [nia|].
  destruct (next_advert j Haj) as (i' & Hi' & Ha' & Ei'); [nia|].
  exists i'. split; [nia|]. split; [done|]. rewrite Ei', Ej. done.
Qed.

(** An advertised player is advertised again. *)
Lemma advertised_again i q (K := visits_needed m (window sel (sl i))) :
  advertises i = true -> q ∈ emitted sel (sl i) -> (i + K * gap < N)%nat ->
  exists i', (i < i' <= i + K * gap)%nat /\ advertises i' = true /\ q ∈ emitted sel (sl i').
Proof.
  intros Ha Hq HN. pose proof sel_nonempty as Hne. pose proof (window_bounds sel Hnd Hne (sl i)) as Hb.
  apply elem_of_emitted in Hq; [|done..]. subst K. destruct (window sel (sl i)) as [p r] eqn:Ew.
  destruct Hb as [Hp Hr]. destruct Hq as (j & Hj & Hq).
  pose proof (comes_round_at _ _ _ _ (entry_comes_round m p r j Hlen Hp Hr Hj)) as (k & Hk & Hc).
  destruct (adverts i k Ha) as (i' & Hi' & Ha' & Ei'); [nia|].
  exists i'. split; [nia|]. split; [done|]. apply elem_of_emitted; [done..|]. rewrite Ei', Ew.
  destruct (Nat.iter k (next_window m) (p, r)) as [p' r']. unfold covers in Hc.
  apply existsb_exists in Hc as (j' & Hj'%in_seq & E%Nat.eqb_eq). simpl in Hj', E.
  exists j'. split; [lia|]. by rewrite E.
Qed.
End Timeline.

(** ** The slots of a server *)
Definition put_slot (sl : Slot) (x : Session) : Session :=
  x <| ss_snapshot_cursor := sl_cursor sl |> <| ss_snapshot_remaining := sl_remaining sl |>
    <| ss_snapshot_last_visit_tick := sl_last sl |>.

Definition clear_slot : Session -> Session := put_slot (mkSlot None O 0).

Definition nominal_cadence (s : Server) : Z := Z.min (ticks_per_snapshot (cfg s)) u32_max.

(** What a visit of the broadcast leaves alone: everything but slots, the message
    counter and what is sent. *)
Record Calm (s s' : Server) : Prop := {
  ca_cfg : cfg s' = cfg s;
  ca_order : player_order s' = player_order s;
  ca_players : player_peers s' = player_peers s;
  ca_recipients : snapshot_recipients s' = snapshot_recipients s;
  ca_cursor : snapshot_recipient_cursor s' = snapshot_recipient_cursor s;
  ca_tick : snapshot_tick s' = snapshot_tick s;
  ca_sessions : clear_slot <$> sessions s' = clear_slot <$> sessions s;
  ca_addr peer : peer_addr peer (host s') = peer_addr peer (host s);
  ca_tx : exists l, tx (host s') = tx (host s) ++ l
}.

#[global] Instance calm_preorder : PreOrder Calm.
Proof.
  split.
  - intros s. split; try done. exists []. by rewrite app_nil_r.
  - intros s1 s2 s3 [? ? ? ? ? ? ? Ha [l1 E1]] [? ? ? ? ? ? ? Ha' [l2 E2]]. split; try congruence.
    exists (l1 ++ l2). by rewrite E2, E1, app_assoc.
Qed.

Lemma calm_lookup s s' peer : Calm s s' -> clear_slot <$> sessions s' !! peer = clear_slot <$> sessions s !! peer.
Proof. intros H. rewrite <- !lookup_fmap. by rewrite (ca_sessions _ _ H). Qed.

Lemma calm_by_player s s' q :
  Calm s s' -> clear_slot <$> session_by_player q s' = clear_slot <$> session_by_player q s.
Proof.
  intros H. unfold session_by_player. rewrite (ca_players _ _ H). destruct (player_peers s !! q) as [peer|]; [|done].
  pose proof (calm_lookup s s' peer H) as E.
  destruct (sessions s' !! peer) as [x'|], (sessions s !! peer) as [x|]; try done. apply (inj Some) in E.
  assert (Ep : ss_player_id x' = ss_player_id x) by exact (f_equal ss_player_id E). rewrite Ep.
  case_decide; simpl; congruence.
Qed.

(** What the selection of visible players depends on. *)
Record Still (s s' : Server) : Prop := {
  st_cfg : cfg s' = cfg s;
  st_order : player_order s' = player_order s;
  st_players : player_peers s' = player_peers s;
  st_cells : (fun x => (ss_player_id x, ss_cell x)) <$> sessions s' = (fun x => (ss_player_id x, ss_cell x)) <$> sessions s
}.

#[global] Instance still_preorder : PreOrder Still.
Proof. split; [by split|]. intros s1 s2 s3 [] []. split; congruence. Qed.

Lemma calm_still s s' : Calm s s' -> Still s s'.
Proof.
  intros H. split; try apply H. apply map_eq. intros peer. rewrite !lookup_fmap.
  pose proof (calm_lookup s s' peer H) as E. destruct (sessions s' !! peer), (sessions s !! peer); try done.
  apply (inj Some) in E. exact (f_equal (fun x => Some (ss_player_id x, ss_cell x)) E).
Qed.

Lemma still_lookup s s' peer :
  Still s s' -> (fun x => (ss_player_id x, ss_cell x)) <$> sessions s' !! peer =
                (fun x => (ss_player_id x, ss_cell x)) <$> sessions s !! peer.
Proof. intros H. rewrite <- !lookup_fmap. by rewrite (st_cells _ _ H). Qed.

Lemma still_visible s s' pid cell q : Still s s' -> visible pid cell s' q = visible pid cell s q.
Proof.
  intros H. unfold visible, session_by_player. f_equal. rewrite (st_players _ _ H), (st_cfg _ _ H).
  destruct (player_peers s !! q) as [peer|]; [|done]. pose proof (still_lookup s s' peer H) as E.
  destruct (sessions s' !! peer), (sessions s !! peer); try done. injection E as -> Ec.
  case_decide; [by rewrite Ec|done].
Qed.

Lemma still_select s s' pid cell : Still s s' -> select_visible pid cell s' = select_visible pid cell s.
Proof.
  intros H. unfold select_visible, player_candidates_after. rewrite (st_order _ _ H). f_equal.
  apply List.filter_ext. intros q. by apply still_visible.
Qed.

Lemma calm_select s s' pid cell : Calm s s' -> select_visible pid cell s' = select_visible pid cell s.
Proof. intros H. by apply still_select, calm_still. Qed.

Section Visits.
Context `{FB : FlatBuffers}.

Lemma send_calm peer b s : Calm s (send peer b s).
Proof.
  unfold send, send_unreliable. split; try done; simpl.
  - intros p. repeat case_match; done.
  - repeat case_match; simpl; try (exists []; by rewrite app_nil_r). by eexists.
Qed.

Lemma send_bounded_calm peer b s : Calm s (send_bounded peer b s).2 /\ sessions (send_bounded peer b s).2 = sessions s.
Proof. unfold send_bounded. case_decide; [done|]. split; [apply send_calm|done]. Qed.

(** A session in [snapshot_to]. *)
Definition visited (tick : Z) (s : Server) (x : Session) : Session :=
  match ss_cell x with
  | Some cell => put_slot (visit (select_visible (ss_player_id x) cell s) (nominal_cadence s) tick (slot_of x)) x
  | None => x
  end.

Lemma put_slot_id x : put_slot (slot_of x) x = x.
Proof. by destruct x. Qed.

Lemma update_calm peer f s :
  (forall x, clear_slot (f x) = clear_slot x) -> Calm s (update_session peer f s).
Proof.
  intros Hf. split; try done; simpl; [|exists []; by rewrite app_nil_r].
  apply map_eq. intros q. rewrite !lookup_fmap, lookup_alter. case_decide as E; [rewrite E|done].
  destruct (sessions s !! q) as [x|]; [exact (f_equal Some (Hf x))|done].
Qed.

Lemma snapshot_to_calm tick peer w s : Calm s (snapshot_to tick peer w s).2.
Proof.
  unfold snapshot_to. destruct (sessions s !! peer) as [x|]; [|done]. destruct (ss_cell x) as [cell|]; [|done].
  case_match; [done|]. cbv zeta. set (s1 := update_session peer _ s).
  assert (H1 : Calm s s1) by (by apply update_calm). clearbody s1.
  destruct (select_visible _ _ s1) as [|a l]; [etrans; [exact H1|by apply update_calm]|].
  destruct (snapshot_window _ _ _) as [start rem].
  set (shown := omap _ _). set (s2 := update_session peer _ s1).
  assert (H2 : Calm s s2) by (etrans; [exact H1|by apply update_calm]). clearbody s2 shown.
  assert (Hsay : forall b, Calm s (send_bounded peer b (s2 <| sv_seq := wrapU 32 (sv_seq s2 + 1) |>)).2).
  { intros b. etrans; [exact H2|]. etrans; [|apply send_bounded_calm]. split; try done. exists []. by rewrite app_nil_r. }
  unfold next_seq. destruct (player_snap <$> shown), (boats_of shown); cbn [snd]; try done.
  all: match goal with |- context [send_bounded ?p ?b ?t] => specialize (Hsay b); by destruct (send_bounded p b t) as [[] t'] end.
Qed.

Lemma window_none c r : snapshot_window c r [] = (0%nat, 0%nat).
Proof. unfold snapshot_window. by destruct c; simpl; rewrite orb_true_r. Qed.

Lemma snapshot_to_sessions tick peer w s :
  sessions (snapshot_to tick peer w s).2 = alter (visited tick s) peer (sessions s).
Proof.
  unfold snapshot_to. destruct (sessions s !! peer) as [x|] eqn:Ex.
  2:{ cbn [snd]. symmetry. apply alter_id. intros x Hx. by rewrite Ex in Hx. }
  destruct (ss_cell x) as [cell|] eqn:Ec.
  2:{ cbn [snd]. symmetry. apply alter_id. intros x' Hx. rewrite Ex in Hx. injection Hx as <-. unfold visited. by rewrite Ec. }
  assert (Ev : forall f, f x = visited tick s x -> alter f peer (sessions s) = alter (visited tick s) peer (sessions s)).
  { intros f Hf. apply alter_ext. intros x' Hx. rewrite Ex in Hx. by injection Hx as <-. }
  unfold visited in Ev at 1. rewrite Ec in Ev. unfold visit, due in Ev.
  change (Z.min (ticks_per_snapshot (cfg s)) u32_max) with (nominal_cadence s).
  cbn [slot_of sl_last] in Ev. destruct (bool_decide (ss_snapshot_last_visit_tick x <> 0) && _) eqn:Ed.
  { cbn [snd]. rewrite <- (Ev (fun y => y)) by (symmetry; apply put_slot_id). symmetry. by apply alter_id. }
  cbn [negb] in Ev. cbv zeta. set (s1 := update_session peer _ s).
  assert (H1 : Calm s s1) by (by apply update_calm). rewrite (calm_select s s1 _ _ H1).
  unfold after_emit, emitted in Ev. cbn [slot_of sl_cursor sl_remaining] in Ev.
  set (sel := select_visible (ss_player_id x) cell s) in *. destruct sel as [|a l] eqn:Esel.
  { cbn [snd update_session sessions]. unfold s1. simpl. rewrite alter_alter_eq. apply Ev.
    by rewrite window_none. }
  destruct (snapshot_window _ _ _) as [start rem].
  assert (Hs2 : forall t, sessions t = sessions s1 -> sessions (update_session peer (fun y =>
      y <| ss_snapshot_cursor := list.last (window_entries (a :: l) start (Nat.min rem (Z.to_nat SNAPSHOT_ENTITIES_PER_PACKET))) |>
        <| ss_snapshot_remaining := (rem - Nat.min rem (Z.to_nat SNAPSHOT_ENTITIES_PER_PACKET))%nat |>) t) =
      alter (visited tick s) peer (sessions s)).
  { intros t Et. cbn [update_session sessions]. simpl. rewrite Et. unfold s1. simpl. rewrite alter_alter_eq. by apply Ev. }
  clearbody s1. set (shown := omap _ _). clearbody shown.
  destruct (player_snap <$> shown), (boats_of shown); try (by apply Hs2).
  all: unfold next_seq; cbv zeta iota.
  all: match goal with |- context [send_bounded ?p ?b ?t] =>
         pose proof (proj2 (send_bounded_calm p b t)) as E; destruct (send_bounded p b t) as [[] t'] end.
  all: cbn [snd] in *; rewrite E; by apply (Hs2 s1).
Qed.

Lemma calm_visited tick s s' x : Calm s s' -> visited tick s' x = visited tick s x.
Proof.
  intros H. unfold visited, nominal_cadence. rewrite (ca_cfg _ _ H). destruct (ss_cell x); [|done].
  by rewrite (calm_select _ _ _ _ H).
Qed.

(** A message that shows a player to a peer, sent between two states. *)
Definition tells (tick peer q : Z) (s s' : Server) : Prop :=
  exists y n players boats, session_by_player q s = Some y /\ player_snap y ∈ players /\
  forall addr, peer_addr peer (host s) = Some addr ->
    len (snapshot_delta n tick players boats) <= MTU - HEADER_SIZE ->
    exists number, (addr, build_unreliable number (snapshot_delta n tick players boats)) ∈ tx (host s').

Lemma tells_calm tick peer q s0 s s' s1 : Calm s0 s -> Calm s' s1 -> tells tick peer q s s' -> tells tick peer q s0 s1.
Proof.
  intros H0 H1 (y & n & ps & bs & Hy & Hps & Hsay).
  pose proof (calm_by_player s0 s q H0) as E. rewrite Hy in E.
  destruct (session_by_player q s0) as [y0|] eqn:Hy0; [|done]. apply (inj Some) in E.
  exists y0, n, ps, bs. split; [done|]. split.
  - assert (Ep : player_snap y0 = player_snap y) by exact (eq_sym (f_equal player_snap E)). by rewrite Ep.
  - intros a Ha Hl. rewrite <- (ca_addr _ _ H0) in Ha. destruct (Hsay a Ha Hl) as [k Hk]. exists k.
    destruct (ca_tx _ _ H1) as [l ->]. apply elem_of_app. by left.
Qed.

Lemma peer_addr_row peer h addr : peer_addr peer h = Some addr -> is_Some (peers h !! addr).
Proof.
  unfold peer_addr. case_decide; [done|]. destruct (peer_slots h !! _) as [[a|]|]; [|done..].
  destruct (peers h !! a) as [p|] eqn:E; [|done]. case_decide; [|done]. intros [= <-]. eauto.
Qed.

Lemma send_tells peer b s addr :
  peer_addr peer (host s) = Some addr -> len b <= MTU - HEADER_SIZE ->
  exists number, (addr, build_unreliable number b) ∈ tx (host (send_bounded peer b s).2).
Proof.
  intros Ha Hl. unfold send_bounded. rewrite decide_False by lia. cbn [snd]. unfold send, send_unreliable.
  cbn. rewrite decide_False by lia. rewrite Ha. destruct (peer_addr_row _ _ _ Ha) as [p ->]. simpl. eexists.
  apply elem_of_app. right. by left.
Qed.

Lemma selected_visible pid cell s q : q ∈ select_visible pid cell s -> visible pid cell s q = true.
Proof.
  intros Hq%subseteq_take. apply list_elem_of_In, List.filter_In in Hq. apply Hq.
Qed.

Lemma emitted_selected sel sl q : q ∈ emitted sel sl -> q ∈ sel.
Proof.
  unfold emitted, window_entries. destruct (snapshot_window _ _ _). rewrite list_elem_of_omap.
  intros (o & _ & Hq). by eapply list_elem_of_lookup_2.
Qed.

Lemma visible_player pid cell s q : visible pid cell s q = true -> is_Some (session_by_player q s).
Proof. unfold visible. intros [_ H]%andb_true_iff. by destruct (session_by_player q s). Qed.

(** What a due visit advertises is told. *)
Lemma snapshot_to_tells tick peer w s x cell q :
  sessions s !! peer = Some x -> ss_cell x = Some cell -> due (nominal_cadence s) tick (slot_of x) = true ->
  q ∈ emitted (select_visible (ss_player_id x) cell s) (slot_of x) ->
  tells tick peer q s (snapshot_to tick peer w s).2.
Proof.
  intros Ex Ec Ed Hq. pose proof (emitted_selected _ _ _ Hq) as Hsel. apply selected_visible, visible_player in Hsel.
  unfold snapshot_to. rewrite Ex, Ec.
  change (Z.min (ticks_per_snapshot (cfg s)) u32_max) with (nominal_cadence s).
  unfold due in Ed. apply negb_true_iff in Ed. cbn [slot_of sl_last] in Ed. rewrite Ed. cbv zeta.
  set (s1 := update_session peer _ s). assert (H1 : Calm s s1) by (by apply update_calm).
  rewrite (calm_select s s1 _ _ H1). clearbody s1.
  unfold emitted in Hq. cbn [slot_of sl_cursor sl_remaining] in Hq.
  destruct (select_visible _ _ _) as [|a l] eqn:Esel; [rewrite window_none in Hq; by apply not_elem_of_nil in Hq|].
  destruct (snapshot_window _ _ _) as [start rem].
  change (Nat.min rem per_packet) with (Nat.min rem (Z.to_nat SNAPSHOT_ENTITIES_PER_PACKET)) in Hq.
  set (entries := window_entries _ _ _) in *. clearbody entries.
  set (s2 := update_session peer _ s1). assert (H2 : Calm s1 s2) by (by apply update_calm). clearbody s2.
  pose proof (calm_by_player s s1 q H1) as Ey. destruct Hsel as [y0 Hy0]. rewrite Hy0 in Ey.
  destruct (session_by_player q s1) as [y|] eqn:Hy; [|done]. apply (inj Some) in Ey.
  assert (Hin : player_snap y0 ∈ player_snap <$> omap (fun pid => session_by_player pid s1) entries).
  { assert (Ep : player_snap y = player_snap y0) by exact (f_equal player_snap Ey). rewrite <- Ep.
    apply list_elem_of_fmap_2, list_elem_of_omap. eauto. }
  set (shown := omap _ entries) in *. clearbody shown.
  set (ps := player_snap <$> shown) in *. set (bs := boats_of shown). clearbody ps bs.
  destruct ps as [|p ps]; [by apply not_elem_of_nil in Hin|].
  unfold next_seq. cbv zeta iota beta.
  set (n := wrapU 32 (sv_seq s2 + 1)). set (s3 := s2 <| sv_seq := n |>).
  exists y0, n, (p :: ps), bs. split; [done|]. split; [done|]. intros addr Ha Hl.
  assert (Ha3 : peer_addr peer (host s3) = Some addr).
  { change (peer_addr peer (host s2) = Some addr). by rewrite (ca_addr _ _ H2), (ca_addr _ _ H1). }
  pose proof (send_tells peer _ s3 addr Ha3 Hl) as Hsent.
  by destruct (send_bounded peer _ s3) as [[] s4].
Qed.

(** ** A broadcast *)
Definition visit_tick (s : Server) : Z := wrapU 32 (snapshot_tick s + 1).

(** The slot of a peer in a broadcast, and what it is told. *)
Definition slot_step (peer : Z) (s : Server) (x : Session) : Session :=
  if decide (peer ∈ snapshot_visits s) then visited (visit_tick s) s x else x.

Definition advertised (peer : Z) (s : Server) : list Z :=
  match sessions s !! peer with
  | Some x =>
      match ss_cell x with
      | Some cell =>
          if decide (peer ∈ snapshot_visits s) then
            if due (nominal_cadence s) (visit_tick s) (slot_of x)
            then emitted (select_visible (ss_player_id x) cell s) (slot_of x) else []
          else []
      | None => []
      end
  | None => []
  end.

Lemma each_visits tick l w s peer :
  NoDup l ->
  Calm s (each (snapshot_to tick) l w s).2 /\
  sessions (each (snapshot_to tick) l w s).2 !! peer =
    (if decide (peer ∈ l) then visited tick s else id) <$> sessions s !! peer /\
  (forall x cell q, peer ∈ l -> sessions s !! peer = Some x -> ss_cell x = Some cell ->
     due (nominal_cadence s) tick (slot_of x) = true ->
     q ∈ emitted (select_visible (ss_player_id x) cell s) (slot_of x) ->
     tells tick peer q s (each (snapshot_to tick) l w s).2).
Proof.
  unfold each. revert w s. induction l as [|p l IH]; intros w s Hnd; cbn [foldl fold_left].
  { split; [done|]. split; [rewrite decide_False by apply not_elem_of_nil; cbn [snd]; by destruct (sessions s !! peer)|].
    intros x cell q H. by apply not_elem_of_nil in H. }
  apply NoDup_cons in Hnd as [Hp Hnd].
  pose proof (snapshot_to_calm tick p w s) as H1. pose proof (snapshot_to_sessions tick p w s) as Es.
  assert (Ht : forall x cell q, peer = p -> sessions s !! peer = Some x -> ss_cell x = Some cell ->
     due (nominal_cadence s) tick (slot_of x) = true ->
     q ∈ emitted (select_visible (ss_player_id x) cell s) (slot_of x) ->
     tells tick peer q s (snapshot_to tick p w s).2).
  { intros x cell q -> Hx Hc Hd Hq. by eapply snapshot_to_tells. }
  destruct (snapshot_to tick p w s) as [w1 s1]. cbn [snd] in *.
  destruct (IH w1 s1 Hnd) as (H2 & E2 & T2).
  split; [by etrans|]. split.
  - rewrite E2, Es. destruct (decide (peer = p)) as [->|Hne].
    + rewrite lookup_alter_eq. rewrite (decide_False (P := p ∈ l)) by done.
      rewrite decide_True by left. by destruct (sessions s !! p).
    + rewrite lookup_alter_ne by done. destruct (sessions s !! peer); [|done]. cbn. f_equal.
      destruct (decide (peer ∈ l)) as [Hl|Hl].
      * rewrite decide_True by (by right). by apply calm_visited.
      * rewrite decide_False; [done|]. by rewrite elem_of_cons; intros [?|?].
  - intros x cell q Hin Hx Hc Hd Hq. destruct (decide (peer = p)) as [->|Hne].
    + eapply tells_calm; [reflexivity|exact H2|]. by eapply Ht.
    + apply elem_of_cons in Hin as [->|Hin]; [done|]. eapply tells_calm; [exact H1|reflexivity|].
      eapply T2; [done| |exact Hc| |].
      * by rewrite Es, lookup_alter_ne.
      * unfold nominal_cadence. by rewrite (ca_cfg _ _ H1).
      * by rewrite (calm_select _ _ _ _ H1).
Qed.

Lemma snapshot_visits_NoDup s : NoDup (snapshot_visits s).
Proof.
  unfold snapshot_visits, ordered_peers_after. rewrite ordered_after_rot. eapply sublist_NoDup; [|apply sublist_take].
  rewrite (rot_Permutation _ _ (btree_lt _)). apply NoDup_btree_iter.
Qed.

Lemma broadcast_step peer s :
  sessions (broadcast_snapshots s).2 !! peer = slot_step peer s <$> sessions s !! peer /\
  snapshot_tick (broadcast_snapshots s).2 = visit_tick s /\
  (forall q, q ∈ advertised peer s -> tells (visit_tick s) peer q s (broadcast_snapshots s).2).
Proof.
  unfold broadcast_snapshots. cbv zeta.
  assert (H : forall c w, let t := s <| snapshot_tick := visit_tick s |> <| snapshot_recipient_cursor := c |> in
    sessions (each (snapshot_to (visit_tick s)) (snapshot_visits s) w t).2 !! peer =
      slot_step peer s <$> sessions s !! peer /\
    snapshot_tick (each (snapshot_to (visit_tick s)) (snapshot_visits s) w t).2 = visit_tick s /\
    (forall q, q ∈ advertised peer s ->
       tells (visit_tick s) peer q s (each (snapshot_to (visit_tick s)) (snapshot_visits s) w t).2)).
  { intros c w t. destruct (each_visits (visit_tick s) (snapshot_visits s) w t peer (snapshot_visits_NoDup s)) as (HC & E & T).
    split; [|split].
    - rewrite E. change (sessions t) with (sessions s). unfold slot_step.
      destruct (sessions s !! peer); [|done]. cbn. f_equal. by case_decide.
    - apply (ca_tick _ _ HC).
    - unfold advertised. intros q Hq. destruct (sessions s !! peer) as [x|] eqn:Ex; [|by apply not_elem_of_nil in Hq].
      destruct (ss_cell x) as [cell|] eqn:Ec; [|by apply not_elem_of_nil in Hq].
      case_decide as Hv; [|by apply not_elem_of_nil in Hq].
      destruct (due _ _ _) eqn:Ed; [|by apply not_elem_of_nil in Hq].
      exact (T x cell q Hv Ex Ec Ed Hq). }
  change (wrapU 32 (snapshot_tick s + 1)) with (visit_tick s). cbn [snapshot_recipients snapshot_recipient_cursor snapshot_tick].
  change (ordered_peers_after _ _ _) with (snapshot_visits s).
  destruct (list.last (snapshot_visits s)) as [c|]; [apply (H (Some c))|].
  exact (H (snapshot_recipient_cursor s) _).
Qed.

Lemma broadcast_still s : Still s (broadcast_snapshots s).2.
Proof.
  unfold broadcast_snapshots. cbv zeta. set (l := ordered_peers_after _ _ _).
  assert (H : forall t w, Still s t -> Still s (each (snapshot_to (wrapU 32 (snapshot_tick s + 1))) l w t).2).
  { intros t w Ht. unfold each. revert t w Ht. induction l as [|p l IH]; intros t w Ht; simpl; [done|].
    pose proof (snapshot_to_calm (wrapU 32 (snapshot_tick s + 1)) p w t) as H1.
    destruct (snapshot_to _ p w t) as [w1 t1]. apply IH. etrans; [exact Ht|]. by apply calm_still. }
  apply H. destruct (list.last l); by split.
Qed.
End Visits.

(** ** Between broadcasts

    What must stay as it is from one broadcast to the next: who is there, the cells,
    and what only the broadcast itself writes. *)
Record Steady (s s' : Server) : Prop := {
  sd_still : Still s s';
  sd_recipients : snapshot_recipients s' = snapshot_recipients s;
  sd_cursor : snapshot_recipient_cursor s' = snapshot_recipient_cursor s;
  sd_tick : snapshot_tick s' = snapshot_tick s;
  sd_slots : slot_of <$> sessions s' = slot_of <$> sessions s
}.

#[global] Instance steady_preorder : PreOrder Steady.
Proof. split; [by split|]. intros s1 s2 s3 [] []. split; [by etrans|congruence..]. Qed.

(** The ticks in which every recipient is considered once. *)
Definition recipient_round (peers : Z) : Z := div_ceil peers SNAPSHOT_PACKETS_PER_TICK.

(** The bound: the visits a player of the selection waits for, each within the
    cadence and a round of recipients. *)
Definition stale_bound (s : Server) (x : Session) (cell : Cell) : Z :=
  let sel := select_visible (ss_player_id x) cell s in
  Z.of_nat (visits_needed (length sel) (window sel (slot_of x))) *
  (nominal_cadence s + recipient_round (Z.of_nat (size (sessions s))) - 1).

Section Period.
Context `{FB : FlatBuffers}.
Variable ss : nat -> Server.
Variable N : nat.
Context (Hsteady : forall i, (i < N)%nat -> Steady (broadcast_snapshots (ss i)).2 (ss (S i))).

Lemma period_still i : (i <= N)%nat -> Still (ss 0%nat) (ss i).
Proof.
  induction i as [|i IH]; intros Hi; [done|]. etrans; [apply IH; lia|]. etrans; [apply broadcast_still|].
  apply Hsteady. lia.
Qed.

Lemma period_recipients i : (i <= N)%nat -> snapshot_recipients (ss i) = snapshot_recipients (ss 0%nat).
Proof.
  induction i as [|i IH]; intros Hi; [done|]. rewrite (sd_recipients _ _ (Hsteady i ltac:(lia))).
  destruct (broadcast_rounds (ss i)) as [-> _]. apply IH. lia.
Qed.

Lemma period_tick i : (i <= N)%nat -> visit_tick (ss i) = wrapU 32 (snapshot_tick (ss 0%nat) + 1 + Z.of_nat i).
Proof.
  induction i as [|i IH]; intros Hi; [unfold visit_tick; f_equal; lia|].
  unfold visit_tick. rewrite (sd_tick _ _ (Hsteady i ltac:(lia))).
  destruct (broadcast_step 0 (ss i)) as (_ & -> & _). rewrite IH by lia. unfold wrapU.
  rewrite Zplus_mod_idemp_l. f_equal. lia.
Qed.

Lemma period_rounds k w peer :
  (w + k <= N)%nat -> peer ∈ rounds k (snapshot_recipients (ss 0%nat)) (snapshot_recipient_cursor (ss w)) 32 ->
  exists i, (w <= i < w + k)%nat /\ peer ∈ snapshot_visits (ss i).
Proof.
  revert w. induction k as [|k IH]; intros w Hw; cbn [rounds]; [intros H; by apply not_elem_of_nil in H|].
  assert (Ev : ordered_peers_after (snapshot_recipients (ss 0%nat)) (snapshot_recipient_cursor (ss w)) 32 =
    snapshot_visits (ss w)).
  { unfold snapshot_visits. by rewrite (period_recipients w) by lia. }
  rewrite Ev. intros [H|H]%elem_of_app; [exists w; split; [lia|done]|].
  destruct (IH (S w)) as (i & Hi & Hv); [lia| |exists i; split; [lia|done]].
  rewrite (sd_cursor _ _ (Hsteady w ltac:(lia))). by destruct (broadcast_rounds (ss w)) as [_ ->].
Qed.

Lemma period_slot peer i :
  (i < N)%nat -> slot_of <$> sessions (ss (S i)) !! peer = slot_of <$> (slot_step peer (ss i) <$> sessions (ss i) !! peer).
Proof.
  intros Hi. rewrite <- lookup_fmap, (sd_slots _ _ (Hsteady i Hi)), lookup_fmap.
  by destruct (broadcast_step peer (ss i)) as (-> & _).
Qed.
End Period.

(** ** The selection *)
Lemma select_NoDup pid cell s : NoDup (select_visible pid cell s).
Proof.
  unfold select_visible, player_candidates_after. eapply sublist_NoDup; [|apply sublist_take].
  apply NoDup_ListNoDup, List.NoDup_filter, NoDup_ListNoDup.
  rewrite ordered_after_rot. eapply sublist_NoDup; [|apply sublist_take].
  rewrite (rot_Permutation _ _ (btree_lt _)). apply NoDup_btree_iter.
Qed.

Lemma elem_of_select pid cell s q : q ∈ select_visible pid cell s -> q ∈ player_order s /\ q <> pid.
Proof.
  intros Hq. pose proof (selected_visible _ _ _ _ Hq) as Hv. split.
  - apply subseteq_take in Hq. apply list_elem_of_In, List.filter_In in Hq as [Hq _].
    apply list_elem_of_In in Hq. unfold player_candidates_after in Hq. rewrite ordered_after_rot in Hq.
    apply subseteq_take in Hq. rewrite (rot_Permutation _ _ (btree_lt _)) in Hq. by apply elem_of_btree_iter in Hq.
  - unfold visible in Hv. apply andb_true_iff in Hv as [Hv _]. apply negb_true_iff, bool_decide_eq_false in Hv. done.
Qed.

Lemma order_size s : server_inv s -> (size (player_order s) <= size (sessions s))%nat.
Proof.
  intros [[HR _] _].
  assert (E : player_order s ⊆ list_to_set ((fun p => ss_player_id p.2) <$> map_to_list (sessions s))).
  { intros pid Hp. rewrite (rg_order _ _ _ _ _ _ HR) in Hp. apply elem_of_dom in Hp as [peer Hp].
    destruct (rg_peer _ _ _ _ _ _ HR _ _ Hp) as (x & Hx & <-). apply elem_of_list_to_set, list_elem_of_fmap.
    exists (peer, x). split; [done|]. by apply elem_of_map_to_list. }
  apply subseteq_size in E. etrans; [exact E|].
  assert (Hl : forall l : list Z, (size (list_to_set l : gset Z) <= length l)%nat).
  { intros l. induction l as [|a l IH]; [done|]. cbn [list_to_set length]. rewrite size_union_alt.
    pose proof (subseteq_size (list_to_set l ∖ {[a]} : gset Z) (list_to_set l) ltac:(clear; set_solver)) as Hs.
    rewrite size_singleton. lia. }
  rewrite Hl, length_fmap, length_map_to_list. done.
Qed.

Lemma select_length s peer x cell :
  server_inv s -> sessions s !! peer = Some x ->
  (length (select_visible (ss_player_id x) cell s) <= ceiling)%nat /\
  (length (select_visible (ss_player_id x) cell s) < size (sessions s))%nat.
Proof.
  intros HI Hx. set (sel := select_visible _ _ s).
  split; [unfold sel, select_visible; rewrite length_take; unfold ceiling; lia|].
  pose proof (order_size s HI) as Ho.
  assert (Hself : ss_player_id x ∈ player_order s).
  { destruct HI as [[HR _] _]. rewrite (rg_order _ _ _ _ _ _ HR). apply elem_of_dom.
    eexists. by eapply (rg_owner _ _ _ _ _ _ HR). }
  assert (Hsub : list_to_set sel ⊆ player_order s ∖ {[ss_player_id x]}).
  { intros q Hq%elem_of_list_to_set. apply elem_of_select in Hq. set_solver. }
  apply subseteq_size in Hsub. rewrite size_list_to_set in Hsub by apply select_NoDup.
  rewrite size_difference in Hsub by (clear -Hself; set_solver). rewrite size_singleton in Hsub.
  assert (Hpos : (0 < size (player_order s))%nat).
  { destruct (decide (size (player_order s) = 0)%nat) as [E|]; [|lia]. apply size_empty_inv in E. set_solver. }
  lia.
Qed.

(** ** The bound *)
Lemma recipient_round_spec n : (1 <= n)%nat ->
  1 <= recipient_round (Z.of_nat n) /\ Z.of_nat n <= 32 * recipient_round (Z.of_nat n).
Proof.
  intros Hn. unfold recipient_round, div_ceil, SNAPSHOT_PACKETS_PER_TICK.
  pose proof (Z.div_mod (Z.of_nat n + 32 - 1) 32 ltac:(lia)). pose proof (Z.mod_pos_bound (Z.of_nat n + 32 - 1) 32 ltac:(lia)).
  lia.
Qed.

Section Bound.
Context `{FB : FlatBuffers}.
Variable ss : nat -> Server.
Variable N : nat.
Variables (peer : Z) (x : Session) (cell : Cell).
Context (Hsteady : forall i, (i < N)%nat -> Steady (broadcast_snapshots (ss i)).2 (ss (S i))).
Context (Hx : sessions (ss 0%nat) !! peer = Some x) (Hc : ss_cell x = Some cell).

Notation sel := (select_visible (ss_player_id x) cell (ss 0%nat)).
Notation cadence := (nominal_cadence (ss 0%nat)).
Notation round := (recipient_round (Z.of_nat (size (sessions (ss 0%nat))))).

Definition slot_at (i : nat) : Slot := default (slot_of x) (slot_of <$> sessions (ss i) !! peer).
Definition seen_at (i : nat) : bool := bool_decide (peer ∈ snapshot_visits (ss i)).

Lemma period_session i : (i <= N)%nat ->
  exists y, sessions (ss i) !! peer = Some y /\ ss_player_id y = ss_player_id x /\ ss_cell y = Some cell.
Proof.
  intros Hi. pose proof (still_lookup _ _ peer (period_still ss N Hsteady i Hi)) as E. rewrite Hx in E.
  destruct (sessions (ss i) !! peer) as [y|]; [|done]. injection E as Ep Ec. exists y. rewrite Ec. done.
Qed.

Lemma period_step i : (i < N)%nat ->
  slot_at (S i) = if seen_at i then visit sel cadence (visit_tick (ss i)) (slot_at i) else slot_at i.
Proof.
  intros Hi. unfold slot_at, seen_at. rewrite (period_slot ss N Hsteady peer i Hi).
  destruct (period_session i ltac:(lia)) as (y & -> & Ep & Ec). cbn [fmap option_fmap option_map default].
  unfold slot_step. case_decide as Hv; [rewrite bool_decide_true by done|by rewrite bool_decide_false by done].
  unfold visited. rewrite Ec, Ep. pose proof (period_still ss N Hsteady i ltac:(lia)) as Hst.
  rewrite (still_select _ _ _ _ Hst). unfold nominal_cadence. rewrite (st_cfg _ _ Hst).
  by destruct (visit _ _ _ _).
Qed.

Lemma period_advertised i q : (i <= N)%nat ->
  q ∈ advertised peer (ss i) <->
  seen_at i && due cadence (visit_tick (ss i)) (slot_at i) = true /\ q ∈ emitted sel (slot_at i).
Proof.
  intros Hi. unfold advertised, slot_at, seen_at. destruct (period_session i Hi) as (y & -> & Ep & Ec).
  rewrite Ec, Ep. pose proof (period_still ss N Hsteady i Hi) as Hst. rewrite (still_select _ _ _ _ Hst).
  assert (En : nominal_cadence (ss i) = cadence) by (unfold nominal_cadence; by rewrite (st_cfg _ _ Hst)).
  rewrite En. cbn [fmap option_fmap option_map default]. case_decide as Hv.
  - rewrite bool_decide_true by done. simpl. destruct (due _ _ _).
    + naive_solver.
    + split; [intros H; by apply not_elem_of_nil in H|by intros [? _]].
  - rewrite bool_decide_false by done. split; [intros H; by apply not_elem_of_nil in H|by intros [? _]].
Qed.

Context (HG : good ∅ (ss 0%nat)).

Lemma period_seen w : (w + Z.to_nat round <= N)%nat -> exists i, (w <= i < w + Z.to_nat round)%nat /\ seen_at i = true.
Proof.
  intros Hw. destruct HG as (([HR _] & _) & _).
  assert (Hp : peer ∈ snapshot_recipients (ss 0%nat)).
  { rewrite (rg_recipients _ _ _ _ _ _ HR). apply elem_of_dom. eauto. }
  assert (Hpos : (1 <= size (sessions (ss 0%nat)))%nat).
  { destruct (size (sessions (ss 0%nat))) eqn:E; [|lia]. apply map_size_empty_inv in E. by rewrite E in Hx. }
  destruct (recipient_round_spec _ Hpos) as [Hr1 Hr2].
  destruct (period_rounds ss N Hsteady (Z.to_nat round) w peer Hw) as (i & Hi & Hv).
  - apply rounds_everyone; [lia| |done]. rewrite (rg_recipients _ _ _ _ _ _ HR), size_dom. lia.
  - exists i. split; [done|]. unfold seen_at. by apply bool_decide_eq_true.
Qed.

Context (Hcad : 1 <= nominal_cadence (ss 0%nat) <= 2 ^ 31) (Hsize : (size (sessions (ss 0%nat)) <= 1024)%nat).

Lemma advertised_within q :
  q ∈ advertised peer (ss 0%nat) -> stale_bound (ss 0%nat) x cell < Z.of_nat N ->
  exists i, 0 < Z.of_nat i <= stale_bound (ss 0%nat) x cell /\ (i < N)%nat /\ q ∈ advertised peer (ss i).
Proof.
  intros Hq HN. apply period_advertised in Hq as [Ha Hq]; [|lia].
  assert (E0 : slot_at 0 = slot_of x) by (unfold slot_at; by rewrite Hx). 
  assert (Hpos : (1 <= size (sessions (ss 0%nat)))%nat).
  { destruct (size (sessions (ss 0%nat))) eqn:E; [|lia]. apply map_size_empty_inv in E. by rewrite E in Hx. }
  destruct (recipient_round_spec _ Hpos) as [Hr1 Hr2].
  assert (Hr3 : round <= 32).
  { apply Z.lt_succ_r. unfold recipient_round, div_ceil, SNAPSHOT_PACKETS_PER_TICK. apply Z.div_lt_upper_bound; lia. }
  destruct (select_length (ss 0%nat) peer x cell (proj1 HG) Hx) as [Hl _].
  assert (Hl1 : (1 <= length sel)%nat).
  { apply emitted_selected in Hq. destruct sel; [by apply not_elem_of_nil in Hq|simpl; lia]. }
  assert (Et : forall i, (i <= N)%nat -> tick_at (snapshot_tick (ss 0%nat) + 1) i = visit_tick (ss i)).
  { intros i Hi. symmetry. by apply (period_tick ss N Hsteady). }
  unfold stale_bound in *. set (K := visits_needed _ _) in *.
  destruct (advertised_again sel cadence (Z.to_nat cadence) (Z.to_nat round) N (snapshot_tick (ss 0%nat) + 1)
    seen_at slot_at (select_NoDup _ _ _)) with (i := 0%nat) (q := q) as (i & Hi & Hai & Hqi); try lia.
  - intros i Hi. rewrite (Et i) by lia. by apply period_step.
  - apply period_seen.
  - unfold advertises. rewrite (Et 0%nat) by lia. exact Ha.
  - exact Hq.
  - rewrite E0. fold K. nia.
  - rewrite E0 in Hi. fold K in Hi. exists i. split; [nia|]. split; [nia|]. apply period_advertised; [nia|].
    split; [|done]. unfold advertises in Hai. rewrite (Et i) in Hai by nia. exact Hai.
Qed.
End Bound.

(** ** The rest of a tick keeps the period steady *)
Section Work.
Context `{FB : FlatBuffers}.

Definition fixture (x : Session) : Z * option Cell * Slot := (ss_player_id x, ss_cell x, slot_of x).

Lemma steady_sessions s s' :
  cfg s' = cfg s -> player_order s' = player_order s -> player_peers s' = player_peers s ->
  snapshot_recipients s' = snapshot_recipients s -> snapshot_recipient_cursor s' = snapshot_recipient_cursor s ->
  snapshot_tick s' = snapshot_tick s -> fixture <$> sessions s' = fixture <$> sessions s -> Steady s s'.
Proof.
  intros ? ? ? ? ? ? E. split; [split|..]; try done.
  - apply (f_equal (fmap (fun t : Z * option Cell * Slot => t.1))) in E. by rewrite <- !map_fmap_compose in E.
  - apply (f_equal (fmap (fun t : Z * option Cell * Slot => t.2))) in E. by rewrite <- !map_fmap_compose in E.
Qed.

Lemma steady_update peer f s : (forall x, fixture (f x) = fixture x) -> Steady s (update_session peer f s).
Proof.
  intros Hf. apply steady_sessions; try done. apply map_eq. intros q. simpl. rewrite !lookup_fmap, lookup_alter.
  case_decide as E; [rewrite E|done]. destruct (sessions s !! q) as [x|]; [exact (f_equal Some (Hf x))|done].
Qed.

Lemma steady_put peer x y s :
  sessions s !! peer = Some x -> fixture y = fixture x -> Steady s (s <| sessions ::= <[peer := y]> |>).
Proof.
  intros Hx Hy. apply steady_sessions; try done. apply map_eq. intros q. simpl. rewrite !lookup_fmap, lookup_insert.
  case_decide as E; [|done]. rewrite <- E, Hx. exact (f_equal Some Hy).
Qed.

Lemma steady_send peer b s : Steady s (send peer b s).
Proof. by split. Qed.

Lemma steady_say peer (bytes : Z -> list Z) s :
  Steady s (let '(n, s) := next_seq s in send_bounded peer (bytes n) s).2.
Proof. unfold next_seq, send_bounded. case_decide; by split. Qed.

Lemma steady_db {A} (m : M A) s : Steady s (on_db m s).2.
Proof. unfold on_db. destruct (m (db s)) as [[] d]; by split. Qed.

Lemma fold_fixture (f : Session -> Cell -> Session) l x :
  (forall x c, fixture (f x c) = fixture x) -> fixture (fold_left f l x) = fixture x.
Proof. intros Hf. revert x. induction l as [|c l IH]; intros x; [done|]. simpl. by rewrite IH. Qed.

Lemma chunk_steady peer s : Steady s (next_aoi_chunk peer s).2.
Proof.
  unfold next_aoi_chunk. destruct (sessions s !! peer) as [x|] eqn:Ex; [|done].
  set (added := take _ _). set (removed := take _ _). clearbody added removed.
  assert (H : fixture (fold_left publish_added added (fold_left publish_removed removed x)) = fixture x).
  { rewrite !fold_fixture; [done| |by intros ? ?].
    intros y c. unfold publish_removed, drop_hydration. repeat case_match; done. }
  destruct added, removed; try done; by eapply steady_put.
Qed.

Lemma prepare_steady peer n s : Steady s (prepare_cell_hydration peer n s).2.
Proof.
  unfold prepare_cell_hydration. destruct (sessions s !! peer) as [x|] eqn:Ex; [|done]. cbv zeta.
  set (y := match ss_active_hydration x with Some _ => _ | None => _ end).
  assert (Hy : fixture y = fixture x) by (unfold y; repeat case_match; done). clearbody y.
  destruct (ss_active_hydration y); [by eapply steady_put|].
  destruct (next_hydration_cell _ _); by eapply steady_put.
Qed.

Lemma hydration_steady peer f s : Steady s (update_hydration peer f s).
Proof. by apply steady_update. Qed.

Lemma hydrate_players_steady peer cell cur rem w s : Steady s (hydrate_players peer cell cur rem w s).2.
Proof.
  unfold hydrate_players. destruct (scan_cell _ _ _ _ _ _) as [[found ex] l0]. cbv zeta.
  match goal with |- context [update_hydration peer ?f s] => pose proof (hydration_steady peer f s) as H1;
    set (s1 := update_hydration peer f s) in *; clearbody s1 end.
  assert (Hsay : forall bytes, Steady s (let '(n, s) := next_seq s1 in send_bounded peer (bytes n) s).2)
    by (intros bytes; etrans; [exact H1|apply steady_say]).
  unfold next_seq in *. cbv zeta iota beta in *.
  destruct (player_snap <$> found) as [|p ps] eqn:Ep, (boats_of found) as [|b bs] eqn:Eb; cbv zeta iota beta.
  { by case_match. }
  all: match goal with |- context [send_bounded _ ?msg ?t] =>
    assert (Hs : Steady s (send_bounded peer msg t).2) by (apply (Hsay (fun _ => msg))) end.
  all: destruct (send_bounded _ _ _) as [[] s2]; cbn [snd] in Hs; case_match; cbn [snd]; try exact Hs.
  all: etrans; [exact Hs|apply hydration_steady].
Qed.

Lemma hydrate_moorings_steady peer cell w s : Steady s (hydrate_moorings peer cell w s).2.
Proof.
  unfold hydrate_moorings. cbv zeta.
  match goal with |- context [on_db ?m s] => pose proof (steady_db m s) as H1; destruct (on_db m s) as [[rows|e] s1] end; [|exact H1].
  cbn [snd] in H1. assert (Hsay : forall s0 bytes, Steady s s0 -> Steady s (send_bounded peer bytes (s0 <| sv_seq := wrapU 32 (sv_seq s0 + 1) |>)).2)
    by (intros s0 bytes H0; etrans; [exact H0|apply (steady_say peer (fun _ => bytes))]).
  unfold next_seq. destruct rows as [|row rows]; cbv zeta iota beta.
  - match goal with |- context [if ?b then _ else _] => set (any := b) end. destruct any; cbn [snd].
    + etrans; [exact H1|]. by apply steady_update.
    + match goal with |- context [send_bounded _ ?msg _] => pose proof (Hsay s1 msg H1) as Hs;
        destruct (send_bounded peer msg _) as [sent s2] end. cbn [snd] in Hs.
      assert (E : forall w', (if sent then w' <| ao_packets ::= S |> else w', s2).2 = s2) by done.
      destruct sent; cbn [snd]; (etrans; [exact Hs|by apply steady_update]).
  - match goal with |- context [update_hydration peer ?f s1] =>
      assert (H2 : Steady s (update_hydration peer f s1)) by (etrans; [exact H1|apply hydration_steady]);
      set (s2 := update_hydration peer f s1) in *; clearbody s2 end.
    case_decide; [|exact H2].
    match goal with |- context [send_bounded _ ?msg _] => pose proof (Hsay s2 msg H2) as Hs;
      destruct (send_bounded peer msg _) as [[] s3] end; cbn [snd] in *; [|exact Hs].
    etrans; [exact Hs|apply hydration_steady].
Qed.

Lemma one_aoi_steady peer w s : Steady s (process_one_aoi_work peer w s).2.
Proof.
  unfold process_one_aoi_work. pose proof (chunk_steady peer s) as H1.
  destruct (next_aoi_chunk peer s) as [[[a r]|] s1]; cbn [snd] in H1.
  - unfold next_seq. cbv zeta iota beta.
    pose proof (steady_say peer (fun n => aoi_update n a r) s1) as H2. unfold next_seq in H2. cbv zeta iota beta in H2.
    destruct (send_bounded _ _ _) as [sent s2]. cbn [snd] in *. by etrans.
  - pose proof (prepare_steady peer (size (player_order s1)) s1) as H2.
    destruct (prepare_cell_hydration _ _ _) as [[[[[cell pc] pr] pcm]|] s2]; cbn [snd] in *; [|by etrans].
    destruct pcm; cbn [negb].
    + etrans; [exact H1|]. etrans; [exact H2|apply hydrate_moorings_steady].
    + pose proof (hydrate_players_steady peer cell pc pr w s2) as H3.
      destruct (hydrate_players _ _ _ _ _ _) as [[more w3] s3]. cbn [snd] in *. etrans; [exact H1|]. by etrans.
Qed.

Lemma aoi_steady s : Steady s (process_aoi_work s).2.
Proof.
  unfold process_aoi_work. cbv zeta. set (l := ordered_peers_after _ _ _). clearbody l.
  assert (Hv : forall p w t, Steady t (aoi_visit p w t).2).
  { intros p w t. unfold aoi_visit. cbv zeta. set (t1 := t <| aoi_recipients ::= _ |>).
    assert (H1 : Steady t t1) by (by split). destruct (sessions t1 !! p); [|exact H1].
    pose proof (one_aoi_steady p (w <| ao_recipient_visits ::= S |>) t1) as H2.
    destruct (process_one_aoi_work _ _ _) as [[r w2] t2]. cbn [snd] in *.
    assert (H3 : Steady t t2) by (by etrans).
    match goal with |- context [if ?b then _ else _] => destruct b end; [|exact H3].
    etrans; [exact H3|]. unfold schedule_aoi. case_match; by split. }
  assert (He : forall w t, Steady s t -> Steady s (each aoi_visit l w t).2).
  { intros w t Ht. unfold each. revert w t Ht. induction l as [|p l IH]; intros w t Ht; simpl; [done|].
    pose proof (Hv p w t) as H1. destruct (aoi_visit p w t) as [w1 t1]. apply IH. by etrans. }
  apply He. destruct (list.last l); by split.
Qed.

Lemma fanout_job_steady sb db todo job w s : Steady s (fanout_job sb db todo job w s).2.
Proof.
  revert job w s. induction todo as [|r todo IH]; intros job w s; cbn [fanout_job]; [done|].
  repeat case_decide; try done. cbv zeta. case_match; [|apply IH]. etrans; [apply steady_send|apply IH].
Qed.

Lemma fanout_loop_steady fuel sb db w s :
  match fanout_loop fuel sb db w s with Some (_, s') => Steady s s' | None => True end.
Proof.
  revert w s. induction fuel as [|fuel IH]; intros w s; cbn [fanout_loop]; [done|].
  do 2 (case_decide; [done|]). cbv zeta.
  set (fc := bool_decide _ && _). clearbody fc.
  set (p := if fc then _ else _). assert (Hp : Steady s p.2) by (unfold p; by destruct fc; split).
  destruct p as [next s1]. cbn [snd] in Hp.
  assert (Hi : forall w' t, Steady s t -> match fanout_loop fuel sb db w' t with Some (_, s') => Steady s s' | None => True end).
  { intros w' t Ht. specialize (IH w' t). destruct (fanout_loop _ _ _ _ _) as [[w2 s2]|]; [by etrans|done]. }
  destruct next as [job|].
  - pose proof (fanout_job_steady sb db (drop (jb_next_recipient job) (au_entries (jb_recipients job))) job w s1) as H1.
    destruct (fanout_job _ _ _ _ _ _) as [[job' w1] s2]. cbn [snd] in H1.
    assert (H2 : Steady s s2) by (by etrans).
    case_decide; [apply Hi|]; (etrans; [exact H2|destruct fc; by split]).
  - destruct (bool_decide _ && _); [done|]. apply Hi. etrans; [exact Hp|by split].
Qed.

Lemma set_dirty_steady pid v s : Steady s (set_dirty pid v s).
Proof.
  unfold set_dirty. destruct (player_peers s !! pid); [|done]. apply steady_update. intros x. by case_decide.
Qed.

Lemma flush_at_steady now s : Steady s (process_dirty_flush_at now s).2.
Proof.
  unfold process_dirty_flush_at. destruct (flush_paused s); [done|]. generalize O.
  generalize (take DIRTY_DB_UPDATES_PER_TICK (btree_iter Z.le (flush_players s))). intros l. revert s.
  induction l as [|pid l IH]; intros s n; cbn [flush_each]; [done|].
  unfold touch_last_seen_for_flush. pose proof (steady_db (touch_last_seen (wrapS 64 pid) now) s) as H1.
  destruct (on_db _ s) as [[u|e] s1]; cbn [snd] in *; [|etrans; [exact H1|by split]].
  cbv zeta. etrans; [exact H1|]. etrans; [|apply IH]. etrans; [|apply set_dirty_steady]. by split.
Qed.

Lemma clock_steady env s : Steady s (broadcast_clock env s).
Proof.
  unfold broadcast_clock, next_seq. cbv zeta iota beta.
  set (t := (s <| sv_seq := _ |>) <| clock_fanout := None |>). assert (Ht : Steady s t) by (by split). clearbody t.
  assert (Hc : Steady s (capture_fanout_recipients t).2).
  { etrans; [exact Ht|]. unfold capture_fanout_recipients. destruct (fanout_audience_cache t); [done|]. cbv zeta.
    case_match; by split. }
  destruct (capture_fanout_recipients t) as [[a|] t1]; cbn [snd] in Hc; [|done]. etrans; [exact Hc|by split].
Qed.

(** ** Ticks *)

(** The server of a tick once its events are handled, and when it broadcasts. *)
Definition after_events (ti : TickInput) (l : LoopState) : Server :=
  let '(events, h) := poll (ti_script ti) (ti_frame_start ti) (host (lp_server l)) in
  handle_events (ti_env ti) O events ((lp_server l) <| host := h |>).

Definition at_broadcast (ti : TickInput) (l : LoopState) : Server := (process_aoi_work (after_events ti l)).2.

(** A tick whose events leave the places of the players alone. *)
Definition quiet_events (ti : TickInput) (l : LoopState) : Prop := Steady (lp_server l) (after_events ti l).

Lemma tick_steady ti l l' : tick ti l = Some l' -> Steady (broadcast_snapshots (at_broadcast ti l)).2 (lp_server l').
Proof.
  assert (H : match tick ti l with
              | Some l' => Steady (broadcast_snapshots (at_broadcast ti l)).2 (lp_server l')
              | None => True end); [|intros E; by rewrite E in H].
  unfold tick, at_broadcast, after_events. destruct (poll _ _ _) as [events h].
  set (s1 := handle_events _ _ _ _). clearbody s1. cbv zeta.
  destruct (process_aoi_work s1) as [w2 s2]. cbn [snd]. destruct (broadcast_snapshots s2) as [w3 s3]. cbn [snd].
  unfold process_fanout_work, process_fanout_work_with_budget.
  pose proof (fanout_loop_steady (fanout_fuel s3) (Z.to_nat FANOUT_RECIPIENT_SCANS_PER_TICK)
    (Z.to_nat FANOUT_SENDS_PER_TICK) (mkFanoutWork 0 0 0 0) s3) as H1.
  destruct (fanout_loop _ _ _ _ _) as [[w4 s4]|]; [|done].
  pose proof (flush_at_steady (e_now_ms (ti_env ti (length events))) s4) as H2.
  destruct (process_dirty_flush_at _ s4) as [r5 s5]. cbn [snd] in H2.
  set (s6 := if decide _ then broadcast_clock _ s5 else s5).
  assert (H3 : Steady s5 s6) by (unfold s6; case_decide; [apply clock_steady|done]). clearbody s6.
  assert (H4 : Steady s3 s6) by (etrans; [exact H1|by etrans]).
  case_decide; cbn [lp_server]; [|exact H4]. etrans; [exact H4|by split].
Qed.

Lemma ticks_steady ti l l' ti' :
  tick ti l = Some l' -> quiet_events ti' l' ->
  Steady (broadcast_snapshots (at_broadcast ti l)).2 (at_broadcast ti' l').
Proof.
  intros H Hq. etrans; [by apply tick_steady|]. etrans; [exact Hq|]. apply aoi_steady.
Qed.
End Work.

(** ** A period, computed

    Who is considered when depends on the recipients and the cursor alone. *)
Fixpoint cursor_after (recipients : gset Z) (c : option Z) (i : nat) : option Z :=
  match i with
  | O => c
  | S i => let c := cursor_after recipients c i in next_cursor c (ordered_peers_after recipients c 32)
  end.

Section Computed.
Variables (recipients : gset Z) (c0 : option Z) (t0 cadence : Z) (sel : list Z) (peer : Z) (sl0 : Slot).

Definition considered (i : nat) : bool :=
  bool_decide (peer ∈ ordered_peers_after recipients (cursor_after recipients c0 i) 32).

Fixpoint slot_after (i : nat) : Slot :=
  match i with
  | O => sl0
  | S i => if considered i then visit sel cadence (tick_at t0 i) (slot_after i) else slot_after i
  end.

Definition shown_at (i : nat) : list Z :=
  if considered i && due cadence (tick_at t0 i) (slot_after i) then emitted sel (slot_after i) else [].
End Computed.

Section Predicted.
Context `{FB : FlatBuffers}.
Variable ss : nat -> Server.
Variable N : nat.
Variables (peer : Z) (x : Session) (cell : Cell).
Context (Hsteady : forall i, (i < N)%nat -> Steady (broadcast_snapshots (ss i)).2 (ss (S i))).
Context (Hx : sessions (ss 0%nat) !! peer = Some x) (Hc : ss_cell x = Some cell).

Lemma period_cursor i : (i <= N)%nat ->
  snapshot_recipient_cursor (ss i) =
    cursor_after (snapshot_recipients (ss 0%nat)) (snapshot_recipient_cursor (ss 0%nat)) i.
Proof.
  induction i as [|i IH]; intros Hi; [done|]. cbn [cursor_after]. rewrite <- IH by lia.
  rewrite (sd_cursor _ _ (Hsteady i ltac:(lia))). destruct (broadcast_rounds (ss i)) as [_ ->].
  unfold snapshot_visits. by rewrite (period_recipients ss N Hsteady i) by lia.
Qed.

Lemma seen_considered i : (i <= N)%nat ->
  seen_at ss peer i = considered (snapshot_recipients (ss 0%nat)) (snapshot_recipient_cursor (ss 0%nat)) peer i.
Proof.
  intros Hi. unfold seen_at, considered, snapshot_visits. rewrite <- period_cursor by done.
  by rewrite (period_recipients ss N Hsteady i) by lia.
Qed.

(** What a steady period advertises is determined by its first state. *)
Lemma predicted i q : (i < N)%nat ->
  q ∈ advertised peer (ss i) <->
  q ∈ shown_at (snapshot_recipients (ss 0%nat)) (snapshot_recipient_cursor (ss 0%nat)) (snapshot_tick (ss 0%nat) + 1)
        (nominal_cadence (ss 0%nat)) (select_visible (ss_player_id x) cell (ss 0%nat)) peer (slot_of x) i.
Proof.
  intros Hi. assert (Hsl : forall j, (j <= N)%nat -> slot_at ss peer x j =
    slot_after (snapshot_recipients (ss 0%nat)) (snapshot_recipient_cursor (ss 0%nat)) (snapshot_tick (ss 0%nat) + 1)
      (nominal_cadence (ss 0%nat)) (select_visible (ss_player_id x) cell (ss 0%nat)) peer (slot_of x) j).
  { induction j as [|j IH]; intros Hj; [unfold slot_at; by rewrite Hx|]. cbn [slot_after]. rewrite <- IH by lia.
    rewrite (period_step ss N peer x cell Hsteady Hx Hc j) by lia. rewrite <- seen_considered by lia.
    by rewrite (period_tick ss N Hsteady j) by lia. }
  rewrite (period_advertised ss N peer x cell Hsteady Hx Hc i q) by lia. rewrite (Hsl i) by lia.
  rewrite seen_considered by lia. rewrite (period_tick ss N Hsteady i) by lia. unfold shown_at, tick_at.
  destruct (considered _ _ _ _ && _).
  - naive_solver.
  - split; [by intros [? _]|intros H; by apply not_elem_of_nil in H].
Qed.
End Predicted.

(** ** The bound against the configuration *)
Lemma div_ceil_spec a b : 1 <= b -> 0 <= a -> a <= div_ceil a b * b < a + b.
Proof.
  intros Hb Ha. unfold div_ceil.
  pose proof (Z.div_mod (a + b - 1) b ltac:(lia)). pose proof (Z.mod_pos_bound (a + b - 1) b ltac:(lia)). nia.
Qed.

Lemma div_ceil_mono a a' b : 1 <= b -> a <= a' -> div_ceil a b <= div_ceil a' b.
Proof. intros Hb Ha. unfold div_ceil. apply Z.div_le_mono; lia. Qed.

Lemma chunks_div_ceil m : Z.of_nat (chunks m) = div_ceil (Z.of_nat m) SNAPSHOT_ENTITIES_PER_PACKET.
Proof.
  unfold chunks, div_ceil, SNAPSHOT_ENTITIES_PER_PACKET. rewrite Nat2Z.inj_div, Nat2Z.inj_add. f_equal. lia.
Qed.

(** [c] visits, each a cadence and a round apart, are less than twice what the
    configuration reckons with. *)
Lemma bound_recurrence n m peers cadence :
  (1 <= m)%nat -> (m < n)%nat -> (m <= ceiling)%nat -> Z.of_nat n <= peers -> 1 <= cadence ->
  Z.of_nat (chunks m) * (cadence + recipient_round (Z.of_nat n) - 1) < 2 * recurrence_spec peers cadence.
Proof.
  intros Hm Hmn Hc Hp Hcad. unfold recurrence_spec. rewrite decide_False by lia. cbv zeta.
  rewrite chunks_div_ceil. unfold ceiling, SNAPSHOT_VISIBILITY_CEILING in Hc.
  assert (H1 : div_ceil (Z.of_nat m) SNAPSHOT_ENTITIES_PER_PACKET <=
               div_ceil (Z.min (peers - 1) SNAPSHOT_VISIBILITY_CEILING) SNAPSHOT_ENTITIES_PER_PACKET).
  { apply div_ceil_mono; unfold SNAPSHOT_ENTITIES_PER_PACKET, SNAPSHOT_VISIBILITY_CEILING; lia. }
  assert (H2 : recipient_round (Z.of_nat n) <= div_ceil peers SNAPSHOT_PACKETS_PER_TICK).
  { apply div_ceil_mono; unfold SNAPSHOT_PACKETS_PER_TICK; lia. }
  destruct (recipient_round_spec n ltac:(lia)) as [H3 _].
  set (r := recipient_round _) in *. set (R := div_ceil peers _) in *.
  destruct (div_ceil_spec cadence R) as [H4 _]; [lia..|].
  assert (H5 : 1 <= div_ceil cadence R).
  { destruct (decide (1 <= div_ceil cadence R)); [done|nia]. }
  destruct (div_ceil_spec (Z.of_nat m) SNAPSHOT_ENTITIES_PER_PACKET) as [H6 _]; [unfold SNAPSHOT_ENTITIES_PER_PACKET; lia..|].
  set (c := div_ceil (Z.of_nat m) _) in *. set (C := div_ceil (Z.min _ _) _) in *. clearbody c C R r.
  assert (H7 : 1 <= c) by (unfold SNAPSHOT_ENTITIES_PER_PACKET in H6; lia).
  set (D := div_ceil cadence R) in *. clearbody D.
  assert (H8 : cadence + r - 1 < 2 * (D * R)) by nia. nia.
Qed.

(** ** Ticks one after the other *)
Section Loop.
Context `{FB : FlatBuffers}.

Fixpoint loop_at (inputs : nat -> TickInput) (l : LoopState) (i : nat) : LoopState :=
  match i with
  | O => l
  | S i => let l' := loop_at inputs l i in default l' (tick (inputs i) l')
  end.

(** The server at the broadcast of the [i]th tick. *)
Definition broadcasting (inputs : nat -> TickInput) (l : LoopState) (i : nat) : Server :=
  at_broadcast (inputs i) (loop_at inputs l i).

Lemma loop_at_S inputs l i :
  loop_at inputs l (S i) = default (loop_at inputs l i) (tick (inputs i) (loop_at inputs l i)).
Proof. reflexivity. Qed.

Lemma loop_step inputs l i :
  tick_good (loop_at inputs l i) ->
  tick (inputs i) (loop_at inputs l i) = Some (loop_at inputs l (S i)) /\ tick_good (loop_at inputs l (S i)).
Proof.
  intros HG. rewrite loop_at_S. destruct (tick_spec (inputs i) _ HG) as (l' & E & H). rewrite E. split; [done|exact H].
Qed.

Lemma loop_good inputs l i :
  tick_good l -> tick_good (loop_at inputs l i) /\
  tick (inputs i) (loop_at inputs l i) = Some (loop_at inputs l (S i)).
Proof.
  intros HG. assert (H : tick_good (loop_at inputs l i)).
  { induction i as [|i IH]; [done|]. apply (loop_step inputs l i IH). }
  split; [exact H|]. apply (loop_step inputs l i H).
Qed.

Lemma broadcast_good ti l : tick_good l -> good ∅ (at_broadcast ti l).
Proof.
  intros HG. unfold at_broadcast, after_events. apply good_aoi.
  pose proof HG as ((_ & _ & _ & _ & HH & _) & Hl).
  pose proof (poll_spec_server (ti_script ti) (ti_frame_start ti) (host (lp_server l)) HH) as Hp.
  destruct (poll _ _ _) as [events h]. destruct Hp as (HH' & Em & Hlv).
  apply good_events, (good_host ∅); [done..|]. rewrite union_empty_r_L in Hl. etrans; [exact Hl|exact Hlv].
Qed.

Lemma loop_steady inputs l N :
  tick_good l -> (forall i, (0 < i <= N)%nat -> quiet_events (inputs i) (loop_at inputs l i)) ->
  forall i, (i < N)%nat -> Steady (broadcast_snapshots (broadcasting inputs l i)).2 (broadcasting inputs l (S i)).
Proof.
  intros HG Hq i Hi. destruct (loop_good inputs l i HG) as [_ E]. eapply ticks_steady; [exact E|]. apply Hq. lia.
Qed.

(** A tick whose poll reports nothing is quiet. *)
Lemma no_events_quiet ti l :
  (poll (ti_script ti) (ti_frame_start ti) (host (lp_server l))).1 = [] -> quiet_events ti l.
Proof.
  unfold quiet_events, after_events. destruct (poll _ _ _) as [events h]. cbn [fst]. intros ->. cbn [handle_events].
  by split.
Qed.
Lemma steady_recurrence (ss : nat -> Server) (N : nat) (peer q : Z) (x : Session) (cell : Cell) :
  (forall i, (i < N)%nat -> Steady (broadcast_snapshots (ss i)).2 (ss (S i))) ->
  good ∅ (ss 0%nat) -> Valid (cfg (ss 0%nat)) ->
  sessions (ss 0%nat) !! peer = Some x -> ss_cell x = Some cell -> q ∈ advertised peer (ss 0%nat) ->
  stale_bound (ss 0%nat) x cell < Z.of_nat N ->
  (exists i, 0 < Z.of_nat i <= stale_bound (ss 0%nat) x cell /\ q ∈ advertised peer (ss i) /\
     tells (visit_tick (ss i)) peer q (ss i) (broadcast_snapshots (ss i)).2) /\
  (let sel := select_visible (ss_player_id x) cell (ss 0%nat) in
   aligned (length sel) (window sel (slot_of x)) = true ->
   stale_bound (ss 0%nat) x cell < 2 * (SNAPSHOT_CLIENT_EXPIRY_SECS * tick_hz (cfg (ss 0%nat)))).
Proof.
  intros Hst HGs HV Hx Hc Hin HN.
  assert (Hcad : nominal_cadence (ss 0%nat) = ticks_per_snapshot (cfg (ss 0%nat)) /\
                 1 <= ticks_per_snapshot (cfg (ss 0%nat)) <= 255).
  { pose proof (cadence_bound (cfg (ss 0%nat)) (v_snapshot _ HV) ltac:(apply HV)). split; [|done].
    unfold nominal_cadence, u32_max. lia. }
  assert (Hsz : Z.of_nat (size (sessions (ss 0%nat))) <= max_transport_peers (cfg (ss 0%nat))).
  { pose proof (good_sessions_bound (ss 0%nat) HGs) as Hb. unfold peer_limit, max_transport_peers_usize, clampZ in Hb.
    pose proof (v_peers _ HV). lia. }
  pose proof (v_peers_max _ HV) as Hmax. unfold MAX_TRANSPORT_PEERS in Hmax. split.
  - destruct (advertised_within ss N peer x cell Hst Hx Hc HGs) with (q := q)
      as (i & Hi & HiN & Hqi); [lia|lia|done|done|].
    exists i. split; [done|]. split; [done|]. by apply broadcast_step.
  - intros sel Hal. unfold stale_bound, visits_needed. fold sel. rewrite Hal, Nat.add_0_r.
    destruct (select_length (ss 0%nat) peer x cell (proj1 HGs) Hx) as [Hl1 Hl2]. fold sel in Hl1, Hl2.
    assert (Hl0 : (1 <= length sel)%nat).
    { unfold advertised in Hin. rewrite Hx, Hc in Hin. fold sel in Hin. clearbody sel.
      repeat case_match; try by apply not_elem_of_nil in Hin.
      apply emitted_selected in Hin. destruct sel; [by apply not_elem_of_nil in Hin|simpl; lia]. }
    destruct Hcad as [-> Hcad].
    pose proof (bound_recurrence (size (sessions (ss 0%nat))) (length sel) (max_transport_peers (cfg (ss 0%nat)))
      (ticks_per_snapshot (cfg (ss 0%nat))) Hl0 Hl2 Hl1 Hsz ltac:(lia)). pose proof (v_recurrence _ HV). lia.
Qed.
End Loop.


(** ** A crowd: clients connect, say hello *)
Definition crowd_step (i : nat) (data : list Z) : SockStep :=
  mkSockStep (PeekOk (len data)) (RecvOk data (SockV4 (Z.of_nat i) 5000)) None.

Definition crowd_tick (n : nat) (at_ms : Z) (f : nat -> list Z) : TickInput :=
  mkTickInput (at_ms * 1000000) ((fun i => crowd_step i (f i)) <$> seq 1 n)
    (fun i => mkEnv (at_ms + 2 * Z.of_nat i) 5000 5000 (at_ms + 2 * Z.of_nat i)).

Definition crowd_connect (i : nat) : list Z := demo_request (100 + Z.of_nat i) CONNECT_KEY.

Definition crowd_hello (i : nat) : list Z :=
  build_unreliable 1 (client_envelope 1 (PClientHello
    (mkClientHello PROTOCOL_VERSION (Some "ahab"%string) (Some (pretty i)) None None (Some "api"%string)))).

(** The loop when everybody is connected; the next tick, in which they say hello. *)
Definition crowd_joins (n : nat) : list TickInput := [crowd_tick n 0 crowd_connect].

Definition crowd (c : Config) (n : nat) : option LoopState :=
  match (server_new c (mkDb empty_tables []) 5000 42).1 with
  | Ok s => ticks (crowd_joins n) (mkLoop 0 0 s)
  | Err _ => None
  end.

Definition crowd_hellos (n : nat) : TickInput := crowd_tick n 1000 crowd_hello.

Lemma crowd_good c n l : 0 <= aoi_radius_cells c -> crowd c n = Some l -> tick_good l.
Proof.
  unfold crowd. intros Hr. destruct (server_new c _ 5000 42) as [[s|e] d] eqn:E; cbn [fst]; [|done]. intros El.
  assert (HG : tick_good (mkLoop 0 0 s)) by (by eapply server_new_good).
  destruct (ticks_spec (crowd_joins n) _ HG) as (l' & El' & Hl). rewrite El' in El. apply (inj Some) in El. by rewrite <- El.
Qed.

(** Two players in the same place, and nothing arriving afterwards. *)
Definition pair_inputs (i : nat) : TickInput :=
  match i with
  | O => crowd_hellos 2
  | _ => mkTickInput (1000000000 + 33000000 * Z.of_nat i) [] (fun _ => mkEnv 1100 5000 5000 1100)
  end.
Definition slow_config : Config :=
  config_default <| tick_hz := 4 |> <| snapshot_hz := 1 |> <| max_transport_peers := 112 |>
                 <| new_session_min_interval_ms := 1 |>.


Definition pair_config : Config := config_default <| new_session_min_interval_ms := 1 |>.

Lemma pair_valid : Valid pair_config.
Proof.
  apply validate_sound; [|vm_compute; reflexivity]. unfold typed.
  repeat (apply Forall_cons_2; [vm_compute; split; [discriminate|reflexivity]|]). apply Forall_nil_2.
Qed.

Lemma pair_facts :
  (fun l => let s := broadcasting pair_inputs l 0 in
     (cfg s, bool_decide (2 ∈ advertised 1 s),
      (fun x => (ss_cell x, stale_bound s x (mkCell 0 0))) <$> sessions s !! 1,
      forallb (fun i => bool_decide ((poll (ti_script (pair_inputs i)) (ti_frame_start (pair_inputs i))
        (host (lp_server (loop_at pair_inputs l i)))).1 = [])) (seq 1 8))) <$> crowd pair_config 2
  = Some (pair_config, true, Some (Some (mkCell 0 0), 7), true).
Proof. vm_compute. reflexivity. Qed.

(** The crowd of the slow server when it first broadcasts to them. *)
Lemma crowd_facts :
  (fun l => let s := at_broadcast (crowd_hellos 112) l in
     (bool_decide (snapshot_recipients s = list_to_set (seqZ 1 112)), snapshot_recipient_cursor s,
      snapshot_tick s, nominal_cadence s, size (sessions s),
      (fun x => (ss_cell x, slot_of x, select_visible (ss_player_id x) (mkCell 0 0) s)) <$> sessions s !! 1))
    <$> crowd slow_config 112
  = Some (true, None, 1, 4, 112%nat, Some (Some (mkCell 0 0), mkSlot None 0 0, seqZ 2 15)).
Proof. vm_compute. reflexivity. Qed.

(** The ticks at which player 2 is shown to peer 1. *)
Lemma crowd_shown :
  (fun i => bool_decide (2 ∈ shown_at (list_to_set (seqZ 1 112)) None 2 4 (seqZ 2 15) 1 (mkSlot None 0 0) i)) <$> seq 0 22
  = true :: replicate 20 false ++ [true].
Proof. vm_compute. reflexivity. Qed.

(** ** Theorems *)

(** C25.  No visible player goes stale.  While nobody joins, leaves or changes cell
    (whatever else the ticks do), a player whose pose is shown to a recipient is
    shown to it again within [stale_bound] ticks: the chunks of the selection times
    a cadence and a round of recipients, less one, and one more such visit when the
    selection had changed inside a round.  Shown means that a snapshot with the
    player's current pose is sent to the recipient's address, if it fits the
    packet.  For a recipient whose rounds are aligned the bound is below twice the
    client's expiry of five seconds under every configuration that validates. *)
Theorem snapshot_recurrence `{FB : FlatBuffers} (inputs : nat -> TickInput) (l : LoopState) (N : nat)
    (peer q : Z) (x : Session) (cell : Cell) :
  let at_tick := broadcasting inputs l in
  let s := at_tick 0%nat in
  tick_good l -> Valid (cfg s) ->
  (forall i, (0 < i <= N)%nat -> quiet_events (inputs i) (loop_at inputs l i)) ->
  sessions s !! peer = Some x -> ss_cell x = Some cell -> q ∈ advertised peer s ->
  stale_bound s x cell < Z.of_nat N ->
  (exists i, 0 < Z.of_nat i <= stale_bound s x cell /\ q ∈ advertised peer (at_tick i) /\
     tells (visit_tick (at_tick i)) peer q (at_tick i) (broadcast_snapshots (at_tick i)).2) /\
  (let sel := select_visible (ss_player_id x) cell s in
   aligned (length sel) (window sel (slot_of x)) = true ->
   stale_bound s x cell < 2 * (SNAPSHOT_CLIENT_EXPIRY_SECS * tick_hz (cfg s))).
Proof.
  intros at_tick s HG HV Hq Hx Hc Hin HN.
  apply (steady_recurrence at_tick N peer q x cell (loop_steady inputs l N HG Hq)
    (broadcast_good (inputs 0%nat) (loop_at inputs l 0) HG) HV Hx Hc Hin HN).
Qed.

Lemma snapshot_recurrence_witness :
  exists l i, crowd pair_config 2 = Some l /\ 0 < Z.of_nat i <= 7 /\ 2 ∈ advertised 1 (broadcasting pair_inputs l i).
Proof.
  pose proof pair_facts as Hb. destruct (crowd pair_config 2) as [l|] eqn:El; [|discriminate Hb].
  apply (inj Some), pair_equal_spec in Hb as [[[Hv Ha]%pair_equal_spec Hx]%pair_equal_spec Hq].
  destruct (sessions (broadcasting pair_inputs l 0) !! 1) as [x|] eqn:Ex; [|discriminate Hx].
  apply (inj Some), pair_equal_spec in Hx as [Hc Hst].
  destruct (snapshot_recurrence pair_inputs l 8 1 2 x (mkCell 0 0)) as [(i & Hi & Hin & _) _].
  - apply (crowd_good pair_config 2); [vm_compute; discriminate|exact El].
  - rewrite Hv. exact pair_valid.
  - intros i Hi. apply no_events_quiet. rewrite forallb_forall in Hq.
    apply (bool_decide_unpack _). apply Is_true_true, Hq, in_seq. lia.
  - exact Ex.
  - exact Hc.
  - apply (bool_decide_unpack _). apply Is_true_true, Ha.
  - rewrite Hst. lia.
  - exists l, i. split; [reflexivity|]. rewrite Hst in Hi. split; [exact Hi|exact Hin].
Defined.

(** C26.  The recurrence the configuration reckons with is not the scheduler's.
    [snapshot_recurrence_ticks] promises 12 ticks for 112 peers at 4 ticks and one
    snapshot a second, within the 20 ticks of the client's expiry, so this
    configuration validates.  But 112 is not a multiple of 32: a recipient comes up
    after three ticks as often as after four, at three it is not due yet, and it
    waits for another turn.  With 112 players in one place the first recipient is
    shown its first neighbour again only after 21 ticks, five and a quarter seconds,
    however the ticks in between go. *)
Theorem snapshot_recurrence_understated :
  validate slow_config = Ok tt /\
  snapshot_recurrence_ticks (max_transport_peers slow_config) (ticks_per_snapshot slow_config) = Some 12 /\
  SNAPSHOT_CLIENT_EXPIRY_SECS * tick_hz slow_config = 20 /\
  exists l, crowd slow_config 112 = Some l /\
    let s := at_broadcast (crowd_hellos 112) l in
    good ∅ s /\ size (sessions s) = 112%nat /\
    forall ss : nat -> Server, ss 0%nat = s ->
      (forall i, (i < 22)%nat -> Steady (broadcast_snapshots (ss i)).2 (ss (S i))) ->
      2 ∈ advertised 1 (ss 0%nat) /\
      (forall i, (0 < i < 21)%nat -> 2 ∉ advertised 1 (ss i)) /\
      2 ∈ advertised 1 (ss 21%nat).
Proof.
  split; [vm_compute; reflexivity|]. split; [vm_compute; reflexivity|]. split; [vm_compute; reflexivity|].
  pose proof crowd_facts as Hb. destruct (crowd slow_config 112) as [l|] eqn:El; [|discriminate Hb].
  exists l. split; [reflexivity|]. cbv zeta.
  assert (HG : tick_good l) by (apply (crowd_good slow_config 112); [vm_compute; discriminate|exact El]).
  apply broadcast_good with (ti := crowd_hellos 112) in HG. split; [exact HG|]. clear HG.
  apply (inj Some) in Hb. cbv beta zeta in Hb.
  set (s := at_broadcast (crowd_hellos 112) l) in *. clearbody s. clear El l.
  apply pair_equal_spec in Hb as [[[[[Hr Hcu]%pair_equal_spec Ht]%pair_equal_spec Hn]%pair_equal_spec
    Hsz]%pair_equal_spec Hx]. split; [exact Hsz|]. intros ss E0 Hst. apply bool_decide_eq_true in Hr.
  destruct (sessions s !! 1) as [x|] eqn:Ex; [|discriminate Hx].
  apply (inj Some), pair_equal_spec in Hx as [[Hc Hsl]%pair_equal_spec Hse].
  assert (Hp : forall i, (i < 22)%nat -> bool_decide (2 ∈ advertised 1 (ss i)) =
    bool_decide (2 ∈ shown_at (list_to_set (seqZ 1 112)) None 2 4 (seqZ 2 15) 1 (mkSlot None 0 0) i)).
  { intros i Hi. apply bool_decide_ext. rewrite <- E0 in Ex. rewrite (predicted ss 22 1 x (mkCell 0 0) Hst Ex Hc i 2 Hi).
    by rewrite E0, Hr, Hcu, Ht, Hn, Hse, Hsl. }
  assert (Hs : forall i, (i < 22)%nat -> bool_decide (2 ∈ advertised 1 (ss i)) =
    default false ((true :: replicate 20 false ++ [true]) !! i)).
  { intros i Hi. rewrite (Hp i Hi), <- crowd_shown, list_lookup_fmap, lookup_seq_lt by done. done. }
  split; [|split].
  - apply (bool_decide_eq_true_1 (2 ∈ advertised 1 (ss 0%nat))). by rewrite Hs by lia.
  - intros i Hi. apply (bool_decide_eq_false_1 (2 ∈ advertised 1 (ss i))). rewrite Hs by lia.
    clear -Hi. do 21 (destruct i as [|i]; [first [lia|reflexivity]|]). lia.
  - apply (bool_decide_eq_true_1 (2 ∈ advertised 1 (ss 21%nat))). by rewrite Hs by lia.
Qed.
