(* ===== verification/Interest.v ===== *)
(** * Interest delivery is never forgotten and fair (server.rs)

    What a session's client must still be told of its neighbourhood (cells to
    announce or withdraw, cells to describe) is worked off eight sessions a tick,
    in rounds, by [process_aoi_work].  This file shows that a session with such work
    is always in the queue of those rounds, whatever messages arrive and whatever
    statements fail; and that, while subscriptions, joins and moorings hold still,
    every session is told everything within a bound of its own work and the length
    of the queue, however much work the other sessions have. *)

From S2P Require Import Structs Flat Tables.
From S2P Require Import Prelude Float World Config RateLimit Econ Host HostInv Persist EconStore Codec Server Sched.
From S2P Require Import ServerInv TickInv ServerProps FlatTree CodecProps Hydration Recurrence.

(** ** The interest part of the state *)

(** What interest delivery reads of a session. *)
Definition interest (x : Session) : gset Cell * gset Cell * option CellHydration * gset Cell :=
  (ss_published_cells x, sub_cells (ss_sub x), ss_active_hydration x, ss_hydration_cells x).

(** Operations that neither change it nor the queue. *)
Record Kept (s s' : Server) : Prop := {
  kp_interest : interest <$> sessions s' = interest <$> sessions s;
  kp_queue : aoi_recipients s' = aoi_recipients s
}.

#[global] Instance kept_preorder : PreOrder Kept.
Proof. split; [by split|]. intros s1 s2 s3 [] []. split; congruence. Qed.

Lemma kept_same s s' : sessions s' = sessions s -> aoi_recipients s' = aoi_recipients s -> Kept s s'.
Proof. intros E1 E2. split; [by rewrite E1|done]. Qed.

Lemma kept_lookup s s' peer : Kept s s' -> interest <$> sessions s' !! peer = interest <$> sessions s !! peer.
Proof. intros H. rewrite <- !lookup_fmap. by rewrite (kp_interest _ _ H). Qed.

Lemma interest_work s s' peer :
  interest <$> sessions s' !! peer = interest <$> sessions s !! peer ->
  session_has_aoi_work peer s' = session_has_aoi_work peer s.
Proof.
  unfold session_has_aoi_work. destruct (sessions s' !! peer) as [y|], (sessions s !! peer) as [x|]; try done.
  intros E. apply (inj Some) in E. injection E as E1 E2 E3 E4.
  by rewrite E1, E2, E3, E4.
Qed.

Lemma kept_work s s' peer : Kept s s' -> session_has_aoi_work peer s' = session_has_aoi_work peer s.
Proof. intros H. by apply interest_work, kept_lookup. Qed.

(** Every session with something left to be told is in the queue. *)
Definition Queued (s : Server) : Prop :=
  forall peer, session_has_aoi_work peer s = true -> peer ∈ aoi_recipients s.

Lemma kept_queued s s' : Kept s s' -> Queued s -> Queued s'.
Proof. intros H HQ peer. rewrite (kept_work s s') by done. rewrite (kp_queue _ _ H). apply HQ. Qed.

Section Handlers.
Context `{FB : FlatBuffers}.

Lemma kept_db {A} (m : M A) s : Kept s (on_db m s).2.
Proof. destruct (on_db_frame m s) as [d ->]. by split. Qed.

Lemma kept_update peer f s :
  (forall x, interest (f x) = interest x) -> Kept s (update_session peer f s).
Proof.
  intros Hf. split; [|done]. apply map_eq. intros q. simpl. rewrite !lookup_fmap, lookup_alter.
  case_decide as E; [rewrite E|done]. destruct (sessions s !! q) as [x|]; [exact (f_equal Some (Hf x))|done].
Qed.

(** [Kept] through a statement whose failure ends the handler. *)
Lemma kept_try {A B} (r : result SrvError A * Server) (k : A -> Server -> result SrvError B * Server) s :
  Kept s r.2 -> (forall a t, Kept s t -> Kept s (k a t).2) -> Kept s (try! a, t := r in k a t).2.
Proof. intros H Hk. destruct r as [[a|e] t]; [by apply Hk|exact H]. Qed.

Lemma on_econ_kept env peer m s : Kept s (on_econ env peer m s).2.
Proof.
  unfold on_econ. destruct (sessions s !! peer) as [x|]; [|done]. cbv zeta. case_match; [done|].
  apply kept_try; [apply kept_db|]. intros rec s1 H1.
  set (p := match rec with Some _ => _ | None => _ end).
  assert (Hp : Kept s p.2) by (etrans; [exact H1|]; unfold p; destruct rec; [done|];
    destruct (limiter_allow _ _ _); by split).
  destruct p as [[] s2]; [|exact Hp]. cbn [negb snd] in *.
  apply kept_try; [etrans; [exact Hp|apply kept_db]|]. intros ack s3 H3. etrans; [exact H3|by split].
Qed.

Lemma on_trade_kept env peer m s : Kept s (on_trade env peer m s).2.
Proof.
  unfold on_trade. destruct (sessions s !! peer) as [x|]; [|done]. cbv zeta.
  apply kept_try; [apply kept_db|]. intros rec s1 H1.
  set (p := match rec with Some _ => _ | None => _ end).
  assert (Hp : Kept s p.2) by (etrans; [exact H1|]; unfold p; destruct rec; [done|];
    destruct (limiter_allow _ _ _); by split).
  destruct p as [[] s2]; cbn [negb snd] in *.
  - apply kept_try; [etrans; [exact Hp|apply kept_db]|]. intros ack s3 H3. etrans; [exact H3|by split].
  - apply kept_try; [etrans; [exact Hp|apply kept_db]|]. intros st s3 H3.
    etrans; [exact H3|]. destruct (default (0, 0) st). by split.
Qed.

Lemma on_moor_kept env peer m s : Kept s (on_moor env peer m s).2.
Proof.
  unfold on_moor. destruct (sessions s !! peer) as [x|]; [|done]. cbv zeta.
  destruct (sanitize_motion _ _ _) as [motion|]; [|done]. case_match.
  { unfold next_seq, send_bounded. case_decide; by split. }
  destruct (limiter_allow _ _ _) as [[] l]; cbn [negb]; [|by split]. destruct (World.pos motion) as [[px py] pz].
  apply kept_try; [etrans; [|apply kept_db]; by split|]. intros u s1 H1. etrans; [exact H1|by split].
Qed.

Lemma capture_kept s : Kept s (capture_fanout_recipients s).2.
Proof. unfold capture_fanout_recipients. destruct (fanout_audience_cache s); [done|]. cbv zeta. case_match; by split. Qed.

Lemma on_chat_kept env peer m s : Kept s (on_chat env peer m s).
Proof.
  unfold on_chat. destruct (sessions s !! peer) as [x|]; [|done]. destruct (ss_cell x); [|done]. cbv zeta.
  case_match; [done|]. do 2 (case_decide; [done|]). destruct (limiter_allow _ _ _) as [[] l]; cbn [negb]; [|by split].
  unfold next_seq. case_decide; [by split|].
  match goal with |- context [capture_fanout_recipients ?t] =>
    assert (Hc : Kept s (capture_fanout_recipients t).2) by (etrans; [|apply capture_kept]; by split);
    destruct (capture_fanout_recipients t) as [[a|] t'] end; [|exact Hc].
  etrans; [exact Hc|by split].
Qed.

Lemma reply_kept env peer ok reason pid gold s : Kept s (send_hello env peer ok reason pid gold s).
Proof. by split. Qed.

(** ** What changes it *)
Lemma emit_queued peer aoi s : Queued s -> Queued (emit_aoi peer aoi s).
Proof.
  intros HQ. unfold emit_aoi, schedule_aoi. case_match; [done|]. case_match; [|done].
  intros q Hq. change (q ∈ {[peer]} ∪ aoi_recipients s). apply elem_of_union_r, HQ. exact Hq.
Qed.

Lemma recenter_empty c sub u sub' :
  recenter c sub = Some (u, sub') -> aoi_is_empty u = true -> sub_cells sub' = sub_cells sub.
Proof.
  intros (E & _)%recenter_spec. intros [Ha%bool_decide_eq_true Hr%bool_decide_eq_true]%andb_true_iff.
  rewrite E. unfold apply_delta. rewrite Ha, Hr. set_solver.
Qed.

Lemma on_client_state_queued peer m now s : Queued s -> Queued (on_client_state peer m now s).2.
Proof.
  intros HQ. unfold on_client_state. destruct (sessions s !! peer) as [x|] eqn:Ex; [|done]. cbv zeta.
  destruct (limiter_allow _ _ _) as [[] l]; cbn [negb]; [|exact HQ].
  destruct (sanitize_motion _ _ _) as [motion|]; [|exact HQ]. destruct (World.pos motion) as [[px py] pz].
  match goal with |- context [recenter ?c ?sub] => pose proof (recenter_empty c sub) as Hr;
    destruct (recenter c sub) as [[aoi sub']|]; [specialize (Hr aoi sub' eq_refl)|exact HQ] end. cbn [snd].
  match goal with |- Queued (emit_aoi _ _ ?t) => set (s1 := t) end. unfold emit_aoi.
  assert (Hother : forall q, q <> peer -> session_has_aoi_work q s1 = session_has_aoi_work q s).
  { intros q Hq. apply interest_work. unfold s1. cbn. by rewrite lookup_insert_ne. }
  destruct (aoi_is_empty aoi) eqn:Ea.
  - intros q Hq. apply HQ. destruct (decide (q = peer)) as [->|Hne]; [|by rewrite <- Hother].
    rewrite <- Hq. symmetry. apply interest_work. unfold s1. cbn. rewrite lookup_insert_eq, Ex. cbn.
    unfold interest. cbn. by rewrite (Hr eq_refl).
  - unfold schedule_aoi. destruct (sessions s1 !! peer) eqn:E1.
    2:{ exfalso. unfold s1 in E1. cbn in E1. by rewrite lookup_insert_eq in E1. }
    intros q Hq. change (q ∈ {[peer]} ∪ aoi_recipients s). change (session_has_aoi_work q s1 = true) in Hq.
    destruct (decide (q = peer)) as [->|Hne]; [set_solver|]. rewrite Hother in Hq by done.
    apply elem_of_union_r. by apply HQ.
Qed.

Lemma rekey_interest keys (m : gmap Z Session) :
  interest <$> fold_left (fun m (x : Z * Z) => alter (fun ss => ss <| ss_generation := x.2 |>) x.1 m) keys m =
  interest <$> m.
Proof.
  revert m. induction keys as [|[k g] keys IH]; intros m; [done|]. cbn [fold_left]. rewrite IH.
  apply map_eq. intros q. rewrite !lookup_fmap, lookup_alter. case_decide as E; [rewrite E|done].
  by destruct (m !! q).
Qed.

Lemma rekey_kept s : Kept s (rekey_live_session_generations s).2.
Proof. unfold rekey_live_session_generations. case_decide; [done|]. split; [apply rekey_interest|done]. Qed.

Lemma allocate_kept s : Kept s (allocate_session_generation s).2.
Proof.
  unfold allocate_session_generation. apply kept_try.
  - case_decide; [apply rekey_kept|done].
  - intros _ t Ht. case_match; [|exact Ht]. etrans; [exact Ht|by split].
Qed.

Lemma register_queued peer x s : Queued s -> Queued (register_session peer x s).2.
Proof.
  intros HQ. unfold register_session. case_decide; [done|]. destruct (player_peers s !! _); [done|].
  pose proof (allocate_kept s) as Ha. destruct (allocate_session_generation s) as [[g|e] s1]; cbn [snd] in Ha;
    apply (kept_queued _ _ Ha) in HQ; [|exact HQ]. cbv zeta.
  match goal with |- context [if ss_dirty ?y then ?a else ?b] =>
    set (s2 := if ss_dirty y then a else b); set (z := y) in * end.
  assert (E : sessions s2 = <[peer := z]> (sessions s1) /\ aoi_recipients s2 = aoi_recipients s1)
    by (unfold s2; destruct (ss_dirty z); done). clearbody s2. destruct E as [Es Er].
  cbn [snd]. unfold schedule_aoi. rewrite Es, lookup_insert_eq. intros q Hq.
  change (q ∈ {[peer]} ∪ aoi_recipients s2). rewrite Er.
  change (session_has_aoi_work q s2 = true) in Hq.
  destruct (decide (q = peer)) as [->|Hne]; [set_solver|]. apply elem_of_union_r, HQ.
  rewrite <- Hq. symmetry. apply interest_work. by rewrite Es, lookup_insert_ne.
Qed.

Lemma unregister_queued peer s : Queued s -> Queued (unregister_session peer s).2.
Proof.
  intros HQ. unfold unregister_session. destruct (sessions s !! peer) as [x|] eqn:Ex; [|done]. cbv zeta. cbn [snd].
  match goal with |- Queued ?t => set (s1 := t) end.
  assert (E : sessions s1 = delete peer (sessions s) /\ aoi_recipients s1 = aoi_recipients s ∖ {[peer]})
    by (unfold s1; case_decide; done). destruct E as [Es Er]. clearbody s1. intros q Hq. rewrite Er.
  destruct (decide (q = peer)) as [->|Hne].
  { unfold session_has_aoi_work in Hq. by rewrite Es, lookup_delete_eq in Hq. }
  apply elem_of_difference. split; [|set_solver]. apply HQ. rewrite <- Hq. symmetry. apply interest_work.
  by rewrite Es, lookup_delete_ne.
Qed.

Lemma admit_kept ip known now s : Kept s (admit_session ip known now s).2.
Proof.
  unfold admit_session. destruct (bounded_allow _ _ _ _) as [[] l]; cbn [negb]; [|by split].
  destruct known; [destruct (bounded_allow _ _ _ _)|destruct (global_allow _ _)]; by split.
Qed.

Lemma index_kept h pid known now s : Kept s (index_identity h pid known now s).2.
Proof. unfold index_identity. destruct known; case_decide; by split. Qed.

Lemma evict_queued peer pid s : Queued s -> Queued (evict_superseded peer pid s).2.
Proof.
  intros HQ. unfold evict_superseded. destruct (player_peers s !! pid) as [pp|]; [|done]. case_decide; [done|].
  set (r := match peer_addr pp (host s) with Some _ => _ | None => _ end).
  assert (Hr : Queued r.2).
  { unfold r. destruct (peer_addr pp (host s)); [|done]. by destruct (disconnect pp (host s)). }
  clearbody r. destruct r as [[] t]; cbn [negb]; [|exact Hr]. cbn [snd] in Hr.
  pose proof (unregister_queued pp t Hr) as Hu. destruct (unregister_session pp t) as [o t']. exact Hu.
Qed.

Lemma open_queued env peer pid gold h name s : Queued s -> Queued (open_session env peer pid gold h name s).2.
Proof.
  intros HQ. unfold open_session. destruct (subscription_new _) as [sub|]; [|done].
  destruct (recenter _ sub) as [[aoi sub']|]; [|exact HQ]. cbv zeta.
  match goal with |- context [register_session peer ?x ?t] =>
    pose proof (register_queued peer x t HQ) as Hr; destruct (register_session peer x t) as [[u|e] t'] end;
    [|exact Hr]. cbn [snd] in *. apply emit_queued. exact Hr.
Qed.

Lemma on_hello_queued env peer hello s : Queued s -> Queued (on_hello_at env peer hello s).2.
Proof.
  intros HQ. unfold on_hello_at. destruct (limiter_allow _ _ _) as [ok l].
  set (s0 := s <| hello_limiter := l |>). assert (H0 : Queued s0) by exact HQ. clearbody s0. cbv zeta.
  destruct ok; cbn [negb]; [|exact H0]. destruct (check_hello hello s0) as [[token dn]|reason]; [|exact H0].
  destruct (sessions s0 !! peer) as [x|].
  { case_decide; [exact H0|]. pose proof (kept_db (player_balance (wrapS 64 (ss_player_id x))) s0) as Hk.
    destruct (on_db _ s0) as [[b|e] s1]; exact (kept_queued _ _ Hk H0). }
  destruct (peer_addr peer (host s0)) as [a|]; [|exact H0].
  match goal with |- context [admit_session ?ip ?k ?now ?t] => pose proof (admit_kept ip k now t) as H1;
    destruct (admit_session ip k now t) as [ok s1] end.
  apply (fun H => kept_queued _ _ H H0) in H1. cbn [snd] in H1. destruct ok; cbn [negb]; [|exact H1].
  match goal with |- context [on_db ?m s1] => pose proof (kept_db m s1) as H2; destruct (on_db m s1) as [[ad|e] s2] end;
    apply (fun H => kept_queued _ _ H H1) in H2; cbn [snd] in H2; [|exact H2].
  destruct ad as [row|]; [|exact H2]. case_decide; [exact H2|].
  match goal with |- context [index_identity ?h ?p ?k ?now ?t] => pose proof (index_kept h p k now t) as H3;
    destruct (index_identity h p k now t) as [[u|er] s3] end;
    apply (fun H => kept_queued _ _ H H2) in H3; cbn [snd] in H3; [|exact H3].
  pose proof (evict_queued peer (pl_id row) s3 H3) as H4.
  destruct (evict_superseded peer (pl_id row) s3) as [[u'|er] s4]; [|exact H4]. by apply open_queued.
Qed.

Lemma on_disconnect_queued env peer reason s : Queued s -> Queued (on_disconnect env peer reason s).2.
Proof.
  intros HQ. unfold on_disconnect. cbv zeta.
  match goal with |- context [unregister_session peer ?t] => pose proof (unregister_queued peer t HQ) as H1;
    destruct (unregister_session peer t) as [[x|] s1] end; [|exact H1].
  unfold touch_last_seen_for_flush.
  match goal with |- context [on_db ?m ?t] => pose proof (kept_db m t) as H2; destruct (on_db m t) as [[u|e] s2] end;
    exact (kept_queued _ _ H2 H1).
Qed.

Lemma handle_event_queued env ev s : Queued s -> Queued (handle_event env ev s).2.
Proof.
  intros HQ. destruct ev as [peer|peer bytes|peer reason]; cbn [handle_event]; [done| |by apply on_disconnect_queued].
  unfold handle_data_at. destruct (decode_envelope bytes) as [e|]; [|done].
  destruct (env_payload e); try exact HQ; cbn [snd].
  - by apply on_hello_queued.
  - by apply on_client_state_queued.
  - by eapply kept_queued; [apply on_moor_kept|].
  - by eapply kept_queued; [apply on_econ_kept|].
  - by eapply kept_queued; [apply on_chat_kept|].
  - by eapply kept_queued; [apply on_trade_kept|].
Qed.

Lemma handle_events_queued envs i evs s : Queued s -> Queued (handle_events envs i evs s).
Proof.
  revert i s. induction evs as [|ev evs IH]; intros i s HQ; cbn [handle_events]; [done|].
  by apply IH, handle_event_queued.
Qed.
End Handlers.

(** ** What an item of interest work leaves alone

    Everything interest delivery reads, except of the sessions in [X]. *)
Record Frame (X : gset Z) (s s' : Server) : Prop := {
  fr_queue : aoi_recipients s' = aoi_recipients s;
  fr_cursor : aoi_recipient_cursor s' = aoi_recipient_cursor s;
  fr_order : player_order s' = player_order s;
  fr_moorings : moorings (tables (db s')) = moorings (tables (db s));
  fr_faults : faults (db s) = [] -> faults (db s') = [];
  fr_others peer : peer ∉ X -> interest <$> sessions s' !! peer = interest <$> sessions s !! peer
}.

#[global] Instance frame_preorder X : PreOrder (Frame X).
Proof.
  split; [by split|]. intros s1 s2 s3 [? ? ? ? ? H1] [? ? ? ? ? H2]. split; try congruence; [by auto|].
  intros peer Hp. by rewrite H2, H1.
Qed.

Lemma frame_mono X Y s s' : X ⊆ Y -> Frame X s s' -> Frame Y s s'.
Proof. intros HXY [? ? ? ? ? H]. split; try done. intros peer Hp. apply H. set_solver. Qed.

Lemma frame_work X s s' peer : Frame X s s' -> peer ∉ X -> session_has_aoi_work peer s' = session_has_aoi_work peer s.
Proof. intros H Hp. by apply interest_work, H. Qed.

(** Between two ticks of interest delivery: no session may change. *)
Definition Idle : Server -> Server -> Prop := Frame ∅.

Section Items.
Context `{FB : FlatBuffers}.

Lemma frame_send_bounded X peer b s :
  Frame X s (send_bounded peer b s).2 /\ sessions (send_bounded peer b s).2 = sessions s.
Proof. unfold send_bounded. case_decide; (split; [by split|done]). Qed.

Lemma frame_update X peer f s :
  peer ∈ X -> Frame X s (update_session peer f s).
Proof. intros Hp. split; try done. intros q Hq. cbn. by rewrite lookup_alter_ne by set_solver. Qed.

Lemma frame_put X peer y s : peer ∈ X -> Frame X s (s <| sessions ::= <[peer := y]> |>).
Proof. intros Hp. split; try done. intros q Hq. cbn. by rewrite lookup_insert_ne by set_solver. Qed.

Lemma frame_query {A} X (m : M A) s :
  (forall d, let '(r, d') := m d in tables d' = tables d /\ (faults d = [] -> faults d' = [])) ->
  Frame X s (on_db m s).2 /\ sessions (on_db m s).2 = sessions s.
Proof.
  intros Hm. unfold on_db. specialize (Hm (db s)). destruct (m (db s)) as [[a|e] d']; destruct Hm as [Ht Hf];
    (split; [|done]); split; try done; cbn; by rewrite ?Ht.
Qed.

Lemma page_query c z o n d :
  let '(r, d') := moorings_in_cell_after c z o n d in tables d' = tables d /\ (faults d = [] -> faults d' = []).
Proof.
  unfold moorings_in_cell_after, query, stmt. case_decide; [|done].
  destruct o; (destruct (faults d) as [|[] l]; cbn; by split).
Qed.

(** ** The items a session still needs *)

(** The rows of its cell that a hydration has not read. *)
Definition rows_left (t : Tables) (h : CellHydration) : list MooringRow :=
  let rows := cell_rows (cx (hy_cell h)) (cz (hy_cell h)) t in
  match hy_mooring_cursor h with
  | Some after => filter (fun r => after < mo_boat_id r) rows
  | None => rows
  end.

Definition active_cost (s : Server) (h : CellHydration) : nat :=
  ((if hy_players_complete h then 0 else Nat.max 1 (hy_players_remaining h)) +
   length (rows_left (tables (db s)) h) + 1)%nat.

(** The cells still to be described. *)
Definition pending_cells (x : Session) : gset Cell := missing x ∪ ss_hydration_cells x.

Definition interest_cost (s : Server) (x : Session) : nat :=
  ((backlog x + (AOI_CELLS_PER_UPDATE - 1)) / AOI_CELLS_PER_UPDATE +
   sum_list_with (cell_cost s) (elements (pending_cells x)) +
   from_option (active_cost s) 0 (ss_active_hydration x))%nat.

Lemma cell_rows_ext c z t t' : moorings t' = moorings t -> cell_rows c z t' = cell_rows c z t.
Proof. intros E. unfold cell_rows. by rewrite E. Qed.

Lemma sum_list_with_ext {A} (f g : A -> nat) l : (forall a, f a = g a) -> sum_list_with f l = sum_list_with g l.
Proof. intros H. induction l as [|a l IH]; simpl; [done|]. by rewrite H, IH. Qed.

Lemma cost_ext s s' x y :
  player_order s' = player_order s -> moorings (tables (db s')) = moorings (tables (db s)) ->
  interest y = interest x -> interest_cost s' y = interest_cost s x.
Proof.
  intros Ho Hm E. injection E as E1 E2 E3 E4.
  unfold interest_cost, pending_cells, backlog, missing, stale. rewrite E1, E2, E3, E4. f_equal; [f_equal|].
  - apply sum_list_with_ext. intros c. unfold cell_cost. rewrite Ho. by rewrite (cell_rows_ext _ _ _ _ Hm).
  - destruct (ss_active_hydration x) as [h|]; [|done]. cbn. unfold active_cost, rows_left.
    by rewrite (cell_rows_ext _ _ _ _ Hm).
Qed.

Lemma cost_frame X s s' x y : Frame X s s' -> interest y = interest x -> interest_cost s' y = interest_cost s x.
Proof. intros H. apply cost_ext; apply H. Qed.

Lemma sum_subset (f : Cell -> nat) (X Y : gset Cell) :
  X ⊆ Y -> (sum_list_with f (elements X) <= sum_list_with f (elements Y))%nat.
Proof.
  intros H. rewrite (union_difference_L X Y) by done. rewrite elements_disj_union by set_solver.
  rewrite sum_list_with_app. lia.
Qed.

Lemma sum_remove (f : Cell -> nat) c (X : gset Cell) :
  c ∈ X -> sum_list_with f (elements X) = (f c + sum_list_with f (elements (X ∖ {[c]})))%nat.
Proof.
  intros H. rewrite (union_difference_L {[c]} X) at 1 by set_solver.
  rewrite elements_disj_union by set_solver. rewrite elements_singleton. done.
Qed.

Lemma updates_drop b : b <> 0%nat ->
  ((b - AOI_CELLS_PER_UPDATE + (AOI_CELLS_PER_UPDATE - 1)) / AOI_CELLS_PER_UPDATE <
   (b + (AOI_CELLS_PER_UPDATE - 1)) / AOI_CELLS_PER_UPDATE)%nat.
Proof.
  unfold AOI_CELLS_PER_UPDATE. intros Hb. destruct (decide (b < 32)%nat).
  - replace (b - 32)%nat with 0%nat by lia. change ((0 + (32 - 1)) / 32)%nat with 0%nat.
    apply Nat.div_str_pos. lia.
  - replace (b + (32 - 1))%nat with (b - 32 + (32 - 1) + 1 * 32)%nat by lia. rewrite Nat.div_add by done. lia.
Qed.

Lemma publish_cost s x : backlog x <> 0%nat -> (interest_cost s (publish x) < interest_cost s x)%nat.
Proof.
  intros Hb. destruct (publish_spec x) as (_ & _ & Em & _ & Eh & Hac).
  unfold interest_cost. rewrite backlog_publish. pose proof (updates_drop _ Hb) as H1.
  assert (H2 : (sum_list_with (cell_cost s) (elements (pending_cells (publish x))) <=
                sum_list_with (cell_cost s) (elements (pending_cells x)))%nat).
  { apply sum_subset. unfold pending_cells. rewrite Em, Eh. intros c.
    rewrite !elem_of_union, !elem_of_difference. intros [[? _]|[Hc|[? _]]]; [by left| |by right].
    left. apply elem_of_list_to_set in Hc. by apply elem_of_take_rows in Hc. }
  assert (H3 : (from_option (active_cost s) 0 (ss_active_hydration (publish x)) <=
                from_option (active_cost s) 0 (ss_active_hydration x))%nat).
  { destruct (ss_active_hydration (publish x)) as [h|] eqn:E; [|simpl; lia]. by destruct (Hac h eq_refl) as [-> _]. }
  lia.
Qed.

(** [y] has the same cells announced and subscribed as [x]. *)
Definition same_cells (x y : Session) : Prop :=
  ss_published_cells y = ss_published_cells x /\ sub_cells (ss_sub y) = sub_cells (ss_sub x).

(** A session without a backlog is given the cell it is to be told of. *)
Lemma prepare_spec peer s x :
  sessions s !! peer = Some x ->
  let '(o, s') := prepare_cell_hydration peer (size (player_order s)) s in
  Frame {[peer]} s s' /\ exists y, sessions s' !! peer = Some y /\ same_cells x y /\
    match o with
    | None => ss_active_hydration y = None /\ ss_hydration_cells y = ∅
    | Some (cell, cursor, remaining, complete) =>
        (backlog x = 0%nat -> (interest_cost s y <= interest_cost s x)%nat) /\
        exists h, ss_active_hydration y = Some h /\ hy_cell h = cell /\
          hy_players_remaining h = remaining /\ hy_players_complete h = complete
    end.
Proof.
  intros Hx. unfold prepare_cell_hydration. rewrite Hx. cbv zeta.
  set (x1 := match ss_active_hydration x with Some _ => _ | None => _ end).
  assert (H1 : same_cells x x1 /\ ss_hydration_cells x1 = ss_hydration_cells x /\
    (ss_active_hydration x1 = ss_active_hydration x \/ ss_active_hydration x1 = None)).
  { unfold x1. destruct (ss_active_hydration x) as [h|] eqn:Ea;
      [destruct (negb _ || _)|]; (split; [done|]); (split; [done|]); [by right|by left..]. }
  destruct H1 as (Hs1 & Eh1 & Ha1). clearbody x1.
  assert (Hc1 : backlog x = 0%nat -> (interest_cost s x1 <= interest_cost s x)%nat).
  { intros _. destruct Hs1 as [Ep Es]. unfold interest_cost, pending_cells, backlog, missing, stale.
    rewrite Ep, Es, Eh1. destruct Ha1 as [-> | ->]; simpl; lia. }
  destruct (ss_active_hydration x1) as [h|] eqn:Ea.
  { cbn [fmap option_fmap option_map]. rewrite Ea. cbn [fmap option_fmap option_map].
    split; [by apply frame_put, elem_of_singleton|]. exists x1.
    split; [apply lookup_insert_eq|]. split; [done|]. split; [done|]. by exists h. }
  destruct (next_hydration_cell _ _) as [c|] eqn:En.
  2:{ split; [by apply frame_put, elem_of_singleton|]. exists x1. split; [apply lookup_insert_eq|].
      split; [done|]. split; [done|]. destruct (decide (ss_hydration_cells x1 = ∅)) as [|Hne]; [done|].
      destruct (next_hydration_some _ (ss_hydration_cursor x1) Hne) as (c & Ec & _). congruence. }
  cbn [fmap option_fmap option_map]. match goal with |- context [<[peer := ?z]>] => set (y := z) end.
  split; [by apply frame_put, elem_of_singleton|]. exists y. split; [apply lookup_insert_eq|].
  split; [exact Hs1|]. split; [|by eexists].
  intros Hb. specialize (Hc1 Hb). etrans; [|exact Hc1].
  assert (Hc : c ∈ ss_hydration_cells x1).
  { destruct (decide (ss_hydration_cells x1 = ∅)) as [He|Hne].
    - rewrite He in En. unfold next_hydration_cell in En. rewrite elements_empty in En. by destruct (ss_hydration_cursor x1).
    - destruct (next_hydration_some _ (ss_hydration_cursor x1) Hne) as (c' & Ec & ?). congruence. }
  assert (Hm : missing x1 = ∅).
  { destruct Hs1 as [Ep Es]. unfold missing. rewrite Ep, Es. fold (missing x).
    apply leibniz_equiv, size_empty_inv. unfold backlog in Hb. lia. }
  unfold interest_cost, pending_cells. change (missing y) with (missing x1). change (backlog y) with (backlog x1).
  change (ss_hydration_cells y) with (ss_hydration_cells x1 ∖ {[c]}).
  rewrite Hm, !union_empty_l_L, (sum_remove (cell_cost s) c (ss_hydration_cells x1)) by done. rewrite Ea.
  generalize (sum_list_with (cell_cost s) (elements (ss_hydration_cells x1 ∖ {[c]}))).
  generalize ((backlog x1 + (AOI_CELLS_PER_UPDATE - 1)) / AOI_CELLS_PER_UPDATE)%nat. intros B T.
  change (ss_active_hydration y) with (Some (mkHydration c None (size (player_order s)) None
    (bool_decide (size (player_order s) = 0%nat)) false)).
  unfold active_cost, cell_cost, rows_left. cbn [from_option hy_players_complete hy_players_remaining hy_cell hy_mooring_cursor].
  case_bool_decide; lia.
Qed.

(** *** The two kinds of hydration item *)
Definition hydrates (h : CellHydration) (x : Session) : Session := x <| ss_active_hydration := Some h |>.

Lemma update_hydration_at peer f s x h :
  sessions s !! peer = Some x -> ss_active_hydration x = Some h ->
  sessions (update_hydration peer f s) !! peer = Some (hydrates (f h) x).
Proof.
  intros Hx Ha. unfold update_hydration, update_session. cbn. rewrite lookup_alter_eq, Hx. cbn.
  destruct x; cbn in *. by subst.
Qed.

Lemma hydrates_twice h h' x : hydrates h' (hydrates h x) = hydrates h' x.
Proof. by destruct x. Qed.

(** Saying something and noting that it was said. *)
Lemma say_spec peer (bytes : Z -> list Z) (wt wf : AoiTickWork) s x h :
  sessions s !! peer = Some (hydrates h x) ->
  let p :=
    let '(n, s) := next_seq s in
    let '(sent, s) := send_bounded peer (bytes n) s in
    if sent then (wt, update_hydration peer (fun h => h <| hy_sent_any := true |>) s) else (wf, s) in
  Frame {[peer]} s p.2 /\ exists any, sessions p.2 !! peer = Some (hydrates (h <| hy_sent_any := any |>) x).
Proof.
  intros Hx. unfold next_seq. cbv zeta iota beta. set (s1 := s <| sv_seq := _ |>).
  destruct (frame_send_bounded {[peer]} peer (bytes (wrapU 32 (sv_seq s + 1))) s1) as [Hf Es].
  destruct (send_bounded _ _ s1) as [sent s2]. cbn [snd] in *.
  assert (H1 : Frame {[peer]} s s2) by (etrans; [|exact Hf]; by split).
  assert (Hx2 : sessions s2 !! peer = Some (hydrates h x)) by (rewrite Es; exact Hx).
  destruct sent; cbn [snd].
  - split; [etrans; [exact H1|]; by apply frame_update, elem_of_singleton|]. exists true.
    rewrite (update_hydration_at _ _ _ _ _ Hx2 eq_refl). by rewrite hydrates_twice.
  - split; [exact H1|]. exists (hy_sent_any h). by rewrite same_any.
Qed.

Lemma hydrate_players_spec peer cell cur rem w s x h :
  sessions s !! peer = Some x -> ss_active_hydration x = Some h ->
  hy_players_remaining h = rem -> hy_players_complete h = false ->
  let '(b, w', s') := hydrate_players peer cell cur rem w s in
  Frame {[peer]} s s' /\ (b = false -> session_has_aoi_work peer s' = false) /\
  exists h', sessions s' !! peer = Some (hydrates h' x) /\ (active_cost s h' < active_cost s h)%nat.
Proof.
  intros Hx Ha Hr Hc. unfold hydrate_players. destruct (scan_cell _ _ _ _ _ _) as [[found e] l0]. cbv zeta.
  match goal with |- context [update_hydration peer ?g s] => set (f := g) end.
  pose proof (update_hydration_at peer f s x h Hx Ha) as Hx1.
  assert (H1 : Frame {[peer]} s (update_hydration peer f s)) by (by apply frame_update, elem_of_singleton).
  set (s1 := update_hydration peer f s) in *. clearbody s1.
  set (h1 := f h) in *.
  assert (Hcost : forall any, (active_cost s (h1 <| hy_sent_any := any |>) < active_cost s h)%nat).
  { intros any. unfold active_cost, rows_left, h1, f. cbn. rewrite Hc, Hr. cbn.
    destruct (decide (e = 0%nat)) as [->|He]; [rewrite (bool_decide_true (0%nat = 0%nat)) by done;
      rewrite orb_true_r; cbn; lia|].
    destruct (decide ((rem - e)%nat = 0%nat)) as [Hz|Hz]; [rewrite (bool_decide_true (_ = _)) by done; cbn; lia|].
    rewrite !bool_decide_false by done. cbn. lia. }
  clearbody h1.
  lazymatch goal with |- match ?t with _ => _ end =>
    lazymatch t with match ?q with _ => _ end => set (p := q) end end.
  assert (Hp : Frame {[peer]} s1 p.2 /\
    exists any, sessions p.2 !! peer = Some (hydrates (h1 <| hy_sent_any := any |>) x)).
  { unfold p. destruct (player_snap <$> found), (boats_of found);
      [split; [done|]; exists (hy_sent_any h1); by rewrite same_any|
       apply (say_spec peer (fun n => cell_snapshot n cell _ _ []) _ _ s1 x h1 Hx1)..]. }
  destruct p as [w2 s2]. cbn [snd] in Hp. destruct Hp as [H2 (any & Hx2)].
  assert (H : Frame {[peer]} s s2) by (by etrans).
  match goal with |- context [if negb ?b then _ else _] => destruct b end; cbn [negb];
    (split; [exact H|]); (split; [done|]); eexists; (split; [exact Hx2|apply Hcost]).
Qed.

(** One row of the next page is unread. *)
Lemma page_rows s h :
  faults (db s) = [] ->
  on_db (moorings_in_cell_after (cx (hy_cell h)) (cz (hy_cell h)) (hy_mooring_cursor h)
           (Z.min CELL_MOORINGS_PER_PACKET MAX_MOORINGS_PAGE_ROWS)) s =
    (Ok (take 1 (rows_left (tables (db s)) h)), s).
Proof.
  intros Hf. unfold on_db, moorings_in_cell_after, rows_left, query. rewrite decide_True by (vm_compute; by split).
  destruct (db s) as [t f] eqn:Ed. cbn in Hf. subst f.
  assert (Es : s <| db := mkDb t [] |> = s) by (destruct s; cbn in *; by subst).
  destruct (hy_mooring_cursor h) as [a|]; rewrite stmt_run; cbn [tables]; by rewrite Es.
Qed.

Lemma rows_after t h row rr any :
  rows_left t h = row :: rr ->
  (length (rows_left t (h <| hy_mooring_cursor := Some (mo_boat_id row) |> <| hy_sent_any := any |>)) <
   length (rows_left t h))%nat.
Proof.
  intros E. set (new := rows_left t (h <| hy_mooring_cursor := Some (mo_boat_id row) |> <| hy_sent_any := any |>)).
  assert (En : new = filter (fun r => mo_boat_id row < mo_boat_id r) rr).
  { transitivity (filter (fun r => mo_boat_id row < mo_boat_id r) (rows_left t h)).
    2:{ rewrite E, filter_cons, decide_False by lia. done. }
    unfold new, rows_left in *. cbn. destruct (hy_mooring_cursor h) as [a|]; [|done].
    assert (Ha : row ∈ filter (fun r => a < mo_boat_id r) (cell_rows (cx (hy_cell h)) (cz (hy_cell h)) t))
      by (rewrite E; by left).
    apply list_elem_of_filter in Ha as [Ha _]. rewrite list_filter_filter. apply list_filter_iff. intros r. lia. }
  rewrite En, E. simpl. pose proof (length_filter (fun r => mo_boat_id row < mo_boat_id r) rr). lia.
Qed.

Lemma hydrate_moorings_spec peer w s x h :
  sessions s !! peer = Some x -> ss_active_hydration x = Some h -> hy_players_complete h = true ->
  faults (db s) = [] ->
  let '(r, w', s') := hydrate_moorings peer (hy_cell h) w s in
  (exists b, r = Ok b) /\
  exists y, sessions s' !! peer = Some y /\
    ((exists h', y = hydrates h' x /\ (active_cost s h' < active_cost s h)%nat) \/
     y = x <| ss_active_hydration := None |>).
Proof.
  intros Hx Ha Hc Hf. unfold hydrate_moorings, active_hydration_of. rewrite Hx. cbn [mbind option_bind].
  rewrite Ha. cbn [mbind option_bind]. rewrite page_rows by done.
  destruct (rows_left (tables (db s)) h) as [|row rr] eqn:Er; cbn [take]; cbv zeta.
  - lazymatch goal with |- context [let '(_, _) := ?q in (Ok (session_has_aoi_work _ _), _, _)] => set (p := q) end.
    assert (Hp : sessions p.2 = sessions s).
    { unfold p. match goal with |- context [if ?b then (_, s) else _] => destruct b end; [done|].
      unfold next_seq. cbv zeta iota beta. set (s1 := s <| sv_seq := _ |>).
      match goal with |- context [send_bounded peer ?b s1] =>
        destruct (frame_send_bounded ∅ peer b s1) as [_ Es]; destruct (send_bounded peer b s1) as [sent s2] end.
      cbn [snd] in *. rewrite Es. by destruct sent. }
    destruct p as [w2 s2]. cbn [snd] in Hp. split; [by eexists|]. eexists. cbn.
    rewrite lookup_alter_eq, Hp, Hx. split; [reflexivity|]. by right.
  - set (g := fun h => h <| hy_mooring_cursor := Some (mo_boat_id row) |>).
    pose proof (update_hydration_at peer g s x h Hx Ha) as Hx1. set (s1 := update_hydration peer g s) in *.
    clearbody s1. set (h1 := g h) in *.
    assert (Hcost : forall any, (active_cost s (h1 <| hy_sent_any := any |>) < active_cost s h)%nat).
    { intros any. pose proof (rows_after _ _ _ _ any Er) as H. unfold active_cost, h1, g. cbn -[rows_left] in *. lia. }
    clearbody h1. case_decide.
    + pose proof (say_spec peer (fun n => cell_snapshot n (hy_cell h) [] [] [mooring_snap row])
        (w <| ao_persisted_queries ::= S |> <| ao_packets ::= S |> <| ao_moorings_encoded ::= S |>)
        (w <| ao_persisted_queries ::= S |>) s1 x h1 Hx1) as H1. cbv beta zeta in H1.
      destruct (next_seq s1) as [n s2]. destruct (send_bounded _ _ s2) as [[] s3]; destruct H1 as [_ (any & H1)];
        (split; [by eexists|]); eexists; (split; [exact H1|]); left; eexists;
        (split; [reflexivity|apply Hcost]).
    + split; [by eexists|]. exists (hydrates h1 x). split; [exact Hx1|]. left. exists h1. split; [done|].
      specialize (Hcost (hy_sent_any h1)). by rewrite same_any in Hcost.
Qed.

(** An item that asks for no more leaves nothing to do. *)
Definition settles (peer : Z) (r : result SrvError bool) (s : Server) : Prop :=
  match r with
  | Ok more => more = false -> session_has_aoi_work peer s = false
  | Err _ => True
  end.

Lemma settles_work peer s : settles peer (Ok (session_has_aoi_work peer s)) s.
Proof. exact (fun E => E). Qed.

Lemma hydrate_moorings_frame peer cell w s :
  let '(r, w', s') := hydrate_moorings peer cell w s in
  Frame {[peer]} s s' /\ settles peer r s'.
Proof.
  unfold hydrate_moorings. cbv zeta.
  match goal with |- context [on_db ?m s] =>
    destruct (frame_query {[peer]} m s (page_query _ _ _ _)) as [H1 _]; destruct (on_db m s) as [[rows|e] s1] end;
    cbn [snd] in H1; [|by split].
  assert (Hp : peer ∈ ({[peer]} : gset Z)) by (by apply elem_of_singleton).
  assert (Hsay : forall bytes n t, Frame {[peer]} s t ->
    Frame {[peer]} s (send_bounded peer bytes (t <| sv_seq := n |>)).2).
  { intros bytes n t Ht. etrans; [exact Ht|]. etrans; [|apply frame_send_bounded]. by split. }
  unfold next_seq. cbv zeta iota beta. destruct rows as [|row rows].
  - match goal with |- context [if ?b then (_, s1) else _] => destruct b end.
    + split; [|apply settles_work]. etrans; [exact H1|]. by apply frame_update.
    + match goal with |- context [send_bounded peer ?b (s1 <| sv_seq := ?n |>)] => pose proof (Hsay b n s1 H1) as H2;
        destruct (send_bounded peer b _) as [sent s2] end. cbn [snd] in H2.
      split; [|apply settles_work]. etrans; [exact H2|]. by apply frame_update.
  - match goal with |- context [update_hydration peer ?f s1] =>
      assert (H2 : Frame {[peer]} s (update_hydration peer f s1)) by (etrans; [exact H1|by apply frame_update]);
      set (s2 := update_hydration peer f s1) in *; clearbody s2 end.
    case_decide; [|by split].
    match goal with |- context [send_bounded peer ?b (s2 <| sv_seq := ?n |>)] => pose proof (Hsay b n s2 H2) as H3;
      destruct (send_bounded peer b _) as [[] s3] end; cbn [snd] in H3; (split; [|done]); [|exact H3].
    etrans; [exact H3|]. by apply frame_update.
Qed.

(** ** One item *)

(** The chunk, if there is a backlog. *)
Lemma chunk_cases peer s x :
  sessions s !! peer = Some x ->
  backlog x = 0%nat /\ next_aoi_chunk peer s = (None, s) \/
  backlog x <> 0%nat /\ exists a r, next_aoi_chunk peer s = (Some (a, r), s <| sessions ::= <[peer := publish x]> |>).
Proof.
  intros Hx. rewrite next_aoi_chunk_eq, Hx.
  destruct (decide (backlog x = 0%nat)) as [Hb|Hb].
  - left. split; [done|].
    assert (Er : chunk_removed x = []).
    { apply length_zero_iff_nil. unfold chunk_removed. rewrite length_take, length_by_row. unfold backlog in Hb. lia. }
    assert (Ea : chunk_added x = []).
    { apply length_zero_iff_nil. unfold chunk_added. rewrite length_take, length_by_row. unfold backlog in Hb. lia. }
    by rewrite Er, Ea.
  - right. split; [done|]. destruct (chunk_added x) as [|a la] eqn:Ea, (chunk_removed x) as [|r lr] eqn:Er;
      [|by do 2 eexists..]. destruct Hb. by apply chunk_empty.
Qed.

(** Whatever fails, an item keeps to its session, and a session that it does not
    ask to see again has nothing left. *)
Lemma item_frame peer w s :
  is_Some (sessions s !! peer) ->
  let '(r, w', s') := process_one_aoi_work peer w s in
  Frame {[peer]} s s' /\ settles peer r s'.
Proof.
  intros [x Hx]. unfold process_one_aoi_work.
  destruct (chunk_cases peer s x Hx) as [[_ ->]|(_ & a & r & ->)].
  - pose proof (prepare_spec peer s x Hx) as Hp.
    destruct (prepare_cell_hydration _ _ _) as [[[[[cell pc] pr] pcm]|] s1]; destruct Hp as (H1 & y & Hy & Hs & Hp).
    2:{ split; [exact H1|apply settles_work]. }
    destruct Hp as (_ & h & Ha & Hc & Hr & Hcm). destruct pcm; cbn [negb].
    + pose proof (hydrate_moorings_frame peer cell w s1) as H2.
      destruct (hydrate_moorings _ _ _ _) as [[r w2] s2]. destruct H2 as [H2 H3]. split; [by etrans|exact H3].
    + pose proof (hydrate_players_spec peer cell pc pr w s1 y h Hy Ha Hr Hcm) as H2.
      destruct (hydrate_players _ _ _ _ _ _) as [[b w2] s2]. destruct H2 as (H2 & H3 & _).
      split; [by etrans|exact H3].
  - unfold next_seq. cbv zeta iota beta. set (s1 := s <| sessions ::= _ |> <| sv_seq := _ |>).
    match goal with |- context [send_bounded peer ?b s1] =>
      destruct (frame_send_bounded {[peer]} peer b s1) as [H1 _]; destruct (send_bounded peer b s1) as [sent s2] end.
    cbn [snd] in H1. split; [|apply settles_work]. etrans; [|exact H1].
    etrans; [by apply (frame_put _ peer (publish x)), elem_of_singleton|by split].
Qed.

(** The cost of a session is zero exactly when nothing is left. *)
Lemma cost_zero peer s x :
  sessions s !! peer = Some x -> interest_cost s x = 0%nat <-> session_has_aoi_work peer s = false.
Proof.
  intros Hx. unfold session_has_aoi_work. rewrite Hx, !orb_false_iff, !bool_decide_eq_false. split.
  - intros H. unfold interest_cost in H.
    assert (Hb : backlog x = 0%nat).
    { destruct (decide (backlog x = 0%nat)) as [|Hb]; [done|]. pose proof (updates_drop _ Hb). lia. }
    pose proof (backlog_zero x Hb) as Hp. split_and!; intros Hn; apply Hn; [exact Hp| |].
    + destruct (ss_active_hydration x) as [h|]; [|done]. cbn in H. unfold active_cost in H. lia.
    + assert (Hs : sum_list_with (cell_cost s) (elements (pending_cells x)) = 0%nat) by lia.
      apply set_eq. intros c. split; [|by intros ?%elem_of_empty]. intros Hc.
      rewrite (sum_remove _ c) in Hs by (unfold pending_cells; set_solver). unfold cell_cost in Hs. lia.
  - intros [[Hp Ha] Hh]. apply dec_stable in Hp, Ha, Hh. unfold interest_cost, pending_cells, backlog, missing, stale.
    by rewrite Hp, Ha, Hh, !difference_diag_L, union_empty_l_L, elements_empty.
Qed.

Lemma hydrates_cost s x h h' :
  ss_active_hydration x = Some h -> (active_cost s h' < active_cost s h)%nat ->
  (interest_cost s (hydrates h' x) < interest_cost s x)%nat.
Proof.
  intros Ha H. unfold interest_cost. rewrite Ha. change (pending_cells (hydrates h' x)) with (pending_cells x).
  change (backlog (hydrates h' x)) with (backlog x). cbn -[Nat.div]. lia.
Qed.

Lemma finished_cost s x h :
  ss_active_hydration x = Some h -> (interest_cost s (x <| ss_active_hydration := None |>) < interest_cost s x)%nat.
Proof.
  intros Ha. unfold interest_cost. rewrite Ha. set (y := x <| ss_active_hydration := None |>).
  change (pending_cells y) with (pending_cells x). change (backlog y) with (backlog x).
  cbn -[Nat.div]. unfold active_cost. lia.
Qed.

Lemma frame_active_cost X s s' h : Frame X s s' -> active_cost s' h = active_cost s h.
Proof. intros H. unfold active_cost, rows_left. by rewrite (cell_rows_ext _ _ _ _ (fr_moorings _ _ _ H)). Qed.

(** On a database that does not fail, an item brings a session with work closer to
    having none, and leaves one without as it is. *)
Lemma item_progress peer w s x :
  sessions s !! peer = Some x -> faults (db s) = [] ->
  let '(r, w', s') := process_one_aoi_work peer w s in
  (exists b, r = Ok b) /\
  exists y, sessions s' !! peer = Some y /\ sub_cells (ss_sub y) = sub_cells (ss_sub x) /\
    (interest_cost s y <= interest_cost s x - 1)%nat.
Proof.
  intros Hx Hf.
  unfold process_one_aoi_work. destruct (chunk_cases peer s x Hx) as [[Hb ->]|(Hb & a & r & ->)].
  - pose proof (prepare_spec peer s x Hx) as Hp.
    destruct (prepare_cell_hydration _ _ _) as [[[[[cell pc] pr] pcm]|] s1]; destruct Hp as (H1 & y & Hy & Hs & Hp).
    2:{ split; [by eexists|]. exists y. split; [done|]. destruct Hp as [Ha Hh]. destruct Hs as [Ep Es]. split; [done|].
        assert (Ez : interest_cost s y = 0%nat); [|lia].
        unfold interest_cost, pending_cells, backlog, missing, stale. rewrite Ha, Hh, Ep, Es.
        unfold backlog in Hb. assert (Em : missing x = ∅) by (apply leibniz_equiv, size_empty_inv; lia).
        fold (stale x) (missing x). by rewrite Hb, Em, union_empty_l_L, elements_empty. }
    destruct Hp as (Hle & h & Ha & Hc & Hr & Hcm). specialize (Hle Hb). destruct pcm; cbn [negb].
    + pose proof (hydrate_moorings_spec peer w s1 y h Hy Ha Hcm (fr_faults _ _ _ H1 Hf)) as H2. rewrite Hc in H2.
      destruct (hydrate_moorings _ _ _ _) as [[r w2] s2]. destruct H2 as (Hok & z & Hz & Hcz). split; [exact Hok|].
      exists z. split; [exact Hz|]. destruct Hcz as [(h' & -> & Hlt)| ->]; (split; [apply Hs|]).
      * rewrite !(frame_active_cost _ _ _ _ H1) in Hlt. pose proof (hydrates_cost s y h h' Ha Hlt). lia.
      * pose proof (finished_cost s y h Ha). lia.
    + pose proof (hydrate_players_spec peer cell pc pr w s1 y h Hy Ha Hr Hcm) as H2.
      destruct (hydrate_players _ _ _ _ _ _) as [[b w2] s2]. destruct H2 as (_ & _ & h' & Hz & Hlt).
      split; [by eexists|]. eexists. split; [exact Hz|]. split; [apply Hs|]. rewrite !(frame_active_cost _ _ _ _ H1) in Hlt.
      pose proof (hydrates_cost s y h h' Ha Hlt). lia.
  - unfold next_seq. cbv zeta iota beta. set (s1 := s <| sessions ::= _ |> <| sv_seq := _ |>).
    match goal with |- context [send_bounded peer ?b s1] =>
      destruct (frame_send_bounded {[peer]} peer b s1) as [_ Es]; destruct (send_bounded peer b s1) as [sent s2] end.
    cbn [snd] in Es. split; [by eexists|]. exists (publish x). split; [rewrite Es; unfold s1; cbn; apply lookup_insert_eq|].
    destruct (publish_spec x) as ((_ & _ & _ & ->) & _). split; [done|]. pose proof (publish_cost s x Hb). lia.
Qed.

(** ** One visit, and the visits of a tick *)

(** Like [Frame], but the queue may change for the sessions in [X]. *)
Record Moved (X : gset Z) (s s' : Server) : Prop := {
  mv_cursor : aoi_recipient_cursor s' = aoi_recipient_cursor s;
  mv_order : player_order s' = player_order s;
  mv_moorings : moorings (tables (db s')) = moorings (tables (db s));
  mv_faults : faults (db s) = [] -> faults (db s') = [];
  mv_others peer : peer ∉ X -> interest <$> sessions s' !! peer = interest <$> sessions s !! peer;
  mv_queue peer : peer ∉ X -> peer ∈ aoi_recipients s' <-> peer ∈ aoi_recipients s
}.

Lemma frame_moved X s s' : Frame X s s' -> Moved X s s'.
Proof. intros [E ? ? ? ? ?]. split; try done. intros peer _. by rewrite E. Qed.

Lemma moved_trans X s1 s2 s3 : Moved X s1 s2 -> Moved X s2 s3 -> Moved X s1 s3.
Proof.
  intros [? ? ? ? H1 Q1] [? ? ? ? H2 Q2]. split; try congruence; [by auto| |]; intros peer Hp.
  - by rewrite H2, H1.
  - by rewrite Q2, Q1.
Qed.

Lemma moved_mono X Y s s' : X ⊆ Y -> Moved X s s' -> Moved Y s s'.
Proof. intros HXY [? ? ? ? H Q]. split; try done; intros peer Hp; [apply H|apply Q]; set_solver. Qed.

Lemma queue_moved X s q : (forall p, p ∉ X -> p ∈ q <-> p ∈ aoi_recipients s) -> Moved X s (s <| aoi_recipients := q |>).
Proof. intros H. by split. Qed.

Lemma moved_cost X s s' x y : Moved X s s' -> interest y = interest x -> interest_cost s' y = interest_cost s x.
Proof. intros H. apply cost_ext; apply H. Qed.

Lemma visit_moved peer w s : Moved {[peer]} s (aoi_visit peer w s).2.
Proof.
  unfold aoi_visit. cbv zeta. set (s1 := s <| aoi_recipients ::= _ |>).
  assert (H1 : Moved {[peer]} s s1) by (apply queue_moved; set_solver).
  destruct (sessions s1 !! peer) as [x|] eqn:Ex; [|exact H1].
  pose proof (item_frame peer (w <| ao_recipient_visits ::= S |>) s1 (mk_is_Some _ _ Ex)) as H2.
  destruct (process_one_aoi_work _ _ s1) as [[r w2] s2]. destruct H2 as [H2 _]. apply frame_moved in H2.
  assert (H3 : Moved {[peer]} s s2) by (by eapply moved_trans).
  cbn [snd]. match goal with |- context [if ?b then _ else _] => destruct b end; [|exact H3].
  eapply moved_trans; [exact H3|]. unfold schedule_aoi. case_match; [|by split]. apply queue_moved. set_solver.
Qed.

Lemma visit_queued peer w s : Queued s -> Queued (aoi_visit peer w s).2.
Proof.
  intros HQ q Hq. pose proof (visit_moved peer w s) as HM. destruct (decide (q = peer)) as [->|Hne].
  - revert Hq. unfold aoi_visit. cbv zeta. set (s1 := s <| aoi_recipients ::= _ |>).
    destruct (sessions s1 !! peer) as [x|] eqn:Ex.
    2:{ unfold session_has_aoi_work. cbn [snd]. by rewrite Ex. }
    pose proof (item_frame peer (w <| ao_recipient_visits ::= S |>) s1 (mk_is_Some _ _ Ex)) as H2.
    destruct (process_one_aoi_work _ _ s1) as [[r w2] s2]. destruct H2 as [_ H2]. cbn [snd].
    assert (Hsch : session_has_aoi_work peer s2 = true -> peer ∈ aoi_recipients (schedule_aoi peer s2)).
    { unfold schedule_aoi, session_has_aoi_work. destruct (sessions s2 !! peer); [|done]. cbn. set_solver. }
    assert (Hsame : session_has_aoi_work peer (schedule_aoi peer s2) = session_has_aoi_work peer s2)
      by (unfold schedule_aoi; by case_match).
    destruct r as [[]|e]; rewrite ?Hsame; [exact Hsch| |exact Hsch]. intros Hq. by rewrite (H2 eq_refl) in Hq.
  - apply (mv_queue _ _ _ HM); [set_solver|]. apply HQ. rewrite <- Hq. symmetry. apply interest_work.
    apply (mv_others _ _ _ HM). set_solver.
Qed.

Lemma visit_cost peer w s x :
  sessions s !! peer = Some x -> faults (db s) = [] ->
  exists y, sessions (aoi_visit peer w s).2 !! peer = Some y /\ sub_cells (ss_sub y) = sub_cells (ss_sub x) /\
    (interest_cost s y <= interest_cost s x - 1)%nat.
Proof.
  intros Hx Hf. unfold aoi_visit. cbv zeta. set (s1 := s <| aoi_recipients ::= _ |>).
  change (sessions s1) with (sessions s). rewrite Hx.
  pose proof (item_progress peer (w <| ao_recipient_visits ::= S |>) s1 x Hx Hf) as H.
  destruct (process_one_aoi_work _ _ s1) as [[r w2] s2]. destruct H as (_ & y & Hy & Hs & Hlt). exists y. cbn [snd].
  split; [|by split]. match goal with |- context [if ?b then _ else _] => destruct b end; [|exact Hy].
  unfold schedule_aoi. by rewrite Hy.
Qed.

Lemma each_moved l w s : Moved (list_to_set l) s (each aoi_visit l w s).2.
Proof.
  unfold each. revert w s. induction l as [|p l IH]; intros w s; cbn [fold_left list_to_set]; [by split|].
  pose proof (visit_moved p w s) as H1. destruct (aoi_visit p w s) as [w1 s1]. cbn [snd] in H1.
  eapply moved_trans; [|eapply moved_mono; [|apply IH]; set_solver]. eapply moved_mono; [|exact H1]. set_solver.
Qed.

Lemma each_queued l w s : Queued s -> Queued (each aoi_visit l w s).2.
Proof.
  unfold each. revert w s. induction l as [|p l IH]; intros w s HQ; cbn [fold_left]; [done|].
  pose proof (visit_queued p w s HQ) as H1. destruct (aoi_visit p w s) as [w1 s1]. by apply IH.
Qed.

Lemma each_cost l w s peer x :
  sessions s !! peer = Some x -> faults (db s) = [] ->
  exists y, sessions (each aoi_visit l w s).2 !! peer = Some y /\ sub_cells (ss_sub y) = sub_cells (ss_sub x) /\
    (interest_cost s y <= interest_cost s x - (if decide (peer ∈ l) then 1 else 0))%nat.
Proof.
  unfold each. revert w s x. induction l as [|p l IH]; intros w s x Hx Hf; cbn [fold_left].
  { exists x. split; [done|]. split; [done|]. rewrite decide_False by (by apply not_elem_of_nil). lia. }
  pose proof (visit_moved p w s) as HM. pose proof (mv_faults _ _ _ HM Hf) as Hf1.
  assert (H1 : exists z, sessions (aoi_visit p w s).2 !! peer = Some z /\ sub_cells (ss_sub z) = sub_cells (ss_sub x) /\
    (interest_cost s z <= interest_cost s x - (if decide (peer = p) then 1 else 0))%nat).
  { destruct (decide (peer = p)) as [<-|E]; [by apply visit_cost|].
    pose proof (mv_others _ _ _ HM peer ltac:(set_solver)) as Ei. rewrite Hx in Ei.
    destruct (sessions (aoi_visit p w s).2 !! peer) as [z|] eqn:Ez; [|done]. exists z. split; [done|].
    apply (inj Some) in Ei. split; [exact (f_equal (fun t => t.1.1.2) Ei)|]. rewrite (cost_frame ∅ s s x z) by done. lia. }
  destruct H1 as (z & Hz & Hsz & Hcz). destruct (aoi_visit p w s) as [w1 s1]. cbn [snd] in *.
  destruct (IH w1 s1 z Hz Hf1) as (y & Hy & Hsy & Hcy). exists y. split; [exact Hy|]. split; [congruence|].
  rewrite (moved_cost {[p]} s s1 y y HM eq_refl), (moved_cost {[p]} s s1 z z HM eq_refl) in Hcy.
  destruct (decide (peer ∈ p :: l)) as [[->|Hl]%elem_of_cons|_]; [|rewrite (decide_True (P := peer ∈ l)) in Hcy by done; lia|lia].
  rewrite decide_True in Hcz by done. lia.
Qed.

(** ** Interest delivery of one tick *)

Definition aoi_visits (s : Server) : list Z :=
  ordered_peers_after (aoi_recipients s) (aoi_recipient_cursor s) AOI_WORK_ITEMS_PER_TICK.

Lemma ordered_in X c n p : p ∈ ordered_peers_after X c n -> p ∈ X.
Proof.
  unfold ordered_peers_after. rewrite ordered_after_rot. intros H. apply elem_of_take in H as (i & Hi & _).
  apply list_elem_of_lookup_2 in Hi. rewrite (rot_Permutation _ _ (btree_lt _)) in Hi. by apply elem_of_btree_iter in Hi.
Qed.

Record Worked (s s' : Server) : Prop := {
  wk_cursor : aoi_recipient_cursor s' = next_cursor (aoi_recipient_cursor s) (aoi_visits s);
  wk_queue : aoi_recipients s' ⊆ aoi_recipients s;
  wk_order : player_order s' = player_order s;
  wk_moorings : moorings (tables (db s')) = moorings (tables (db s));
  wk_faults : faults (db s) = [] -> faults (db s') = [];
  wk_queued : Queued s -> Queued s';
  wk_cost peer x : sessions s !! peer = Some x -> faults (db s) = [] ->
    exists y, sessions s' !! peer = Some y /\ sub_cells (ss_sub y) = sub_cells (ss_sub x) /\
      (interest_cost s y <= interest_cost s x - (if decide (peer ∈ aoi_visits s) then 1 else 0))%nat
}.

Lemma process_worked s : Worked s (process_aoi_work s).2.
Proof.
  unfold process_aoi_work. cbv zeta. fold (aoi_visits s).
  set (s0 := match list.last (aoi_visits s) with Some l => s <| aoi_recipient_cursor := Some l |> | None => s end).
  assert (E : s0 = s <| aoi_recipient_cursor := next_cursor (aoi_recipient_cursor s) (aoi_visits s) |>).
  { unfold s0, next_cursor. destruct (list.last (aoi_visits s)); [done|by destruct s]. }
  rewrite E. clear s0 E. set (s0 := s <| aoi_recipient_cursor := _ |>).
  match goal with |- context [each aoi_visit _ ?w s0] =>
    pose proof (each_moved (aoi_visits s) w s0) as HM; pose proof (each_queued (aoi_visits s) w s0) as HQ;
    pose proof (each_cost (aoi_visits s) w s0) as HC; set (s' := (each aoi_visit (aoi_visits s) w s0).2) in * end.
  clearbody s'. destruct HM as [E1 E2 E3 Hf _ Hq]. split; try done. intros peer Hp.
  destruct (decide (peer ∈ aoi_visits s)) as [Hv|Hv]; [by apply ordered_in in Hv|].
  apply (Hq peer); [by rewrite elem_of_list_to_set|exact Hp].
Qed.

(** ** Rounds over a shrinking queue

    Every peer of the queue has fewer than so many peers before it; each tick that
    does not reach it takes eight away. *)
Definition ahead (p : Z) (k : nat) (queue : gset Z) (cursor : option Z) : Prop :=
  exists u v, rot cursor (btree_iter Z.le queue) = u ++ p :: v /\ (length u < k)%nat.

Lemma ahead_start p queue cursor : p ∈ queue -> ahead p (size queue) queue cursor.
Proof.
  intros Hp. assert (Hin : p ∈ rot cursor (btree_iter Z.le queue)).
  { rewrite (rot_Permutation _ _ (btree_lt _)). by apply elem_of_btree_iter. }
  apply list_elem_of_split in Hin as (u & v & E). exists u, v. split; [done|].
  apply (f_equal length) in E. rewrite (rot_Permutation _ _ (btree_lt _)), length_btree_iter, length_app in E.
  cbn in E. lia.
Qed.

Lemma sorted_filter (P : Z -> Prop) `{!forall x, Decision (P x)} l :
  StronglySorted Z.lt l -> StronglySorted Z.lt (filter P l).
Proof.
  induction 1 as [|a l _ IH Ha]; [constructor|]. rewrite filter_cons. case_decide; [|done].
  constructor; [done|]. apply Forall_forall. intros x [_ Hx]%list_elem_of_filter.
  rewrite Forall_forall in Ha. by apply Ha.
Qed.

Lemma btree_subset (X Y : gset Z) : X ⊆ Y -> btree_iter Z.le X = filter (.∈ X) (btree_iter Z.le Y).
Proof.
  intros H. assert (AntiSymm (=) Z.lt) by (intros ? ? ? ?; lia). apply (StronglySorted_unique Z.lt).
  - apply btree_lt.
  - apply sorted_filter, btree_lt.
  - apply NoDup_Permutation; [apply NoDup_btree_iter|apply NoDup_filter, NoDup_btree_iter|].
    intros x. rewrite list_elem_of_filter, !elem_of_btree_iter. set_solver.
Qed.

Lemma rot_filter c (P : Z -> Prop) `{!forall x, Decision (P x)} l : rot c (filter P l) = filter P (rot c l).
Proof.
  destruct c as [c|]; [|done]. unfold rot. rewrite filter_app, !list_filter_filter.
  f_equal; apply list_filter_iff; intros x; tauto.
Qed.

Lemma ahead_step n p k queue cursor queue' :
  (0 < n)%nat -> ahead p k queue cursor ->
  let visits := ordered_peers_after queue cursor n in
  p ∈ visits \/
  (queue' ⊆ queue -> p ∈ queue' -> ahead p (k - n) queue' (next_cursor cursor visits)).
Proof.
  intros Hn (u & v & E & Hu) visits. unfold visits, ordered_peers_after. rewrite ordered_after_rot.
  assert (Hl : (length u < size queue)%nat).
  { apply (f_equal length) in E. rewrite (rot_Permutation _ _ (btree_lt _)), length_btree_iter, length_app in E.
    cbn in E. lia. }
  destruct (decide (length u < Nat.min n (size queue))%nat) as [Hlt|Hge].
  { left. rewrite E, take_app_ge by lia. apply elem_of_app. right.
    destruct (Nat.min n (size queue) - length u)%nat eqn:Em; [lia|]. by left. }
  right. intros Hsub Hp. replace (Nat.min n (size queue)) with n by lia.
  rewrite E, take_app_le by lia. rewrite <- (take_drop n u) in E.
  destruct (list.last (take n u)) as [c'|] eqn:El.
  2:{ apply last_None in El. apply (f_equal length) in El. rewrite length_take in El. cbn in El. lia. }
  unfold next_cursor. rewrite El. apply last_Some in El as [u' Eu]. rewrite Eu, <- !app_assoc in E. cbn [app] in E.
  apply rot_advance in E; [|apply btree_lt].
  unfold ahead. rewrite (btree_subset _ _ Hsub), rot_filter, E, <- app_assoc. cbn [app]. rewrite filter_app, filter_cons_True by done.
  do 2 eexists. split; [reflexivity|]. pose proof (length_filter (.∈ queue') (drop n u)). rewrite length_drop in *. lia.
Qed.
End Items.

(** ** A period of ticks between which nothing stirs *)
Section Period.
Context `{FB : FlatBuffers}.
Variable ss : nat -> Server.
Variable N : nat.
Context (Hidle : forall i, (i < N)%nat -> Idle (process_aoi_work (ss i)).2 (ss (S i))).
Context (Hfaults : faults (db (ss 0%nat)) = []) (Hqueued : Queued (ss 0%nat)).

Lemma idle_kept s s' : Idle s s' -> Kept s s'.
Proof.
  intros H. split; [|apply H]. apply map_eq. intros peer. rewrite !lookup_fmap. apply H. apply not_elem_of_empty.
Qed.

Lemma period_state i :
  (i <= N)%nat ->
  faults (db (ss i)) = [] /\ Queued (ss i) /\ aoi_recipients (ss i) ⊆ aoi_recipients (ss 0%nat) /\
  player_order (ss i) = player_order (ss 0%nat) /\
  moorings (tables (db (ss i))) = moorings (tables (db (ss 0%nat))).
Proof.
  induction i as [|i IH]; intros Hi; [done|]. destruct IH as (Hf & HQ & Hs & Ho & Hm); [lia|].
  pose proof (process_worked (ss i)) as [_ Wq Wo Wm Wf WQ _]. pose proof (Hidle i ltac:(lia)) as HI.
  pose proof (idle_kept _ _ HI) as HK. destruct HI as [Eq _ Eo Em Ef _].
  split_and!; [auto|by eapply kept_queued; [exact HK|auto]|rewrite Eq; by etrans|congruence|congruence].
Qed.

Lemma round_cursor i :
  (i < N)%nat -> aoi_recipient_cursor (ss (S i)) = next_cursor (aoi_recipient_cursor (ss i)) (aoi_visits (ss i)).
Proof. intros Hi. rewrite (fr_cursor _ _ _ (Hidle i Hi)). apply process_worked. Qed.

Lemma period_queue i : (i < N)%nat -> aoi_recipients (ss (S i)) ⊆ aoi_recipients (ss i).
Proof. intros Hi. rewrite (fr_queue _ _ _ (Hidle i Hi)). apply process_worked. Qed.

Variable peer : Z.

(** What the peer's session still needs at the [i]th tick. *)
Definition cost_at (i : nat) : nat := from_option (interest_cost (ss i)) 0%nat (sessions (ss i) !! peer).

Definition subscribed (i : nat) : option (gset Cell) :=
  (fun x => sub_cells (ss_sub x)) <$> sessions (ss i) !! peer.

Lemma cost_at_pos i : (0 < cost_at i)%nat -> session_has_aoi_work peer (ss i) = true.
Proof.
  unfold cost_at. destruct (sessions (ss i) !! peer) as [x|] eqn:Ex; cbn [from_option]; [|lia]. intros Hc.
  destruct (session_has_aoi_work peer (ss i)) eqn:Ew; [done|]. apply (cost_zero peer (ss i) x Ex) in Ew. lia.
Qed.

Lemma cost_step i :
  (i < N)%nat -> is_Some (sessions (ss i) !! peer) ->
  is_Some (sessions (ss (S i)) !! peer) /\ subscribed (S i) = subscribed i /\
  (cost_at (S i) <= cost_at i - (if decide (peer ∈ aoi_visits (ss i)) then 1 else 0))%nat.
Proof.
  intros Hi [x Hx]. destruct (period_state i) as (Hf & _); [lia|].
  pose proof (process_worked (ss i)) as [_ _ Wo Wm _ _ WC]. destruct (WC peer x Hx Hf) as (y & Hy & Hs & Hc).
  pose proof (Hidle i Hi) as HI. pose proof (fr_others _ _ _ HI peer (not_elem_of_empty _)) as Ei. rewrite Hy in Ei.
  unfold cost_at. rewrite Hx. unfold subscribed. rewrite Hx.
  destruct (sessions (ss (S i)) !! peer) as [z|]; [|done]. split; [done|].
  apply (inj Some) in Ei. split; [cbn; rewrite <- Hs; f_equal; exact (f_equal (fun t => t.1.1.2) Ei)|]. cbn [from_option]. rewrite (cost_frame ∅ _ _ y z HI Ei).
  rewrite (cost_ext (ss i) _ y y Wo Wm eq_refl). exact Hc.
Qed.

Lemma period_present i : (i <= N)%nat -> is_Some (sessions (ss 0%nat) !! peer) -> is_Some (sessions (ss i) !! peer).
Proof. induction i as [|i IH]; intros Hi H; [done|]. apply cost_step; [lia|]. apply IH; [lia|done]. Qed.

Context (Hpeer : is_Some (sessions (ss 0%nat) !! peer)).

Lemma subscribed_same i : (i <= N)%nat -> subscribed i = subscribed 0.
Proof.
  induction i as [|i IH]; intros Hi; [done|]. rewrite <- IH by lia.
  apply (cost_step i ltac:(lia) (period_present i ltac:(lia) Hpeer)).
Qed.

Lemma cost_mono i j : (i <= j)%nat -> (j <= N)%nat -> (cost_at j <= cost_at i)%nat.
Proof.
  intros Hij. induction Hij as [|j Hij IH]; intros Hj; [done|]. specialize (IH ltac:(lia)).
  destruct (cost_step j ltac:(lia) (period_present j ltac:(lia) Hpeer)) as (_ & _ & Hc). lia.
Qed.

(** While it has work, the rounds reach the session. *)
Lemma visited_within r k w :
  ahead peer k (aoi_recipients (ss w)) (aoi_recipient_cursor (ss w)) -> (k <= AOI_WORK_ITEMS_PER_TICK * r)%nat ->
  (w + r <= N)%nat -> (0 < cost_at (w + r))%nat ->
  exists i, (w <= i < w + r)%nat /\ peer ∈ aoi_visits (ss i).
Proof.
  revert k w. induction r as [|r IH]; intros k w Ha Hk Hw Hc.
  { destruct Ha as (u & v & _ & Hu). lia. }
  destruct (ahead_step AOI_WORK_ITEMS_PER_TICK peer k _ _ (aoi_recipients (ss (S w)))
    ltac:(unfold AOI_WORK_ITEMS_PER_TICK; lia) Ha) as [Hv|Hn]; [by exists w; split; [lia|]|].
  assert (Hin : peer ∈ aoi_recipients (ss (S w))).
  { destruct (period_state (S w)) as (_ & HQ & _); [lia|]. apply HQ, cost_at_pos.
    pose proof (cost_mono (S w) (w + S r) ltac:(lia) ltac:(lia)). lia. }
  specialize (Hn (period_queue w ltac:(lia)) Hin).
  fold (aoi_visits (ss w)) in Hn. rewrite <- (round_cursor w ltac:(lia)) in Hn.
  destruct (IH _ (S w) Hn) as (i & Hi & Hv); [lia|lia|by rewrite Nat.add_succ_comm|]. exists i. split; [lia|done].
Qed.

(** The ticks in which every queued session is reached. *)
Definition aoi_round (s : Server) : nat :=
  (size (aoi_recipients s) + (AOI_WORK_ITEMS_PER_TICK - 1)) / AOI_WORK_ITEMS_PER_TICK.

Lemma aoi_round_covers s : (size (aoi_recipients s) <= AOI_WORK_ITEMS_PER_TICK * aoi_round s)%nat.
Proof.
  unfold aoi_round, AOI_WORK_ITEMS_PER_TICK. pose proof (Nat.div_mod_eq (size (aoi_recipients s) + (8 - 1)) 8) as H.
  pose proof (Nat.mod_upper_bound (size (aoi_recipients s) + (8 - 1)) 8 ltac:(lia)). lia.
Qed.

Let R : nat := aoi_round (ss 0%nat).

Lemma cost_round w : (w + R <= N)%nat -> (cost_at (w + R) <= cost_at w - 1)%nat.
Proof.
  intros Hw. destruct (decide (cost_at (w + R) = 0%nat)) as [->|Hc]; [lia|].
  destruct (period_state w) as (_ & HQ & Hs & _); [lia|].
  pose proof (cost_mono w (w + R) ltac:(lia) Hw) as Hm.
  assert (Hin : peer ∈ aoi_recipients (ss w)) by (apply HQ, cost_at_pos; lia).
  destruct (visited_within R (size (aoi_recipients (ss w))) w) as (i & Hi & Hv); [by apply ahead_start| |done|lia|].
  { apply subseteq_size in Hs. pose proof (aoi_round_covers (ss 0%nat)). unfold R. lia. }
  destruct (cost_step i ltac:(lia) (period_present i ltac:(lia) Hpeer)) as (_ & _ & Hd). rewrite decide_True in Hd by done.
  pose proof (cost_mono w i ltac:(lia) ltac:(lia)). pose proof (cost_mono (S i) (w + R) ltac:(lia) Hw). lia.
Qed.

Lemma cost_rounds k : (k * R <= N)%nat -> (cost_at (k * R) <= cost_at 0 - k)%nat.
Proof.
  induction k as [|k IH]; intros Hk; [simpl; lia|]. cbn [Nat.mul] in *. rewrite Nat.add_comm.
  pose proof (cost_round (k * R) ltac:(lia)). specialize (IH ltac:(lia)). lia.
Qed.

Lemma work_done n : (cost_at 0 * R <= n)%nat -> (n <= N)%nat -> session_has_aoi_work peer (ss n) = false.
Proof.
  intros Hn HN. pose proof (cost_rounds (cost_at 0) ltac:(lia)) as H1.
  pose proof (cost_mono (cost_at 0 * R) n Hn HN) as H2.
  destruct (period_present n HN Hpeer) as [x Hx]. apply (cost_zero peer (ss n) x Hx).
  assert (E : cost_at n = interest_cost (ss n) x) by (unfold cost_at; by rewrite Hx). lia.
Qed.
Lemma all_delivered x n :
  sessions (ss 0%nat) !! peer = Some x -> (interest_cost (ss 0%nat) x * R <= n <= N)%nat ->
  exists y, sessions (ss n) !! peer = Some y /\
    sub_cells (ss_sub y) = sub_cells (ss_sub x) /\ ss_published_cells y = sub_cells (ss_sub x) /\
    ss_active_hydration y = None /\ ss_hydration_cells y = ∅.
Proof.
  intros Hx Hn. pose proof (work_done n) as Hw. pose proof (subscribed_same n ltac:(lia)) as Hs.
  destruct (period_present n ltac:(lia) Hpeer) as [y Hy]. exists y. unfold subscribed in Hs.
  rewrite Hx, Hy in Hs. apply (inj Some) in Hs.
  assert (Ec : cost_at 0 = interest_cost (ss 0%nat) x) by (unfold cost_at; by rewrite Hx).
  rewrite Ec in Hw. specialize (Hw ltac:(lia) ltac:(lia)). unfold session_has_aoi_work in Hw.
  rewrite Hy, !orb_false_iff, !bool_decide_eq_false in Hw. destruct Hw as [[Hw1 Hw2] Hw3].
  apply dec_stable in Hw1, Hw2, Hw3. split; [exact Hy|]. split; [exact Hs|]. split; [by rewrite Hw1|by split].
Qed.
End Period.

(** ** The rest of a tick leaves interest alone *)
Section Tick.
Context `{FB : FlatBuffers}.

Lemma idle_update peer f s : (forall x, interest (f x) = interest x) -> Idle s (update_session peer f s).
Proof.
  intros Hf. split; try done. intros q _. cbn. rewrite lookup_alter. case_decide as E; [|done].
  rewrite E. destruct (sessions s !! q) as [x|]; [exact (f_equal Some (Hf x))|done].
Qed.

Lemma idle_say peer (bytes : Z -> list Z) s :
  Idle s (let '(n, s) := next_seq s in send_bounded peer (bytes n) s).2.
Proof. unfold next_seq, send_bounded. case_decide; by split. Qed.

Lemma snapshot_to_idle tick peer w s : Idle s (snapshot_to tick peer w s).2.
Proof.
  unfold snapshot_to. destruct (sessions s !! peer) as [x|]; [|done].
  destruct (ss_cell x) as [c|]; [|done]. case_match; [done|]. cbv zeta.
  set (s1 := update_session peer _ s). assert (H1 : Idle s s1) by (by apply idle_update). clearbody s1.
  destruct (select_visible _ _ _); [etrans; [exact H1|by apply idle_update]|].
  destruct (snapshot_window _ _ _) as [start rem]. set (t := update_session peer _ s1).
  assert (Ht : Idle s t) by (etrans; [exact H1|by apply idle_update]). clearbody t.
  destruct (player_snap <$> _), (boats_of _); try done.
  all: unfold next_seq; cbv zeta iota beta.
  all: match goal with |- context [send_bounded ?p ?b (?u <| sv_seq := ?n |>)] =>
         pose proof (idle_say p (fun _ => b) u) as H2; unfold next_seq in H2; cbv zeta iota beta in H2;
         destruct (send_bounded p b _) as [ok s'] end.
  all: etrans; [exact Ht|exact H2].
Qed.

Lemma broadcast_idle s : Idle s (broadcast_snapshots s).2.
Proof.
  unfold broadcast_snapshots. cbv zeta. set (l := ordered_peers_after _ _ _).
  assert (H : forall k t w, Idle s t -> Idle s (each (snapshot_to k) l w t).2).
  { intros k t w Ht. unfold each. revert t w Ht. induction l as [|p l IH]; intros t w Ht; cbn [fold_left]; [done|].
    pose proof (snapshot_to_idle k p w t) as H1. destruct (snapshot_to k p w t) as [w1 t1]. apply IH. by etrans. }
  apply H. destruct (list.last l); by split.
Qed.

Lemma fanout_job_idle sb db todo job w s : Idle s (fanout_job sb db todo job w s).2.
Proof.
  revert job w s. induction todo as [|r todo IH]; intros job w s; cbn [fanout_job]; [done|].
  repeat case_decide; try done. cbv zeta. case_match; [|apply IH]. etrans; [|apply IH]. by split.
Qed.

Lemma fanout_loop_idle fuel sb db w s :
  match fanout_loop fuel sb db w s with Some (_, s') => Idle s s' | None => True end.
Proof.
  revert w s. induction fuel as [|fuel IH]; intros w s; cbn [fanout_loop]; [done|].
  do 2 (case_decide; [done|]). cbv zeta. set (fc := bool_decide _ && _). clearbody fc.
  set (p := if fc then _ else _). assert (Hp : Idle s p.2) by (unfold p; by destruct fc; split).
  destruct p as [next s1]. cbn [snd] in Hp.
  assert (Hi : forall w' t, Idle s t -> match fanout_loop fuel sb db w' t with Some (_, s') => Idle s s' | None => True end).
  { intros w' t Ht. specialize (IH w' t). destruct (fanout_loop _ _ _ _ _) as [[w2 s2]|]; [by etrans|done]. }
  destruct next as [job|].
  - pose proof (fanout_job_idle sb db (drop (jb_next_recipient job) (au_entries (jb_recipients job))) job w s1) as H1.
    destruct (fanout_job _ _ _ _ _ _) as [[job' w1] s2]. cbn [snd] in H1.
    assert (H2 : Idle s s2) by (by etrans).
    case_decide; [apply Hi|]; (etrans; [exact H2|destruct fc; by split]).
  - destruct (bool_decide _ && _); [done|]. apply Hi. etrans; [exact Hp|by split].
Qed.

Lemma touch_idle pid now s : Idle s (touch_last_seen_for_flush pid now s).2.
Proof.
  unfold touch_last_seen_for_flush, on_db.
  assert (Hf : faults (db s) = [] -> faults (touch_last_seen pid now (db s)).2 = []).
  { unfold touch_last_seen, exec. destruct (db s) as [t f]. simpl. intros ->. by rewrite stmt_run. }
  destruct (touch_last_seen pid now (db s)) as [r d] eqn:E. apply exec_cases in E.
  destruct r; split; try done; cbn; by rewrite E.
Qed.

Lemma flush_at_idle now s : Idle s (process_dirty_flush_at now s).2.
Proof.
  unfold process_dirty_flush_at. destruct (flush_paused s); [done|]. generalize O.
  generalize (take DIRTY_DB_UPDATES_PER_TICK (btree_iter Z.le (flush_players s))). intros l. revert s.
  induction l as [|pid l IH]; intros s n; cbn [flush_each]; [done|].
  pose proof (touch_idle (wrapS 64 pid) now s) as H1.
  destruct (touch_last_seen_for_flush _ now s) as [[u|e] s1]; cbn [snd] in *; [|etrans; [exact H1|by split]].
  cbv zeta. etrans; [exact H1|]. etrans; [|apply IH]. unfold set_dirty.
  match goal with |- context [player_peers ?t !! pid] => set (t1 := t); assert (Ht : Idle s1 t1) by (by split) end.
  clearbody t1. destruct (player_peers t1 !! pid); [|exact Ht]. etrans; [exact Ht|].
  apply idle_update. intros x. by case_decide.
Qed.

Lemma capture_idle s : Idle s (capture_fanout_recipients s).2.
Proof. unfold capture_fanout_recipients. destruct (fanout_audience_cache s); [done|]. cbv zeta. case_match; by split. Qed.

Lemma clock_idle env s : Idle s (broadcast_clock env s).
Proof.
  unfold broadcast_clock, next_seq. cbv zeta iota beta.
  set (t := (s <| sv_seq := _ |>) <| clock_fanout := None |>). assert (Ht : Idle s t) by (by split). clearbody t.
  assert (Hc : Idle s (capture_fanout_recipients t).2) by (etrans; [exact Ht|apply capture_idle]).
  destruct (capture_fanout_recipients t) as [[a|] t1]; cbn [snd] in Hc; [|done]. etrans; [exact Hc|by split].
Qed.

(** Chat leaves interest alone, and so does a pose inside the cell the session is
    centered on. *)
Lemma chat_idle env peer m s : Idle s (on_chat env peer m s).
Proof.
  unfold on_chat. destruct (sessions s !! peer) as [x|]; [|done]. destruct (ss_cell x); [|done]. cbv zeta.
  case_match; [done|]. do 2 (case_decide; [done|]). destruct (limiter_allow _ _ _) as [[] l]; cbn [negb]; [|by split].
  unfold next_seq. case_decide; [by split|].
  match goal with |- context [capture_fanout_recipients ?t] => assert (Ht : Idle s t) by (by split);
    pose proof (capture_idle t) as Hc; destruct (capture_fanout_recipients t) as [[a|] t'] end; cbn [snd] in Hc;
    (etrans; [exact Ht|]); [|exact Hc]. etrans; [exact Hc|by split].
Qed.

Lemma pose_idle peer m now s x y c :
  sessions s !! peer = Some x -> sub_center (ss_sub x) = Some c ->
  sessions (on_client_state peer m now s).2 !! peer = Some y -> ss_cell y = Some c ->
  Idle s (on_client_state peer m now s).2.
Proof.
  intros Hx Hsub. unfold on_client_state. rewrite Hx. cbv zeta.
  destruct (limiter_allow _ _ _) as [[] l]; cbn [negb]; [|by split].
  destruct (sanitize_motion _ _ _) as [motion|]; [|by split]. destruct (World.pos motion) as [[px py] pz].
  match goal with |- context [recenter ?c' _] => set (cell := c') end.
  unfold recenter. rewrite Hsub. case_decide as Ec.
  - intros _ _. unfold emit_aoi. cbn [aoi_is_empty aoi_default bool_decide]. split; try done.
    intros q _. cbn. rewrite lookup_insert. case_decide as E; [|done]. by rewrite <- E, Hx.
  - destruct (cells_in_radius _ _) as [l0|]; cbn [mbind option_bind snd]; [|by split].
    intros Hy Hc. exfalso. apply Ec. revert Hy. rewrite sessions_emit. cbn. rewrite lookup_insert_eq.
    intros Hy. apply (inj Some) in Hy. rewrite <- Hc, <- Hy. reflexivity.
Qed.

(** A tick whose events leave subscriptions, sessions and moorings alone. *)
Definition still_events (ti : TickInput) (l : LoopState) : Prop := Idle (lp_server l) (after_events ti l).

Lemma tick_idle ti l l' : tick ti l = Some l' -> Idle (process_aoi_work (after_events ti l)).2 (lp_server l').
Proof.
  assert (H : match tick ti l with
              | Some l' => Idle (process_aoi_work (after_events ti l)).2 (lp_server l')
              | None => True end); [|intros E; by rewrite E in H].
  unfold tick, after_events. destruct (poll _ _ _) as [events h].
  set (s1 := handle_events _ _ _ _). clearbody s1. cbv zeta.
  destruct (process_aoi_work s1) as [w2 s2]. cbn [snd].
  pose proof (broadcast_idle s2) as H1. destruct (broadcast_snapshots s2) as [w3 s3]. cbn [snd] in H1.
  unfold process_fanout_work, process_fanout_work_with_budget.
  pose proof (fanout_loop_idle (fanout_fuel s3) (Z.to_nat FANOUT_RECIPIENT_SCANS_PER_TICK)
    (Z.to_nat FANOUT_SENDS_PER_TICK) (mkFanoutWork 0 0 0 0) s3) as H2.
  destruct (fanout_loop _ _ _ _ _) as [[w4 s4]|]; [|done].
  pose proof (flush_at_idle (e_now_ms (ti_env ti (length events))) s4) as H3.
  destruct (process_dirty_flush_at _ s4) as [r5 s5]. cbn [snd] in H3.
  set (s6 := if decide _ then broadcast_clock _ s5 else s5).
  assert (H4 : Idle s5 s6) by (unfold s6; case_decide; [apply clock_idle|done]). clearbody s6.
  assert (H5 : Idle s2 s6) by (etrans; [exact H1|]; etrans; [exact H2|]; by etrans).
  case_decide; cbn [lp_server]; [|exact H5]. etrans; [exact H5|by split].
Qed.

(** ** Every run keeps the queue *)
Lemma events_queued ti l : Queued (lp_server l) -> Queued (after_events ti l).
Proof. intros HQ. unfold after_events. destruct (poll _ _ _) as [events h]. by apply handle_events_queued. Qed.

Lemma tick_queued ti l l' : tick ti l = Some l' -> Queued (lp_server l) -> Queued (lp_server l').
Proof.
  intros E HQ. eapply kept_queued; [apply idle_kept, (tick_idle _ _ _ E)|].
  by apply (wk_queued _ _ (process_worked (after_events ti l))), events_queued.
Qed.

Lemma ticks_queued inputs l l' : ticks inputs l = Some l' -> Queued (lp_server l) -> Queued (lp_server l').
Proof.
  revert l. induction inputs as [|ti inputs IH]; intros l; cbn [ticks]; [by intros [= ->]|].
  destruct (tick ti l) as [l1|] eqn:E; [|done]. intros H HQ. apply (IH l1 H). by apply (tick_queued _ _ _ E).
Qed.

Lemma new_queued c d now rand s d' : server_new c d now rand = (Ok s, d') -> Queued s.
Proof.
  intros E. assert (Es : sessions s = ∅).
  { unfold server_new, lift_db in E.
    destruct (init false d) as [[u|e] d1]; [|done].
    destruct (load_identity_players d1) as [[ids|e] d2]; [|done].
    destruct (world_get_or_init KEY_CLOCK_EPOCH _ d2) as [[ep|e] d3]; [|done].
    destruct (world_get_or_init KEY_WEATHER_SEED _ d3) as [[sd|e] d4]; [|done].
    destruct (bind_with_limits _ _ _) as [h|]; [|done]. destruct (grid_new _) as [g|]; [|done].
    apply pair_equal_spec in E as [E _].
    exact (f_equal (fun r => match r with Ok s => sessions s | Err _ => ∅ end) (eq_sym E)). }
  intros peer. unfold session_has_aoi_work. by rewrite Es, lookup_empty.
Qed.

Lemma no_events_still ti l :
  (poll (ti_script ti) (ti_frame_start ti) (host (lp_server l))).1 = [] -> still_events ti l.
Proof.
  unfold still_events, after_events. destruct (poll _ _ _) as [events h]. cbn [fst]. intros ->. cbn [handle_events].
  by split.
Qed.

(** When interest delivery starts in the [i]th tick. *)
Definition delivering (inputs : nat -> TickInput) (l : LoopState) (i : nat) : Server :=
  after_events (inputs i) (loop_at inputs l i).

Lemma loop_idle inputs l N :
  tick_good l -> (forall i, (0 < i <= N)%nat -> still_events (inputs i) (loop_at inputs l i)) ->
  forall i, (i < N)%nat -> Idle (process_aoi_work (delivering inputs l i)).2 (delivering inputs l (S i)).
Proof.
  intros HG Hst i Hi. destruct (loop_good inputs l i HG) as [_ E]. apply tick_idle in E.
  etrans; [exact E|]. apply Hst. lia.
Qed.
End Tick.

(** ** Theorems *)

(** C23.  Interest work is never forgotten.  After every run from start-up, whatever
    datagrams arrived, whichever statements failed and whenever, a session whose
    client has not been told of all its cells (announced ones, withdrawn ones, the
    content of a new one) is in the queue of interest delivery. *)
Theorem interest_never_forgotten `{FB : FlatBuffers} (c : Config) (d d' : Db) (now rand start : Z) (s : Server)
    (inputs : list TickInput) :
  server_new c d now rand = (Ok s, d') -> 0 <= aoi_radius_cells c ->
  exists l, ticks inputs (mkLoop 0 start s) = Some l /\
    forall peer x, sessions (lp_server l) !! peer = Some x ->
      ss_published_cells x <> sub_cells (ss_sub x) \/ ss_active_hydration x <> None \/ ss_hydration_cells x <> ∅ ->
      peer ∈ aoi_recipients (lp_server l).
Proof.
  intros E Hr. destruct (ticks_spec inputs (mkLoop 0 start s)) as (l & El & _); [by eapply server_new_good|].
  exists l. split; [exact El|]. assert (HQ : Queued (lp_server l)).
  { apply (ticks_queued _ _ _ El). apply new_queued in E. exact E. }
  intros peer x Hx Hw. apply HQ. unfold session_has_aoi_work. rewrite Hx, !orb_true_iff, !bool_decide_eq_true. tauto.
Qed.

(** C24.  Interest delivery is fair.  Take any run, and then ticks whose events leave
    the subscriptions, sessions and moorings alone, on a database that does not fail.
    A session is told everything within its own cost times a round of the queue: the
    cost is one item per 32 cells to announce, and per cell to describe one per player
    and mooring and one more; a round is an eighth of the queue's length.  From then
    on its announced cells are exactly its subscribed ones, and none waits. *)
Theorem interest_delivered `{FB : FlatBuffers} (c : Config) (d d' : Db) (now rand start : Z) (s0 : Server)
    (before : list TickInput) (l : LoopState) (inputs : nat -> TickInput) (N : nat) (peer : Z) (x : Session) :
  let at_tick := delivering inputs l in
  let s := at_tick 0%nat in
  server_new c d now rand = (Ok s0, d') -> 0 <= aoi_radius_cells c ->
  ticks before (mkLoop 0 start s0) = Some l ->
  (forall i, (0 < i <= N)%nat -> still_events (inputs i) (loop_at inputs l i)) ->
  faults (db s) = [] -> sessions s !! peer = Some x ->
  forall n, (interest_cost s x * aoi_round s <= n <= N)%nat ->
  exists y, sessions (at_tick n) !! peer = Some y /\
    sub_cells (ss_sub y) = sub_cells (ss_sub x) /\ ss_published_cells y = sub_cells (ss_sub x) /\
    ss_active_hydration y = None /\ ss_hydration_cells y = ∅.
Proof.
  intros at_tick s E Hr El Hst Hf Hx n Hn.
  assert (HG : tick_good l).
  { destruct (ticks_spec before (mkLoop 0 start s0)) as (l' & El' & HG); [by eapply server_new_good|].
    rewrite El in El'. apply (inj Some) in El'. by rewrite El'. }
  assert (HQ : Queued (lp_server l)) by (apply (ticks_queued _ _ _ El); apply new_queued in E; exact E).
  exact (all_delivered at_tick N (loop_idle inputs l N HG Hst) Hf (events_queued (inputs 0%nat) l HQ) peer
           (mk_is_Some _ _ Hx) x n Hx Hn).
Qed.

(** Two players in a place of one cell each, as they say hello. *)
Definition near_config : Config := pair_config <| aoi_radius_cells := 0 |>.

Lemma crowd_start c n l :
  crowd c n = Some l -> exists s d', server_new c (mkDb empty_tables []) 5000 42 = (Ok s, d') /\
    ticks (crowd_joins n) (mkLoop 0 0 s) = Some l.
Proof. unfold crowd. destruct (server_new c _ 5000 42) as [[s|e] d']; cbn [fst]; [|done]. intros E. by exists s, d'. Qed.

Lemma near_facts :
  (fun l => let s := delivering pair_inputs l 0 in
     (aoi_round s, faults (db s),
      (fun x => (interest_cost s x, ss_published_cells x, sub_cells (ss_sub x))) <$> sessions s !! 1,
      forallb (fun i => bool_decide ((poll (ti_script (pair_inputs i)) (ti_frame_start (pair_inputs i))
        (host (lp_server (loop_at pair_inputs l i)))).1 = [])) (seq 1 4))) <$> crowd near_config 2
  = Some (1%nat, [], Some (4%nat, ∅, {[mkCell 0 0]}), true).
Proof. vm_compute. reflexivity. Qed.

(** With seven by seven cells, 17 are left when a hello's tick is over. *)
Definition wide_config : Config := pair_config <| aoi_radius_cells := 3 |>.

Lemma wide_facts :
  (fun l => (fun x => bool_decide (ss_published_cells x <> sub_cells (ss_sub x))) <$>
     (tick (crowd_hellos 2) l ≫= fun l' => sessions (lp_server l') !! 1)) <$> crowd wide_config 2
  = Some (Some true).
Proof. vm_compute. reflexivity. Qed.

Lemma ticks_snoc `{FB : FlatBuffers} inputs ti l l' :
  ticks inputs l = Some l' -> ticks (inputs ++ [ti]) l = tick ti l'.
Proof.
  revert l. induction inputs as [|ti0 inputs IH]; intros l; cbn [ticks app].
  - intros [= ->]. by destruct (tick ti l').
  - destruct (tick ti0 l); [apply IH|done].
Qed.

Lemma interest_never_forgotten_witness :
  exists s l, (server_new wide_config (mkDb empty_tables []) 5000 42).1 = Ok s /\
    ticks (crowd_joins 2 ++ [crowd_hellos 2]) (mkLoop 0 0 s) = Some l /\ 1 ∈ aoi_recipients (lp_server l).
Proof.
  pose proof wide_facts as Hb. destruct (crowd wide_config 2) as [l0|] eqn:El; [|discriminate Hb].
  apply (inj Some) in Hb. destruct (crowd_start _ _ _ El) as (s & d' & Es & Et).
  destruct (interest_never_forgotten wide_config (mkDb empty_tables []) d' 5000 42 0 s
    (crowd_joins 2 ++ [crowd_hellos 2]) Es ltac:(vm_compute; discriminate)) as (l & Hl & H).
  exists s, l. split; [by rewrite Es|]. split; [exact Hl|]. rewrite (ticks_snoc _ _ _ _ Et) in Hl. rewrite Hl in Hb.
  cbn [mbind option_bind] in Hb. destruct (sessions (lp_server l) !! 1) as [x|] eqn:Ex; [|discriminate Hb].
  apply (H 1 x Ex). left. apply (inj Some) in Hb. exact (proj1 (bool_decide_eq_true _) Hb).
Defined.

Lemma interest_delivered_witness :
  exists l y, crowd near_config 2 = Some l /\
    sessions (delivering pair_inputs l 4) !! 1 = Some y /\
    ss_published_cells y = {[mkCell 0 0]} /\ ss_active_hydration y = None /\ ss_hydration_cells y = ∅.
Proof.
  pose proof near_facts as Hb. destruct (crowd near_config 2) as [l|] eqn:El; [|discriminate Hb].
  apply (inj Some), pair_equal_spec in Hb as [[[Hr Hf]%pair_equal_spec Hx]%pair_equal_spec Hq].
  destruct (sessions (delivering pair_inputs l 0) !! 1) as [x|] eqn:Ex; [|discriminate Hx].
  apply (inj Some), pair_equal_spec in Hx as [[Hc _]%pair_equal_spec Hsub].
  destruct (crowd_start _ _ _ El) as (s & d' & Es & Et).
  destruct (interest_delivered near_config (mkDb empty_tables []) d' 5000 42 0 s (crowd_joins 2) l pair_inputs 4 1 x
    Es ltac:(vm_compute; discriminate) Et) with (n := 4%nat) as (y & Hy & _ & Hp & Ha & Hh).
  - intros i Hi. apply no_events_still. rewrite forallb_forall in Hq.
    apply (bool_decide_unpack _). apply Is_true_true, Hq, in_seq. lia.
  - exact Hf.
  - exact Ex.
  - rewrite Hc, Hr. lia.
  - exists l, y. split; [reflexivity|]. split; [exact Hy|]. rewrite Hp, Hsub. split; [reflexivity|by split].
Defined.
