(* ===== verification/ServerSpec.v ===== *)
(** * What the server promises: an abstract machine

    The server as a reader of its tables and its socket sees it: the database, who
    is on which peer, what waits in the fan-out queues and what was sent.  [step] is
    everything it may do, one rule per kind of effect, each with the condition the
    server is obliged to have checked; the properties below are proved by induction
    on these rules, and Refinement.v shows that every handler and every tick of
    [Server] and [Sched] is a sequence of such steps. *)

From stdpp Require Import pretty.
From S2P Require Import Structs Flat Tables.
From S2P Require Import Prelude Float World Clock Config Econ RateLimit Wire Host.
From S2P Require Import Persist EconStore Codec FlatTree CodecProps Server Sched.

(** ** State *)

(** What others can be shown of a session, and the cells its interest mentions. *)
Record Face := mkFace {
  fc_player : Z;
  fc_hash : string;
  fc_name : string;
  fc_aboard : Z;
  fc_pos : vec3;
  fc_rot : quat;
  fc_vel : vec3;
  fc_t_ms : Z;
  fc_cells : gset Cell
}.

#[global] Instance Face_eta : Settable Face :=
  mkSettable (fun r => mkFace (fc_player r) (fc_hash r) (fc_name r) (fc_aboard r) (fc_pos r) (fc_rot r)
    (fc_vel r) (fc_t_ms r) (fc_cells r)).

(** What every hello carries besides the clock. *)
Record Banner := mkBanner {
  ba_name : string;
  ba_caps : Caps;
  ba_seed : Z;
  ba_day : Z
}.

Record Core := mkCore {
  c_banner : Banner;
  c_tables : Tables;
  c_faces : gmap Z Face;
  c_index : gmap string Z;
  c_queued : list (list Z);
  c_tx : list (SocketAddr * list Z)
}.

#[global] Instance Core_eta : Settable Core :=
  mkSettable (fun r => mkCore (c_banner r) (c_tables r) (c_faces r) (c_index r) (c_queued r) (c_tx r)).

Definition face_player (f : Face) : PlayerSnap :=
  mkPlayerSnap (fc_player f) (fc_pos f) (fc_rot f) (fc_aboard f) (fc_t_ms f).

Definition face_boat (f : Face) : BoatSnap :=
  mkBoatSnap (fc_aboard f) (fc_player f) (fc_pos f) (fc_rot f) (fc_vel f) (fc_t_ms f).

Definition face_boats (l : list Face) : list BoatSnap :=
  face_boat <$> filter (fun f => fc_aboard f <> 0) l.

(** The gold the database holds for a player id of the wire. *)
Definition stored_gold (id : Z) (t : Tables) : Z := default 0 (pl_gold <$> players t !! wrapS 64 id).

(** ** Messages *)

(** Text the server writes itself is ASCII. *)
Definition plain (s : string) : bool := forallb (fun b => b <? 0x80) (bytes_of_string s).

Section Speech.
Context `{FB : FlatBuffers}.
Variable c : Core.

Definition known (f : Face) : Prop := exists peer, c_faces c !! peer = Some f.

Definition known_cell (x : Cell) : Prop := exists f, known f /\ x ∈ fc_cells f.

Definition hello (n : Z) (accepted : bool) (reason : string) (player_id gold : Z) (clk : WorldClock)
    : list Z :=
  server_hello n accepted reason player_id (ba_name (c_banner c)) gold (ba_caps (c_banner c)) clk
    (ba_seed (c_banner c)) (ba_day (c_banner c)).

(** The messages the server may send or queue in a state.  An acceptance speaks of
    rows that are in the database. *)
Inductive Speech : list Z -> Prop :=
| sp_queued b : b ∈ c_queued c -> Speech b
| sp_reject n reason clk :
    inU 32 n -> plain reason = true -> clock_ok clk -> Speech (hello n false reason 0 0 clk)
| sp_accept n f clk :
    inU 32 n -> known f -> clock_ok clk ->
    Speech (hello n true "" (fc_player f) (stored_gold (fc_player f) (c_tables c)) clk)
| sp_clock n clk : inU 32 n -> clock_ok clk -> Speech (world_clock n clk)
| sp_chat n f text channel t_ms :
    inU 32 n -> known f -> is_str text -> inU 8 channel -> inU 32 t_ms ->
    Speech (chat_broadcast n (fc_player f) (fc_name f) text channel t_ms)
| sp_aoi n added removed :
    inU 32 n -> Forall known_cell added -> Forall known_cell removed ->
    Speech (aoi_update n added removed)
| sp_snapshot n tick fs :
    inU 32 n -> inU 32 tick -> Forall known fs ->
    Speech (snapshot_delta n tick (face_player <$> fs) (face_boats fs))
| sp_cell n x fs rows :
    inU 32 n -> known_cell x -> Forall known fs ->
    Forall (fun m => m ∈ cell_rows (cx x) (cz x) (c_tables c)) rows ->
    Speech (cell_snapshot n x (face_player <$> fs) (face_boats fs) (mooring_snap <$> rows))
| sp_ledger n id accepted owner reason :
    inU 32 n -> inU 64 id -> plain reason = true ->
    (accepted = true -> is_Some (ledger (c_tables c) !! wrapS 64 id)) ->
    Speech (ledger_ack n (Ledger.mkLedgerAck id accepted (stored_gold owner (c_tables c)) reason))
| sp_trade n id accepted port item stock price reason :
    inU 32 n -> inU 64 id -> inU 32 port -> inU 32 item -> plain reason = true ->
    (accepted = true -> is_Some (market_trades (c_tables c) !! id)) ->
    ((stock, price) = default (0, 0) (market (c_tables c) !! (port, item)) \/
     exists r, market_trades (c_tables c) !! id = Some r /\ stock = tr_stock r /\ price = tr_price r) ->
    Speech (market_state_ack n (Market.mkMarketAck id accepted port item stock price reason))
| sp_moor_refused n reason :
    inU 32 n -> plain reason = true -> Speech (moor_ack n false None reason)
| sp_moored n f x boat_id pos rot name created :
    inU 32 n -> known f -> cell_ok (cell_xy x) -> inU 64 boat_id -> vec3_ok pos -> quat_ok rot ->
    is_str name -> inU 64 created ->
    is_Some (moorings (c_tables c) !! wrapS 64 boat_id) ->
    Speech (moor_ack n true
      (Some (mkMooringSnap boat_id (fc_player f) (cell_xy x) pos rot name created)) "").
End Speech.

(** The datagrams of the transport itself. *)
Inductive Control : list Z -> Prop :=
| ct_control property : Control (build_control property)
| ct_accept time number id reused : Control (build_connect_accept time number id reused)
| ct_disconnect number time : Control (build_disconnect number time)
| ct_ping number seq : Control (build_ping number seq)
| ct_pong number seq ticks : Control (build_pong number seq ticks).

(** ** Steps *)

(** The statements the server runs on the tables, ledger commits apart. *)
Inductive write (t : Tables) : Tables -> Prop :=
| wr_touch id now :
    write t (t <| players ::= alter (fun r => r <| pl_last_seen := now |>) id |>)
| wr_refresh id name now : write t (refresh_player id name now t)
| wr_player name token now row t' :
    by_token token t = None -> insert_player name token now t = (Ok row, t') -> write t t'
| wr_trade id port item stock price now :
    market_trades t !! id = None -> inS 64 stock -> inS 64 price ->
    write t (t <| market_trades ::= <[id := mkTradeRow port item stock price now]> |>
               <| market ::= <[(port, item) := (stock, price)]> |>)
| wr_moor m :
    has_nan m = false -> is_str (mo_name m) ->
    write t (t <| moorings ::= <[mo_boat_id m := stored m
               (match moorings t !! mo_boat_id m with
                | Some old => sm_created_at old
                | None => mo_created_at m
                end)]> |>).

Section Step.
Context `{FB : FlatBuffers}.

(** The transactions the step may commit: the peer that asked, the player it acts
    for, and the transaction. *)
Variable asked : Z -> Z -> Ledger.Txn -> Prop.

Inductive step (c : Core) : Core -> Prop :=
| st_control l :
    Forall (fun p => Control p.2) l -> step c (c <| c_tx ::= fun tx => tx ++ l |>)
| st_say addr number b :
    Speech c b -> len b <= MTU - HEADER_SIZE ->
    step c (c <| c_tx ::= fun tx => tx ++ [(addr, build_unreliable number b)] |>)
| st_enqueue b q :
    Speech c b -> q ⊆ b :: c_queued c -> step c (c <| c_queued := q |>)
| st_dequeue q : q ⊆ c_queued c -> step c (c <| c_queued := q |>)
| st_write t : write (c_tables c) t -> step c (c <| c_tables := t |>)
| st_commit peer f txn at_ms row nb :
    asked peer (fc_player f) txn -> c_faces c !! peer = Some f ->
    players (c_tables c) !! fc_player f = Some row ->
    ledger (c_tables c) !! wrapS 64 (Ledger.txn_id txn) = None ->
    nb = pl_gold row + Ledger.amount_gold txn -> 0 <= nb <= i64_max ->
    step c (c <| c_tables ::= commit_effect (wrapS 64 (Ledger.txn_id txn)) (fc_player f)
                 (Ledger.amount_gold txn) (Ledger.kind txn) (Ledger.note txn) at_ms nb |>)
| st_leave peer : step c (c <| c_faces ::= delete peer |>)
| st_join peer f row :
    players (c_tables c) !! fc_player f = Some row -> pl_token_hash row = fc_hash f ->
    c_faces c !! peer = None -> is_str (fc_name f) ->
    f = mkFace (fc_player f) (fc_hash f) (fc_name f) 0 (vec3_of None) (quat_of None) (vec3_of None) 0
          (fc_cells f) ->
    (forall x, x ∈ fc_cells f -> cell_ok (cell_xy x)) ->
    step c (c <| c_faces ::= <[peer := f]> |>)
| st_pose peer f aboard pos rot vel t_ms cells :
    c_faces c !! peer = Some f -> inU 64 aboard -> vec3_ok pos -> quat_ok rot -> vec3_ok vel ->
    inU 32 t_ms -> (forall x, x ∈ cells -> x ∈ fc_cells f \/ cell_ok (cell_xy x)) ->
    step c (c <| c_faces ::= <[peer := mkFace (fc_player f) (fc_hash f) (fc_name f) aboard pos rot vel
                                         t_ms cells]> |>)
| st_interest peer f cells :
    c_faces c !! peer = Some f -> cells ⊆ fc_cells f ->
    step c (c <| c_faces ::= <[peer := f <| fc_cells := cells |>]> |>)
| st_index hash id row :
    players (c_tables c) !! id = Some row -> pl_token_hash row = hash ->
    step c (c <| c_index ::= <[hash := id]> |>).

Definition steps : relation Core := rtc step.
End Step.

(** ** What stays true *)

(** Nothing the database was told is forgotten. *)
Record Later (t t' : Tables) : Prop := {
  lt_player id r : players t !! id = Some r -> exists r', players t' !! id = Some r' /\
    pl_token_hash r' = pl_token_hash r /\ pl_created_at r' = pl_created_at r;
  lt_ledger : ledger t ⊆ ledger t';
  lt_trades : market_trades t ⊆ market_trades t';
  lt_mooring id m : moorings t !! id = Some m -> exists m', moorings t' !! id = Some m' /\
    sm_created_at m' = sm_created_at m
}.

(** The accounts of the players: unique tokens and fresh ids, balances that are the
    sums of their ledger rows, and no row without its player. *)
Record Accounts (t : Tables) : Prop := {
  ac_players : PlayersInv t;
  ac_books : Books t;
  ac_owner id l : ledger t !! id = Some l -> is_Some (players t !! lr_player_id l)
}.

(** Columns hold values of their types. *)
Record Typed (t : Tables) : Prop := {
  ty_market k v : market t !! k = Some v -> inS 64 v.1 /\ inS 64 v.2;
  ty_trade id r : market_trades t !! id = Some r -> inS 64 (tr_stock r) /\ inS 64 (tr_price r);
  ty_mooring id m : moorings t !! id = Some m -> is_str (sm_name m)
}.

Record Face_ok (t : Tables) (f : Face) : Prop := {
  fo_row : exists row, players t !! fc_player f = Some row /\ pl_token_hash row = fc_hash f;
  fo_name : is_str (fc_name f);
  fo_aboard : inU 64 (fc_aboard f);
  fo_pos : vec3_ok (fc_pos f);
  fo_rot : quat_ok (fc_rot f);
  fo_vel : vec3_ok (fc_vel f);
  fo_t_ms : inU 32 (fc_t_ms f);
  fo_cells x : x ∈ fc_cells f -> cell_ok (cell_xy x)
}.

Record Banner_ok (b : Banner) : Prop := {
  bo_name : is_str (ba_name b);
  bo_caps : Caps_ok (ba_caps b);
  bo_seed : inU 64 (ba_seed b);
  bo_day : inU 32 (ba_day b)
}.

(** What a message lets its reader rely on. *)
Definition registered (t : Tables) (id : Z) : Prop := is_Some (players t !! id).

Definition Promise (t : Tables) (p : Payload) : Prop :=
  match p with
  | PServerHello h => sh_accepted h = true -> registered t (sh_player_id h)
  | PLedgerAck a => la_accepted a = true -> is_Some (ledger t !! wrapS 64 (la_txn_id a))
  | PMarketStateAck a => ms_accepted a = true -> is_Some (market_trades t !! ms_txn_id a)
  | PMoorAck a => ma_accepted a = true -> exists m, ma_record a = Some m /\
      is_Some (moorings t !! wrapS 64 (Tables.mo_boat_id m))
  | PChatBroadcast m => registered t (cb_player_id m)
  | PSnapshotDelta m => oall (Forall (fun p => registered t (ps_player_id p))) (sd_players m)
  | PCellSnapshot m => oall (Forall (fun p => registered t (ps_player_id p))) (cc_players m)
  | PAoiUpdate _ | PWorldClock _ => True
  | _ => False
  end.

Section Invariant.
Context `{FB : FlatBuffers}.

(** A payload that decodes, if it fits a buffer at all, to a message of the server
    whose promise is kept. *)
Definition Sound (t : Tables) (b : list Z) : Prop :=
  exists seq p, (len b <= max_buffer -> decode_envelope b = Some (mkEnvelope seq p)) /\ Promise t p.

Definition Sent (t : Tables) (packet : list Z) : Prop :=
  Control packet \/
  exists number b, packet = build_unreliable number b /\ len b <= MTU - HEADER_SIZE /\ Sound t b.

Record CInv (c : Core) : Prop := {
  ci_accounts : Accounts (c_tables c);
  ci_typed : Typed (c_tables c);
  ci_faces peer f : c_faces c !! peer = Some f -> Face_ok (c_tables c) f;
  ci_index hash id : c_index c !! hash = Some id ->
    exists row, players (c_tables c) !! id = Some row /\ pl_token_hash row = hash;
  ci_queued : Forall (Sound (c_tables c)) (c_queued c);
  ci_sent : Forall (fun p => Sent (c_tables c) p.2) (c_tx c);
  ci_banner : Banner_ok (c_banner c)
}.
End Invariant.

(** ** Lemmas *)
#[global] Instance later_preorder : PreOrder Later.
Proof.
  split.
  - intros t. split; eauto.
  - intros t1 t2 t3 [P1 L1 T1 M1] [P2 L2 T2 M2]. split.
    + intros id r Hr. destruct (P1 _ _ Hr) as (r2 & H2 & E & E'). destruct (P2 _ _ H2) as (r3 & H3 & F & F').
      exists r3. split_and!; [done|congruence|congruence].
    + by etrans.
    + by etrans.
    + intros id m Hm. destruct (M1 _ _ Hm) as (m2 & H2 & E). destruct (M2 _ _ H2) as (m3 & H3 & F).
      exists m3. split; [done|congruence].
Qed.

(** Each kind of write keeps history. *)
Lemma later_players t ps :
  (forall id r, players t !! id = Some r -> exists r', ps !! id = Some r' /\
     pl_token_hash r' = pl_token_hash r /\ pl_created_at r' = pl_created_at r) ->
  Later t (t <| players := ps |>).
Proof. intros H. split; [exact H|done|done|eauto]. Qed.

Lemma later_alter t f id :
  (forall r, pl_token_hash (f r) = pl_token_hash r /\ pl_created_at (f r) = pl_created_at r) ->
  Later t (t <| players ::= alter f id |>).
Proof.
  intros Hf. apply (later_players t (alter f id (players t))). intros i r Hr. rewrite lookup_alter. case_decide.
  - subst. rewrite Hr. simpl. exists (f r). split; [done|]. apply Hf.
  - exists r. done.
Qed.

Lemma insert_fresh_later t id row seq :
  players t !! id = None -> Later t (t <| players ::= <[id := row]> |> <| player_seq := seq |>).
Proof.
  intros Hn. split; [|done|done|eauto]. intros i r Hr. exists r. simpl.
  rewrite lookup_insert_ne; [done|congruence].
Qed.

Lemma insert_player_fresh name token now t row t' :
  PlayersInv t -> by_token token t = None -> insert_player name token now t = (Ok row, t') ->
  players t !! pl_id row = None /\ pl_gold row = 0 /\
  t' = t <| players ::= <[pl_id row := row]> |> <| player_seq := pl_id row |> /\ PlayersInv t'.
Proof.
  intros HI Hn Hi. destruct (insert_player_spec _ _ _ _ _ _ HI Hn Hi) as (E & Hf & Et & HI').
  split_and!; try done. by rewrite E.
Qed.

Lemma write_later t t' : PlayersInv t -> write t t' -> Later t t'.
Proof.
  intros HI [id now|id name now|name token now row t1 Hn Hi|id port item stock price now Hn ? ?|m Hnan Hs].
  - by apply later_alter.
  - by apply later_alter.
  - destruct (insert_player_fresh _ _ _ _ _ _ HI Hn Hi) as (Hf & _ & -> & _). by apply insert_fresh_later.
  - split; simpl; [eauto|done|by apply insert_subseteq|eauto].
  - split; simpl; [eauto|done|done|]. intros i r Hr. rewrite lookup_insert. case_decide; [|eauto].
    subst. rewrite Hr. eexists. split; [done|]. unfold stored. by destruct (mo_pos m) as [[] ?], (mo_rot m) as [[[] ?] ?].
Qed.

Lemma commit_later t id player amount kind note at_ms nb :
  ledger t !! id = None -> Later t (commit_effect id player amount kind note at_ms nb t).
Proof.
  intros Hn. unfold commit_effect. etrans; [|by apply later_alter].
  split; simpl; [eauto|by apply insert_subseteq|done|eauto].
Qed.

(** The books. *)
Lemma books_players t t' :
  ledger t' = ledger t -> (forall id r', players t' !! id = Some r' ->
    exists r, players t !! id = Some r /\ pl_gold r' = pl_gold r) -> Books t -> Books t'.
Proof.
  intros El Hp HB id r' Hr'. destruct (Hp _ _ Hr') as (r & Hr & ->). unfold ledger_sum. rewrite El.
  by apply HB.
Qed.

Lemma ledger_sum_absent id t :
  (forall k l, ledger t !! k = Some l -> lr_player_id l <> id) -> ledger_sum id t = 0.
Proof.
  unfold ledger_sum. generalize (ledger t). intros L.
  induction L as [|k l L Hk IH] using map_ind; intros Hn; [done|].
  rewrite (map_fold_insert_L (fun _ l acc => (if decide (lr_player_id l = id) then lr_amount l else 0) + acc))
    by (try done; intros; lia).
  rewrite decide_False by (eapply (Hn k); by rewrite lookup_insert_eq).
  rewrite IH; [done|]. intros j x Hj. eapply (Hn j). rewrite lookup_insert_ne; [done|congruence].
Qed.

Lemma alter_row {f : PlayerRow -> PlayerRow} {id} {m : gmap Z PlayerRow} {i r'} :
  alter f id m !! i = Some r' -> exists r, m !! i = Some r /\ r' = (if decide (id = i) then f r else r).
Proof.
  rewrite lookup_alter. case_decide; [|eauto]. subst. destruct (m !! i) eqn:E; [|done].
  intros [= <-]. eauto.
Qed.

Lemma players_inv_alter f id t :
  (forall r, pl_id (f r) = pl_id r /\ pl_token_hash (f r) = pl_token_hash r) ->
  PlayersInv t -> PlayersInv (t <| players ::= alter f id |>).
Proof.
  intros Hf [Hk Ht Hs]. split; simpl; [| |done].
  - intros i r' (r & Hr & ->)%alter_row. destruct (Hk _ _ Hr). case_decide; [|done].
    split; [|done]. by rewrite (proj1 (Hf r)).
  - intros i j r1 r2 (a & Ha & ->)%alter_row (b & Hb & ->)%alter_row E. apply (Ht i j a b); [done..|].
    revert E. repeat case_decide; by rewrite ?(proj2 (Hf _)).
Qed.

Lemma accounts_alter f id t :
  (forall r, pl_id (f r) = pl_id r /\ pl_token_hash (f r) = pl_token_hash r /\ pl_gold (f r) = pl_gold r) ->
  Accounts t -> Accounts (t <| players ::= alter f id |>).
Proof.
  intros Hf [HP HB HO]. split.
  - apply players_inv_alter; [|done]. intros r. destruct (Hf r) as (? & ? & ?). done.
  - apply (books_players t); [done| |done]. intros i r' (r & Hr & ->)%alter_row. exists r. split; [done|].
    case_decide; [apply Hf|done].
  - intros i l Hl. simpl. apply lookup_alter_is_Some. by eapply HO.
Qed.

Lemma accounts_players_only t t' :
  players t' = players t -> player_seq t' = player_seq t -> ledger t' = ledger t -> Accounts t -> Accounts t'.
Proof.
  intros Ep Es El [[Hk Ht Hs] HB HO]. split.
  - split; rewrite ?Ep, ?Es; done.
  - apply (books_players t); [done| |done]. rewrite Ep. eauto.
  - rewrite Ep, El. done.
Qed.

Lemma write_accounts t t' : write t t' -> Accounts t -> Accounts t'.
Proof.
  intros [id now|id name now|name token now row t1 Hn Hi|id port item stock price now Hn ? ?|m Hnan Hs] HA.
  - by apply accounts_alter.
  - by apply accounts_alter.
  - destruct (insert_player_fresh _ _ _ _ _ _ (ac_players _ HA) Hn Hi) as (Hf & Hg & -> & HI).
    destruct HA as [HP HB HO]. split; [done|..].
    + intros i r. simpl. rewrite lookup_insert. case_decide; [|apply HB]. intros [= <-]. subst.
      rewrite Hg. split; [|unfold i64_max; lia]. symmetry. apply (ledger_sum_absent (pl_id row) t).
      intros k l Hl E. destruct (HO k l Hl) as [x Hx]. congruence.
    + intros k l Hl. simpl. rewrite lookup_insert. case_decide; [done|]. by eapply HO.
  - by apply (accounts_players_only t).
  - by apply (accounts_players_only t).
Qed.

Lemma commit_accounts t id player row amount kind note at_ms nb :
  players t !! player = Some row -> ledger t !! id = None -> nb = pl_gold row + amount ->
  0 <= nb <= i64_max -> Accounts t -> Accounts (commit_effect id player amount kind note at_ms nb t).
Proof.
  intros Hrow Hn -> Hnb [HP HB HO]. unfold commit_effect. split.
  - apply players_inv_alter; [done|]. destruct HP as [Hk Ht Hs]. by split.
  - intros i r' (r & Hr & ->)%alter_row. unfold ledger_sum. simpl.
    rewrite (map_fold_insert_L (fun _ l acc => (if decide (lr_player_id l = i) then lr_amount l else 0) + acc))
      by (try done; intros; lia).
    simpl lr_player_id. simpl lr_amount. destruct (HB _ _ Hr) as [E Hb]. unfold ledger_sum in E.
    case_decide as Hd.
    + subst i. simpl in Hr |- *. assert (r = row) as -> by congruence. lia.
    + lia.
  - intros k l. simpl. rewrite lookup_alter_is_Some, lookup_insert. case_decide; [|apply HO].
    intros [= <-]. simpl. eauto.
Qed.

Lemma write_typed t t' : write t t' -> Typed t -> Typed t'.
Proof.
  intros [id now|id name now|name token now row t1 Hn Hi|id port item stock price now Hn Hst Hpr|m Hnan Hs]
    [Hm Ht Hmo]; try (by split).
  - unfold insert_player in Hi. repeat case_decide; [done..|]. injection Hi as _ <-. by split.
  - split; simpl; [| |done].
    + intros k v. rewrite lookup_insert. case_decide; [|apply Hm]. by intros [= <-].
    + intros k r. rewrite lookup_insert. case_decide; [|apply Ht]. by intros [= <-].
  - split; simpl; [done..|]. intros k x. rewrite lookup_insert. case_decide; [|apply Hmo].
    intros [= <-]. unfold stored. by destruct (mo_pos m) as [[] ?], (mo_rot m) as [[[] ?] ?].
Qed.

Lemma registered_later t t' id : Later t t' -> registered t id -> registered t' id.
Proof. intros HL [r Hr]. destruct (lt_player _ _ HL _ _ Hr) as (r' & Hr' & _). by exists r'. Qed.

Lemma is_Some_later {A} (m m' : gmap Z A) id : m ⊆ m' -> is_Some (m !! id) -> is_Some (m' !! id).
Proof. intros Hs [x Hx]. exists x. by eapply lookup_weaken. Qed.

(** A promise once kept stays kept. *)
Lemma promise_later t t' p : Later t t' -> Promise t p -> Promise t' p.
Proof.
  intros HL. pose proof (lt_ledger _ _ HL) as Hl. pose proof (lt_trades _ _ HL) as Ht.
  pose proof (fun id => registered_later t t' id HL) as Hr.
  destruct p as [m|m|m|m|m|m|m|m|m|m|m|m|m|m|m| |]; simpl; try done.
  - auto.
  - intros H x Hx. eapply Forall_impl; [exact (H x Hx)|]. simpl. auto.
  - intros H x Hx. eapply Forall_impl; [exact (H x Hx)|]. simpl. auto.
  - intros H Ha. destruct (H Ha) as (r & Er & [x Hx]). exists r. split; [done|].
    destruct (lt_mooring _ _ HL _ _ Hx) as (x' & Hx' & _). eauto.
  - intros H Ha. eapply is_Some_later; [done|auto].
  - auto.
  - intros H Ha. eapply is_Some_later; [done|auto].
Qed.

Lemma face_ok_later t t' f : Later t t' -> Face_ok t f -> Face_ok t' f.
Proof.
  intros HL [(r & Hr & Et) ? ? ? ? ? ? ?]. split; try done.
  destruct (lt_player _ _ HL _ _ Hr) as (r' & Hr' & Et' & _). exists r'. split; [done|congruence].
Qed.

(** ** What is said is sound *)
Lemma between_plain l : forallb (fun b => b <? 0x80) l = true -> utf8_valid l = true.
Proof. induction l as [|b l IH]; simpl; [done|]. rewrite andb_true_iff. intros [-> ?]. auto. Qed.

Lemma plain_str s : plain s = true -> is_str s.
Proof. apply between_plain. Qed.

Lemma bytes_of_app a b : bytes_of_string (a +:+ b) = bytes_of_string a ++ bytes_of_string b.
Proof.
  unfold bytes_of_string. induction a as [|x a IH]; [done|].
  change (String x a +:+ b) with (String x (a +:+ b)). simpl in *. by rewrite IH.
Qed.

Lemma plain_app a b : plain (a +:+ b) = plain a && plain b.
Proof. unfold plain. by rewrite bytes_of_app, forallb_app. Qed.

Section Sound.
Context `{FBL : FlatBuffersLaws}.

Lemma sound_later t t' b : Later t t' -> Sound t b -> Sound t' b.
Proof. intros HL (sq & p & Hd & Hp). exists sq, p. split; [done|]. by eapply promise_later. Qed.

Lemma sent_later t t' b : Later t t' -> Sent t b -> Sent t' b.
Proof.
  intros HL [Hc|(n & x & E & Hl & Hs)]; [by left|right]. exists n, x. split_and!; [done..|].
  by eapply sound_later.
Qed.

Lemma reads_sound t b sq p : reads_back b sq p -> Promise t p -> Sound t b.
Proof. intros [_ Hd] Hp. by exists sq, p. Qed.

Lemma stored_gold_bounds t id : Books t -> 0 <= stored_gold id t <= i64_max.
Proof.
  intros HB. unfold stored_gold. destruct (players t !! wrapS 64 id) as [r|] eqn:E; simpl.
  - by apply (HB _ _ E).
  - unfold i64_max. lia.
Qed.

Lemma nonneg_inS z : 0 <= z <= i64_max -> inS 64 z.
Proof. unfold i64_max, inS. lia. Qed.

Lemma row_key t id r : PlayersInv t -> players t !! id = Some r -> inU 64 id /\ wrapS 64 id = id.
Proof.
  intros [Hk _ Hs] Hr. destruct (Hk _ _ Hr). unfold i64_max in *. split; [unfold inU; lia|].
  apply wrapS_id; [lia|]. unfold inS. lia.
Qed.

Context (c : Core) (HC : CInv c).

Lemma known_ok f : known c f -> Face_ok (c_tables c) f.
Proof. intros [peer Hf]. by eapply ci_faces. Qed.

Lemma known_registered f : known c f -> registered (c_tables c) (fc_player f) /\ inU 64 (fc_player f).
Proof.
  intros [(r & Hr & _) _ _ _ _ _ _ _]%known_ok. split; [by exists r|].
  by eapply row_key; [apply ac_players, HC|].
Qed.

Lemma known_player_ok f : known c f -> PlayerSnap_ok (face_player f).
Proof. intros H. destruct (known_registered f H). destruct (known_ok f H). done. Qed.

Lemma known_players_ok fs : Forall (known c) fs -> Forall PlayerSnap_ok (face_player <$> fs).
Proof. intros H. apply Forall_fmap. eapply Forall_impl; [exact H|]. apply known_player_ok. Qed.

Lemma known_boats_ok fs : Forall (known c) fs -> Forall BoatSnap_ok (face_boats fs).
Proof.
  intros H. apply Forall_fmap, Forall_forall. intros f [_ Hf]%list_elem_of_filter.
  rewrite Forall_forall in H. specialize (H f Hf). simpl.
  destruct (known_registered f H). destruct (known_ok f H). split_and!; try done.
Qed.

Lemma known_cells_ok l : Forall (known_cell c) l -> Forall (fun x => cell_ok (cell_xy x)) l.
Proof. intros H. eapply Forall_impl; [exact H|]. intros x (f & Hf & Hx). by apply (fo_cells _ _ (known_ok f Hf)). Qed.

Lemma shown_registered fs :
  Forall (known c) fs ->
  Forall (fun p => registered (c_tables c) (ps_player_id p)) (player_read <$> (face_player <$> fs)).
Proof.
  intros H. rewrite <- list_fmap_compose. apply Forall_fmap. eapply Forall_impl; [exact H|]. intros f Hf. by apply known_registered.
Qed.

Lemma rows_ok x rows :
  cell_ok (cell_xy x) -> Forall (fun m => m ∈ cell_rows (cx x) (cz x) (c_tables c)) rows ->
  Forall MooringSnap_ok (mooring_snap <$> rows).
Proof.
  intros Hx H. apply Forall_fmap. eapply Forall_impl; [exact H|]. intros m (r & Hr & Ex & Ez & Em)%elem_of_cell_rows.
  pose proof (ty_mooring _ (ci_typed _ HC) _ _ Hr) as Hs. rewrite Em. unfold mooring_snap, mooring_from_row.
  destruct (sm_pos r) as [[p0 p1] p2], (sm_rot r) as [[[r0 r1] r2] r3].
  unfold MooringSnap_ok, vec3_ok, quat_ok, vec3_ok. simpl. rewrite Ex, Ez.
  split_and!; auto using f32_of_f64_ok with sw; try apply wrapU_in; try done; apply Hx.
Qed.

(** A hello with a banner, by any message. *)
Definition is_greeting (b : list Z) : Prop :=
  exists n accepted reason pid gold clk, b = hello c n accepted reason pid gold clk /\
    inU 32 n /\ is_str reason /\ inU 64 pid /\ inS 64 gold /\ clock_ok clk.

(** A message of the server reads back to [p], keeps its promise, and is a hello of
    the banner when [p] is one. *)
Definition Reads (b : list Z) (p : Payload) : Prop :=
  (exists n, reads_back b n p) /\ Promise (c_tables c) p /\ (forall h, p = PServerHello h -> is_greeting b).

Lemma hello_reads n accepted reason pid gold clk :
  inU 32 n -> is_str reason -> inU 64 pid -> 0 <= gold <= i64_max -> clock_ok clk ->
  (accepted = true -> registered (c_tables c) pid) ->
  exists p, Reads (hello c n accepted reason pid gold clk) p.
Proof.
  intros Hn Hr Hp Hg%nonneg_inS Hc Ha. destruct (ci_banner _ HC). eexists. split; [|split].
  - exists n. by apply server_hello_reads_back.
  - exact Ha.
  - intros h _. exists n, accepted, reason, pid, gold, clk. by split_and!.
Qed.

Lemma reads_of b n p :
  reads_back b n p -> (forall h, p <> PServerHello h) -> Promise (c_tables c) p -> exists p, Reads b p.
Proof. intros Hr Hh Hp. exists p. split; [by exists n|]. split; [done|]. by intros h ?%Hh. Qed.

(** Whatever the server may say is queued already or reads back. *)
Lemma speech_reads b : Speech c b -> b ∈ c_queued c \/ exists p, Reads b p.
Proof.
  pose proof (ac_books _ (ci_accounts _ HC)) as HB.
  intros [b' Hb|n reason clk ? Hs ?|n f clk ? Hf ?|n clk ? ?|n f text ch t ? Hf ? ? ?|n a r ? Ha Hr|
          n tick fs ? ? Hf|n x fs rows ? Hx Hf Hrows|n id acc owner reason ? ? Hs Hacc|
          n id acc port item st pr reason ? ? ? ? Hs Hacc Hv|n reason ? Hs|n f x bid pos rot name ca ? Hf ? ? ? ? ? ? Hm].
  - by left.
  - right. apply hello_reads; try done. by apply plain_str.
  - right. destruct (known_registered f Hf). apply hello_reads; try done. by apply stored_gold_bounds.
  - right. eapply reads_of; [by apply world_clock_reads_back|done|done].
  - right. destruct (known_registered f Hf), (known_ok f Hf).
    eapply reads_of; [by apply chat_broadcast_reads_back|done|done].
  - right. eapply reads_of; [apply aoi_update_reads_back; [done|by apply known_cells_ok..]|done|done].
  - right. eapply reads_of; [apply snapshot_delta_reads_back; [done|done|by apply known_players_ok|by apply known_boats_ok]|done|].
    intros l [= <-]. by apply shown_registered.
  - right. pose proof Hx as (g & Hg & Hxg). pose proof (fo_cells _ _ (known_ok g Hg) _ Hxg) as Hcell.
    eapply reads_of; [apply cell_snapshot_reads_back;
      [done|done|by apply known_players_ok|by apply known_boats_ok|by eapply rows_ok]|done|].
    intros l [= <-]. by apply shown_registered.
  - right. eapply reads_of; [apply ledger_ack_reads_back; try done; [by apply nonneg_inS, stored_gold_bounds|by apply plain_str]|done|].
    exact Hacc.
  - right. assert (Hsp : inS 64 st /\ inS 64 pr).
    { destruct Hv as [Hv|(r & Hr & -> & ->)]; [|by apply (ty_trade _ (ci_typed _ HC) _ _ Hr)].
      destruct (market (c_tables c) !! (port, item)) as [v|] eqn:Ev; simpl in Hv.
      - apply (ty_market _ (ci_typed _ HC)) in Ev. by subst v.
      - injection Hv as -> ->. by unfold inS. }
    destruct Hsp. eapply reads_of; [apply market_state_ack_reads_back; try done; by apply plain_str|done|]. exact Hacc.
  - right. eapply reads_of; [apply moor_ack_reads_back; [done|by intros ? [=]|by apply plain_str]|done|]. done.
  - right. destruct (known_registered f Hf).
    eapply reads_of; [apply moor_ack_reads_back; [done| |done]|done|].
    + intros s [= <-]. done.
    + intros _. eexists. split; [reflexivity|]. exact Hm.
Qed.

Lemma speech_sound b : Speech c b -> Sound (c_tables c) b.
Proof.
  intros [Hb|(p & (n & Hr) & Hp & _)]%speech_reads; [|by eapply reads_sound].
  pose proof (ci_queued _ HC) as Hq. rewrite Forall_forall in Hq. by apply Hq.
Qed.
End Sound.

(** ** Rule induction *)
Section Steps.
Context `{FBL : FlatBuffersLaws}.
Variable asked : Z -> Z -> Ledger.Txn -> Prop.

(** Changing the tables keeps everything else true. *)
Lemma inv_tables c t :
  CInv c -> Later (c_tables c) t -> Accounts t -> Typed t -> CInv (c <| c_tables := t |>).
Proof.
  intros [_ _ Hf Hi Hq Hs Hb] HL HA HT. split; simpl; try done.
  - intros peer f Hpf. eapply face_ok_later; [done|by eapply Hf].
  - intros hash id Hid. destruct (Hi _ _ Hid) as (r & Hr & Et).
    destruct (lt_player _ _ HL _ _ Hr) as (r' & Hr' & Et' & _). exists r'. split; [done|congruence].
  - eapply Forall_impl; [exact Hq|]. intros b. by apply sound_later.
  - eapply Forall_impl; [exact Hs|]. intros p. by apply sent_later.
Qed.

Lemma inv_sent c l :
  CInv c -> Forall (fun p => Sent (c_tables c) p.2) l -> CInv (c <| c_tx ::= fun tx => tx ++ l |>).
Proof. intros [] Hl. split; simpl; try done. by apply Forall_app. Qed.

Lemma inv_queued c q :
  CInv c -> (forall b, b ∈ q -> Sound (c_tables c) b) -> CInv (c <| c_queued := q |>).
Proof. intros [] Hq. split; simpl; try done. by apply Forall_forall. Qed.

Lemma inv_face c peer f :
  CInv c -> Face_ok (c_tables c) f -> CInv (c <| c_faces ::= <[peer := f]> |>).
Proof.
  intros [] Hf. split; simpl; try done. intros q g. rewrite lookup_insert. case_decide; [|eauto].
  by intros [= <-].
Qed.

Lemma step_keeps c c' : step asked c c' -> CInv c -> CInv c' /\ Later (c_tables c) (c_tables c').
Proof.
  intros [l Hl|addr n b Hb Hlen|b q Hb Hq|q Hq|t Hw|peer f txn at_ms row nb _ Hf Hrow Hn Hnb Hpos|peer|
          peer f row Hrow Et _ Hname Ef Hcells|peer f ab pos rot vel t cells Hf ? ? ? ? ? Hcells|
          peer f cells Hf Hcells|hash id row Hrow Et] HC.
  - split; [|done]. apply inv_sent; [done|]. eapply Forall_impl; [exact Hl|]. intros p. by left.
  - split; [|done]. apply inv_sent; [done|]. constructor; [|done]. right. exists n, b. split_and!; [done..|].
    by apply speech_sound.
  - split; [|done]. apply inv_queued; [done|]. intros x Hx%Hq. apply elem_of_cons in Hx as [->|Hx].
    + by apply speech_sound.
    + apply speech_sound; [done|]. by apply sp_queued.
  - split; [|done]. apply inv_queued; [done|]. intros x Hx%Hq. apply speech_sound; [done|]. by apply sp_queued.
  - pose proof (ci_accounts _ HC) as HA. pose proof (write_later _ _ (ac_players _ HA) Hw) as HL. split; [|exact HL].
    apply inv_tables; [done|done|by apply (write_accounts (c_tables c))|].
    apply (write_typed (c_tables c)); [done|apply HC].
  - pose proof (commit_later (c_tables c) _ (fc_player f) (Ledger.amount_gold txn) (Ledger.kind txn) (Ledger.note txn)
      at_ms nb Hn) as HL. split; [|exact HL]. apply inv_tables; [done|exact HL|by eapply commit_accounts; [..|apply HC]|].
    destruct (ci_typed _ HC). by split.
  - split; [|done]. destruct HC as [? ? Hf ? ? ? ?]. split; simpl; try done. intros q f. rewrite lookup_delete.
    case_decide; [done|]. eauto.
  - split; [|done]. apply inv_face; [done|]. rewrite Ef. split; simpl; try done. eauto.
  - split; [|done]. pose proof (ci_faces _ HC _ _ Hf) as [? ? ? ? ? ? ? Hfc].
    apply inv_face; [done|]. split; simpl; try done. intros x [Hx|Hx]%Hcells; [|done]. by apply Hfc.
  - split; [|done]. pose proof (ci_faces _ HC _ _ Hf) as [? ? ? ? ? ? ? Hfc].
    apply inv_face; [done|]. split; simpl; try done. intros x Hx%Hcells. by apply Hfc.
  - split; [|done]. destruct HC as [? ? ? Hi ? ? ?]. split; simpl; try done. intros h i. rewrite lookup_insert.
    case_decide; [|eauto]. intros [= <-]. subst. eauto.
Qed.

Lemma steps_keep c c' : steps asked c c' -> CInv c -> CInv c' /\ Later (c_tables c) (c_tables c').
Proof.
  induction 1 as [c|c1 c2 c3 Hs _ IH]; intros HC; [done|].
  destruct (step_keeps _ _ Hs HC) as [HC2 HL]. destruct (IH HC2) as [HC3 HL']. split; [done|by etrans].
Qed.

(** Where a ledger row comes from. *)
Lemma step_ledger c c' id l :
  step asked c c' -> ledger (c_tables c') !! id = Some l ->
  ledger (c_tables c) !! id = Some l \/
  exists peer f txn, asked peer (fc_player f) txn /\ c_faces c !! peer = Some f /\ lr_player_id l = fc_player f /\
    id = wrapS 64 (Ledger.txn_id txn) /\ lr_amount l = Ledger.amount_gold txn /\
    lr_kind l = Ledger.kind txn /\ lr_note l = Ledger.note txn.
Proof.
  intros [l0 Hl0|addr n b Hb Hlen|b q Hb Hq|q Hq|t Hw|peer f txn at_ms row nb Ha Hf Hrow Hn Hnb Hpos|peer|
          peer f row Hrow Et _ Hname Ef Hcells|peer f ab pos rot vel t cells Hf ? ? ? ? ? Hcells|
          peer f cells Hf Hcells|hash i row Hrow Et] Hl; simpl in Hl; auto.
  - left. destruct Hw as [| |? ? ? ? ? ? Hi| |]; try done. unfold insert_player in Hi.
    repeat case_decide; [done..|]. injection Hi as _ <-. done.
  - rewrite lookup_insert in Hl. case_decide as E; [|auto]. injection Hl as <-. right.
    exists peer, f, txn. simpl. by split_and!.
Qed.

Lemma steps_ledger c c' id l :
  steps asked c c' -> ledger (c_tables c') !! id = Some l ->
  ledger (c_tables c) !! id = Some l \/
  exists c1 peer f txn, steps asked c c1 /\ asked peer (fc_player f) txn /\ c_faces c1 !! peer = Some f /\
    lr_player_id l = fc_player f /\ id = wrapS 64 (Ledger.txn_id txn) /\
    lr_amount l = Ledger.amount_gold txn /\ lr_kind l = Ledger.kind txn /\ lr_note l = Ledger.note txn.
Proof.
  induction 1 as [c|c1 c2 c3 Hs _ IH]; intros Hl; [by left|].
  destruct (IH Hl) as [Hl2|(cx & peer & f & txn & Hst & H)].
  - destruct (step_ledger _ _ _ _ Hs Hl2) as [?|(peer & f & txn & H)]; [by left|right].
    exists c1, peer, f, txn. split; [constructor|exact H].
  - right. exists cx, peer, f, txn. split; [by eapply rtc_l|exact H].
Qed.
End Steps.

Lemma step_mono (A B : Z -> Z -> Ledger.Txn -> Prop) `{FB : FlatBuffers} c c' :
  (forall p i t, A p i t -> B p i t) -> step A c c' -> step B c c'.
Proof.
  intros HAB []; [eapply st_control|eapply st_say|eapply st_enqueue|eapply st_dequeue|eapply st_write|
    eapply st_commit|eapply st_leave|eapply st_join|eapply st_pose|eapply st_interest|eapply st_index]; eauto.
Qed.

Lemma steps_mono (A B : Z -> Z -> Ledger.Txn -> Prop) `{FB : FlatBuffers} c c' :
  (forall p i t, A p i t -> B p i t) -> steps A c c' -> steps B c c'.
Proof.
  intros HAB. induction 1 as [c|c1 c2 c3 Hs _ IH]; [by constructor|].
  eapply rtc_l; [by eapply step_mono|done].
Qed.
