(* ===== verification/Refinement.v ===== *)
(** * The server refines its specification

    [core_of] reads the state of ServerSpec.v off a [Server]; every handler of
    Server.v and every kind of tick work of Sched.v is a sequence of its steps. *)

From stdpp Require Import pretty.
From S2P Require Import Structs Flat Tables.
From S2P Require Import Prelude Float World Clock Config Econ RateLimit Wire Host TableSpecs.
From S2P Require Import HostInv Persist EconStore Codec FlatTree CodecProps Server Sched.
From S2P Require Import ServerInv TickInv ServerProps Hydration ServerSpec.

(** ** The abstract state *)

(** The cells a session's interest mentions. *)
Definition interest (x : Session) : gset Cell :=
  sub_cells (ss_sub x) ∪ ss_published_cells x ∪ ss_hydration_cells x ∪
  match ss_active_hydration x with Some h => {[hy_cell h]} | None => ∅ end.

Definition face_of (x : Session) : Face :=
  mkFace (ss_player_id x) (ss_identity_hash x) (ss_display_name x) (ss_aboard_boat x) (ss_pos x)
    (ss_rot x) (ss_vel x) (ss_t_ms x) (interest x).

Definition queued (chat : list FanoutJob) (clock : option FanoutJob) : list (list Z) :=
  jb_bytes <$> (chat ++ option_list clock).

Definition core_of (s : Server) : Core :=
  mkCore (mkBanner (server_name (cfg s)) (caps s) (weather_seed s) (weather_epoch_day s))
    (tables (db s)) (face_of <$> sessions s) (identity_players s)
    (queued (chat_fanout s) (clock_fanout s)) (tx (host s)).

(** A change of a session that only shrinks its interest. *)
Definition quiet (x y : Session) : Prop :=
  face_of y = (face_of x) <| fc_cells := interest y |> /\ interest y ⊆ interest x.

(** ** Values of their types *)
Lemma floor_as_i32_in x : inS 32 (floor_as_i32 x).
Proof.
  unfold floor_as_i32. destruct x as [| [] | |]; try (unfold inS; lia). by apply saturateS_in.
Qed.

Lemma cell_of_ok g x z : cell_ok (cell_xy (cell_of g x z)).
Proof. split; apply floor_as_i32_in. Qed.

Lemma block_ok r x c : c ∈ block_cells x r -> cell_ok (cell_xy c).
Proof.
  unfold block_cells. rewrite list_elem_of_bind. intros (dz & Hc & _).
  apply list_elem_of_fmap in Hc as (dx & -> & _). split; by apply wrapS_in.
Qed.

Lemma recenter_ok x sub u sub' c :
  recenter x sub = Some (u, sub') -> c ∈ sub_cells sub' -> c ∈ sub_cells sub \/ cell_ok (cell_xy c).
Proof.
  unfold recenter, cells_in_radius. case_decide; [intros [= _ <-]; by left|]. cbv zeta. case_decide; [|done].
  cbn [mbind option_bind]. intros [= _ <-] Hc%elem_of_list_to_set. right. by eapply block_ok.
Qed.

Lemma finite_clamped_ok m e v w :
  f32_ok (S754_finite false m e) -> f32_ok v -> finite_clamped v (S754_finite false m e) = Some w -> f32_ok w.
Proof. unfold finite_clamped. case_match; [|done]. intros Hl Hv [= <-]. by apply clamp_ok. Qed.

Lemma sanitize_ok p r v m :
  vec3_ok p -> quat_ok r -> vec3_ok v -> sanitize_motion p r v = Some m ->
  vec3_ok (World.pos m) /\ quat_ok (World.rot m) /\ vec3_ok (World.vel m).
Proof.
  destruct p as [[p0 p1] p2], r as [[[r0 r1] r2] r3], v as [[v0 v1] v2].
  unfold quat_ok, vec3_ok. simpl. intros (? & ? & ?) [(? & ? & ?) ?] (? & ? & ?). unfold sanitize_motion.
  repeat match goal with
  | |- context [finite_clamped ?v ?l] =>
      let E := fresh in destruct (finite_clamped v l) as [?w|] eqn:E; cbn [mbind option_bind];
      [apply finite_clamped_ok in E; [|vm_compute; reflexivity|done]|discriminate]
  end.
  intros [= <-]. simpl. by split_and!.
Qed.

Lemma vec3_of_ok o : oall vec3_ok o -> vec3_ok (vec3_of o).
Proof. destruct o as [v|]; intros H; [by apply H|done]. Qed.

Lemma quat_of_ok o : oall quat_ok o -> quat_ok (quat_of o).
Proof. destruct o as [v|]; intros H; [by apply H|done]. Qed.

Lemma default_str (d : string) o : is_str d -> oall (fun s => str_ok s = true) o -> is_str (default d o).
Proof. destruct o as [s|]; intros Hd Ho; [by apply Ho|done]. Qed.

Lemma clock_from_epoch_ok epoch now : clock_ok (clock_from_epoch epoch now).
Proof.
  unfold clock_from_epoch, clock_ok. simpl. split_and!; [apply floor_as_u32_in|apply f32_of_f64_ok|].
  set (d := floor_as_u32 _). clearbody d.
  assert (Hall : forallb (fun d => valid_binary prec32 emax32 (f32_div (f32_of_Z d) (f32_of_Z LUNAR_CYCLE_DAYS)))
                   (Z.of_nat <$> seq 0 30) = true) by (vm_compute; reflexivity).
  rewrite forallb_forall in Hall. apply Hall, list_elem_of_In, list_elem_of_fmap.
  pose proof (Z.mod_pos_bound d LUNAR_CYCLE_DAYS eq_refl) as Hb. unfold LUNAR_CYCLE_DAYS in *.
  exists (Z.to_nat (d mod 30)). rewrite elem_of_seq. lia.
Qed.

(** Decimal text is plain. *)
Lemma plain_pretty_N (n : N) : plain (pretty n) = true.
Proof.
  unfold pretty, pretty_N. case_decide as Hn; [done|].
  assert (H : forall m s, plain s = true -> plain (pretty_N_go m s) = true).
  { intros m. induction (N.lt_wf_0 m) as [m _ IH]. intros s Hs.
    destruct (decide (0 < m)%N) as [Hm|Hm].
    - rewrite pretty_N_go_step by done. apply IH; [by apply N.div_lt|].
      unfold plain in *. simpl. rewrite Hs. rewrite andb_true_r. unfold pretty_N_char.
      repeat case_match; done.
    - assert (m = 0%N) as -> by lia. done. }
  by apply H.
Qed.

Lemma plain_pretty_Z (z : Z) : plain (pretty z) = true.
Proof.
  destruct z as [|p|p]; [done|exact (plain_pretty_N (N.pos p))|].
  change (plain ("-" +:+ pretty (N.pos p)) = true). by rewrite plain_app, plain_pretty_N.
Qed.

(** ** Refinement

    [refines asked s s']: from a state that keeps the invariant, [s'] is reached from
    [s] by steps of the specification, committing only transactions of [asked]. *)
Section Refines.
Context `{FBL : FlatBuffersLaws}.
Variable asked : Z -> Z -> Ledger.Txn -> Prop.

Definition refines (s s' : Server) : Prop :=
  CInv (core_of s) -> steps asked (core_of s) (core_of s').

Lemma refines_core s s' : core_of s' = core_of s -> refines s s'.
Proof. intros E _. rewrite E. by constructor. Qed.

#[global] Instance refines_preorder : PreOrder refines.
Proof.
  split; [intros s; by apply refines_core|].
  intros s1 s2 s3 H12 H23 HC. specialize (H12 HC). etrans; [exact H12|]. apply H23.
  by apply (steps_keep asked _ _ H12).
Qed.

(** Chaining where the second half relies on what the first established. *)
Lemma refines_then s s1 s' :
  refines s s1 -> (CInv (core_of s1) -> refines s1 s') -> refines s s'.
Proof. intros H1 H2. etrans; [exact H1|]. intros HC. by apply H2. Qed.

Lemma refines_inv s s' : (CInv (core_of s) -> refines s s') -> refines s s'.
Proof. intros H HC. by apply H. Qed.

Lemma refines_step s s' :
  (CInv (core_of s) -> step asked (core_of s) (core_of s')) -> refines s s'.
Proof. intros H HC. apply rtc_once. by apply H. Qed.

Lemma refines_if s (b : bool) (x y : Server) :
  refines s x -> refines s y -> refines s (if b then x else y).
Proof. by destruct b. Qed.

(** *** Sending *)
Lemma refines_send s peer b :
  (CInv (core_of s) -> Speech (core_of s) b) -> refines s (send peer b s).
Proof.
  intros Hb HC.
  change (send peer b s) with (s <| host := (send_unreliable peer b (Ok tt) (host s)).2 |>).
  unfold send_unreliable. case_decide as Hl; [by apply refines_core|].
  destruct (peer_addr peer (host s)) as [a|]; [|by apply refines_core].
  destruct (peers (host s) !! a) as [p|]; [|by apply refines_core].
  apply rtc_once. apply (st_say _ (core_of s) a (p_connection_number p)); [auto|lia].
Qed.

Lemma refines_send_bounded s peer b :
  (CInv (core_of s) -> Speech (core_of s) b) -> refines s (send_bounded peer b s).2.
Proof. intros Hb. unfold send_bounded. case_decide; [done|by apply refines_send]. Qed.

Lemma next_seq_eq s : exists n s', next_seq s = (n, s') /\ inU 32 n /\ core_of s' = core_of s.
Proof. do 2 eexists. split; [reflexivity|]. split; [by apply wrapU_in|reflexivity]. Qed.

(** *** Sessions *)
Lemma core_session s peer y :
  core_of (s <| sessions ::= <[peer := y]> |>) = (core_of s) <| c_faces ::= <[peer := face_of y]> |>.
Proof. unfold core_of. cbn. by rewrite fmap_insert. Qed.

Lemma face_lookup s peer x : sessions s !! peer = Some x -> c_faces (core_of s) !! peer = Some (face_of x).
Proof. intros Hx. simpl. by rewrite lookup_fmap, Hx. Qed.

Lemma refines_session s peer x y :
  sessions s !! peer = Some x -> quiet x y -> refines s (s <| sessions ::= <[peer := y]> |>).
Proof.
  intros Hx [E Hi]. apply refines_step. intros _. rewrite core_session, E.
  apply st_interest; [by apply face_lookup|exact Hi].
Qed.

Lemma refines_update s peer f :
  (forall x, sessions s !! peer = Some x -> quiet x (f x)) -> refines s (update_session peer f s).
Proof.
  intros Hf. unfold update_session. destruct (sessions s !! peer) as [x|] eqn:Ex.
  - replace (s <| sessions ::= alter f peer |>) with (s <| sessions ::= <[peer := f x]> |>).
    { eapply refines_session; [done|by apply Hf]. }
    cbn. by rewrite alter_cases, Ex.
  - apply refines_core. unfold core_of. cbn. by rewrite alter_cases, Ex.
Qed.

Lemma quiet_refl x y : face_of y = face_of x -> quiet x y.
Proof. intros E. unfold quiet. rewrite E. assert (interest y = interest x) as -> by (by injection E). done. Qed.

Lemma known_session s peer x : sessions s !! peer = Some x -> known (core_of s) (face_of x).
Proof. intros Hx. exists peer. by apply face_lookup. Qed.

Lemma known_by_player s pid x : session_by_player pid s = Some x -> known (core_of s) (face_of x).
Proof.
  unfold session_by_player. destruct (player_peers s !! pid) as [peer|]; [|done].
  destruct (sessions s !! peer) as [y|] eqn:Ey; [|done]. case_decide; [|done]. intros [= ->].
  by eapply known_session.
Qed.

(** *** The database *)
Lemma refines_tables s d :
  (CInv (core_of s) -> tables d = tables (db s) \/ write (tables (db s)) (tables d)) ->
  refines s (s <| db := d |>).
Proof.
  intros Hd HC. destruct (Hd HC) as [E|Hw].
  - apply refines_core; [|done]. unfold core_of. cbn. by rewrite E.
  - apply rtc_once. by apply (st_write asked (core_of s) (tables d)).
Qed.

Lemma refines_db {A} (m : M A) s :
  (forall r d, m (db s) = (r, d) -> CInv (core_of s) ->
     tables d = tables (db s) \/ write (tables (db s)) (tables d)) ->
  refines s (on_db m s).2.
Proof.
  intros Hm. unfold on_db. destruct (m (db s)) as [[a|e] d] eqn:E; apply refines_tables; eauto.
Qed.

Lemma refines_query {A} (f : Tables -> result Persist.Error A) s : refines s (on_db (query f) s).2.
Proof. apply refines_db. intros r d E _. left. by apply query_cases in E as [? _]. Qed.

Lemma on_db_Ok {A} (m : M A) s a s' :
  on_db m s = (Ok a, s') -> exists d, m (db s) = (Ok a, d) /\ s' = s <| db := d |>.
Proof. unfold on_db. destruct (m (db s)) as [[b|e] d]; intros [= <- <-]. eauto. Qed.

Lemma refines_touch s id now : refines s (on_db (touch_last_seen id now) s).2.
Proof.
  apply refines_db. intros r d E _. apply exec_cases in E. destruct r as [u|e]; [|by left].
  right. rewrite E. apply wr_touch.
Qed.

(** *** The session registry *)
Lemma core_schedule peer s : core_of (schedule_aoi peer s) = core_of s.
Proof. unfold schedule_aoi. by case_match. Qed.

Lemma core_emit peer aoi s : core_of (emit_aoi peer aoi s) = core_of s.
Proof. unfold emit_aoi. case_match; [done|apply core_schedule]. Qed.

Lemma core_unregister peer s :
  core_of (unregister_session peer s).2 = (core_of s) <| c_faces ::= delete peer |>.
Proof.
  unfold unregister_session. destruct (sessions s !! peer) as [x|] eqn:Ex.
  - unfold core_of. case_decide; cbn; by rewrite fmap_delete.
  - unfold core_of. cbn. rewrite delete_id; [done|]. by rewrite lookup_fmap, Ex.
Qed.

Lemma refines_unregister peer s : refines s (unregister_session peer s).2.
Proof. apply refines_step. intros _. rewrite core_unregister. apply st_leave. Qed.

Lemma remove_tx a h : tx (remove_peer_at a h).2 = tx h.
Proof.
  unfold remove_peer_at. destruct (peers h !! a) as [p|]; [|done].
  destruct (peers_per_ip h !! addr_ip a) as [n|]; [|done]. by case_decide.
Qed.

Lemma core_host s h l :
  tx h = tx (host s) ++ l -> core_of (s <| host := h |>) = (core_of s) <| c_tx ::= fun t => t ++ l |>.
Proof. intros E. unfold core_of. cbn. by rewrite E. Qed.

Lemma refines_host s h l :
  tx h = tx (host s) ++ l -> Forall (fun p => Control p.2) l -> refines s (s <| host := h |>).
Proof. intros E Hl. apply refines_step. intros _. rewrite (core_host s h l E). by apply st_control. Qed.

Lemma disconnect_tx peer h :
  exists l, tx (disconnect peer h).2 = tx h ++ l /\ Forall (fun p => Control p.2) l.
Proof.
  unfold disconnect. destruct (peer_addr peer h) as [a|]; [|exists []; by rewrite app_nil_r].
  pose proof (remove_tx a h) as E. destruct (remove_peer_at a h) as [[p|] h']; simpl in *.
  - exists [(p_addr p, build_disconnect (p_connection_number p) (p_connect_time p))].
    rewrite E. split; [done|]. repeat constructor.
  - exists []. rewrite E, app_nil_r. done.
Qed.

Lemma refines_evict peer pid s : refines s (evict_superseded peer pid s).2.
Proof.
  unfold evict_superseded. destruct (player_peers s !! pid) as [pp|]; [|done]. case_decide; [done|].
  assert (Hd : forall r, r = match peer_addr pp (host s) with
      | Some _ => let '(ok, h) := disconnect pp (host s) in (ok, s <| host := h |>)
      | None => (true, s)
      end -> refines s r.2).
  { intros r ->. destruct (peer_addr pp (host s)); [|done].
    destruct (disconnect_tx pp (host s)) as (l & E & Hl). destruct (disconnect pp (host s)) as [ok h].
    by apply (refines_host s h l). }
  specialize (Hd _ eq_refl). destruct (match peer_addr pp (host s) with Some _ => _ | None => _ end) as [ok s1].
  destruct ok; cbn [negb]; [|done]. pose proof (refines_unregister pp s1) as Hu.
  destruct (unregister_session pp s1) as [o s2]. simpl in *. etrans; [exact Hd|]. etrans; [exact Hu|].
  by apply refines_core.
Qed.

Lemma faces_rekey keys m : face_of <$> set_generations keys m = face_of <$> m.
Proof.
  unfold set_generations. revert m. induction keys as [|k keys IH]; intros m; simpl; [done|].
  rewrite IH. apply map_eq. intros i. rewrite !lookup_fmap, lookup_alter. case_decide; [|done].
  subst. by destruct (m !! _).
Qed.

Lemma refines_rekey s : refines s (rekey_live_session_generations s).2.
Proof.
  unfold rekey_live_session_generations. case_decide; [done|]. apply refines_step. intros _.
  simpl. match goal with |- step _ _ (core_of ?t) =>
    replace (core_of t) with ((core_of s) <| c_queued := [] |>) end.
  - apply st_dequeue. apply list_subseteq_nil.
  - unfold core_of. cbn. by rewrite <- (faces_rekey (rekeyed s) (sessions s)).
Qed.

Lemma sessions_rekey_none s peer :
  sessions s !! peer = None -> sessions (rekey_live_session_generations s).2 !! peer = None.
Proof.
  intros Hn. unfold rekey_live_session_generations. case_decide; [done|].
  change (set_generations (rekeyed s) (sessions s) !! peer = None). apply not_elem_of_dom.
  rewrite rekey_dom. by apply not_elem_of_dom.
Qed.

Lemma refines_allocate s peer :
  sessions s !! peer = None ->
  refines s (allocate_session_generation s).2 /\ sessions (allocate_session_generation s).2 !! peer = None /\
  tables (db (allocate_session_generation s).2) = tables (db s).
Proof.
  intros Hn. unfold allocate_session_generation.
  assert (H1 : forall r, r = (if decide (next_session_generation s = u64_max)
      then rekey_live_session_generations s else (Ok tt, s)) ->
    refines s r.2 /\ sessions r.2 !! peer = None /\ tables (db r.2) = tables (db s)).
  { intros r ->. case_decide; [|done]. split; [apply refines_rekey|]. split; [by apply sessions_rekey_none|].
    unfold rekey_live_session_generations. by case_decide. }
  specialize (H1 _ eq_refl). destruct (if decide (next_session_generation s = u64_max) then _ else _) as [[u|e] s1];
    [|done].
  destruct H1 as (H1 & H2 & H3). destruct (checked_u _ _) as [g|]; [|done].
  split; [|done]. etrans; [exact H1|]. by apply refines_core.
Qed.

(** A session for a registered player. *)
Definition joins (s : Server) (x : Session) : Prop :=
  (exists row, players (tables (db s)) !! ss_player_id x = Some row /\ pl_token_hash row = ss_identity_hash x) /\
  is_str (ss_display_name x) /\
  face_of x = mkFace (ss_player_id x) (ss_identity_hash x) (ss_display_name x) 0 (vec3_of None)
    (quat_of None) (vec3_of None) 0 (interest x) /\
  (forall c, c ∈ interest x -> cell_ok (cell_xy c)).

Lemma refines_register peer x s :
  joins s x ->
  refines s (register_session peer x s).2 /\
  (forall u s', register_session peer x s = (Ok u, s') ->
     exists y, sessions s' !! peer = Some y /\ face_of y = face_of x /\ tables (db s') = tables (db s)).
Proof.
  intros ((row & Hrow & Et) & Hname & Ef & Hcells). unfold register_session.
  case_decide as Hs; [done|]. apply eq_None_not_Some in Hs.
  destruct (player_peers s !! ss_player_id x); [done|].
  destruct (refines_allocate s peer Hs) as (H1 & Hn & Edb).
  destruct (allocate_session_generation s) as [[g|e] s1]; [|done]. simpl in H1, Hn, Edb.
  set (y := x <| ss_generation := g |>).
  assert (Ey : face_of y = face_of x) by done.
  match goal with |- context [schedule_aoi peer ?t] => set (s2 := t) end.
  assert (E2 : core_of s2 = (core_of s1) <| c_faces ::= <[peer := face_of y]> |> /\
               sessions s2 !! peer = Some y /\ tables (db s2) = tables (db s1)).
  { unfold s2. destruct (ss_dirty _); (split; [unfold core_of; cbn; by rewrite fmap_insert|split; [apply lookup_insert_eq|done]]). }
  destruct E2 as (E2 & Hy & Edb2). clearbody s2. cbn [snd fst]. split.
  - etrans; [exact H1|]. apply refines_step. intros _. rewrite core_schedule, E2, Ey.
    apply (st_join _ (core_of s1) peer (face_of x) row); simpl; try done.
    + by rewrite Edb.
    + by rewrite lookup_fmap, Hn.
  - intros u s' [= _ <-]. exists y. unfold schedule_aoi. rewrite Hy. split; [done|]. split; [done|].
    simpl. congruence.
Qed.

(** *** Hello *)
Lemma refines_reject env peer reason s :
  plain reason = true -> refines s (reject_hello env peer reason s).
Proof.
  intros Hr. unfold reject_hello, send_hello. destruct (next_seq_eq s) as (n & s1 & -> & Hn & E).
  etrans; [by apply refines_core|]. apply refines_send. intros _.
  apply (sp_reject (core_of s1) n reason (clock_now env s1)); [done|done|apply clock_from_epoch_ok].
Qed.

Lemma refines_accept env peer pid gold s q x :
  sessions s !! q = Some x -> ss_player_id x = pid -> gold = stored_gold pid (tables (db s)) ->
  refines s (send_accepted_hello env peer pid gold s).
Proof.
  intros Hx <- ->. unfold send_accepted_hello, send_hello. cbv zeta.
  set (m := wrapU 32 (sv_seq s + 1)). change (next_seq s) with (m, s <| sv_seq := m |>). cbv beta iota.
  assert (Hm : inU 32 m) by (by apply wrapU_in). set (s1 := s <| sv_seq := m |>).
  assert (E : core_of s1 = core_of s) by done.
  assert (Hx1 : sessions s1 !! q = Some x) by done.
  etrans; [by apply refines_core|]. apply refines_send. intros _.
  apply (sp_accept (core_of s1) m (face_of x) (clock_now env s1)); [done|by eapply known_session|].
  apply clock_from_epoch_ok.
Qed.

#[local] Instance Err_inj {E A} : Inj (=) (=) (@Err E A).
Proof. by intros a b [= ->]. Qed.

Lemma validate_plain v field required max reason :
  plain field = true -> validate_hello_string v field required max = Err reason -> plain reason = true.
Proof.
  intros Hf. unfold validate_hello_string. destruct (required && _).
  { intros H. apply (inj Err) in H as <-. by rewrite plain_app, Hf. }
  destruct (match v with Some _ => _ | None => _ end); [|done].
  intros H. apply (inj Err) in H as <-. by rewrite !plain_app, Hf, plain_pretty_Z.
Qed.

Lemma check_hello_plain hello s reason : check_hello hello s = Err reason -> plain reason = true.
Proof.
  unfold check_hello. case_decide as Hpv.
  { intros H. apply (inj Err) in H as <-. by rewrite !plain_app, !plain_pretty_Z. }
  repeat match goal with |- context [validate_hello_string ?v ?f ?r ?m] =>
    let E := fresh "E" in destruct (validate_hello_string v f r m) eqn:E;
    [|intros H; apply (inj Err) in H as <-; eapply validate_plain; [|exact E]; reflexivity] end.
  done.
Qed.

Lemma admit_write tok name now max_rows db r d :
  admit_player_by_token tok name now max_rows db = (r, d) ->
  tables d = tables db \/ write (tables db) (tables d).
Proof.
  intros H. unfold admit_player_by_token in H. apply transaction_cases in H. destruct r as [a|e]; [|by left].
  destruct H as (d1 & d2 & E1 & Hb & E2). rewrite E2, <- E1. clear E1 E2 d.
  destruct (query _ d1) as [[o|?] d3] eqn:Eq; [|done].
  apply query_cases in Eq as [E3 Hq]. specialize (Hq o eq_refl). injection Hq as <-.
  destruct (by_token tok (tables d1)) as [old|] eqn:Hold; simpl in Hb.
  - destruct (exec _ d3) as [[u|?] d4] eqn:Eu; [|done]. apply exec_cases in Eu. rewrite E3 in Eu.
    destruct (query _ d4) as [[row|?] d5] eqn:Er; [|done].
    apply query_cases in Er as [E5 _]. injection Hb as _ <-. right. rewrite E5, Eu. apply wr_refresh.
  - destruct (query _ d3) as [[n|?] d4] eqn:Ec; [|done]. apply query_cases in Ec as [E4 _].
    case_decide; [injection Hb as _ <-; left; congruence|].
    destruct (stmt _ d4) as [[row|?] d5] eqn:Ei; [|done]. injection Hb as _ <-. right.
    apply stmt_cases in Ei as (t & Hi & ->). rewrite E4, E3 in Hi. by eapply wr_player.
Qed.

Lemma core_world s w : w_grid w = w_grid (sworld s) -> core_of (s <| sworld := w |>) = core_of s.
Proof. intros E. unfold core_of, caps. cbn. by rewrite E. Qed.

Lemma place_in_cell_grid id c w : w_grid (place_in_cell id c w).2 = w_grid w.
Proof. unfold place_in_cell. case_decide; [done|]. by destruct (w_cell_of w !! id). Qed.

Lemma new_session_joins s pid hash name sub origin :
  (exists row, players (tables (db s)) !! pid = Some row /\ pl_token_hash row = hash) -> is_str name ->
  (forall c, c ∈ sub_cells sub -> cell_ok (cell_xy c)) ->
  joins s (new_session pid hash name sub origin).
Proof.
  intros Hrow Hname Hsub. split; [exact Hrow|split; [exact Hname|split; [done|]]].
  intros c. unfold interest. simpl. rewrite !elem_of_union, !elem_of_empty. naive_solver.
Qed.

Lemma refines_open env peer pid gold hash name s row :
  players (tables (db s)) !! pid = Some row -> pl_token_hash row = hash -> is_str name ->
  gold = stored_gold pid (tables (db s)) ->
  refines s (open_session env peer pid gold hash name s).2.
Proof.
  intros Hrow Et Hname ->. unfold open_session.
  destruct (subscription_new _) as [sub|] eqn:Esub; [|done]. set (origin := cell_of _ _ _).
  destruct (recenter origin sub) as [[aoi sub']|] eqn:Erec; [|done].
  assert (Hsub : forall c, c ∈ sub_cells sub' -> cell_ok (cell_xy c)).
  { intros c Hc. apply (recenter_ok _ _ _ _ _ Erec) in Hc as [Hc|]; [|done]. unfold subscription_new in Esub.
    case_decide; [|done]. injection Esub as <-. simpl in Hc. by apply elem_of_empty in Hc. }
  change (s <| sworld ::= fun w => (place_in_cell pid origin w).2 |>)
    with (s <| sworld := (place_in_cell pid origin (sworld s)).2 |>).
  set (s1 := s <| sworld := _ |>).
  assert (E1 : core_of s1 = core_of s) by (apply core_world, place_in_cell_grid).
  assert (Hj : joins s1 (new_session pid hash name sub' origin)) by (apply new_session_joins; eauto).
  assert (Edb : db s1 = db s) by done. clearbody s1.
  destruct (refines_register peer _ s1 Hj) as [H1 H2].
  destruct (register_session peer _ s1) as [[u|e] s2]; simpl in H1 |- *.
  - etrans; [by apply refines_core|]. etrans; [exact H1|].
    destruct (H2 u s2 eq_refl) as (y & Hy & Ey & Ed).
    etrans; [|apply refines_core, core_emit]. eapply refines_accept; [exact Hy|by injection Ey|].
    by rewrite Ed, Edb.
  - etrans; [by apply refines_core|exact H1].
Qed.

Lemma refines_index hash pid known now s row :
  players (tables (db s)) !! pid = Some row -> pl_token_hash row = hash ->
  refines s (index_identity hash pid known now s).2 /\
  tables (db (index_identity hash pid known now s).2) = tables (db s).
Proof.
  intros Hrow Et. unfold index_identity. destruct known; [by case_decide|]. case_decide; [done|].
  split; [|done]. apply refines_step. intros _. by eapply st_index.
Qed.

Lemma tables_evict peer pid s : tables (db (evict_superseded peer pid s).2) = tables (db s).
Proof.
  unfold evict_superseded. destruct (player_peers s !! pid) as [pp|]; [|done]. case_decide; [done|].
  assert (Hd : forall r, r = match peer_addr pp (host s) with
      | Some _ => let '(ok, h) := disconnect pp (host s) in (ok, s <| host := h |>)
      | None => (true, s)
      end -> db r.2 = db s).
  { intros r ->. destruct (peer_addr pp (host s)); [|done]. by destruct (disconnect pp (host s)). }
  specialize (Hd _ eq_refl). destruct (match peer_addr pp (host s) with Some _ => _ | None => _ end) as [ok s1].
  destruct ok; cbn [negb]; [|simpl in *; by rewrite Hd].
  assert (Hu : db (unregister_session pp s1).2 = db s1).
  { unfold unregister_session. destruct (sessions s1 !! pp); [|done]. by case_decide. }
  destruct (unregister_session pp s1) as [o s2]. simpl in *. by rewrite Hu, Hd.
Qed.

(** The hello of an admitted player. *)
Lemma refines_admitted env peer hash name pid gold known s row :
  players (tables (db s)) !! pid = Some row -> pl_token_hash row = hash -> is_str name ->
  gold = stored_gold pid (tables (db s)) ->
  refines s (try! _, s := index_identity hash pid known (e_admission_ms env) s in
             try! _, s := evict_superseded peer pid s in
             open_session env peer pid gold hash name s).2.
Proof.
  intros Hrow Et Hname Eg.
  destruct (refines_index hash pid known (e_admission_ms env) s row Hrow Et) as [H1 E1].
  destruct (index_identity _ _ _ _ s) as [[u|e] s1]; [|exact H1]. simpl in H1, E1.
  pose proof (refines_evict peer pid s1) as H2. pose proof (tables_evict peer pid s1) as E2.
  destruct (evict_superseded peer pid s1) as [[u2|e] s2]; simpl in H2, E2; [|simpl; by etrans].
  etrans; [exact H1|]. etrans; [exact H2|]. apply (refines_open _ _ _ _ _ _ _ row); [|done|done|];
    by rewrite E2, E1.
Qed.

Lemma core_admit ip known now s : core_of (admit_session ip known now s).2 = core_of s.
Proof.
  unfold admit_session. destruct (bounded_allow _ _ _ _) as [ok l]. destruct ok; [|done].
  cbn [negb]. destruct known; [by destruct (bounded_allow _ _ _ _)|by destruct (global_allow _ _)].
Qed.

Lemma refines_hello env peer hello s : ClientHello_ok hello -> refines s (on_hello_at env peer hello s).2.
Proof.
  intros Hok. unfold on_hello_at. destruct (limiter_allow _ _ _) as [ok l].
  etrans; [apply (refines_core s (s <| hello_limiter := l |>)); reflexivity|].
  set (s0 := s <| hello_limiter := l |>). clearbody s0. clear s. destruct ok; [|done]. cbn [negb].
  destruct (check_hello hello s0) as [[token dn]|reason] eqn:Ec; [|by apply refines_reject, (check_hello_plain hello s0)].
  apply check_hello_ok in Ec as (_ & _ & _ & _ & ->).
  assert (Hname : is_str (default "sailor"%string (ch_display_name hello))) by (apply default_str; [done|apply Hok]).
  destruct (sessions s0 !! peer) as [x|] eqn:Ex.
  { case_decide; [by apply refines_reject|]. pose proof (refines_query (fun t =>
      Ok (default 0 (pl_gold <$> players t !! wrapS 64 (ss_player_id x)))) s0) as Hq.
    fold (player_balance (wrapS 64 (ss_player_id x))) in Hq.
    destruct (on_db _ s0) as [[b|e] s1] eqn:Eb; simpl in Hq |- *; [|exact Hq].
    etrans; [exact Hq|]. apply on_db_Ok in Eb as (d & Eb & ->). apply query_cases in Eb as [Ed Hb].
    specialize (Hb b eq_refl). injection Hb as <-. apply (refines_accept _ _ _ _ _ peer x); [done|done|].
    simpl. by rewrite Ed. }
  destruct (peer_addr peer (host s0)) as [a|]; [|done].
  pose proof (core_admit (addr_ip a) (identity_players s0 !! token_hash token) (e_admission_ms env) s0) as Ea.
  set (known0 := identity_players s0 !! token_hash token) in *. clearbody known0.
  destruct (admit_session _ _ _ s0) as [ok s1]. simpl in Ea.
  etrans; [apply (refines_core s0 s1 Ea)|]. destruct ok; cbn [negb]; [|by apply refines_reject].
  apply refines_inv. intros HC.
  pose proof (refines_db (admit_player_by_token (token_hash token) (default "sailor"%string (ch_display_name hello))
    (e_now_ms env) (max_player_rows_u32 (cfg s1))) s1 (fun r d E _ => admit_write _ _ _ _ _ _ _ E)) as Hdb.
  destruct (on_db _ s1) as [[adm|e] s2] eqn:Eb; simpl in Hdb; [|exact Hdb].
  etrans; [exact Hdb|]. apply on_db_Ok in Eb as (d & Eb & ->).
  apply admit_cases in Eb as [HI Hadm]; [|exact (ac_players _ (ci_accounts _ HC))].
  destruct adm as [row|]; [|by apply refines_reject].
  case_decide; [done|]. simpl in Hadm. destruct Hadm as (Hby & _).
  apply by_token_spec in Hby as (id & Hid & Et); [|done].
  destruct (pi_key _ HI _ _ Hid) as [E _]. rewrite <- E in Hid.
  apply (refines_admitted _ _ _ _ _ _ _ _ row); [exact Hid|exact Et|done|].
  unfold stored_gold. simpl. rewrite (proj2 (row_key _ _ _ HI Hid)), Hid. done.
Qed.

(** *** Poses *)
Lemma recenter_interest x c u sub :
  recenter c (ss_sub x) = Some (u, sub) ->
  forall y, y ∈ interest (x <| ss_sub := sub |>) -> y ∈ interest x \/ cell_ok (cell_xy y).
Proof.
  intros E y. unfold interest. simpl. rewrite !elem_of_union. intros [[[Hy|?]|?]|?]; auto.
  apply (recenter_ok _ _ _ _ _ E) in Hy as [?|?]; auto.
Qed.

Lemma refines_client_state peer m now s :
  ClientState_ok m -> refines s (on_client_state peer m now s).2.
Proof.
  intros (Hp & Hr & Hv & Ha & Ht). unfold on_client_state.
  destruct (sessions s !! peer) as [x|] eqn:Ex; [|done].
  destruct (limiter_allow _ _ _) as [ok l]. destruct ok; [|by apply refines_core]. cbn [negb].
  destruct (sanitize_motion _ _ _) as [mo|] eqn:Em; [|by apply refines_core].
  apply sanitize_ok in Em as (Hpos & Hrot & Hvel); [|by apply vec3_of_ok|by apply quat_of_ok|by apply vec3_of_ok].
  destruct (World.pos mo) as [[px py] pz] eqn:Epos. rewrite <- Epos in *.
  match goal with |- context [?t <| sworld ::= ?f |>] =>
    change (t <| sworld ::= f |>) with (s <| client_state_limiter := l |> <| sworld := (place (ss_player_id x) px pz (sworld s)).2 |>);
    set (s1 := s <| client_state_limiter := l |> <| sworld := (place (ss_player_id x) px pz (sworld s)).2 |>) end.
  assert (E1 : core_of s1 = core_of s).
  { exact (core_world (s <| client_state_limiter := l |>) _ (place_in_cell_grid _ _ _)). }
  assert (Ex1 : sessions s1 !! peer = Some x) by exact Ex. clearbody s1.
  set (c := default _ _). destruct (recenter c (ss_sub x)) as [[aoi sub]|] eqn:Erec; [|by apply refines_core].
  pose proof (recenter_interest x c aoi sub Erec) as Hi. cbn [snd].
  etrans; [by apply refines_core|]. etrans; [|apply refines_core, core_emit].
  match goal with |- context [<[peer := ?z]>] => set (y := z) end.
  apply bool_decide_eq_true in Ha, Ht.
  apply refines_step. intros _.
  match goal with |- step _ _ (core_of ?t) =>
    replace (core_of t) with ((core_of s1) <| c_faces ::= <[peer := face_of y]> |>)
      by (unfold core_of; cbn; by rewrite fmap_insert) end.
  apply (st_pose _ (core_of s1) peer (face_of x)); try done. by apply face_lookup.
Qed.

(** *** Trades, moorings and chat *)
Lemma commit_trade_write id port item ns np at_ms db r d :
  inS 64 ns -> inS 64 np -> commit_trade id port item ns np at_ms db = (r, d) ->
  match r with
  | Ok _ => write (tables db) (tables d) /\ market (tables d) !! (port, item) = Some (ns, np) /\
            is_Some (market_trades (tables d) !! id)
  | Err _ => tables d = tables db
  end.
Proof.
  intros Hs Hp Hc. apply transaction_cases in Hc. destruct r as [u|e]; [|done].
  destruct Hc as (d1 & d2 & E1 & Hb & ->). rewrite <- E1. unfold bind_u64 in Hb. case_decide; [done|].
  destruct (stmt _ d1) as [[u1|e1] d3] eqn:Es; [|done].
  apply stmt_cases in Es as (t & Hl & E3). apply exec_cases in Hb. rewrite Hb, E3.
  destruct (market_trades (tables d1) !! id) eqn:Ef; [done|]. injection Hl as _ <-.
  split; [by apply wr_trade|]. simpl. rewrite !lookup_insert_eq. eauto.
Qed.

(** What a trade over the database does and answers. *)
Definition trade_answer (t : Tables) (tr : Market.Trade) (a : Market.MarketAck) : Prop :=
  Market.ack_txn_id a = Market.txn_id tr /\ plain (Market.reason a) = true /\
  inU 32 (Market.ack_port_id a) /\ inU 32 (Market.ack_item_id a) /\
  (Market.accepted a = true -> is_Some (market_trades t !! Market.txn_id tr)) /\
  ((Market.stock a, Market.price a) = default (0, 0) (market t !! (Market.ack_port_id a, Market.ack_item_id a)) \/
   exists r, market_trades t !! Market.txn_id tr = Some r /\ Market.stock a = tr_stock r /\ Market.price a = tr_price r).

Lemma market_lookup_effect id s r s' :
  db_lookup_trade id s = (r, s') ->
  tables (dm_db s') = tables (dm_db s) /\
  forall o, r = Ok o -> match o with
    | Some x => exists row, market_trades (tables (dm_db s)) !! id = Some row /\
        x = recorded row /\ inU 32 (tr_port_id row) /\ inU 32 (tr_item_id row)
    | None => market_trades (tables (dm_db s)) !! id = None
    end.
Proof.
  unfold db_lookup_trade. intros H. destruct (with_market _ s) as [r1 s1] eqn:Ew.
  apply with_market_cases in Ew as (d & Hq & Ed). unfold Persist.lookup_trade, bind_u64 in Hq.
  case_decide; [injection Hq as <- <-; injection H as <- <-; by rewrite Ed|].
  apply query_cases in Hq as [Et Hq]. rewrite <- Ed in Et.
  destruct r1 as [o|e]; injection H as <- <-; (split; [done|]); [|done]. intros o' [= <-].
  specialize (Hq o eq_refl). destruct (market_trades _ !! id) as [row|]; [|by injection Hq as <-].
  unfold get_u32 in Hq. case_decide; [|done]. case_decide; [|done]. injection Hq as <-. simpl. eauto.
Qed.

Lemma market_state_effect port item s r s' :
  db_market_state port item s = (r, s') ->
  tables (dm_db s') = tables (dm_db s) /\
  forall v, r = Ok v -> v = default (0, 0) (market (tables (dm_db s)) !! (port, item)).
Proof.
  unfold db_market_state. intros H. destruct (with_market _ s) as [r1 s1] eqn:Ew.
  apply with_market_cases in Ew as (d & Hq & Ed). apply query_cases in Hq as [Et Hq]. rewrite <- Ed in Et.
  destruct r1 as [o|e]; injection H as <- <-; (split; [done|]); [|done]. intros v [= <-].
  specialize (Hq o eq_refl). by injection Hq as <-.
Qed.

Lemma market_apply_write tr s r s' :
  Market.apply tr s = (r, s') -> inU 32 (Market.port_id tr) -> inU 32 (Market.item_id tr) ->
  inS 64 (Market.unit_price tr) ->
  (tables (dm_db s') = tables (dm_db s) \/ write (tables (dm_db s)) (tables (dm_db s'))) /\
  forall a, r = Ok a -> trade_answer (tables (dm_db s')) tr a.
Proof.
  intros H Hport Hitem Hup. unfold Market.apply in H. simpl in H.
  destruct (db_lookup_trade _ s) as [rl s1] eqn:El. apply market_lookup_effect in El as [E1 Hl].
  destruct rl as [o|e]; [|injection H as <- <-; by split; [left|]]. specialize (Hl o eq_refl).
  destruct o as [x|].
  { destruct Hl as (row & Hrow & -> & ? & ?). injection H as <- <-. split; [by left|]. intros a [= <-].
    unfold trade_answer. simpl. rewrite E1. split_and!; try done. right. eauto. }
  destruct (db_market_state _ _ s1) as [[[st pr]|e] s2] eqn:Es; apply market_state_effect in Es as [E2 Hs];
    [|injection H as <- <-; split; [left; congruence|done]].
  specialize (Hs _ eq_refl). rewrite E1 in Hs, E2.
  assert (Hrej : forall reason, plain reason = true ->
    trade_answer (tables (dm_db s2)) tr (Market.reject tr st pr reason)).
  { intros reason Hp. unfold trade_answer. simpl. rewrite E2. split_and!; try done. by left. }
  case_decide; [injection H as <- <-; split; [by left|]; intros a [= <-]; by apply Hrej|].
  destruct (checked_add_s 64 st _) as [ns|] eqn:Ea;
    [|injection H as <- <-; split; [by left|]; intros a [= <-]; by apply Hrej].
  case_decide; [|injection H as <- <-; split; [by left|]; intros a [= <-]; by apply Hrej].
  apply checked_add_s_Some in Ea as [-> Hns].
  destruct (db_market_commit _ _ _ s2) as [rc s3] eqn:Ec. apply with_market_cases in Ec as (d & Hc & E3).
  rewrite <- E3 in Hc. clear d E3. apply commit_trade_write in Hc; [|done|done]. rewrite <- E2.
  destruct rc as [u|e]; injection H as <- <-; [|split; [by left|done]].
  destruct Hc as (Hw & Hm & Hrow). split; [by right|]. intros a [= <-]. unfold trade_answer. simpl.
  rewrite Hm. split_and!; try done. by left.
Qed.

Lemma refines_trade_ack peer s tr a :
  trade_answer (tables (db s)) tr a -> inU 64 (Market.txn_id tr) ->
  refines s (let '(n, s) := next_seq s in send peer (market_state_ack n a) s).
Proof.
  intros (Eid & Hp & Hport & Hitem & Hacc & Hv) Hid. destruct (next_seq_eq s) as (n & s1 & -> & Hn & E).
  etrans; [by apply refines_core|]. apply refines_send. intros _. rewrite E.
  destruct a as [id acc port item st pr reason]. simpl in *. subst id. by apply sp_trade.
Qed.

Lemma lookup_trade_tables id db r d : Persist.lookup_trade id db = (r, d) -> tables d = tables db.
Proof.
  unfold Persist.lookup_trade, bind_u64. case_decide; [by intros [= _ <-]|].
  intros Hq. by apply query_cases in Hq as [? _].
Qed.

Lemma refines_trade env peer m s : MarketTradeRequest_ok m -> refines s (on_trade env peer m s).2.
Proof.
  intros (Hid & Hport & Hitem & Hqty & Hup). apply bool_decide_eq_true in Hid, Hport, Hitem, Hqty, Hup.
  unfold on_trade. destruct (sessions s !! peer) as [x|]; [|done].
  set (tr := Market.mkTrade _ _ _ _ _).
  pose proof (refines_db (Persist.lookup_trade (mr_txn_id m)) s (fun r d E _ => or_introl (lookup_trade_tables _ _ _ _ E))) as H1.
  destruct (on_db (Persist.lookup_trade (mr_txn_id m)) s) as [[o|e] s1]; simpl in H1; [|exact H1].
  etrans; [exact H1|]. clear H1 s.
  assert (Hl : forall ok s2, (match o with
      | Some _ => (true, s1)
      | None => let '(ok, l) := limiter_allow (ss_player_id x) (e_admission_ms env) (trade_limiter s1) in
                (ok, s1 <| trade_limiter := l |>)
      end) = (ok, s2) -> core_of s2 = core_of s1).
  { intros ok s2. destruct o; [by intros [= _ <-]|]. destruct (limiter_allow _ _ _). by intros [= _ <-]. }
  destruct (match o with Some _ => _ | None => _ end) as [ok s2]. specialize (Hl _ _ eq_refl).
  etrans; [by apply refines_core|]. clear Hl s1. destruct ok; cbn [negb].
  - match goal with |- context [on_db ?op s2] => pose proof (refines_db op s2) as H2;
      destruct (on_db op s2) as [[a|e] s3] eqn:Ea end; simpl in H2.
    + apply on_db_Ok in Ea as (d & Ed & ->).
      destruct (Market.apply tr (mkDbMarketStore (db s2) (e_now_ms env))) as [r st] eqn:Em.
      injection Ed as -> <-. apply market_apply_write in Em as [Hw Ha]; [|done..].
      etrans; [apply H2; intros r d [= _ <-] _; exact Hw|].
      apply (refines_trade_ack peer _ tr); [by apply Ha|done].
    + apply H2. intros r d. destruct (Market.apply tr _) as [r' st] eqn:Em. intros [= _ <-] _.
      apply market_apply_write in Em as [Hw _]; done.
  - pose proof (refines_query (fun t => Ok (market t !! (mr_port_id m, mr_item_id m))) s2) as H2.
    fold (market_state (mr_port_id m) (mr_item_id m)) in H2.
    destruct (on_db (market_state (mr_port_id m) (mr_item_id m)) s2) as [[v|e] s3] eqn:Ea; simpl in H2; [|exact H2].
    etrans; [exact H2|]. apply on_db_Ok in Ea as (d & Ed & ->). apply query_cases in Ed as [Et Hv].
    specialize (Hv v eq_refl). injection Hv as <-.
    destruct (default (0, 0) _) as [st pr] eqn:Edef.
    apply (refines_trade_ack peer _ tr); [|done]. unfold trade_answer. simpl. rewrite Et, Edef.
    split_and!; try done. by left.
Qed.

(** *** Moorings *)
Lemma upsert_write m db r d :
  is_str (mo_name m) -> upsert_mooring m db = (r, d) ->
  match r with
  | Ok _ => write (tables db) (tables d) /\ is_Some (moorings (tables d) !! mo_boat_id m)
  | Err _ => tables d = tables db
  end.
Proof.
  intros Hs H. apply stmt_cases in H. destruct r as [u|e]; [|done]. destruct H as (t & Hb & ->).
  destruct (has_nan m) eqn:Hn; [done|]. injection Hb as _ <-. split; [by apply wr_moor|].
  simpl. rewrite lookup_insert_eq. eauto.
Qed.

Lemma refines_moor env peer m s : MoorRequest_ok m -> refines s (on_moor env peer m s).2.
Proof.
  intros (Hp & Hr & Hname). unfold on_moor. destruct (sessions s !! peer) as [x|] eqn:Ex; [|done].
  destruct (sanitize_motion _ _ _) as [mo|] eqn:Em; [|done].
  apply sanitize_ok in Em as (Hpos & Hrot & _); [|by apply vec3_of_ok|by apply quat_of_ok|by apply vec3_of_ok].
  assert (Hn : is_str (default "mooring"%string (mq_name m))) by (by apply default_str).
  set (name := default "mooring"%string (mq_name m)) in *. clearbody name.
  destruct (string_within_limit name _); cbn [negb].
  2: { destruct (next_seq_eq s) as (n & s1 & -> & Hq & E). etrans; [by apply refines_core|].
    apply refines_send_bounded. intros _. by apply sp_moor_refused. }
  destruct (limiter_allow _ _ _) as [ok l]. destruct ok; cbn [negb]; [|by apply refines_core].
  destruct (World.pos mo) as [[px py] pz] eqn:Epos. rewrite <- Epos in *. cbv zeta.
  set (s1 := s <| moor_limiter := l |>). set (c := cell_of _ _ _).
  match goal with |- context [upsert_mooring ?r] => set (row := r) end.
  set (bid := if decide (ss_aboard_boat x <> 0) then ss_aboard_boat x else ss_player_id x) in *.
  etrans; [by apply (refines_core s s1)|]. apply refines_inv. intros HC.
  assert (Hx1 : sessions s1 !! peer = Some x) by exact Ex.
  pose proof (ci_faces _ HC _ _ (face_lookup _ _ _ Hx1)) as Hface. clearbody s1.
  pose proof (refines_db (upsert_mooring row) s1) as H1.
  destruct (on_db (upsert_mooring row) s1) as [[u|e] s2] eqn:Eu; simpl in H1 |- *.
  2: { apply H1. intros r d Hu _. apply (upsert_write row) in Hu; [|done]. destruct r as [u|]; [right; apply Hu|by left]. }
  etrans; [apply H1; intros r d Hu _; apply (upsert_write row) in Hu; [|done]; destruct r as [u'|]; [right; apply Hu|by left]|].
  apply on_db_Ok in Eu as (d & Hu & ->). apply (upsert_write row) in Hu as [_ Hrow]; [|done].
  set (k := wrapU 32 _). assert (Hk : inU 32 k) by (by apply wrapU_in). clearbody k.
  match goal with |- refines ?a (send _ _ ?b) => set (s2 := a); set (s3 := b) end.
  etrans; [apply (refines_core s2 s3); reflexivity|]. apply refines_send. intros _.
  destruct Hface as [(prow & Hprow & _) _ Hab _ _ _ _ _]. simpl in Hprow, Hab.
  apply (sp_moored (core_of s3) k (face_of x) c bid); try done.
  - exists peer. by apply face_lookup.
  - apply cell_of_ok.
  - unfold bid. case_decide; [done|]. by eapply row_key; [apply ac_players, HC|].
  - by apply wrapU_in.
Qed.

(** *** Chat *)
Lemma capture_core s : core_of (capture_fanout_recipients s).2 = core_of s.
Proof. unfold capture_fanout_recipients. case_match; [done|]. cbv zeta. by case_match. Qed.

Lemma refines_enqueue s s' b :
  (CInv (core_of s) -> Speech (core_of s) b) ->
  core_of s' = (core_of s) <| c_queued := queued (chat_fanout s') (clock_fanout s') |> ->
  queued (chat_fanout s') (clock_fanout s') ⊆ b :: queued (chat_fanout s) (clock_fanout s) ->
  refines s s'.
Proof. intros Hb E Hq. apply refines_step. intros HC. rewrite E. apply (st_enqueue _ _ b); [auto|exact Hq]. Qed.

Lemma refines_chat env peer m s :
  inU 32 (e_uptime_ms env) -> ChatSend_ok m -> refines s (on_chat env peer m s).
Proof.
  intros Hup [Ht Hc]. apply bool_decide_eq_true in Hc.
  unfold on_chat. destruct (sessions s !! peer) as [x|] eqn:Ex; [|done].
  destruct (ss_cell x) as [cell|]; [|done].
  assert (Hs : is_str (default ""%string (ct_text m))) by (by apply default_str).
  set (text := default ""%string (ct_text m)) in *. clearbody text. cbv zeta.
  destruct (string_within_limit text _); cbn [negb]; [|done]. case_decide; [done|]. case_decide; [done|].
  destruct (limiter_allow _ _ _) as [ok l]. destruct ok; cbn [negb]; [|by apply refines_core].
  destruct (next_seq_eq (s <| chat_limiter := l |>)) as (n & s1 & En & Hn & E).
  assert (Es1 : sessions s1 = sessions s) by (unfold next_seq in En; by injection En as <- <-).
  rewrite En. etrans; [by apply (refines_core s s1)|]. clear En E.
  case_decide; [done|]. set (b := chat_broadcast _ _ _ _ _ _).
  assert (Hb : Speech (core_of s1) b).
  { apply (sp_chat (core_of s1) n (face_of x)); try done. exists peer. apply face_lookup. by rewrite Es1. }
  pose proof (capture_core s1) as E. destruct (capture_fanout_recipients s1) as [[au|] s2]; simpl in E;
    [|by apply refines_core].
  etrans; [by apply refines_core|]. apply (refines_enqueue s2 _ b); [by rewrite E|done|].
  simpl. unfold queued. rewrite !fmap_app. simpl. intros y. rewrite !elem_of_cons, !elem_of_app, !list_elem_of_singleton. naive_solver.
Qed.

(** *** Transactions *)
Definition txn_answer (t : Tables) (txn : Ledger.Txn) (a : Ledger.LedgerAck) : Prop :=
  Ledger.ack_txn_id a = Ledger.txn_id txn /\ plain (Ledger.reason a) = true /\
  (Ledger.accepted a = true -> is_Some (ledger t !! wrapS 64 (Ledger.txn_id txn))) /\
  exists owner, Ledger.new_balance a = stored_gold owner t.

Lemma txn_lookup_effect id s r s' :
  db_lookup_txn id s = (r, s') ->
  tables (dl_db s') = tables (dl_db s) /\ dl_now_ms s' = dl_now_ms s /\
  forall o, r = Ok o -> match o with
    | Some x => exists l row, ledger (tables (dl_db s)) !! wrapS 64 id = Some l /\
        players (tables (dl_db s)) !! lr_player_id l = Some row /\ Ledger.rec_new_balance x = pl_gold row
    | None => ledger (tables (dl_db s)) !! wrapS 64 id ≫= (fun l => players (tables (dl_db s)) !! lr_player_id l) = None
    end.
Proof.
  unfold db_lookup_txn. intros H. destruct (with_db _ s) as [r1 s1] eqn:Ew.
  assert (En : dl_now_ms s1 = dl_now_ms s) by (unfold with_db in Ew; destruct (Persist.lookup_txn _ _); by injection Ew as _ <-).
  apply with_db_cases in Ew as (d & Hq & Ed). apply query_cases in Hq as [Et Hq]. rewrite <- Ed in Et.
  destruct r1 as [o|e]; injection H as <- <-; (split; [done|]; split; [done|]); [|done]. intros o' [= <-].
  specialize (Hq o eq_refl). injection Hq as <-. destruct (ledger _ !! _) as [l|]; simpl; [|done].
  destruct (players _ !! _) as [row|] eqn:Er; simpl; [|done]. exists l, row. done.
Qed.

Lemma balance_effect p s r s' :
  db_balance p s = (r, s') ->
  tables (dl_db s') = tables (dl_db s) /\ dl_now_ms s' = dl_now_ms s /\
  forall b, r = Ok b -> b = stored_gold p (tables (dl_db s)).
Proof.
  intros H. unfold db_balance in H.
  assert (En : dl_now_ms s' = dl_now_ms s) by (unfold with_db in H; destruct (player_balance _ _); by injection H as _ <-).
  apply with_db_cases in H as (d & Hq & Ed). apply query_cases in Hq as [Et Hq]. rewrite <- Ed in Et.
  split; [done|]. split; [done|]. intros b ->. specialize (Hq b eq_refl). by injection Hq as <-.
Qed.

Lemma ledger_apply_commit p txn s r s' row :
  Ledger.apply p txn s = (r, s') -> Accounts (tables (dl_db s)) ->
  players (tables (dl_db s)) !! p = Some row ->
  (tables (dl_db s') = tables (dl_db s) \/
   exists nb, ledger (tables (dl_db s)) !! wrapS 64 (Ledger.txn_id txn) = None /\
     nb = pl_gold row + Ledger.amount_gold txn /\ 0 <= nb <= i64_max /\
     tables (dl_db s') = commit_effect (wrapS 64 (Ledger.txn_id txn)) p (Ledger.amount_gold txn)
       (Ledger.kind txn) (Ledger.note txn) (dl_now_ms s) nb (tables (dl_db s))) /\
  forall a, r = Ok a -> txn_answer (tables (dl_db s')) txn a.
Proof.
  intros H HA Hrow. destruct (row_key _ _ _ (ac_players _ HA) Hrow) as [Hp Ek].
  assert (Eg : stored_gold p (tables (dl_db s)) = pl_gold row) by (unfold stored_gold; by rewrite Ek, Hrow).
  unfold Ledger.apply in H. simpl in H.
  destruct (db_lookup_txn _ s) as [rl s1] eqn:El. apply txn_lookup_effect in El as (E1 & N1 & Hl).
  destruct rl as [o|e]; [|injection H as <- <-; by split; [left|]]. specialize (Hl o eq_refl).
  destruct o as [x|].
  { destruct Hl as (l & row' & Hl & Hr' & Eb). injection H as <- <-. split; [by left|]. intros a [= <-].
    unfold txn_answer. simpl. rewrite E1. split_and!; try done.
    exists (lr_player_id l). unfold stored_gold.
    by rewrite (proj2 (row_key _ _ _ (ac_players _ HA) Hr')), Hr'. }
  assert (Hfresh : ledger (tables (dl_db s)) !! wrapS 64 (Ledger.txn_id txn) = None).
  { destruct (ledger _ !! _) as [l|] eqn:E; [|done]. destruct (ac_owner _ HA _ _ E) as [y Hy]. simpl in Hl. congruence. }
  destruct (db_balance p s1) as [[b|e] s2] eqn:Eb; apply balance_effect in Eb as (E2 & N2 & Hb);
    [|injection H as <- <-; split; [left; congruence|done]].
  specialize (Hb b eq_refl). rewrite E1, Eg in Hb. rewrite E1 in E2. subst b.
  assert (Hrej : forall reason, plain reason = true ->
    txn_answer (tables (dl_db s2)) txn (Ledger.mkLedgerAck (Ledger.txn_id txn) false (pl_gold row) reason)).
  { intros reason Hpl. unfold txn_answer. simpl. split_and!; try done. exists p. by rewrite E2. }
  destruct (checked_add_s 64 _ _) as [nb|] eqn:Ea;
    [|injection H as <- <-; split; [by left|]; intros a [= <-]; by apply Hrej].
  case_decide; [|injection H as <- <-; split; [by left|]; intros a [= <-]; by apply Hrej].
  apply checked_add_s_Some in Ea as [-> Hnb].
  destruct (db_commit _ _ _ s2) as [rc s3] eqn:Ec. unfold db_commit in Ec.
  apply with_db_cases in Ec as (d & Hc & E3). rewrite <- E3 in Hc. clear d E3.
  apply commit_txn_cases in Hc. destruct rc as [u|e]; injection H as <- <-; [|split; [left; congruence|done]].
  destruct Hc as [_ Et]. rewrite E2, Ek, N2, N1 in Et. split.
  - right. eexists. split_and!; [done|reflexivity|lia|unfold inS, i64_max in *; lia|exact Et].
  - intros a [= <-]. unfold txn_answer. simpl. rewrite Et. unfold commit_effect. simpl. split_and!; try done.
    + rewrite lookup_insert_eq. eauto.
    + exists p. unfold stored_gold. simpl. by rewrite Ek, lookup_alter_eq, Hrow.
Qed.

Definition txn_of (m : EconTxn) : Ledger.Txn :=
  Ledger.mkTxn (et_txn_id m) (et_amount_gold m) (et_kind m) (default ""%string (et_note m)).

Lemma refines_econ env peer m s :
  EconTxn_ok m -> (forall x, sessions s !! peer = Some x -> asked peer (ss_player_id x) (txn_of m)) ->
  refines s (on_econ env peer m s).2.
Proof.
  intros (Hid & _) Hask. apply bool_decide_eq_true in Hid. unfold on_econ.
  destruct (sessions s !! peer) as [x|] eqn:Ex; [|done]. specialize (Hask x eq_refl).
  destruct (string_within_limit _ _); cbn [negb]; [|done].
  pose proof (refines_db (Persist.lookup_txn (wrapS 64 (et_txn_id m))) s) as H1.
  assert (Hq : forall r d, Persist.lookup_txn (wrapS 64 (et_txn_id m)) (db s) = (r, d) -> tables d = tables (db s))
    by (intros r d E; by apply query_cases in E as [? _]).
  destruct (on_db (Persist.lookup_txn (wrapS 64 (et_txn_id m))) s) as [[o|e] s1] eqn:E1; simpl in H1.
  2: { apply H1. intros. left. by eapply Hq. }
  etrans; [apply H1; intros; left; by eapply Hq|]. apply on_db_Ok in E1 as (d & _ & ->).
  assert (Ex1 : sessions (s <| db := d |>) !! peer = Some x) by exact Ex.
  set (s1 := s <| db := d |>) in *. clearbody s1. clear H1 Hq Ex s d.
  assert (Hl : forall ok s2, (match o with
      | Some _ => (true, s1)
      | None => let '(ok, l) := limiter_allow (ss_player_id x) (e_admission_ms env) (econ_limiter s1) in
                (ok, s1 <| econ_limiter := l |>)
      end) = (ok, s2) -> core_of s2 = core_of s1 /\ sessions s2 = sessions s1).
  { intros ok s2. destruct o; [by intros [= _ <-]|]. destruct (limiter_allow _ _ _). by intros [= _ <-]. }
  destruct (match o with Some _ => _ | None => _ end) as [ok s2]. destruct (Hl _ _ eq_refl) as [Ec Es].
  etrans; [by apply refines_core|]. rewrite <- Es in Ex1. clear Hl Ec Es s1.
  destruct ok; cbn [negb]; [|done]. fold (txn_of m). apply refines_inv. intros HC.
  pose proof (face_lookup _ _ _ Ex1) as Hf. destruct (fo_row _ _ (ci_faces _ HC _ _ Hf)) as (row & Hrow & _).
  simpl in Hrow. unfold on_db, db_ledger_new.
  destruct (Ledger.apply (ss_player_id x) (txn_of m) (mkDbLedgerStore (db s2) (e_now_ms env))) as [r st] eqn:Ea.
  apply (ledger_apply_commit _ _ _ _ _ row) in Ea as [Ht Ha]; [|apply HC|done]. simpl in Ht.
  assert (H2 : refines s2 (s2 <| db := dl_db st |>)).
  { destruct Ht as [E|(nb & Hn & Enb & Hpos & E)].
    - apply refines_core. unfold core_of. cbn. by rewrite E.
    - apply refines_step. intros _. unfold core_of at 2. cbn. rewrite E.
      by apply (st_commit asked (core_of s2) peer (face_of x) (txn_of m) (e_now_ms env) row nb). }
  destruct r as [a|e]; [|exact H2]. etrans; [exact H2|].
  set (s3 := s2 <| db := dl_db st |>) in *. assert (Ed : tables (db s3) = tables (dl_db st)) by done.
  destruct (Ha a eq_refl) as (Eid & Hp & Hacc & owner & Eb). rewrite <- Ed in Hacc, Eb. clearbody s3.
  destruct (next_seq_eq s3) as (n & s4 & -> & Hn & E4). etrans; [by apply refines_core|].
  apply refines_send. intros _. rewrite E4. destruct a as [id acc bal reason]. simpl in *. subst id bal.
  by apply sp_ledger.
Qed.

(** *** Disconnects and dispatch *)
Lemma world_remove_grid id w : w_grid (world_remove id w) = w_grid w.
Proof. unfold world_remove. by destruct (w_cell_of w !! id). Qed.

Lemma refines_disconnect env peer reason s : refines s (on_disconnect env peer reason s).2.
Proof.
  unfold on_disconnect. set (s0 := s <| hello_limiter ::= limiter_clear peer |>).
  etrans; [by apply (refines_core s s0)|]. clearbody s0. clear s.
  pose proof (refines_unregister peer s0) as H1. destruct (unregister_session peer s0) as [[x|] s1]; [|exact H1].
  simpl in H1. etrans; [exact H1|]. clear H1 s0.
  match goal with |- context [touch_last_seen_for_flush _ _ ?t] => set (s2 := t) end.
  assert (E2 : core_of s2 = core_of s1).
  { change (core_of (s1 <| sworld := world_remove (ss_player_id x) (sworld s1) |>) = core_of s1).
    apply core_world, world_remove_grid. }
  etrans; [by apply (refines_core s1 s2)|]. clearbody s2. unfold touch_last_seen_for_flush.
  pose proof (refines_touch s2 (wrapS 64 (ss_player_id x)) (e_now_ms env)) as H2.
  destruct (on_db _ s2) as [[u|e] s3]; simpl in H2 |- *; (etrans; [exact H2|by apply refines_core]).
Qed.
End Refines.

(** ** Events *)

(** The transaction an event asks the ledger for, the peer it came from and the
    player whose session that peer has. *)
Definition asks `{FB : FlatBuffers} (s : Server) (ev : Event) (peer player : Z) (txn : Ledger.Txn) : Prop :=
  exists bytes e m x, ev = Data peer bytes /\ decode_envelope bytes = Some e /\
    env_payload e = PEconTxn m /\ txn = txn_of m /\
    sessions s !! peer = Some x /\ ss_player_id x = player.

(** The same for a batch of events, whoever the sessions belong to. *)
Definition asked_in `{FB : FlatBuffers} (events : list Event) (peer player : Z) (txn : Ledger.Txn) : Prop :=
  exists bytes e m, Data peer bytes ∈ events /\ decode_envelope bytes = Some e /\
    env_payload e = PEconTxn m /\ txn = txn_of m.

Lemma refines_mono `{FBL : FlatBuffersLaws} (A B : Z -> Z -> Ledger.Txn -> Prop) s s' :
  (forall p i t, A p i t -> B p i t) -> refines A s s' -> refines B s s'.
Proof. intros HAB H HC. eapply steps_mono; [exact HAB|by apply H]. Qed.

Section Tick.
Context `{FBL : FlatBuffersLaws}.

Lemma refines_event env ev s :
  inU 32 (e_uptime_ms env) -> refines (asks s ev) s (handle_event env ev s).2.
Proof.
  intros Hup. destruct ev as [peer|peer bytes|peer reason]; cbn [handle_event]; [done| |apply refines_disconnect].
  unfold handle_data_at. destruct (decode_envelope bytes) as [e|] eqn:Ed; [|done].
  pose proof (decoded_messages_typed bytes e Ed) as [_ Ht].
  destruct (env_payload e) as [h|h|m|m|m|m|m|m|m|m|m|m|m|m|m| |] eqn:Ep; try done.
  - by apply refines_hello.
  - by apply refines_client_state.
  - by apply refines_moor.
  - apply refines_econ; [done|]. intros x Hx. by exists bytes, e, m, x.
  - by apply refines_chat.
  - by apply refines_trade.
Qed.

Lemma refines_events envs i events s :
  (forall j, inU 32 (e_uptime_ms (envs j))) ->
  refines (asked_in events) s (handle_events envs i events s).
Proof.
  intros Hup. revert i s. induction events as [|ev events IH]; intros i s; cbn [handle_events]; [done|].
  etrans.
  - apply (refines_mono (asks s ev)); [|by apply refines_event].
    intros p i' t (bytes & e & m & x & -> & Hd & Hp & Et & _). exists bytes, e, m. split; [left|done].
  - eapply refines_mono; [|apply IH]. intros p i' t (bytes & e & m & Hin & H). exists bytes, e, m.
    split; [by right|done].
Qed.

(** ** Tick work *)
Variable asked : Z -> Z -> Ledger.Txn -> Prop.
Notation refines := (refines asked).

Lemma refines_each {W} (f : Z -> W -> Server -> W * Server) l w s :
  (forall p w s, refines s (f p w s).2) -> refines s (each f l w s).2.
Proof.
  intros Hf. unfold each. revert w s. induction l as [|p l IH]; intros w s; simpl; [done|].
  pose proof (Hf p w s) as H. destruct (f p w s) as [w1 s1]. simpl in H. etrans; [exact H|apply IH].
Qed.

Lemma shown_players (l : list Session) : player_snap <$> l = face_player <$> (face_of <$> l).
Proof. by rewrite <- list_fmap_compose. Qed.

Lemma shown_boats (l : list Session) : boats_of l = face_boats (face_of <$> l).
Proof.
  unfold boats_of, face_boats. induction l as [|x l IH]; [done|].
  rewrite fmap_cons, !filter_cons. change (fc_aboard (face_of x)) with (ss_aboard_boat x).
  destruct (decide (ss_aboard_boat x <> 0)); [|done]. by rewrite !fmap_cons, IH.
Qed.

Lemma shown_known s l :
  Forall (known (core_of s)) (face_of <$> omap (fun pid => session_by_player pid s) l).
Proof.
  apply Forall_fmap, Forall_forall. intros x (pid & _ & Hx)%list_elem_of_omap. by eapply known_by_player.
Qed.

Lemma core_update peer f s :
  (forall x, face_of (f x) = face_of x) -> core_of (update_session peer f s) = core_of s.
Proof.
  intros Hf. unfold update_session, core_of. cbn. f_equal. apply map_eq. intros i.
  rewrite !lookup_fmap, lookup_alter. case_decide; [|done]. subst. destruct (sessions s !! i); simpl; [|done].
  by rewrite Hf.
Qed.

(** Sending a fresh message. *)
Lemma refines_say s peer b n s1 :
  next_seq s = (n, s1) -> (inU 32 n -> CInv (core_of s) -> Speech (core_of s) b) ->
  refines s (send_bounded peer b s1).2.
Proof.
  intros En Hb. destruct (next_seq_eq s) as (n' & s' & En' & Hn & E). rewrite En in En'. injection En' as <- <-.
  etrans; [by apply (refines_core _ s s1)|]. apply refines_send_bounded. rewrite E. by apply Hb.
Qed.

Lemma refines_snapshot_to tick peer w s :
  inU 32 tick -> refines s (snapshot_to tick peer w s).2.
Proof.
  intros Ht. unfold snapshot_to. destruct (sessions s !! peer) as [x|]; [|done].
  destruct (ss_cell x) as [cell|]; [|done]. cbv zeta. destruct (_ && _); [done|].
  set (s1 := update_session peer _ s).
  assert (E1 : core_of s1 = core_of s) by (by apply core_update).
  etrans; [by apply refines_core|]. clearbody s1. clear E1 s.
  destruct (select_visible _ _ s1) as [|pid0 sel] eqn:Esel; [by apply refines_core, core_update|].
  destruct (snapshot_window _ _ _) as [start remaining]. set (entries := window_entries _ _ _).
  set (shown := omap _ entries). set (s2 := update_session peer _ s1).
  assert (E2 : core_of s2 = core_of s1) by (by apply core_update).
  assert (Hk : Forall (known (core_of s2)) (face_of <$> shown)) by (rewrite E2; apply shown_known).
  etrans; [by apply refines_core|]. clearbody s2 shown. clear E2.
  assert (Hsay : forall n s3, next_seq s2 = (n, s3) ->
    refines s2 (send_bounded peer (snapshot_delta n tick (player_snap <$> shown) (boats_of shown)) s3).2).
  { intros n s3 En. eapply refines_say; [exact En|]. intros Hn _. rewrite shown_players, shown_boats.
    by apply sp_snapshot. }
  destruct (player_snap <$> shown) as [|p ps] eqn:Ep, (boats_of shown) as [|b bs] eqn:Eb; [done|..];
    (destruct (next_seq s2) as [n s3] eqn:En; specialize (Hsay n s3 eq_refl);
     destruct (send_bounded peer _ s3) as [sent s4]; by destruct sent).
Qed.

Lemma refines_snapshots s : refines s (broadcast_snapshots s).2.
Proof.
  unfold broadcast_snapshots. cbv zeta. set (s1 := s <| snapshot_tick := _ |>).
  assert (E1 : core_of s1 = core_of s /\ inU 32 (snapshot_tick s1)) by (split; [done|by apply wrapU_in]).
  clearbody s1. destruct E1 as [E1 Ht]. etrans; [by apply refines_core|]. clear E1.
  set (l := ordered_peers_after _ _ _). clearbody l.
  match goal with |- context [each _ l _ ?t] => set (s2 := t) end.
  assert (E2 : core_of s2 = core_of s1) by (unfold s2; by case_match).
  etrans; [by apply refines_core|]. apply refines_each. intros p w s'. by apply refines_snapshot_to.
Qed.

(** *** Interest delivery *)
Lemma faces_publish_removed l x :
  face_of (fold_left publish_removed l x) =
    (face_of x) <| fc_cells := interest (fold_left publish_removed l x) |>.
Proof.
  revert x. induction l as [|c l IH]; intros x; simpl; [by destruct x|]. rewrite IH.
  unfold publish_removed, drop_hydration. simpl. destruct (ss_active_hydration x); [by case_decide|done].
Qed.

Lemma faces_publish_added l x :
  face_of (fold_left publish_added l x) =
    (face_of x) <| fc_cells := interest (fold_left publish_added l x) |>.
Proof.
  revert x. induction l as [|c l IH]; intros x; simpl; [by destruct x|]. by rewrite IH.
Qed.

Lemma publish_quiet x : quiet x (publish x).
Proof.
  unfold quiet. split.
  - unfold publish. by rewrite faces_publish_added, faces_publish_removed.
  - destruct (publish_spec x) as ((_ & _ & _ & Es) & _ & _ & Ep & Eh & Ha).
    assert (Hadd : forall c, c ∈ chunk_added x -> c ∈ sub_cells (ss_sub x)).
    { intros c Hc. apply elem_of_take_rows in Hc. unfold missing in Hc. set_solver. }
    intros c. unfold interest. rewrite Es, Ep, Eh.
    rewrite !elem_of_union, !elem_of_difference, !elem_of_list_to_set.
    destruct (ss_active_hydration (publish x)) as [h|]; [|rewrite elem_of_empty; naive_solver].
    destruct (Ha h eq_refl) as [Ha' _]. rewrite Ha'. naive_solver.
Qed.

Lemma refines_chunk peer s :
  refines s (next_aoi_chunk peer s).2 /\
  forall added removed, (next_aoi_chunk peer s).1 = Some (added, removed) -> exists x,
    sessions s !! peer = Some x /\ added = chunk_added x /\ removed = chunk_removed x.
Proof.
  rewrite next_aoi_chunk_eq. destruct (sessions s !! peer) as [x|] eqn:Ex; [|done].
  pose proof (refines_session asked s peer x (publish x) Ex (publish_quiet x)) as H.
  destruct (chunk_added x) as [|a l] eqn:Ea, (chunk_removed x) as [|r k] eqn:Er; simpl;
    (split; [done|]); intros added removed E; try done; injection E as <- <-; eauto.
Qed.

Lemma send_bounded_sessions peer b (g : gmap Z Session -> gmap Z Session) s :
  send_bounded peer b (s <| sessions ::= g |>) =
    ((send_bounded peer b s).1, (send_bounded peer b s).2 <| sessions ::= g |>).
Proof. unfold send_bounded. by case_decide. Qed.

Lemma send_bounded_lookup peer b s : sessions (send_bounded peer b s).2 = sessions s.
Proof. unfold send_bounded. by case_decide. Qed.

(** A chunk is announced and published; the order of the two is not visible. *)
Lemma refines_announce peer x s n s1 :
  sessions s !! peer = Some x ->
  next_seq (s <| sessions ::= <[peer := publish x]> |>) = (n, s1) ->
  refines s (send_bounded peer (aoi_update n (chunk_added x) (chunk_removed x)) s1).2.
Proof.
  intros Hx E. set (b := aoi_update _ _ _). set (s0 := s <| sv_seq := wrapU 32 (sv_seq s + 1) |>).
  assert (Hn : inU 32 n) by (injection E as <- _; by apply wrapU_in).
  assert (s1 = s0 <| sessions ::= <[peer := publish x]> |>) as -> by (by injection E as _ <-).
  rewrite send_bounded_sessions. cbn [snd].
  etrans; [by apply (refines_core _ s s0)|]. etrans.
  - apply (refines_send_bounded asked s0 peer b). intros _. apply (sp_aoi (core_of s0) n); [done|..];
      apply Forall_forall; intros c Hc; apply elem_of_take_rows in Hc; exists (face_of x);
      (split; [exists peer; by apply face_lookup|]); unfold stale, missing, interest in *; simpl; set_solver.
  - eapply refines_session; [|apply publish_quiet]. by rewrite send_bounded_lookup.
Qed.

Lemma refines_prepare peer n s :
  refines s (prepare_cell_hydration peer n s).2 /\
  forall c a b d, (prepare_cell_hydration peer n s).1 = Some (c, a, b, d) ->
    known_cell (core_of (prepare_cell_hydration peer n s).2) c.
Proof.
  unfold prepare_cell_hydration. destruct (sessions s !! peer) as [x|] eqn:Ex; [|done].
  set (y := match ss_active_hydration x with Some _ => _ | None => x end).
  assert (Hy : quiet x y).
  { unfold y. destruct (ss_active_hydration x) as [h|] eqn:Eh; [|by apply quiet_refl]. case_match; [|by apply quiet_refl].
    split; [done|]. unfold interest. simpl. set_solver. }
  clearbody y. destruct (ss_active_hydration y) as [h|] eqn:Eh.
  - split; [by eapply refines_session|]. rewrite Eh. simpl. intros c a b d [= <- _ _ _].
    exists (face_of y). split; [exists peer; apply face_lookup, lookup_insert_eq|]. simpl.
    unfold interest. rewrite Eh. set_solver.
  - destruct (next_hydration_cell _ _) as [c|] eqn:Ec; [|split; [by eapply refines_session|done]].
    apply next_hydration_in in Ec. destruct Hy as [Ey Hy].
    assert (Hc : c ∈ interest y) by (unfold interest; set_solver). split.
    + eapply refines_session; [exact Ex|].
      match goal with |- quiet x ?z => assert (Ez : face_of z = (face_of y) <| fc_cells := interest z |>) by done end.
      split; [by rewrite Ez, Ey|]. etrans; [|exact Hy]. clear Ez.
      unfold interest. rewrite Eh. simpl. intros z. rewrite !elem_of_union, elem_of_difference, !elem_of_singleton.
      unfold interest in Hc. rewrite Eh, !elem_of_union in Hc. naive_solver.
    + simpl. intros c' a b d [= <- _ _ _]. eexists. split; [exists peer; apply face_lookup, lookup_insert_eq|].
      simpl. unfold interest. simpl. set_solver.
Qed.

Lemma core_hydration peer f s :
  (forall h, hy_cell (f h) = hy_cell h) -> core_of (update_hydration peer f s) = core_of s.
Proof.
  intros Hf. apply core_update. intros x. unfold face_of, interest. simpl.
  destruct (ss_active_hydration x); simpl; by rewrite ?Hf.
Qed.

Lemma refines_hydrate_players peer c cur rem w s :
  known_cell (core_of s) c -> refines s (hydrate_players peer c cur rem w s).2.
Proof.
  intros Hc. unfold hydrate_players. set (cands := player_candidates_after _ _ s).
  destruct (scan_cell_spec c s cands [] 0 None) as (e & _ & _ & -> & _); [unfold CELL_ENTITIES_PER_PACKET; simpl; lia|].
  rewrite app_nil_l. set (found := cell_players c s (take e cands)).
  assert (Hk : Forall (known (core_of s)) (face_of <$> found)).
  { apply Forall_fmap, Forall_forall. intros x (pid & _ & Hx)%list_elem_of_omap. unfold in_cell in Hx.
    destruct (session_by_player pid s) as [z|] eqn:Ez; [|done]. case_decide; [|done]. injection Hx as ->.
    by eapply known_by_player. }
  clearbody found. cbv zeta.
  set (s1 := update_hydration peer _ s). assert (E1 : core_of s1 = core_of s) by (by apply core_hydration).
  etrans; [by apply refines_core|]. rewrite <- E1 in Hc, Hk. clearbody s1.
  set (completed := match active_hydration_of peer s with Some _ => _ | None => false end). clearbody completed. clear E1.
  assert (Hsay : forall n s2, next_seq s1 = (n, s2) ->
    refines s1 (send_bounded peer (cell_snapshot n c (player_snap <$> found) (boats_of found) []) s2).2).
  { intros n s2 En. eapply refines_say; [exact En|]. intros Hn _. rewrite shown_players, shown_boats.
    by apply (sp_cell (core_of s1) n c (face_of <$> found) []). }
  assert (Hrest : forall w0, refines s1 (let '(n, s) := next_seq s1 in
     let '(sent, s) := send_bounded peer (cell_snapshot n c (player_snap <$> found) (boats_of found) []) s in
     if sent then (w0 <| ao_packets ::= S |>, update_hydration peer (fun h => h <| hy_sent_any := true |>) s)
     else (w0, s)).2).
  { intros w0. destruct (next_seq s1) as [n s2] eqn:En. specialize (Hsay n s2 eq_refl).
    destruct (send_bounded peer _ s2) as [sent s3]. simpl in Hsay. destruct sent; [|exact Hsay].
    etrans; [exact Hsay|]. by apply refines_core, core_hydration. }
  match goal with |- refines s1 (let '(w, s) := ?e in _).2 =>
    assert (He : refines s1 e.2) by (destruct (player_snap <$> found), (boats_of found); [done|apply Hrest..]);
    destruct e as [w2 s2] end.
  simpl in He. by destruct completed.
Qed.

Lemma refines_hydrate_moorings peer c w s :
  known_cell (core_of s) c -> refines s (hydrate_moorings peer c w s).2.
Proof.
  intros Hc. unfold hydrate_moorings. set (cursor := active_hydration_of peer s ≫= hy_mooring_cursor).
  match goal with |- context [on_db ?op s] => set (m := op) end.
  assert (Hm : forall r d, m (db s) = (r, d) -> tables d = tables (db s) /\
    forall rows, r = Ok rows -> Forall (fun x => x ∈ cell_rows (cx c) (cz c) (tables (db s))) rows).
  { unfold m, moorings_in_cell_after. intros r d E. case_decide; [|injection E as <- <-; done].
    destruct cursor; apply query_cases in E as [Et Hr]; (split; [done|]); intros rows Hrows;
      specialize (Hr rows Hrows); injection Hr as <-; apply Forall_forall; intros x Hx;
      apply elem_of_take in Hx as (i & Hx & _); apply list_elem_of_lookup_2 in Hx; [|done].
    by apply list_elem_of_filter in Hx as [_ Hx]. }
  pose proof (refines_db asked m s) as H1.
  destruct (on_db m s) as [[rows|e] s1] eqn:Eb; simpl in H1.
  2: { apply H1. intros r d E _. left. by apply Hm in E as [? _]. }
  etrans; [apply H1; intros r d E _; left; by apply Hm in E as [? _]|].
  apply on_db_Ok in Eb as (d & Ed & ->). destruct (Hm _ _ Ed) as [Et Hrows]. specialize (Hrows rows eq_refl).
  rewrite <- Et in Hrows. change d with (db (s <| db := d |>)) in Hrows.
  assert (Hc1 : known_cell (core_of (s <| db := d |>)) c) by exact Hc.
  set (s1 := s <| db := d |>) in *. clearbody s1. clear Hc Et Ed Hm H1 m cursor s d.
  destruct rows as [|row rows]; cbv zeta.
  - set (any := match active_hydration_of peer s1 with Some _ => _ | None => false end). clearbody any.
    match goal with |- refines s1 (let '(w, s) := ?e in _).2 => assert (He : refines s1 e.2) end.
    { destruct any; [done|]. destruct (next_seq s1) as [n s2] eqn:En.
      assert (Hsay : refines s1 (send_bounded peer (cell_snapshot n c [] [] []) s2).2).
      { eapply refines_say; [exact En|]. intros Hn _. by apply (sp_cell (core_of s1) n c [] []). }
      by destruct (send_bounded peer _ s2) as [[] s3]. }
    match goal with |- refines s1 (let '(w, s) := ?e in _).2 => destruct e as [w2 s2] end.
    simpl in He |- *. etrans; [exact He|]. apply refines_update. intros x _. split; [done|].
    unfold interest. simpl. set_solver.
  - set (s2 := update_hydration peer _ s1).
    assert (E2 : core_of s2 = core_of s1 /\ tables (db s2) = tables (db s1)) by (split; [by apply core_hydration|done]).
    destruct E2 as [E2 Et]. etrans; [by apply refines_core|]. rewrite <- E2 in Hc1. rewrite <- Et in Hrows. clearbody s2.
    case_decide; [|done]. destruct (next_seq s2) as [n s3] eqn:En.
    assert (Hsay : refines s2 (send_bounded peer (cell_snapshot n c [] [] [mooring_snap row]) s3).2).
    { eapply refines_say; [exact En|]. intros Hn _. apply (sp_cell (core_of s2) n c [] [row]); try done.
      constructor; [|done]. by apply Forall_inv in Hrows. }
    destruct (send_bounded peer _ s3) as [[] s4]; [|exact Hsay]. simpl in Hsay |- *.
    etrans; [exact Hsay|]. by apply refines_core, core_hydration.
Qed.

Lemma refines_one_aoi peer w s : refines s (process_one_aoi_work peer w s).2.
Proof.
  unfold process_one_aoi_work. rewrite next_aoi_chunk_eq.
  assert (Hnone : refines s (match prepare_cell_hydration peer (size (player_order s)) s with
      | (None, s) => (Ok (session_has_aoi_work peer s), w, s)
      | (Some (cell, player_cursor, players_remaining, players_complete), s) =>
          if negb players_complete then
            let '(more, work, s) := hydrate_players peer cell player_cursor players_remaining w s in
            (Ok more, work, s)
          else hydrate_moorings peer cell w s
      end : result SrvError bool * AoiTickWork * Server).2).
  { destruct (refines_prepare peer (size (player_order s)) s) as [H1 Hc].
    destruct (prepare_cell_hydration peer _ s) as [[[[[c cur] rem] comp]|] s1]; [|exact H1].
    simpl in H1. etrans; [exact H1|]. specialize (Hc _ _ _ _ eq_refl). simpl in Hc. destruct comp; cbn [negb].
    - by apply refines_hydrate_moorings.
    - pose proof (refines_hydrate_players peer c cur rem w s1 Hc) as H2.
      by destruct (hydrate_players _ _ _ _ _ s1) as [[more w2] s2]. }
  destruct (sessions s !! peer) as [x|] eqn:Ex; [|exact Hnone].
  pose proof (refines_announce peer x s) as Hann.
  destruct (next_seq (s <| sessions ::= <[peer := publish x]> |>)) as [n s1] eqn:En.
  specialize (Hann n s1 Ex eq_refl).
  destruct (chunk_added x) as [|a l] eqn:Ea, (chunk_removed x) as [|r k] eqn:Er; [exact Hnone|..];
    rewrite En; by destruct (send_bounded peer _ s1) as [sent s2].
Qed.

Lemma refines_aoi_visit peer w s : refines s (aoi_visit peer w s).2.
Proof.
  unfold aoi_visit. cbv zeta. set (s1 := s <| aoi_recipients ::= _ |>).
  etrans; [by apply (refines_core _ s s1)|]. clearbody s1.
  destruct (sessions s1 !! peer); [|done].
  match goal with |- context [process_one_aoi_work peer ?w0 s1] =>
    pose proof (refines_one_aoi peer w0 s1) as H; destruct (process_one_aoi_work peer w0 s1) as [[r w2] s2] end.
  simpl in H |- *. etrans; [exact H|]. by apply refines_if; [apply refines_core, core_schedule|].
Qed.

Lemma refines_aoi s : refines s (process_aoi_work s).2.
Proof.
  unfold process_aoi_work. cbv zeta. set (l := ordered_peers_after _ _ _). clearbody l.
  match goal with |- context [each _ l _ ?t] => set (s1 := t) end.
  assert (E1 : core_of s1 = core_of s) by (unfold s1; by case_match).
  etrans; [by apply refines_core|]. apply refines_each. intros p w s'. apply refines_aoi_visit.
Qed.

(** *** Fan-out

    A job is off its queue while it is served, so the loop is followed with the
    queue as it was at the start. *)
Definition held (Q : list (list Z)) (s : Server) : Core := (core_of s) <| c_queued := Q |>.

Definition queue_of (s : Server) : list (list Z) := queued (chat_fanout s) (clock_fanout s).

Lemma held_send Q peer b s : b ∈ Q -> steps asked (held Q s) (held Q (send peer b s)).
Proof.
  intros Hb. change (send peer b s) with (s <| host := (send_unreliable peer b (Ok tt) (host s)).2 |>).
  unfold send_unreliable. case_decide as Hl; [by constructor|].
  destruct (peer_addr peer (host s)) as [a|]; [|by constructor].
  destruct (peers (host s) !! a) as [p|]; [|by constructor].
  apply rtc_once. apply (st_say _ (held Q s) a (p_connection_number p)); [by apply sp_queued|lia].
Qed.

Lemma held_job Q sb db todo job w s :
  jb_bytes job ∈ Q ->
  let '(job', _, s') := fanout_job sb db todo job w s in
  steps asked (held Q s) (held Q s') /\ queue_of s' = queue_of s /\ clock_fanout s' = clock_fanout s /\
  chat_fanout s' = chat_fanout s /\ jb_bytes job' = jb_bytes job.
Proof.
  revert job w s. induction todo as [|r todo IH]; intros job w s Hb; cbn [fanout_job]; cbv zeta; [by split; [constructor|]|].
  case_decide; [|by split; [constructor|]]. case_decide; [|by split; [constructor|]].
  destruct (should_send _ r s).
  - match goal with |- context [fanout_job _ _ todo ?j ?w' ?t] => specialize (IH j w' t Hb);
      destruct (fanout_job _ _ todo j w' t) as [[j2 w2] s2] end.
    destruct IH as (H1 & H2). split; [|exact H2]. etrans; [by apply (held_send Q (fr_peer r) (jb_bytes job) s)|exact H1].
  - by match goal with |- context [fanout_job _ _ todo ?j ?w' ?t] => apply (IH j w' t) end.
Qed.

Lemma held_loop Q fuel sb db w s w' s' :
  fanout_loop fuel sb db w s = Some (w', s') -> queue_of s ⊆ Q ->
  steps asked (held Q s) (held Q s') /\ queue_of s' ⊆ Q.
Proof.
  revert w s. induction fuel as [|fuel IH]; intros w s; [done|]. cbn [fanout_loop]. cbv zeta.
  case_decide; [intros [= _ <-]; by split; [constructor|]|].
  case_decide; [intros [= _ <-]; by split; [constructor|]|].
  set (fc := bool_decide _ && _). intros Hl HQ.
  assert (Hnext : forall (next : option FanoutJob) s1,
    (if fc then (clock_fanout s, s <| clock_fanout := None |>)
     else (head (chat_fanout s), s <| chat_fanout ::= tail |>)) = (next, s1) ->
    held Q s1 = held Q s /\ queue_of s1 ⊆ Q /\ (forall j, next = Some j -> jb_bytes j ∈ Q)).
  { intros next s1. unfold queue_of, queued in *. rewrite fmap_app in HQ. destruct fc; intros [= <- <-].
    - split; [done|]. simpl. split; [rewrite app_nil_r; set_solver|]. intros j Ej. apply HQ. rewrite Ej. simpl. set_solver.
    - split; [done|]. destruct (chat_fanout s) as [|j q]; simpl in *.
      + split; [set_solver|done].
      + rewrite fmap_app. split; [set_solver|]. intros ? [= <-]. set_solver. }
  destruct (if fc then _ else _) as [next s1]. destruct (Hnext next s1 eq_refl) as (<- & HQ1 & Hj). clear Hnext HQ.
  destruct next as [job|].
  - specialize (Hj job eq_refl).
    pose proof (held_job Q sb db (drop (jb_next_recipient job) (au_entries (jb_recipients job))) job w s1 Hj) as Hjob.
    destruct (fanout_job _ _ _ job w s1) as [[job' w2] s2]. destruct Hjob as (H1 & H2 & H3 & H4 & H5).
    case_decide.
    + match type of Hl with fanout_loop _ _ _ ?w3 ?s3 = _ => destruct (IH w3 s3 Hl) as [Hst Hsub];
        [by destruct fc; simpl; unfold queue_of in *; simpl; rewrite H2|] end.
      split; [|exact Hsub]. etrans; [exact H1|]. by destruct fc.
    + injection Hl as _ <-. split; [etrans; [exact H1|]; by destruct fc|].
      unfold queue_of, queued in *. destruct fc; simpl; rewrite ?H3, ?H4; rewrite !fmap_app in *; simpl; rewrite H5; set_solver.
  - case_match; [injection Hl as _ <-; by split; [constructor|]|]. by apply (IH _ _ Hl).
Qed.

Lemma refines_fanout s w s' : process_fanout_work s = Some (w, s') -> refines s s'.
Proof.
  intros H _. apply (held_loop (queue_of s)) in H as [H HQ]; [|done].
  assert (E : held (queue_of s) s = core_of s) by done. rewrite E in H.
  eapply rtc_r; [exact H|]. exact (st_dequeue asked (held (queue_of s) s') (queue_of s') HQ).
Qed.

Lemma refines_clock env s : refines s (broadcast_clock env s).
Proof.
  unfold broadcast_clock. destruct (next_seq_eq s) as (n & s1 & -> & Hn & E).
  etrans; [by apply refines_core|]. set (b := world_clock n _).
  assert (Hb : Speech (core_of s1) b) by (apply sp_clock; [done|apply clock_from_epoch_ok]).
  set (s2 := s1 <| clock_fanout := None |>).
  assert (E2 : core_of s2 = (core_of s1) <| c_queued := queue_of s2 |>) by done.
  assert (Hq : queue_of s2 ⊆ queue_of s1).
  { unfold queue_of, queued. rewrite !fmap_app. simpl. set_solver. }
  pose proof (capture_core s2) as E3.
  destruct (capture_fanout_recipients s2) as [[au|] s3]; simpl in E3.
  - set (s4 := s3 <| clock_fanout := _ |>).
    assert (E4 : core_of s4 = (core_of s3) <| c_queued := queue_of s4 |>) by done.
    apply (refines_enqueue asked s1 s4 b); [done|by rewrite E4, E3, E2|].
    rewrite <- (f_equal c_queued E3 : queue_of s3 = queue_of s2) in Hq.
    change (jb_bytes <$> (chat_fanout s3 ++ [mkJob b None au 0]) ⊆ b :: queue_of s1).
    unfold queue_of at 1, queued in Hq. rewrite fmap_app in Hq |- *. clear -Hq. simpl.
    intros y. specialize (Hq y). rewrite elem_of_app in Hq. rewrite elem_of_app, !elem_of_cons, elem_of_nil.
    naive_solver.
  - apply refines_step. intros _. rewrite E3, E2. by apply st_dequeue.
Qed.

(** *** Persistence *)
Lemma core_set_dirty pid v s : core_of (set_dirty pid v s) = core_of s.
Proof.
  unfold set_dirty. destruct (player_peers s !! pid); [|done]. apply core_update. intros x. by case_decide.
Qed.

Lemma refines_flush_each now l n s : refines s (flush_each now l n s).2.
Proof.
  revert n s. induction l as [|pid l IH]; intros n s; cbn [flush_each]; [done|].
  unfold touch_last_seen_for_flush. pose proof (refines_touch asked s (wrapS 64 pid) now) as H.
  destruct (on_db _ s) as [[u|e] s1]; simpl in H |- *; (etrans; [exact H|]); [|by apply refines_core].
  etrans; [|apply IH]. apply refines_core. by rewrite core_set_dirty.
Qed.

Lemma refines_flush_at now s : refines s (process_dirty_flush_at now s).2.
Proof. unfold process_dirty_flush_at. destruct (flush_paused s); [done|apply refines_flush_each]. Qed.

Lemma refines_flush_attempt now l pending e s : refines s (flush_attempt now l pending e s).2.
Proof.
  revert pending e s. induction l as [|pid l IH]; intros pending e s; cbn [flush_attempt]; [done|].
  unfold touch_last_seen_for_flush. pose proof (refines_touch asked s (wrapS 64 pid) now) as H.
  destruct (on_db _ s) as [[u|er] s1]; simpl in H |- *; (etrans; [exact H|]); [|apply IH].
  etrans; [|apply IH]. apply refines_core. by rewrite core_set_dirty.
Qed.

Lemma refines_attempts now n pending e s : refines s (flush_attempts n now pending e s).2.
Proof.
  revert pending e s. induction n as [|n IH]; intros pending e s; cbn [flush_attempts]; [done|].
  case_decide; [done|]. pose proof (refines_flush_attempt now (btree_iter Z.le pending) pending e s) as Ha.
  destruct (flush_attempt _ _ _ _ s) as [[p' e'] s']. etrans; [exact Ha|apply IH].
Qed.

Lemma refines_flush_all now s : refines s (flush_all now s).2.
Proof.
  unfold flush_all. cbv zeta. etrans; [|apply refines_attempts]. by apply refines_core.
Qed.
End Tick.

(** ** The transport *)

(** What a poll adds to the log of sent datagrams is its own control traffic. *)
Definition adds (h h' : Host) : Prop := exists l, tx h' = tx h ++ l /\ Forall (fun p => Control p.2) l.

#[global] Instance adds_preorder : PreOrder adds.
Proof.
  split; [intros h; exists []; by rewrite app_nil_r|].
  intros h1 h2 h3 (l1 & E1 & H1) (l2 & E2 & H2). exists (l1 ++ l2). rewrite E2, E1, app_assoc.
  split; [done|by apply Forall_app].
Qed.

Lemma adds_tx h h' : tx h' = tx h -> adds h h'.
Proof. intros E. exists []. by rewrite app_nil_r. Qed.

Lemma adds_send h a b : Control b -> adds h (send_to a b h).
Proof. intros Hb. exists [(a, b)]. split; [done|]. by constructor. Qed.

Lemma adds_then h h1 h2 : tx h1 = tx h -> adds h1 h2 -> adds h h2.
Proof. intros E H. etrans; [by apply adds_tx|exact H]. Qed.

Lemma expire_tx fuel now h w : tx (expire_loop fuel now h w).1 = tx h.
Proof.
  revert h w. induction fuel as [|fuel IH]; intros h w; cbn [expire_loop]; [done|].
  destruct (reconnect_watermark_order h) as [|[a g] order]; [done|].
  destruct (reconnect_watermarks h !! a); [|by rewrite IH]. case_decide; [|by rewrite IH].
  case_decide; [done|by rewrite IH].
Qed.

Lemma watermark_tx a t now h : tx (record_reconnect_watermark a t now h) = tx h.
Proof.
  unfold record_reconnect_watermark. cbv zeta.
  set (h1 := if decide (next_reconnect_watermark_generation h = u64_max) then _ else h).
  assert (E1 : tx h1 = tx h) by (unfold h1; by case_decide). clearbody h1.
  set (h2 := h1 <| next_reconnect_watermark_generation ::= _ |>).
  assert (E2 : tx h2 = tx h) by exact E1. clearbody h2. clear E1 h1.
  set (h3 := if decide (length (reconnect_watermark_order h2) = max_peers h2) then _ else h2).
  assert (E3 : tx h3 = tx h); [|exact E3].
  unfold h3. case_decide; [|exact E2]. destruct (reconnect_watermark_order h2) as [|[oa og] order]; [exact E2|].
  cbv zeta. destruct (reconnect_watermarks _ !! oa); [|exact E2]. by case_decide.
Qed.

Lemma accept_adds req a now replaced h events : adds h (accept_connect_request req a now replaced h events).1.
Proof.
  unfold accept_connect_request.
  assert (Ha : tx (allocate_peer_slot h).2 = tx h).
  { unfold allocate_peer_slot. case_decide; [done|]. by destruct (available_free_peer_slots h). }
  destruct (allocate_peer_slot h) as [[slot|] h1]; simpl in Ha.
  - eapply adds_then; [exact Ha|]. etrans; [apply adds_send, ct_accept|]. by apply adds_tx.
  - apply adds_tx. destruct replaced; cbn [fst]; [by rewrite watermark_tx|exact Ha].
Qed.

Lemma connect_adds data a now h events : adds h (handle_connect_request data a now h events).1.
Proof.
  unfold handle_connect_request. destruct (parse_connect_request data) as [req|]; [|done].
  case_decide; [apply adds_send, ct_control|]. case_decide; [done|].
  destruct (peers h !! a) as [old|].
  - case_decide; [done|]. case_decide; [apply adds_send, ct_accept|]. cbv zeta.
    eapply adds_then; [apply remove_tx|]. apply accept_adds.
  - assert (Henter : forall h1, tx h1 = tx h -> adds h (if decide (max_peers h1 <= size (peers h1) \/
        max_peers_per_ip h1 <= default O (peers_per_ip h1 !! addr_ip a))%nat then (h1, events)
      else accept_connect_request req a now false h1 events).1).
    { intros h1 E. case_decide; [by apply adds_tx|]. eapply adds_then; [exact E|]. apply accept_adds. }
    destruct (reconnect_watermarks h !! a); [|by apply Henter]. case_decide; [done|]. by apply Henter.
Qed.

Lemma datagram_adds data a now wall h events : adds h (handle_datagram data a now wall h events).1.
Proof.
  unfold handle_datagram. destruct data as [|b0 payload]; [done|]. destruct (h_fragmented _); [done|].
  case_decide; [apply connect_adds|]. destruct (peers h !! a) as [p|]; [|done].
  case_decide; [done|]. case_decide; [by apply adds_tx|]. case_decide.
  { unfold handle_ping. destruct (read_sequence _); [|done]. destruct (peers h !! a); [|done].
    simpl. eapply adds_then; [|apply adds_send, ct_pong]. done. }
  case_decide.
  { unfold handle_pong. destruct (read_sequence _); [|done]. by destruct (peers h !! a); [apply adds_tx|]. }
  case_decide; [|done]. unfold handle_disconnect. destruct (read_disconnect_time _); [|done].
  destruct (peers h !! a); [|done]. case_decide; [done|]. simpl.
  etrans; [apply adds_send, ct_control|]. apply adds_tx, remove_tx.
Qed.

Lemma drain_adds script now h events w : adds h (drain_socket script now h events w).1.1.
Proof.
  revert h events w. induction script as [|st script IH]; intros h events w; cbn [drain_socket]; [done|].
  case_decide; [|done]. case_decide; [|done]. cbv zeta. destruct (s_peek st); try done.
  case_decide; [done|]. destruct (s_recv st) as [data a| | |]; try done. case_decide; [done|].
  pose proof (datagram_adds data a now (s_wall st) h events) as Hdg.
  destruct (handle_datagram data a now _ h events) as [h1 ev1]. etrans; [exact Hdg|apply IH].
Qed.

Lemma maintenance_adds n count now h events w : adds h (maintenance_loop n count now h events w).1.1.
Proof.
  revert h events w. induction n as [|n IH]; intros h events w; cbn [maintenance_loop]; [done|].
  assert (H : adds h (maintenance_step count now h events w).1.1).
  { unfold maintenance_step. cbv zeta. set (slot := if decide (count <= _)%nat then _ else _). clearbody slot.
    set (h1 := h <| maintenance_cursor := S slot |>). assert (E1 : tx h1 = tx h) by done. clearbody h1.
    eapply adds_then; [exact E1|]. destruct (peer_slots h1 !! slot) as [[a|]|]; [|done..].
    destruct (match peers h1 !! a with Some _ => _ | None => false end).
    - case_decide; [|done]. pose proof (remove_tx a h1) as E. by destruct (remove_peer_at a h1) as [[p|] h2]; apply adds_tx.
    - case_decide; [done|]. destruct (peers h1 !! a) as [p|]; [|done]. case_decide; [done|]. simpl.
      eapply adds_then; [|apply adds_send, ct_ping]. done. }
  destruct (maintenance_step count now h events w) as [[h1 ev1] w1]. etrans; [exact H|apply IH].
Qed.

Lemma poll_adds script now h : adds h (poll script now h).2.
Proof.
  unfold poll, poll_with_work. set (h0 := h <| available_free_peer_slots := _ |>).
  assert (E0 : tx h0 = tx h) by done. clearbody h0. unfold expire_reconnect_watermarks.
  pose proof (expire_tx (MAX_POLL_WATERMARK_CLEANUPS - watermark_cleanups work_default) now h0 work_default) as E1.
  destruct (expire_loop _ now h0 work_default) as [h1 w1]. simpl in E1.
  pose proof (drain_adds script now h1 [] w1) as H2.
  destruct (drain_socket script now h1 [] w1) as [[h2 ev2] w2]. cbv zeta. unfold process_peer_maintenance.
  assert (H3 : forall h3 ev3 w3, adds h3 (if decide (length (peer_slots h3) = O) then (h3 <| maintenance_cursor := O |>, ev3, w3)
     else maintenance_loop (Nat.min (length (peer_slots h3)) MAX_POLL_MAINTENANCE_SCANS) (length (peer_slots h3)) now h3 ev3 w3).1.1).
  { intros. case_decide; [by apply adds_tx|apply maintenance_adds]. }
  match goal with |- context [if decide (length (peer_slots h2) = O) then (_, ?e, ?w) else _] => specialize (H3 h2 e w) end.
  destruct (if decide (length (peer_slots h2) = O) then _ else _) as [[h3 ev3] w3]. simpl in *.
  eapply adds_then; [exact E0|]. eapply adds_then; [exact E1|]. by etrans.
Qed.
