(* ===== verification/EndToEnd.v ===== *)
(** * End to end: what a run of the server keeps

    The composition of everything below [main]: from start-up on a database whose
    books balance, through any ticks with any input, clock readings and statement
    failures, to the final flush. *)

From S2P Require Import Structs Flat Tables.
From S2P Require Import Prelude Float World Clock Config Econ RateLimit Wire Host TableSpecs.
From S2P Require Import HostInv Persist EconStore Codec FlatTree CodecProps Server Sched.
From S2P Require Import ServerInv TickInv ServerProps Progress ServerSpec Refinement.

(** ** Where data events come from *)
Definition delivers (script : list SockStep) (payload : list Z) : Prop :=
  exists st b0 a, st ∈ script /\ s_recv st = RecvOk (b0 :: payload) a.

Definition from_script (script : list SockStep) (events : list Event) : Prop :=
  forall peer d, Data peer d ∈ events -> delivers script d.

Lemma from_script_app script l1 l2 :
  from_script script l1 -> (forall peer d, Data peer d ∉ l2) -> from_script script (l1 ++ l2).
Proof. intros H1 H2 peer d [Hd|Hd]%elem_of_app; [by eapply H1|by destruct (H2 peer d)]. Qed.

Lemma connect_no_data data a now h events peer d :
  Data peer d ∈ (handle_connect_request data a now h events).2 -> Data peer d ∈ events.
Proof.
  assert (Hacc : forall req r h ev, Data peer d ∈ (accept_connect_request req a now r h ev).2 -> Data peer d ∈ ev).
  { intros req r h0 ev. unfold accept_connect_request. destruct (allocate_peer_slot h0) as [[slot|] h1]; [|done].
    simpl. rewrite elem_of_app, list_elem_of_singleton. naive_solver. }
  unfold handle_connect_request. destruct (parse_connect_request data) as [req|]; [|done].
  case_decide; [done|]. case_decide; [done|]. destruct (peers h !! a) as [old|].
  - case_decide; [done|]. case_decide; [done|]. cbv zeta. intros Hc%Hacc. revert Hc.
    rewrite elem_of_app, list_elem_of_singleton. naive_solver.
  - destruct (reconnect_watermarks h !! a); repeat case_decide; try done; apply Hacc.
Qed.

Lemma datagram_data data a now wall h events peer d :
  Data peer d ∈ (handle_datagram data a now wall h events).2 ->
  Data peer d ∈ events \/ exists b0, data = b0 :: d.
Proof.
  unfold handle_datagram. destruct data as [|b0 payload]; [by left|]. destruct (h_fragmented _); [by left|].
  case_decide; [intros Hc%connect_no_data; by left|]. destruct (peers h !! a) as [p|]; [|by left].
  case_decide; [by left|]. case_decide.
  { simpl. rewrite elem_of_app, list_elem_of_singleton. intros [?|[= _ <-]]; [by left|right; eauto]. }
  case_decide; [by left|]. case_decide; [by left|]. case_decide; [|by left].
  unfold handle_disconnect. destruct (read_disconnect_time _); [|by left].
  destruct (peers h !! a); [|by left]. case_decide; [by left|]. simpl.
  rewrite elem_of_app, list_elem_of_singleton. naive_solver.
Qed.

Lemma drain_data all script now h events w :
  (forall st, st ∈ script -> st ∈ all) -> from_script all events ->
  from_script all (drain_socket script now h events w).1.2.
Proof.
  revert h events w. induction script as [|st script IH]; intros h events w Hin He; cbn [drain_socket]; [done|].
  assert (Hrest : forall s, s ∈ script -> s ∈ all) by (intros s Hs; apply Hin; by right).
  case_decide; [|done]. case_decide; [|done]. cbv zeta. destruct (s_peek st); try done; [|by apply IH].
  case_decide; [done|]. destruct (s_recv st) as [data a| | |] eqn:Er; try done; [|by apply IH].
  case_decide; [by apply IH|].
  pose proof (fun p d => datagram_data data a now (s_wall st) h events p d) as Hdg.
  destruct (handle_datagram data a now _ h events) as [h1 ev1]. apply IH; [done|].
  intros p d Hd. destruct (Hdg p d Hd) as [?|(b0 & ->)]; [by eapply He|].
  exists st, b0, a. split; [|done]. apply Hin. left.
Qed.

Lemma maintenance_data all n count now h events w :
  from_script all events -> from_script all (maintenance_loop n count now h events w).1.2.
Proof.
  revert h events w. induction n as [|n IH]; intros h events w He; cbn [maintenance_loop]; [done|].
  assert (H : from_script all (maintenance_step count now h events w).1.2).
  { unfold maintenance_step. cbv zeta. destruct (peer_slots _ !! _) as [[a|]|]; [|done..].
    destruct (match peers _ !! a with Some _ => _ | None => false end).
    - case_decide; [|done]. destruct (remove_peer_at a _) as [[p|] h2]; [|done]. apply from_script_app; [done|].
      intros peer d. rewrite list_elem_of_singleton. done.
    - case_decide; [done|]. destruct (peers _ !! a); [|done]. by case_decide. }
  destruct (maintenance_step count now h events w) as [[h1 ev1] w1]. by apply IH.
Qed.

Lemma poll_delivers script now h : from_script script (poll script now h).1.
Proof.
  unfold poll, poll_with_work. destruct (expire_reconnect_watermarks _ _ _) as [h1 w1].
  pose proof (drain_data script script now h1 [] w1 (fun _ H => H)) as H2.
  destruct (drain_socket script now h1 [] w1) as [[h2 ev2] w2]. unfold process_peer_maintenance.
  simpl in H2. assert (He : from_script script ev2) by (apply H2; intros p d; by rewrite elem_of_nil).
  case_decide; [done|].
  match goal with |- context [maintenance_loop ?n ?c now h2 ev2 ?w] =>
    pose proof (maintenance_data script n c now h2 ev2 w He) as H3; destruct (maintenance_loop n c now h2 ev2 w) as [[h3 ev3] w3] end.
  exact H3.
Qed.

(** ** A tick and a run *)
Section Run.
Context `{FBL : FlatBuffersLaws}.

(** The uptime is read as a [u32]. *)
Definition input_ok (ti : TickInput) : Prop := forall i, inU 32 (e_uptime_ms (ti_env ti i)).

(** A transaction some datagram of the inputs carried. *)
Definition received (inputs : list TickInput) (_ _ : Z) (txn : Ledger.Txn) : Prop :=
  exists ti d e m, ti ∈ inputs /\ delivers (ti_script ti) d /\ decode_envelope d = Some e /\
    env_payload e = PEconTxn m /\ txn = txn_of m.

Lemma core_begin s : core_of (begin_dirty_flush s) = core_of s.
Proof. reflexivity. Qed.

Lemma refines_clock_if asked n env s :
  refines asked s (if decide (n = 0) then broadcast_clock env s else s).
Proof. case_decide; [apply refines_clock|done]. Qed.

(** The tick after its events: interest, snapshots, fan-out, flush and clock. *)
Lemma work_refines asked env due t fs lf s l' :
  (let '(_, s) := process_aoi_work s in
   let '(_, s) := broadcast_snapshots s in
   match process_fanout_work s with
   | None => None
   | Some (_, s) =>
       let '(_, s) := process_dirty_flush_at (e_now_ms env) s in
       let s := if decide (t mod due (cfg s) = 0) then broadcast_clock env s else s in
       let '(last_flush, s) :=
         if decide (FLUSH_INTERVAL <= since fs lf) then (fs, begin_dirty_flush s) else (lf, s) in
       Some (mkLoop (wrapU 64 (t + 1)) last_flush s)
   end) = Some l' -> refines asked s (lp_server l').
Proof.
  intros H.
  pose proof (refines_aoi asked s) as R1. destruct (process_aoi_work s) as [w1 s2].
  pose proof (refines_snapshots asked s2) as R2. destruct (broadcast_snapshots s2) as [w2 s3].
  destruct (process_fanout_work s3) as [[w3 s4]|] eqn:E3; [|discriminate H].
  pose proof (refines_fanout asked s3 w3 s4 E3) as R3.
  pose proof (refines_flush_at asked (e_now_ms env) s4) as R4.
  destruct (process_dirty_flush_at _ s4) as [r5 s5]. cbn [snd] in R1, R2, R4.
  etrans; [exact R1|]. etrans; [exact R2|]. etrans; [exact R3|]. etrans; [exact R4|]. cbv zeta in H.
  clear R1 R2 R3 R4 E3. etrans; [apply (refines_clock_if asked (t mod due (cfg s5)) env)|].
  destruct (decide (FLUSH_INTERVAL <= since fs lf)); injection H as <-; cbn [lp_server];
    [apply refines_core, core_begin|done].
Qed.

Lemma tick_refines ti l :
  input_ok ti ->
  match tick ti l with
  | Some l' => refines (received [ti]) (lp_server l) (lp_server l')
  | None => True
  end.
Proof.
  intros Hok. unfold tick. destruct l as [t lf s]. cbn [lp_server lp_tick lp_last_flush].
  pose proof (poll_adds (ti_script ti) (ti_frame_start ti) (host s)) as (k & Ek & Hk).
  pose proof (poll_delivers (ti_script ti) (ti_frame_start ti) (host s)) as Hd.
  destruct (poll _ _ _) as [events h]. cbn [fst snd] in Ek, Hd.
  match goal with |- match ?x with _ => _ end => destruct x as [l'|] eqn:H end; [|exact I].
  etrans; [exact (refines_host _ s h k Ek Hk)|].
  etrans; [|exact (work_refines _ _ ticks_per_clock_broadcast _ _ _ _ _ H)].
  apply (refines_mono (asked_in events)); [|exact (refines_events (ti_env ti) O events _ Hok)].
  intros p i x (bytes & e & m & Hin & He & Hp & Et). exists ti, bytes, e, m.
  split; [left|]. split; [exact (Hd _ _ Hin)|done].
Qed.

Lemma ticks_refine inputs l :
  Forall input_ok inputs ->
  match ticks inputs l with
  | Some l' => refines (received inputs) (lp_server l) (lp_server l')
  | None => True
  end.
Proof.
  revert l. induction inputs as [|ti inputs IH]; intros l Hok; cbn [ticks]; [done|].
  apply Forall_cons in Hok as [Hti Hok]. pose proof (tick_refines ti l Hti) as Ht.
  destruct (tick ti l) as [l1|]; [|exact I]. specialize (IH l1 Hok).
  destruct (ticks inputs l1) as [l2|]; [|exact I]. etrans.
  - apply (refines_mono (received [ti])); [|exact Ht].
    intros p i x (t & d & e & m & Hin & Hr). apply list_elem_of_singleton in Hin as ->.
    exists ti, d, e, m. split; [left|done].
  - apply (refines_mono (received inputs)); [|exact IH].
    intros p i x (t & d & e & m & Hin & Hr). exists t, d, e, m. split; [by right|done].
Qed.

(** The whole of [run]. *)
Lemma run_refines inputs start now s :
  Forall input_ok inputs ->
  match run inputs start now s with
  | Some (_, s') => refines (received inputs) s s'
  | None => True
  end.
Proof.
  intros Hok. unfold run. pose proof (ticks_refine inputs (mkLoop 0 start s) Hok) as Ht.
  destruct (ticks inputs _) as [l|]; [|exact I]. cbn [lp_server] in Ht.
  pose proof (refines_flush_all (received inputs) now (lp_server l)) as R.
  destruct (flush_all now (lp_server l)) as [r1 s1]. cbn [snd] in R.
  etrans; [exact Ht|]. etrans; [exact R|].
  eapply (refines_host _ s1); [reflexivity|]. apply Forall_fmap, Forall_forall. intros p _. apply ct_disconnect.
Qed.
End Run.

(** ** Start-up *)
Definition db_ok (t : Tables) : Prop := Accounts t /\ Typed t.

Lemma empty_db_ok : db_ok empty_tables.
Proof.
  split; [split|split]; simpl.
  - split; simpl; [intros id r; by rewrite lookup_empty|intros id id' r r'; by rewrite lookup_empty|].
    unfold i64_max. lia.
  - intros id r. simpl. by rewrite lookup_empty.
  - intros id l. by rewrite lookup_empty.
  - intros k v. by rewrite lookup_empty.
  - intros k r. by rewrite lookup_empty.
  - intros k m. by rewrite lookup_empty.
Qed.

Lemma migrations_ok t :
  db_ok t ->
  (forall u t', MIGRATION_V1 t = (Ok u, t') -> db_ok t') /\ (forall u t', MIGRATION_V2 t = (Ok u, t') -> db_ok t').
Proof.
  intros [HA [Hm Ht Hmo]]. destruct empty_db_ok as [[[H1 H2 H3] H4 H5] [H6 H7 H8]].
  unfold MIGRATION_V1, MIGRATION_V2. split; intros u t'.
  - destruct (has_v1 t); [done|]. intros [= _ <-]. split; [split; [by split|done|done]|by split].
  - destruct (has_v2 t); [done|]. intros [= _ <-]. split; [by apply (accounts_players_only t)|by split].
Qed.

Lemma stmt_ok {A} (body : Tables -> result Persist.Error A * Tables) d r d' :
  stmt body d = (r, d') -> db_ok (tables d) ->
  (forall a t, body (tables d) = (Ok a, t) -> db_ok t) -> db_ok (tables d').
Proof. intros H Hd Hb. apply stmt_cases in H. destruct r; [|by rewrite H]. destruct H as (t & E & ->). eauto. Qed.

Lemma init_ok debug d r d' : init debug d = (r, d') -> db_ok (tables d) -> db_ok (tables d').
Proof.
  unfold init, migrate. intros H Hd. destruct (exec _ d) as [[u|e] d1] eqn:E1; apply exec_cases in E1;
    [|injection H as _ <-; by rewrite E1]. rewrite <- E1 in Hd.
  destruct (schema_version d1) as [[v|e] d2] eqn:E2; apply query_cases in E2 as [E2 _];
    [|injection H as _ <-; by rewrite E2]. rewrite <- E2 in Hd. cbv zeta in H.
  assert (Hsecond : forall v' d3, db_ok (tables d3) ->
    (if decide (v' < 2) then
       match stmt MIGRATION_V2 d3 with (Ok _, d4) => (Ok tt, d4) | (Err e, d4) => (Err e, d4) end
     else (if debug && negb (v' =? SCHEMA_VERSION) then (Err AssertionFailed, d3) else (Ok tt, d3))) = (r, d') ->
    db_ok (tables d')).
  { intros v' d3 H3. destruct (decide (v' < 2)); [|destruct (debug && negb (v' =? SCHEMA_VERSION)); intros E; injection E as _ <-; done].
    destruct (stmt MIGRATION_V2 d3) as [[u2|e] d4] eqn:E4; intros E; injection E as _ <-;
      (eapply stmt_ok; [exact E4|done|]; by apply migrations_ok). }
  destruct (decide (v < 1)).
  - destruct (stmt MIGRATION_V1 d2) as [[u1|e] d3] eqn:E3.
    + eapply (Hsecond 1); [|revert H; destruct debug; exact id]. eapply stmt_ok; [exact E3|done|]. by apply migrations_ok.
    + injection H as _ <-. eapply stmt_ok; [exact E3|done|]. by apply migrations_ok.
  - apply (Hsecond v d2 Hd). revert H. destruct (decide (v < 2)); [|done].
    destruct (stmt MIGRATION_V2 d2) as [[u2|e] d4]; by destruct debug.
Qed.

(** The tables apart from the key/value store. *)
Definition same_rows (t t' : Tables) : Prop :=
  players t' = players t /\ player_seq t' = player_seq t /\ ledger t' = ledger t /\
  moorings t' = moorings t /\ market t' = market t /\ market_trades t' = market_trades t.

Lemma same_rows_ok t t' : same_rows t t' -> db_ok t -> db_ok t'.
Proof.
  intros (Ep & Es & El & Em & Ek & Et) [HA [Hm Ht Hmo]]. split; [by apply (accounts_players_only t)|].
  split; rewrite ?Em, ?Ek, ?Et; done.
Qed.

Lemma world_init_rows k v d r d' : world_get_or_init k v d = (r, d') -> same_rows (tables d) (tables d').
Proof.
  unfold world_get_or_init. intros H. destruct (world_get k d) as [[o|e] d1] eqn:E1; apply query_cases in E1 as [E1 _];
    [|injection H as _ <-; by rewrite E1]. rewrite <- E1.
  destruct o; [by injection H as _ <-|]. destruct (world_set k v d1) as [[u|e] d2] eqn:E2;
    apply exec_cases in E2; injection H as _ <-; by rewrite E2.
Qed.

Lemma fold_ok {E A B} (P : A -> Prop) (step : result E A -> B -> result E A) rows acc res :
  (forall acc r, r ∈ rows -> (forall m, acc = Ok m -> P m) -> forall m, step acc r = Ok m -> P m) ->
  (forall m, acc = Ok m -> P m) -> fold_left step rows acc = Ok res -> P res.
Proof.
  revert acc. induction rows as [|r rows IH]; intros acc Hs Ha; simpl; [apply Ha|].
  apply IH; [intros acc' r' Hr'; apply Hs; by right|]. intros m. apply Hs; [left|exact Ha].
Qed.

Lemma load_rows max d ids d' :
  load_identity_players_up_to max d = (Ok ids, d') ->
  tables d' = tables d /\
  forall h id, ids !! h = Some id -> exists row, players (tables d) !! id = Some row /\ pl_token_hash row = h.
Proof.
  unfold load_identity_players_up_to. intros H.
  destruct (player_identities _ d) as [[rows|e] d1] eqn:E; [|done]. apply query_cases in E as [Et Hr].
  specialize (Hr rows eq_refl). injection Hr as Hr. case_decide; [done|]. injection H as H <-. split; [done|].
  assert (Hrows : Forall (fun r : string * Z => exists row, players (tables d) !! r.2 = Some row /\
    pl_token_hash row = r.1) rows).
  { subst rows. apply Forall_forall. intros [h id] (i & _ & Hi)%list_elem_of_omap.
    destruct (players (tables d) !! i) as [row|] eqn:Erow; [|done]. injection Hi as <- <-. eauto. }
  clear Hr Et. revert H.
  apply (fold_ok (fun m => forall h id, m !! h = Some id -> exists row, players (tables d) !! id = Some row /\ pl_token_hash row = h)).
  - intros acc [h id] Hin Ha m. destruct acc as [m0|e]; [|done]. repeat case_match; try done.
    intros [= <-] h' id'. destruct (decide (h = h')) as [<-|Hne]; [|rewrite lookup_insert_ne by done; by apply (Ha m0)].
    rewrite lookup_insert_eq. intros [= <-]. rewrite Forall_forall in Hrows. by apply (Hrows (h, id)).
  - intros m [= <-] h id. by rewrite lookup_empty.
Qed.

(** The strings and floats of a configuration are values of their types, as any
    Rust value is. *)
Record config_typed (c : Config) : Prop := {
  ct_name : is_str (server_name c);
  ct_cell : f32_ok (Config.cell_size_m c);
  ct_radius : 0 <= aoi_radius_cells c
}.

Lemma caps_ok s :
  f32_ok (World.cell_size_m (w_grid (sworld s))) -> 0 <= aoi_radius_cells (cfg s) -> Caps_ok (caps s).
Proof.
  intros Hc Hr. unfold caps, Caps_ok. simpl.
  assert (H8 : forall z, inU 8 (default 0 (checked_u 8 z))).
  { intros z. unfold checked_u. case_decide; simpl; [done|]. unfold inU. lia. }
  split_and!; try apply H8; [unfold inU; lia|done|]. repeat constructor.
Qed.

Lemma server_new_blank c d now rand s d' :
  server_new c d now rand = (Ok s, d') ->
  c_faces (core_of s) = ∅ /\ c_queued (core_of s) = [] /\ c_tx (core_of s) = [].
Proof.
  unfold server_new, lift_db. intros E.
  destruct (init false d) as [[u|e] d1]; [|done].
  destruct (load_identity_players d1) as [[ids|e] d2]; [|done].
  destruct (world_get_or_init KEY_CLOCK_EPOCH _ d2) as [[ep|e] d3]; [|done].
  destruct (world_get_or_init KEY_WEATHER_SEED _ d3) as [[sd|e] d4]; [|done].
  unfold bind_with_limits in E. case_decide; [done|].
  destruct (grid_new _) as [g|]; [|done]. injection E as <- _. split_and!; [apply fmap_empty|done|done].
Qed.

Section Startup.
Context `{FBL : FlatBuffersLaws}.

Lemma server_new_inv c d now rand s d' :
  server_new c d now rand = (Ok s, d') -> config_typed c -> db_ok (tables d) -> CInv (core_of s).
Proof.
  unfold server_new, lift_db. intros E [Hn Hf Hr] Hd.
  destruct (init false d) as [[u|e] d1] eqn:E1; [|done]. apply init_ok in E1; [|done]. clear Hd.
  destruct (load_identity_players d1) as [[ids|e] d2] eqn:E2; [|done]. apply load_rows in E2 as [Et Hids].
  destruct (world_get_or_init KEY_CLOCK_EPOCH _ d2) as [[ep|e] d3] eqn:E3; [|done]. apply world_init_rows in E3.
  destruct (world_get_or_init KEY_WEATHER_SEED _ d3) as [[sd|e] d4] eqn:E4; [|done]. apply world_init_rows in E4.
  destruct (bind_with_limits _ _ _) as [h|] eqn:Eb; [|done]. destruct (grid_new _) as [g|] eqn:Eg; [|done].
  injection E as <- _. rewrite Et in E3.
  assert (Hdb : db_ok (tables d4)) by (eapply same_rows_ok; [exact E4|]; by eapply same_rows_ok).
  assert (Ep : players (tables d4) = players (tables d1)) by (destruct E3 as [<- _], E4 as [<- _]; done).
  assert (Htx : tx h = []) by (unfold bind_with_limits in Eb; case_decide; [done|]; by injection Eb as <-).
  split; simpl.
  - apply Hdb.
  - apply Hdb.
  - intros peer f. by rewrite lookup_fmap, lookup_empty.
  - rewrite Ep. exact Hids.
  - constructor.
  - by rewrite Htx.
  - split; simpl; [done| | |].
    + apply caps_ok; [|done]. unfold grid_new in Eg. case_match; [|done]. by injection Eg as <-.
    + unfold parse_u64. destruct (match bytes_of_string sd with [] => _ | _ => _ end) as [z|]; simpl.
      * case_decide; simpl; [done|unfold inU; lia].
      * unfold inU. lia.
    + apply floor_as_u32_in.
Qed.
End Startup.

(** ** The runs the theorems speak of *)
Section Whole.
Context `{FBL : FlatBuffersLaws}.

(** From a configuration and database of their types, a run ends, and all of it is
    steps of the specification from a state in which its invariant holds. *)
Lemma start_run c d d' now rand s inputs start stop :
  server_new c d now rand = (Ok s, d') -> config_typed c -> db_ok (tables d) -> Forall input_ok inputs ->
  exists r s', run inputs start stop s = Some (r, s') /\ CInv (core_of s) /\
    steps (received inputs) (core_of s) (core_of s').
Proof.
  intros E Hc Hd Hi. pose proof (server_new_inv _ _ _ _ _ _ E Hc Hd) as HC.
  assert (HG : tick_good (mkLoop 0 start s)) by (eapply server_new_good; [exact E|apply Hc]).
  destruct (ticks_spec inputs _ HG) as (l & El & _).
  pose proof (run_refines inputs start stop s Hi) as R. revert R. unfold run. rewrite El.
  destruct (flush_all stop (lp_server l)) as [r s1]. intros R. eexists r, _. split; [reflexivity|].
  split; [exact HC|exact (R HC)].
Qed.

Lemma sent_decodes t p :
  Sent t p -> Control p \/
  exists number b e, p = build_unreliable number b /\ len b <= MTU - HEADER_SIZE /\
    decode_envelope b = Some e /\ Promise t (env_payload e).
Proof.
  intros [Hc|(n & b & Ep & Hl & sq & q & Hd & Hq)]; [by left|right].
  exists n, b, (mkEnvelope sq q). split_and!; [done..| |done]. apply Hd.
  unfold max_buffer. unfold MTU, HEADER_SIZE in Hl. lia.
Qed.
End Whole.

(** ** Resending a transaction *)

(** A query on a database that is working. *)
Lemma query_works {A} (f : Tables -> result Persist.Error A) d a :
  faults d = [] -> f (tables d) = Ok a -> query f d = (Ok a, d).
Proof. destruct d as [t l]. simpl. intros -> Hf. unfold query, stmt. simpl. by rewrite Hf. Qed.

(** A query that would succeed fails only as the environment decides, and leaves
    the tables alone. *)
Lemma query_outcome {A} (f : Tables -> result Persist.Error A) d a :
  f (tables d) = Ok a ->
  exists d', tables d' = tables d /\ (query f d = (Err SqliteFailure, d') \/ query f d = (Ok a, d')).
Proof.
  intros Hf. exists (mkDb (tables d) (tail (faults d))). split; [done|].
  unfold query, stmt. rewrite Hf. destruct (faults d) as [|[] fs]; auto.
Qed.

(** The lookup of a transaction that is in the ledger. *)
Lemma lookup_recorded id d l row :
  ledger (tables d) !! wrapS 64 id = Some l -> players (tables d) !! lr_player_id l = Some row ->
  (exists d', tables d' = tables d /\
     (Persist.lookup_txn (wrapS 64 id) d = (Err SqliteFailure, d') \/
      Persist.lookup_txn (wrapS 64 id) d = (Ok (Some (lr_player_id l, pl_gold row)), d'))) /\
  (faults d = [] -> Persist.lookup_txn (wrapS 64 id) d = (Ok (Some (lr_player_id l, pl_gold row)), d)).
Proof.
  intros Hl Hr. split.
  - apply query_outcome. by rewrite Hl, Hr.
  - intros Hf. apply query_works; [done|]. by rewrite Hl, Hr.
Qed.

(** The answer to a transaction that is in the ledger already. *)
Definition replay_ack (m : EconTxn) (row : PlayerRow) : Ledger.LedgerAck :=
  Ledger.mkLedgerAck (et_txn_id m) true (pl_gold row) "duplicate (idempotent replay)".

Definition answer_replay `{FB : FlatBuffers} (peer : Z) (m : EconTxn) (row : PlayerRow) (s : Server) : Server :=
  let n := wrapU 32 (sv_seq s + 1) in send peer (ledger_ack n (replay_ack m row)) (s <| sv_seq := n |>).

(** It is answered, unless one of the two lookups fails. *)
Lemma econ_replay `{FB : FlatBuffers} env peer m s x l row :
  sessions s !! peer = Some x ->
  string_within_limit (default ""%string (et_note m)) (max_wire_string_len_usize (cfg s)) = true ->
  ledger (tables (db s)) !! wrapS 64 (et_txn_id m) = Some l ->
  players (tables (db s)) !! lr_player_id l = Some row ->
  (exists d, tables d = tables (db s) /\
     (on_econ env peer m s = (Err (DbError SqliteFailure), s <| db := d |>) \/
      on_econ env peer m s = (Ok tt, answer_replay peer m row (s <| db := d |>)))) /\
  (faults (db s) = [] -> on_econ env peer m s = (Ok tt, answer_replay peer m row s)).
Proof.
  intros Hx Hn Hl Hr. unfold on_econ. rewrite Hx. cbv zeta. rewrite Hn. cbn [negb].
  unfold on_db, Ledger.apply. cbn [Ledger.lookup_txn db_ledger_store]. unfold db_lookup_txn, with_db.
  cbn [Ledger.txn_id]. pose proof (lookup_recorded (et_txn_id m) (db s) l row Hl Hr) as [H1 H1'].
  split.
  - destruct H1 as (d1 & E1 & [->| ->]); [exists d1; split; [done|by left]|]. rewrite <- E1 in Hl, Hr.
    destruct (lookup_recorded (et_txn_id m) d1 l row Hl Hr) as [(d2 & E2 & H2) _].
    exists d2. split; [congruence|]. cbn. destruct H2 as [-> | ->]; [by left|by right].
  - intros Hf. rewrite (H1' Hf). cbn. rewrite (H1' Hf). cbn. by destruct s.
Qed.

(** A player connects, says hello, is paid twice under one transaction id, and
    chats. *)
Definition trading_inputs : list TickInput :=
  [demo_connect; demo_data 40000000 (PClientHello demo_hello);
   demo_data 80000000 (PEconTxn (mkEconTxn 7 100 1 (Some "rum"%string)));
   demo_data 120000000 (PEconTxn (mkEconTxn 7 100 1 (Some "rum"%string)));
   demo_data 160000000 (PChatSend (mkChatSend (Some "ahoy"%string) 0))].

Definition trading_end : option Server :=
  match (server_new config_default (mkDb empty_tables []) 5000 42).1 with
  | Ok s => snd <$> run trading_inputs 0 9000 s
  | Err _ => None
  end.

Lemma demo_data_ok : Forall input_ok trading_inputs.
Proof. repeat constructor; unfold input_ok; simpl; unfold inU; lia. Qed.

Lemma default_config_typed : config_typed config_default.
Proof. split; [vm_compute; reflexivity| |vm_compute; discriminate]. vm_compute. auto. Qed.

Lemma trading_facts :
  (fun s => (size (sessions s), pl_gold <$> players (tables (db s)) !! 1, length (tx (host s)),
             size (ledger (tables (db s))))) <$> trading_end
  = Some (1%nat, Some 100, 8%nat, 1%nat).
Proof. vm_compute. reflexivity. Qed.

Lemma trading_run :
  exists s d r s', server_new config_default (mkDb empty_tables []) 5000 42 = (Ok s, d) /\
    run trading_inputs 0 9000 s = Some (r, s') /\ trading_end = Some s'.
Proof.
  destruct demo_start as (s & d & E). exists s, d.
  destruct (start_run _ _ _ _ _ _ trading_inputs 0 9000 E default_config_typed empty_db_ok demo_data_ok)
    as (r & s' & Er & _).
  exists r, s'. split; [exact E|]. split; [exact Er|]. unfold trading_end. rewrite E. cbn [fst]. by rewrite Er.
Qed.

(** The state in which the first payment arrives, and its event. *)
Definition paying_event : Event :=
  Data 1 (client_envelope 1 (PEconTxn (mkEconTxn 7 100 1 (Some "rum"%string)))).

Lemma demo_core inputs s : Forall input_ok inputs -> demo_run inputs = Some s -> CInv (core_of s).
Proof.
  intros Hi. destruct demo_start as (s0 & d & E). unfold demo_run. rewrite E. cbn [fst].
  pose proof (server_new_inv _ _ _ _ _ _ E default_config_typed empty_db_ok) as HC.
  pose proof (ticks_refine inputs (mkLoop 0 0 s0) Hi) as R.
  destruct (ticks inputs (mkLoop 0 0 s0)) as [l|]; [|done]. intros [= <-].
  exact (proj1 (steps_keep _ _ _ (R HC) HC)).
Qed.

Lemma paying_facts :
  (fun s => (ledger (tables (db s)) !! 7,
     ledger (tables (db (handle_event (demo_env 0) paying_event s).2)) !! 7)) <$> demo_run (take 2 trading_inputs)
  = Some (None, Some (mkLedgerRow 1 100 1 "rum" 5000)).
Proof. vm_compute. reflexivity. Qed.

(** A second player, whose client also numbers its transactions from 7. *)
Definition second_step (data : list Z) : SockStep := mkSockStep (PeekOk (len data)) (RecvOk data (SockV4 2130706434 5001)) None.

Definition second_env (i : nat) : Env := mkEnv 2000 5000 5000 2000.

Definition second_inputs : list TickInput :=
  [demo_connect; demo_data 40000000 (PClientHello demo_hello);
   demo_data 80000000 (PEconTxn (mkEconTxn 7 100 1 (Some "rum"%string)));
   mkTickInput 120000000 [second_step (demo_request 100 CONNECT_KEY)] second_env;
   mkTickInput 160000000 [second_step (build_unreliable 1 (client_envelope 1 (PClientHello
     (mkClientHello PROTOCOL_VERSION (Some "ishmael"%string) (Some "other"%string) None None (Some "api"%string)))))] second_env].

Definition second_txn : EconTxn := mkEconTxn 7 (-30) 2 (Some "ship"%string).

Lemma second_inputs_ok : Forall input_ok second_inputs.
Proof. repeat constructor; unfold input_ok; simpl; unfold inU; lia. Qed.

Lemma second_facts :
  (fun s => (ledger (tables (db s)) !! 7, option_map ss_player_id (sessions s !! 2), faults (db s),
     string_within_limit "ship" (max_wire_string_len_usize (cfg s)), pl_gold <$> players (tables (db s)) !! 1))
    <$> demo_run second_inputs
  = Some (Some (mkLedgerRow 1 100 1 "rum" 5000), Some 2, [], true, Some 100).
Proof. vm_compute. reflexivity. Qed.

Lemma second_decodes :
  decode_envelope (client_envelope 2 (PEconTxn second_txn)) = Some (mkEnvelope 2 (PEconTxn second_txn)).
Proof. vm_compute. reflexivity. Qed.

(** ** Theorems *)

(** C1.  The server implements its specification.  Started on any database with
    well-formed columns and balanced accounts, a run of any number of ticks, with
    any socket input, clock readings and statement failures, and the final flush
    and shutdown, is a sequence of steps of the abstract machine, from a state
    without sessions, queued messages or datagrams: every datagram is a control
    packet or a message the machine may say, every change of the database is one of
    its writes, every commit is of a transaction that a received datagram carried,
    for the player of a session that exists at that point, and every session is
    opened for a player whose stored token is the session's identity. *)
Theorem server_refines_spec `{FBL : FlatBuffersLaws} (c : Config) (d d' : Db) (now rand start stop : Z)
    (s : Server) (inputs : list TickInput) :
  server_new c d now rand = (Ok s, d') -> config_typed c -> db_ok (tables d) -> Forall input_ok inputs ->
  exists r s', run inputs start stop s = Some (r, s') /\
    c_faces (core_of s) = ∅ /\ c_queued (core_of s) = [] /\ c_tx (core_of s) = [] /\
    steps (received inputs) (core_of s) (core_of s').
Proof.
  intros E Hc Hd Hi. destruct (start_run _ _ _ _ _ _ inputs start stop E Hc Hd Hi) as (r & s' & Er & _ & Hs).
  exists r, s'. split; [done|]. destruct (server_new_blank _ _ _ _ _ _ E) as (E1 & E2 & E3).
  by split_and!.
Qed.

Lemma server_refines_spec_witness :
  exists s d r s', server_new config_default (mkDb empty_tables []) 5000 42 = (Ok s, d) /\
    run trading_inputs 0 9000 s = Some (r, s') /\
    steps (received trading_inputs) (core_of s) (core_of s').
Proof.
  destruct demo_start as (s & d & E). exists s, d.
  destruct (@server_refines_spec tree_runtime tree_laws config_default (mkDb empty_tables []) d 5000 42 0 9000 s trading_inputs
    E default_config_typed empty_db_ok demo_data_ok) as (r & s' & Er & _ & _ & _ & Hs).
  exists r, s'. split; [exact E|]. split; [exact Er|exact Hs].
Defined.

(** C3.  The books balance over a whole run, and nothing the database was told is
    forgotten.  At the end every balance is the sum of its player's ledger rows and
    within [0, i64::MAX], player ids and tokens are unique, every ledger row has its
    player; every player, ledger row, trade and mooring of the start is still
    there with what identifies it; a ledger row that was not there before is one of
    a transaction that some received datagram carried, with its amount, kind and
    note; and every session and every entry of the identity index is for a player
    whose stored token is that identity. *)
Theorem run_keeps_accounts `{FBL : FlatBuffersLaws} (c : Config) (d d' : Db) (now rand start stop : Z)
    (s : Server) (inputs : list TickInput) :
  server_new c d now rand = (Ok s, d') -> config_typed c -> db_ok (tables d) -> Forall input_ok inputs ->
  exists r s', run inputs start stop s = Some (r, s') /\
    Accounts (tables (db s')) /\ Later (tables (db s)) (tables (db s')) /\
    (forall id l, ledger (tables (db s')) !! id = Some l ->
       ledger (tables (db s)) !! id = Some l \/
       exists ti d e m, ti ∈ inputs /\ delivers (ti_script ti) d /\ decode_envelope d = Some e /\
         env_payload e = PEconTxn m /\ id = wrapS 64 (et_txn_id m) /\ lr_amount l = et_amount_gold m /\
         lr_kind l = et_kind m /\ lr_note l = default ""%string (et_note m)) /\
    (forall peer x, sessions s' !! peer = Some x ->
       exists row, players (tables (db s')) !! ss_player_id x = Some row /\ pl_token_hash row = ss_identity_hash x) /\
    (forall hash id, identity_players s' !! hash = Some id ->
       exists row, players (tables (db s')) !! id = Some row /\ pl_token_hash row = hash).
Proof.
  intros E Hc Hd Hi. destruct (start_run _ _ _ _ _ _ inputs start stop E Hc Hd Hi) as (r & s' & Er & HC & Hs).
  exists r, s'. split; [done|]. destruct (steps_keep _ _ _ Hs HC) as [[HA _ Hf Hx _ _ _] HL].
  split; [exact HA|]. split; [exact HL|]. split; [|split; [|exact Hx]].
  - intros id l Hl. destruct (steps_ledger _ _ _ _ _ Hs Hl) as [H|(c1 & p0 & f & txn & _ & Ha & _ & _ & H)]; [by left|right].
    destruct Ha as (ti & b & e & m & Hti & Hb & He & Hp & ->). by exists ti, b, e, m.
  - intros peer x Hpx. apply (Hf peer (face_of x)). simpl. by rewrite lookup_fmap, Hpx.
Qed.

Lemma run_keeps_accounts_witness :
  exists s', trading_end = Some s' /\ Accounts (tables (db s')) /\
    pl_gold <$> players (tables (db s')) !! 1 = Some 100 /\ size (ledger (tables (db s'))) = 1%nat.
Proof.
  destruct trading_run as (s & d & r & s' & E & Er & Ee). exists s'. split; [exact Ee|].
  destruct (@run_keeps_accounts tree_runtime tree_laws config_default (mkDb empty_tables []) d 5000 42 0 9000 s trading_inputs
    E default_config_typed empty_db_ok demo_data_ok) as (r2 & s2 & Er2 & HA & _).
  rewrite Er in Er2. injection Er2 as _ <-. split; [exact HA|].
  pose proof trading_facts as Hb. rewrite Ee in Hb. injection Hb as _ Hg _ Hl. exact (conj Hg Hl).
Defined.

(** C4.  Every datagram of a run is sound.  Whatever arrives, everything the server
    hands to the socket from start-up to shutdown is a packet of the transport
    itself or an unreliable packet of at most one MTU whose payload decodes, and
    decodes to a message that keeps its promise in the final database: an
    accepting hello names a stored player, an accepted ledger transaction, trade or
    mooring is stored, chat and snapshots speak of stored players, and no message
    that only clients send is ever sent. *)
Theorem sent_datagrams_sound `{FBL : FlatBuffersLaws} (c : Config) (d d' : Db) (now rand start stop : Z)
    (s : Server) (inputs : list TickInput) :
  server_new c d now rand = (Ok s, d') -> config_typed c -> db_ok (tables d) -> Forall input_ok inputs ->
  exists r s', run inputs start stop s = Some (r, s') /\
    forall addr packet, (addr, packet) ∈ tx (host s') ->
      Control packet \/
      exists number b e, packet = build_unreliable number b /\ len b <= MTU - HEADER_SIZE /\
        decode_envelope b = Some e /\ Promise (tables (db s')) (env_payload e).
Proof.
  intros E Hc Hd Hi. destruct (start_run _ _ _ _ _ _ inputs start stop E Hc Hd Hi) as (r & s' & Er & HC & Hs).
  exists r, s'. split; [done|]. destruct (steps_keep _ _ _ Hs HC) as [HC' _]. intros a p Hp.
  pose proof (ci_sent _ HC') as Hall. rewrite Forall_forall in Hall. exact (sent_decodes _ _ (Hall _ Hp)).
Qed.

Lemma sent_datagrams_sound_witness :
  exists s', trading_end = Some s' /\ length (tx (host s')) = 8%nat /\
    Forall (fun p => Control p.2 \/ exists number b e, p.2 = build_unreliable number b /\ len b <= MTU - HEADER_SIZE /\
      decode_envelope b = Some e /\ Promise (tables (db s')) (env_payload e)) (tx (host s')).
Proof.
  destruct trading_run as (s & d & r & s' & E & Er & Ee). exists s'. split; [exact Ee|].
  pose proof trading_facts as Hb. rewrite Ee in Hb. injection Hb as _ _ Ht _. split; [exact Ht|].
  destruct (@sent_datagrams_sound tree_runtime tree_laws config_default (mkDb empty_tables []) d 5000 42 0 9000 s trading_inputs
    E default_config_typed empty_db_ok demo_data_ok) as (r2 & s2 & Er2 & H).
  rewrite Er in Er2. injection Er2 as _ <-. apply Forall_forall. intros [a p]. exact (H a p).
Defined.

(** C5.  A ledger row is committed only for the player who asked for it.  Whatever
    event is handled, a row that appears in the ledger is the transaction that the
    event's peer sent in this very message, with its id, amount, kind and note,
    credited to the player of that peer's session. *)
Theorem ledger_rows_authentic `{FBL : FlatBuffersLaws} (env : Env) (ev : Event) (s : Server) (id : Z)
    (l : LedgerRow) :
  inU 32 (e_uptime_ms env) -> CInv (core_of s) ->
  ledger (tables (db s)) !! id = None -> ledger (tables (db (handle_event env ev s).2)) !! id = Some l ->
  exists peer bytes e m x, ev = Data peer bytes /\ decode_envelope bytes = Some e /\ env_payload e = PEconTxn m /\
    sessions s !! peer = Some x /\ lr_player_id l = ss_player_id x /\ id = wrapS 64 (et_txn_id m) /\
    lr_amount l = et_amount_gold m /\ lr_kind l = et_kind m /\ lr_note l = default ""%string (et_note m).
Proof.
  intros Hu HC Hn Hl. pose proof (refines_event env ev s Hu HC) as Hs.
  destruct (steps_ledger _ _ _ _ _ Hs Hl) as [H|(c1 & peer & f & txn & _ & Ha & _ & Ep & H)].
  { exfalso. change (ledger (tables (db s)) !! id = Some l) in H. by rewrite Hn in H. }
  destruct Ha as (b & e & m & x & -> & He & Hp & -> & Hx & Ex). exists peer, b, e, m, x. rewrite Ep, Ex.
  by split_and!; try apply H.
Qed.

Lemma ledger_rows_authentic_witness :
  exists s x, demo_run (take 2 trading_inputs) = Some s /\
    ledger (tables (db (handle_event (demo_env 0) paying_event s).2)) !! 7 = Some (mkLedgerRow 1 100 1 "rum" 5000) /\
    sessions s !! 1 = Some x /\ ss_player_id x = 1.
Proof.
  pose proof paying_facts as Hb. destruct (demo_run (take 2 trading_inputs)) as [s|] eqn:E; [|discriminate Hb].
  apply (inj Some), pair_equal_spec in Hb as [Hn Hl].
  destruct (@ledger_rows_authentic tree_runtime tree_laws (demo_env 0) paying_event s 7 (mkLedgerRow 1 100 1 "rum" 5000))
    as (peer & bytes & e & m & x & Ev & _ & _ & Hx & Ex & _).
  - unfold demo_env, inU. simpl. lia.
  - exact (demo_core _ _ (Forall_take _ 2%nat _ demo_data_ok) E).
  - exact Hn.
  - exact Hl.
  - exists s, x. split; [reflexivity|]. split; [exact Hl|]. 
    assert (Ep : peer = 1) by exact (eq_sym (f_equal (fun v => match v with Data p _ => p | _ => 0 end) Ev)). rewrite Ep in Hx. split; [exact Hx|symmetry; exact Ex].
Defined.

(** C6.  A transaction is applied once, for good, whoever sends it again.  When a
    transaction id is in the ledger, then after anything the server may do a message
    with that id, from any peer and with whatever amount and note, on a database
    that may fail, changes no table and nothing else but the transport, the sequence
    number of an answer and the outcomes used up: not a session, not even the
    peer's rate limit.  Without a session, or with a note over the configured
    limit, it is dropped.  Otherwise, always on a working database and unless a
    lookup fails, an acceptance is handed to [send], like every reply; it reports the
    current balance of the player the id was recorded for, who need not be the
    sender. *)
Theorem econ_resend `{FBL : FlatBuffersLaws} (asked : Z -> Z -> Ledger.Txn -> Prop) (env : Env) (peer : Z)
    (bytes : list Z) (e : Envelope) (m : EconTxn) (s1 s2 : Server) (l : LedgerRow) :
  CInv (core_of s1) -> ledger (tables (db s1)) !! wrapS 64 (et_txn_id m) = Some l ->
  steps asked (core_of s1) (core_of s2) ->
  decode_envelope bytes = Some e -> env_payload e = PEconTxn m ->
  let '(r, s3) := handle_event env (Data peer bytes) s2 in
  (tables (db s3) = tables (db s2) /\
   s3 = s2 <| db := db s3 |> <| sv_seq := sv_seq s3 |> <| host := host s3 |>) /\
  exists row, players (tables (db s2)) !! lr_player_id l = Some row /\
    if bool_decide (is_Some (sessions s2 !! peer)) &&
       string_within_limit (default ""%string (et_note m)) (max_wire_string_len_usize (cfg s2))
    then (r = Err (DbError SqliteFailure) /\ s3 = s2 <| db := db s3 |> \/
          r = Ok tt /\ s3 = answer_replay peer m row (s2 <| db := db s3 |>)) /\
         (faults (db s2) = [] -> r = Ok tt /\ s3 = answer_replay peer m row s2)
    else r = Ok tt /\ s3 = s2.
Proof.
  intros HC Hl Hs He Hp. destruct (steps_keep _ _ _ Hs HC) as [HC2 HL].
  assert (Hl2 : ledger (tables (db s2)) !! wrapS 64 (et_txn_id m) = Some l)
    by exact (lookup_weaken _ _ _ _ Hl (lt_ledger _ _ HL)).
  destruct (ac_owner _ (ci_accounts _ HC2) _ _ Hl2) as [row Hr].
  cbn [handle_event]. unfold handle_data_at. rewrite He, Hp.
  destruct (sessions s2 !! peer) as [x|] eqn:Hx.
  2: { unfold on_econ. rewrite Hx. split; [split; [done|by destruct s2]|]. by exists row. }
  rewrite bool_decide_true by eauto. cbn [andb].
  destruct (string_within_limit _ _) eqn:Hn.
  2: { unfold on_econ. rewrite Hx, Hn. split; [split; [done|by destruct s2]|]. by exists row. }
  destruct (econ_replay env peer m s2 x l row Hx Hn Hl2 Hr) as [(d & Ed & H) Hf].
  destruct (on_econ env peer m s2) as [r s3]. split.
  - destruct H as [[= -> ->]|[= -> ->]]; by split.
  - exists row. split; [exact Hr|]. split; [|intros H0; by injection (Hf H0)].
    destruct H as [[= -> ->]|[= -> ->]]; [by left|by right].
Qed.

Lemma econ_resend_witness :
  exists s row, demo_run second_inputs = Some s /\ pl_gold row = 100 /\
    handle_event (second_env 0) (Data 2 (client_envelope 2 (PEconTxn second_txn))) s =
      (Ok tt, answer_replay 2 second_txn row s).
Proof.
  pose proof second_facts as Hb. destruct (demo_run second_inputs) as [s|] eqn:E; [|discriminate Hb].
  apply (inj Some), pair_equal_spec in Hb as [[[[Hl Hx]%pair_equal_spec Hf]%pair_equal_spec Hn]%pair_equal_spec Hg].
  assert (Hs : is_Some (sessions s !! 2)) by (destruct (sessions s !! 2); [eexists; reflexivity|discriminate Hx]).
  pose proof (@econ_resend tree_runtime tree_laws (fun _ _ _ => False) (second_env 0) 2
    (client_envelope 2 (PEconTxn second_txn)) (mkEnvelope 2 (PEconTxn second_txn)) second_txn s s
    (mkLedgerRow 1 100 1 "rum" 5000) (demo_core _ _ second_inputs_ok E) Hl (rtc_refl _ _) second_decodes eq_refl) as H.
  exists s. destruct (handle_event (second_env 0) (Data 2 (client_envelope 2 (PEconTxn second_txn))) s) as [r s3].
  destruct H as (_ & row & Hr & H). rewrite (bool_decide_true _ Hs) in H.
  assert (Hn' : string_within_limit (default ""%string (et_note second_txn)) (max_wire_string_len_usize (cfg s)) = true)
    by exact Hn.
  rewrite Hn' in H. destruct H as [_ H]. destruct (H Hf) as [H1 H2]. exists row. split; [reflexivity|].
  cbn [lr_player_id] in Hr. rewrite Hr in Hg. apply (inj Some) in Hg. split; [exact Hg|].
  rewrite H1, H2. reflexivity.
Defined.
