(* ===== verification/Greeting.v ===== *)
(** * Hellos, served and unserved

    When a hello is answered by a session: the converse of the safety side of
    [ServerProps], for a database that works.  And when no hello is ever answered:
    a server name longer than a datagram, which validation lets through. *)

From S2P Require Import Structs Flat Tables.
From S2P Require Import Prelude Float World Clock Config Econ RateLimit Wire Host TableSpecs.
From S2P Require Import HostInv Persist EconStore Codec FlatTree CodecProps Server Sched.
From S2P Require Import ServerInv TickInv ServerProps Progress ServerSpec Refinement EndToEnd.

(** ** Admission on a working database *)
Definition known_token (tok : string) (t : Tables) : Prop :=
  exists id row, players t !! id = Some row /\ pl_token_hash row = tok.

Definition room (max_rows : Z) (t : Tables) : Prop :=
  Z.of_nat (size (players t)) < max_rows /\ player_seq t < i64_max.

Lemma admit_works tok name now max_rows t :
  PlayersInv t -> known_token tok t \/ room max_rows t ->
  exists row t', admit_player_by_token tok name now max_rows (mkDb t []) = (Ok (PlayerAdmitted row), mkDb t' []).
Proof.
  intros HI Hr. unfold admit_player_by_token, transaction, exec, query. rewrite stmt_run. cbv iota beta.
  rewrite stmt_run. cbv iota beta. destruct (by_token tok t) as [old|] eqn:Eb; cbn [fmap option_fmap option_map].
  - rewrite stmt_run. cbv iota beta. rewrite stmt_run.
    apply by_token_spec in Eb as (id & Hid & Et); [|done]. destruct (pi_key t HI _ _ Hid) as [<- _].
    unfold refresh_player at 1. cbn [players]. simpl. rewrite lookup_alter_eq, Hid. simpl. eauto.
  - rewrite stmt_run. cbv iota beta. destruct Hr as [(id & row & Hid & Et)|[Hs Hq]].
    { exfalso. assert (Hb : by_token tok t = Some row) by (apply by_token_spec; eauto). congruence. }
    rewrite decide_False by lia. rewrite stmt_run. unfold insert_player.
    rewrite decide_False by lia. rewrite decide_False by (rewrite Eb; by intros []). simpl. eauto.
Qed.

(** An index of identities is no larger than the table it indexes. *)
Lemma index_size (idx : gmap string Z) (rows : gmap Z PlayerRow) :
  (forall h id, idx !! h = Some id -> exists row, rows !! id = Some row /\ pl_token_hash row = h) ->
  (size idx <= size rows)%nat.
Proof.
  intros H. rewrite <- (length_map_to_list idx), <- (length_map_to_list rows).
  rewrite <- (length_fmap snd (map_to_list idx)), <- (length_fmap fst (map_to_list rows)).
  apply submseteq_length, NoDup_submseteq.
  - apply NoDup_fmap_2_strong; [|apply NoDup_map_to_list].
    intros [h id] [h' id'] Hh%elem_of_map_to_list Hh'%elem_of_map_to_list E. simpl in E. subst id'.
    destruct (H _ _ Hh) as (r & Hr & <-), (H _ _ Hh') as (r' & Hr' & <-). congruence.
  - intros id ([h i] & -> & Hh%elem_of_map_to_list)%list_elem_of_fmap. simpl.
    destruct (H _ _ Hh) as (r & Hr & _). apply list_elem_of_fmap. exists (i, r). split; [done|].
    by apply elem_of_map_to_list.
Qed.

(** ** What a step leaves alone *)

(** A session up to its generation. *)
Definition ungen (x : Session) : Session := x <| ss_generation := 0 |>.

(** Everything a hello does not touch, apart from the registry, the world, the
    transport and the database. *)
Definition steady (s t : Server) : Prop :=
  cfg t = cfg s /\ sv_seq t = sv_seq s /\ epoch_ms t = epoch_ms s /\ weather_seed t = weather_seed s /\
  weather_epoch_day t = weather_epoch_day s /\ identity_players t = identity_players s /\
  db t = db s /\ w_grid (sworld t) = w_grid (sworld s).

#[global] Instance steady_preorder : PreOrder steady.
Proof. split; [by intros s|]. unfold steady. intros s t u. intuition congruence. Qed.

Lemma rekey_ungen s : ungen <$> set_generations (rekeyed s) (sessions s) = ungen <$> sessions s.
Proof.
  destruct (rekeyed_spec s) as [E1 _].
  assert (Hnd : NoDup (rekeyed s).*1) by (rewrite E1; apply NoDup_btree_iter).
  apply map_eq. intros q. rewrite !lookup_fmap, set_generations_lookup by done.
  destruct (list_to_map (rekeyed s) !! q); [|done]. by destruct (sessions s !! q).
Qed.

Lemma allocate_works s :
  Z.of_nat (size (sessions s)) <= max_transport_peers_usize (cfg s) -> 0 <= next_session_generation s <= u64_max ->
  exists g t, allocate_session_generation s = (Ok g, t) /\ ungen <$> sessions t = ungen <$> sessions s /\
    steady s t /\ host t = host s /\ player_peers t = player_peers s /\ sworld t = sworld s /\
    player_order t = player_order s /\ snapshot_recipients t = snapshot_recipients s.
Proof.
  intros Hs Hn. unfold allocate_session_generation. case_decide as Hm.
  - unfold rekey_live_session_generations. rewrite decide_False by lia. cbn [next_session_generation].
    assert (Hb : max_transport_peers_usize (cfg s) <= MAX_TRANSPORT_PEERS).
    { unfold max_transport_peers_usize, clampZ, MAX_TRANSPORT_PEERS. lia. }
    simpl. unfold checked_u. rewrite decide_True by (unfold inU, MAX_TRANSPORT_PEERS in *; lia).
    eexists _, _. split; [reflexivity|]. split; [exact (rekey_ungen s)|]. by split_and!.
  - unfold checked_u. rewrite decide_True by (unfold inU, u64_max in *; lia).
    eexists _, _. split; [reflexivity|]. by split_and!.
Qed.

Lemma register_works peer x s :
  sessions s !! peer = None -> player_peers s !! ss_player_id x = None ->
  Z.of_nat (size (sessions s)) <= max_transport_peers_usize (cfg s) -> 0 <= next_session_generation s <= u64_max ->
  exists y t, register_session peer x s = (Ok tt, t) /\ ungen y = ungen x /\ sessions t !! peer = Some y /\
    ungen <$> sessions t = <[peer := ungen x]> (ungen <$> sessions s) /\
    steady s t /\ host t = host s /\ sworld t = sworld s /\ player_peers t !! ss_player_id x = Some peer /\
    peer ∈ aoi_recipients t /\ peer ∈ snapshot_recipients t.
Proof.
  intros Hn Hp Hs Hg. unfold register_session. rewrite decide_False by (rewrite Hn; by intros []). rewrite Hp.
  destruct (allocate_works s Hs Hg) as (g & t & -> & Eu & Hst & Eh & Epp & Ew & Eo & Esr).
  set (y := x <| ss_generation := g |>). cbv zeta. change (ss_player_id y) with (ss_player_id x).
  match goal with |- context [schedule_aoi peer ?u] => set (t1 := u) end.
  assert (E1 : sessions t1 = <[peer := y]> (sessions t) /\ player_peers t1 = <[ss_player_id x := peer]> (player_peers t) /\
     snapshot_recipients t1 = {[peer]} ∪ snapshot_recipients t /\ steady t t1 /\ host t1 = host t /\ sworld t1 = sworld t).
  { unfold t1. by destruct (ss_dirty y). }
  destruct E1 as (Es & Ep & Er & Hst1 & Eh1 & Ew1). clearbody t1.
  exists y, (schedule_aoi peer t1). unfold schedule_aoi. rewrite Es, lookup_insert_eq. simpl.
  rewrite Es, lookup_insert_eq, fmap_insert, Eu, Ep, lookup_insert_eq, Er.
  split_and!; try done; [exact (transitivity Hst Hst1)|congruence..|set_solver|set_solver].
Qed.

Lemma ungen_emit peer aoi s :
  steady s (emit_aoi peer aoi s) /\ sessions (emit_aoi peer aoi s) = sessions s /\
  host (emit_aoi peer aoi s) = host s /\ sworld (emit_aoi peer aoi s) = sworld s /\
  player_peers (emit_aoi peer aoi s) = player_peers s /\ aoi_recipients s ⊆ aoi_recipients (emit_aoi peer aoi s) /\
  snapshot_recipients (emit_aoi peer aoi s) = snapshot_recipients s.
Proof.
  unfold emit_aoi, schedule_aoi. destruct (aoi_is_empty aoi); [by split_and!|].
  destruct (sessions s !! peer); split_and!; try done. simpl. set_solver.
Qed.

(** ** Eviction and opening *)

(** The sessions of everybody else. *)
Definition others (pid : Z) (m : gmap Z Session) : gmap Z Session := filter (fun p => ss_player_id p.2 <> pid) m.

Lemma others_lookup pid m q :
  others pid m !! q = (x ← m !! q; if decide (ss_player_id x = pid) then None else Some x).
Proof.
  unfold others. rewrite map_lookup_filter. destruct (m !! q) as [x|]; [|done]. simpl.
  destruct (decide (ss_player_id x = pid)) as [E|E]; case_guard; simpl in *; congruence.
Qed.

Lemma others_absent s pid : server_inv s -> player_peers s !! pid = None -> others pid (sessions s) = sessions s.
Proof.
  intros HI Hn. pose proof (absent_player s pid HI Hn) as Ha. apply map_eq. intros q. rewrite others_lookup.
  destruct (sessions s !! q) as [x|] eqn:E; [|done]. simpl. rewrite decide_False; [done|]. exact (Ha q x E).
Qed.

Lemma others_delete s pid pp : server_inv s -> player_peers s !! pid = Some pp ->
  others pid (sessions s) = delete pp (sessions s).
Proof.
  intros ([HR _] & _) Hp. apply map_eq. intros q. rewrite others_lookup, lookup_delete. case_decide as Eq.
  - subst q. destruct (rg_peer _ _ _ _ _ _ HR _ _ Hp) as (x & Hx & Ex). rewrite Hx. simpl. by rewrite decide_True.
  - destruct (sessions s !! q) as [x|] eqn:Hx; [|done]. simpl. rewrite decide_False; [done|]. intros Ex.
    pose proof (rg_owner _ _ _ _ _ _ HR _ _ Hx). congruence.
Qed.

(** A live peer is hung up on, and its address told; the other peers stay. *)
Lemma hang_up pp peer a h :
  HostInv h -> pp ∈ live_ids h -> peer <> pp -> peer_addr peer h = Some a ->
  exists addr h' sent, peer_addr pp h = Some addr /\ disconnect pp h = (true, h') /\ HostInv h' /\
    peer_addr peer h' = Some a /\ live_ids h' = live_ids h ∖ {[pp]} /\ tx h' = tx h ++ sent.
Proof.
  intros HI Hl Hne Ha. pose proof (disconnect_inv pp h HI) as HI'. pose proof (peer_operations pp [] (Ok tt) h HI) as Ho.
  destruct (send_unreliable pp [] (Ok tt) h) as [r h1]. destruct (disconnect pp h) as [gone h2]. simpl in HI'.
  rewrite decide_True in Ho by done. destruct Ho as ((b & p & Hb & Ep & _ & -> & Epe & El & Etx) & _).
  apply peer_addr_spec in Ha as (q & Hq & Eq); [|apply HI]. 
  exists b, h2, [(b, build_disconnect (p_connection_number p) (p_connect_time p))].
  split; [apply peer_addr_spec; [apply HI|eauto]|]. split; [done|]. split; [done|]. split; [|done].
  apply peer_addr_spec; [apply HI'|]. exists q. split; [|done]. rewrite Epe, lookup_delete_ne; [done|]. congruence.
Qed.

Lemma evict_works s peer pid a :
  good ∅ s -> sessions s !! peer = None -> peer_addr peer (host s) = Some a ->
  exists t sent, evict_superseded peer pid s = (Ok tt, t) /\ steady s t /\ sworld t = sworld s /\
    sessions t = others pid (sessions s) /\ player_peers t !! pid = None /\
    next_session_generation t = next_session_generation s /\ HostInv (host t) /\ peer_addr peer (host t) = Some a /\
    tx (host t) = tx (host s) ++ sent /\
    (forall q x, sessions s !! q = Some x -> ss_player_id x = pid -> q ∉ live_ids (host t)).
Proof.
  intros HG Hn Ha. pose proof HG as (HI & Hl). pose proof HI as ([HR _] & _ & _ & _ & HH & _). unfold evict_superseded.
  destruct (player_peers s !! pid) as [pp|] eqn:Epp.
  2:{ exists s, []. rewrite app_nil_r, (others_absent s pid) by done. split_and!; try done.
      intros q x Hx Ex. by destruct (absent_player s pid HI Epp q x). }
  destruct (rg_peer _ _ _ _ _ _ HR _ _ Epp) as (x & Hx & Ex).
  assert (Hne : peer <> pp) by congruence. rewrite decide_False by congruence.
  assert (Hlive : pp ∈ live_ids (host s)) by (apply elem_of_dom_2 in Hx; set_solver).
  destruct (hang_up pp peer a (host s) HH Hlive Hne Ha) as (b & h' & sent & -> & -> & HH' & Ha' & El & Etx).
  cbn [negb]. set (s1 := s <| host := h' |>). unfold unregister_session.
  change (sessions s1) with (sessions s). change (player_peers s1) with (player_peers s). rewrite Hx. cbv zeta.
  change (player_peers (s1 <| sessions ::= delete pp |>)) with (player_peers s).
  rewrite Ex, Epp, decide_True by done. eexists _, sent. split; [reflexivity|]. simpl.
  rewrite (others_delete s pid pp) by done. split_and!; try done; [by rewrite lookup_delete_eq|].
  intros q y Hy Ey. pose proof (rg_owner _ _ _ _ _ _ HR _ _ Hy). assert (q = pp) as -> by congruence.
  rewrite El. set_solver.
Qed.

(** The reply goes to the peer's address if it fits. *)
Lemma send_reaches peer a b s :
  HostInv (host s) -> peer_addr peer (host s) = Some a -> len b <= MTU - HEADER_SIZE ->
  exists number, tx (host (send peer b s)) = tx (host s) ++ [(a, build_unreliable number b)].
Proof.
  intros [HT _] Ha Hb. unfold send, send_unreliable. simpl. rewrite decide_False by lia. rewrite Ha.
  apply peer_addr_spec in Ha as (p & Hp & _); [|done]. rewrite Hp. by exists (p_connection_number p).
Qed.

Lemma send_misses peer b s : MTU - HEADER_SIZE < len b -> host (send peer b s) = host s.
Proof. intros Hb. unfold send, send_unreliable. simpl. by rewrite decide_True by lia. Qed.

(** Where everybody starts, and the interest of a session there. *)
Definition origin (s : Server) : Cell := cell_of (w_grid (sworld s)) (S754_zero false) (S754_zero false).

Definition fresh_session (pid : Z) (hash name : string) (s : Server) : Session :=
  new_session pid hash name
    (mkSubscription (aoi_radius_i32 (cfg s)) (Some (origin s))
       (list_to_set (block_cells (origin s) (aoi_radius_i32 (cfg s))))) (origin s).

Lemma fresh_player x pid hash name s : ungen x = ungen (fresh_session pid hash name s) -> ss_player_id x = pid.
Proof. intros H. exact (f_equal ss_player_id H). Qed.

Section Serve.
Context `{FBL : FlatBuffersLaws}.

Lemma open_works env peer pid gold hash name s :
  0 <= aoi_radius_i32 (cfg s) -> sessions s !! peer = None -> player_peers s !! pid = None ->
  Z.of_nat (size (sessions s)) <= max_transport_peers_usize (cfg s) -> 0 <= next_session_generation s <= u64_max ->
  WorldInv (sworld s) ->
  exists x t n, open_session env peer pid gold hash name s = (Ok tt, t) /\ sessions t !! peer = Some x /\
    ungen x = ungen (fresh_session pid hash name s) /\
    ungen <$> sessions t = <[peer := ungen x]> (ungen <$> sessions s) /\
    identity_players t = identity_players s /\ db t = db s /\
    w_cell_of (sworld t) !! pid = Some (origin s) /\ peer ∈ aoi_recipients t /\ peer ∈ snapshot_recipients t /\
    inU 32 n /\ host t = host (send peer (hello (core_of s) n true "" pid gold (clock_now env s)) s).
Proof.
  intros Hr Hn Hp Hs Hg HW. unfold open_session, subscription_new. rewrite decide_True by done.
  fold (origin s). unfold recenter at 1. rewrite decide_False by done. cbv zeta. cbn [sub_radius sub_cells].
  rewrite cells_in_radius_small by (by apply radius_small). cbn [mbind option_bind].
  destruct (place_spec pid (origin s) (sworld s) HW) as (_ & Ew & _).
  set (s1 := s <| sworld ::= fun w => (place_in_cell pid (origin s) w).2 |>).
  destruct (register_works peer (new_session pid hash name (mkSubscription (aoi_radius_i32 (cfg s)) (Some (origin s))
    (list_to_set (block_cells (origin s) (aoi_radius_i32 (cfg s))))) (origin s)) s1 Hn Hp Hs Hg)
    as (y & t & -> & Ey & Hy & Eu & Hst & Eh & Esw & _ & Hai & Hsr).
  match goal with |- context [emit_aoi peer ?u ?v] => set (aoi := u); set (t1 := v) end.
  assert (E1 : sessions t1 = sessions t /\ identity_players t1 = identity_players t /\ db t1 = db t /\
    sworld t1 = sworld t /\ aoi_recipients t1 = aoi_recipients t /\ snapshot_recipients t1 = snapshot_recipients t) by done.
  destruct E1 as (E1 & E2 & E3 & E4 & E5 & E6).
  assert (E7 : host t1 = host (send peer (hello (core_of s) (wrapU 32 (sv_seq s + 1)) true "" pid gold (clock_now env s)) s)).
  { unfold t1, send_accepted_hello, send_hello, hello. cbn [next_seq]. destruct Hst as (Hc & Hq & He & Hws & Hwd & _ & _ & Hgr).
    pose proof (place_in_cell_grid pid (origin s) (sworld s)) as Hgr'.
    assert (Hg2 : w_grid (sworld t) = w_grid (sworld s)) by (etrans; [exact Hgr|exact Hgr']).
    unfold caps, clock_now, send. simpl. unfold caps. rewrite Hc, Hq, He, Hws, Hwd, Hg2, Eh. done. }
  destruct (ungen_emit peer aoi t1) as (Hst1 & F1 & F2 & F3 & _ & F4 & F5).
  exists y, (emit_aoi peer aoi t1), (wrapU 32 (sv_seq s + 1)).
  destruct Hst as (_ & _ & _ & _ & _ & Hid & Hdb & _), Hst1 as (_ & _ & _ & _ & _ & Hid1 & Hdb1 & _).
  rewrite F1, F2, F3, F5, E1, E6, E4, Esw, Ey. split; [done|]. split; [done|]. split; [done|].
  split; [exact Eu|]. split; [by rewrite Hid1, E2, Hid|]. split; [by rewrite Hdb1, E3, Hdb|].
  split; [simpl; rewrite Ew; apply lookup_insert_eq|]. split; [apply F4; by rewrite E5|]. split; [done|].
  split; [by apply wrapU_in|]. exact E7.
Qed.
(** ** A valid hello *)
Definition text_within (max : Z) (o : option string) : Prop :=
  forall t, o = Some t -> Z.of_nat (String.length t) <= max.

(** What a client has to put into its hello. *)
Record ValidHello (m : ClientHello) (token : string) (max : Z) : Prop := {
  vh_version : ch_protocol_version m = PROTOCOL_VERSION;
  vh_token : ch_token m = Some token;
  vh_token_some : token <> ""%string;
  vh_surface : exists t, ch_api_surface_hash m = Some t /\ t <> ""%string;
  vh_lengths : Forall (text_within max)
    [ch_token m; ch_api_surface_hash m; ch_display_name m; ch_game_build m; ch_mod_version m]
}.

Lemma validate_fits v field (required : bool) max :
  text_within max v -> (required = true -> exists t, v = Some t /\ t <> ""%string) ->
  validate_hello_string v field required max = Ok v.
Proof.
  intros Hl Hr. unfold validate_hello_string.
  assert (E1 : required && match v with Some s => bool_decide (s = ""%string) | None => true end = false).
  { destruct required; [|done]. destruct (Hr eq_refl) as (t & -> & Ht). simpl. by apply bool_decide_eq_false_2. }
  rewrite E1. destruct v as [t|]; [|done]. unfold string_within_limit.
  by rewrite bool_decide_eq_true_2 by (by apply Hl).
Qed.

Lemma check_valid m token s :
  ValidHello m token (max_wire_string_len_usize (cfg s)) -> check_hello m s = Ok (token, ch_display_name m).
Proof.
  intros [Hv Ht Hne Hs Hl]. unfold check_hello. rewrite decide_False by (rewrite Hv; by intros []).
  rewrite !Forall_cons in Hl. destruct Hl as (H1 & H2 & H3 & H4 & H5 & _).
  rewrite !validate_fits by (done || eauto). by rewrite Ht.
Qed.

(** ** The steps before the session *)
Lemma admit_shape ip known now l s :
  (admit_session ip known now s).1 = true ->
  exists l1 l2 l3, admit_session ip known now (s <| hello_limiter := l |>) =
    (true, s <| hello_limiter := l |> <| source_session_limiter := l1 |> <| reconnect_limiter := l2 |>
             <| new_session_limiter := l3 |>).
Proof.
  unfold admit_session. simpl. destruct (bounded_allow ip_le ip now (source_session_limiter s)) as [[] l1]; [|done].
  simpl. destruct known as [pid|].
  - destruct (bounded_allow Z.le pid now (reconnect_limiter s)) as [ok l2]. simpl. intros ->.
    by exists l1, l2, (new_session_limiter s).
  - destruct (global_allow now (new_session_limiter s)) as [ok l3]. simpl. intros ->.
    by exists l1, (reconnect_limiter s), l3.
Qed.

Lemma index_works hash pid known now s :
  known = Some pid \/ known = None /\ Z.of_nat (size (identity_players s)) < MAX_PLAYER_ROWS ->
  exists l, index_identity hash pid known now s =
    (Ok tt, s <| identity_players := (match known with Some _ => identity_players s
                                      | None => <[hash := pid]> (identity_players s) end) |>
              <| reconnect_limiter := l |>).
Proof.
  unfold index_identity. intros [->|[-> Hs]].
  - rewrite decide_False by (by intros []). exists (reconnect_limiter s). by destruct s.
  - rewrite decide_False by lia. by eexists.
Qed.

(** The row of an admission, and that the identity index has room for it. *)
Lemma admitted_row tok name now max s row t' :
  CInv (core_of s) -> max <= MAX_PLAYER_ROWS -> Z.of_nat (size (players (tables (db s)))) <= MAX_PLAYER_ROWS ->
  PlayersInv t' -> admission_ok tok name now max (tables (db s)) t' (Ok (PlayerAdmitted row)) ->
  players t' !! pl_id row = Some row /\ pl_token_hash row = tok /\ pl_name row = name /\
  (forall id old, players (tables (db s)) !! id = Some old -> pl_token_hash old = tok ->
     pl_id row = id /\ pl_gold row = pl_gold old) /\
  (forall id, identity_players s !! tok = Some id -> id = pl_id row) /\
  (identity_players s !! tok = None -> Z.of_nat (size (identity_players s)) < MAX_PLAYER_ROWS) /\
  0 <= pl_id row <= i64_max /\ 0 <= pl_gold row <= i64_max.
Proof.
  intros HC Hm Hsz HI' (Hby & Hname & _ & Hoth & Hold).
  pose proof (ac_players _ (ci_accounts _ HC)) as HI. pose proof (ac_books _ (ci_accounts _ HC)) as HB. simpl in HI, HB.
  apply by_token_spec in Hby as (id & Hid & Et); [|done]. destruct (pi_key t' HI' _ _ Hid) as [<- Hkey].
  pose proof (pi_seq t' HI') as Hseq.
  assert (Hknown : forall i r, players (tables (db s)) !! i = Some r -> pl_token_hash r = tok ->
    by_token tok (tables (db s)) = Some r /\ pl_id r = i).
  { intros i r Hi Hr. split; [apply by_token_spec; eauto|]. by apply (pi_key _ HI _ _ Hi). }
  split; [done|]. split; [done|]. split; [done|]. split.
  { intros i old Hi Hr. destruct (Hknown i old Hi Hr) as [E <-]. rewrite E in Hold. by destruct Hold as (? & ? & _). }
  split.
  { intros i Hix. destruct (ci_index _ HC _ _ Hix) as (r & Hr & Er). simpl in Hr.
    destruct (Hknown i r Hr Er) as [E <-]. rewrite E in Hold. by destruct Hold as [-> _]. }
  split; [|split; [unfold i64_max in *; lia|]].
  - intros Hnone. pose proof (index_size (<[tok := pl_id row]> (identity_players s)) (players t')) as Hix.
    rewrite map_size_insert_None in Hix by done.
    assert (Hle : Z.of_nat (size (players t')) <= MAX_PLAYER_ROWS).
    { destruct (by_token tok (tables (db s))); [destruct Hold as (_ & _ & _ & ->); done|].
      destruct Hold as (_ & _ & _ & _ & ?). lia. }
    assert (S (size (identity_players s)) <= size (players t'))%nat; [|lia]. apply Hix.
    intros h i. rewrite lookup_insert. case_decide as E; [intros [= <-]; eauto; by exists row; subst|].
    intros Hh. destruct (ci_index _ HC _ _ Hh) as (r & Hr & Er). simpl in Hr. exists r. split; [|done].
    rewrite Hoth; [done|]. intros ->. destruct (by_token tok (tables (db s))) as [old|] eqn:Eo.
    + apply by_token_spec in Eo as (j & Hj & Ej); [|done]. destruct Hold as (Eid & _).
      destruct (pi_key _ HI _ _ Hj) as [Ej' _]. rewrite Eid, Ej', Hj in Hr. congruence.
    + destruct Hold as (_ & _ & Hno & _). congruence.
  - destruct (by_token tok (tables (db s))) as [old|] eqn:Eo.
    + apply by_token_spec in Eo as (j & Hj & _); [|done]. destruct Hold as (_ & -> & _). by apply (HB _ _ Hj).
    + destruct Hold as (-> & _). unfold i64_max. lia.
Qed.
(** ** The session *)

(** The hello of an admitted player, from the index on. *)
Lemma join_works env peer a hash name pid gold known s :
  good ∅ s -> sessions s !! peer = None -> peer_addr peer (host s) = Some a ->
  known = Some pid \/ known = None /\ Z.of_nat (size (identity_players s)) < MAX_PLAYER_ROWS ->
  exists x t n sent h, (try! _, s := index_identity hash pid known (e_admission_ms env) s in
                   try! _, s := evict_superseded peer pid s in
                   open_session env peer pid gold hash name s) = (Ok tt, t) /\
    sessions t !! peer = Some x /\ ungen x = ungen (fresh_session pid hash name s) /\
    ungen <$> sessions t = <[peer := ungen x]> (ungen <$> others pid (sessions s)) /\
    (forall q y, sessions s !! q = Some y -> ss_player_id y = pid -> q ∉ live_ids (host t)) /\
    identity_players t = match known with Some _ => identity_players s
                         | None => <[hash := pid]> (identity_players s) end /\
    db t = db s /\ w_cell_of (sworld t) !! pid = Some (origin s) /\
    peer ∈ aoi_recipients t /\ peer ∈ snapshot_recipients t /\ inU 32 n /\
    HostInv h /\ peer_addr peer h = Some a /\ tx h = tx (host s) ++ sent /\
    host t = (send_unreliable peer (hello (core_of s) n true "" pid gold (clock_now env s)) (Ok tt) h).2.
Proof.
  intros HG Hn Ha Hk. destruct (index_works hash pid known (e_admission_ms env) s Hk) as (l & ->).
  match goal with |- context [evict_superseded peer pid ?u] => set (s3 := u) end.
  assert (HG3 : good ∅ s3) by exact HG.
  destruct (evict_works s3 peer pid a HG3 Hn Ha)
    as (s4 & sent & -> & Hst & Ew & Es & Hpp & Eg & HH & Ha4 & Etx & Hgone).
  destruct HG3 as (([HR _] & _ & _ & HW & _ & _ & Hr) & _).
  pose proof (good_sessions_bound s HG) as Hb. unfold peer_limit in Hb.
  pose proof Hst as (Ec & Eq & Ee & Ews & Ewd & Eid & Edb & Egr).
  assert (Hsz : Z.of_nat (size (sessions s4)) <= max_transport_peers_usize (cfg s)).
  { rewrite Es. pose proof (map_filter_subseteq (fun p : Z * Session => ss_player_id p.2 <> pid) (sessions s)) as Hsub.
    apply subseteq_dom, subseteq_size in Hsub. rewrite !size_dom in Hsub.
    change (sessions s3) with (sessions s). unfold others.
    unfold max_transport_peers_usize, clampZ in *. lia. }
  destruct (open_works env peer pid gold hash name s4) as (x & t & n & -> & Hx & Ex & Eu & Ei & Ed & Hw & Hai & Hsr & Hn32 & Eh).
  { by rewrite Ec. }
  { rewrite Es, others_lookup. change (sessions s3) with (sessions s). by rewrite Hn. }
  { done. }
  { by rewrite Ec. }
  { rewrite Eg. exact (rg_next _ _ _ _ _ _ HR). }
  { by rewrite Ew. }
  assert (Eo : origin s4 = origin s) by (unfold origin; by rewrite Egr).
  assert (Ef : fresh_session pid hash name s4 = fresh_session pid hash name s).
  { unfold fresh_session. by rewrite Eo, Ec. }
  exists x, t, n, sent, (host s4). split; [done|]. split; [done|]. split; [by rewrite <- Ef|].
  split; [by rewrite Eu, Es|]. split.
  { intros q y Hy Ey. rewrite Eh. pose proof (send_live peer (hello (core_of s4) n true "" pid gold (clock_now env s4)) (Ok tt) (host s4) HH) as (_ & El & _).
    unfold send. simpl. rewrite El. by eapply Hgone. }
  split; [by rewrite Ei, Eid|]. split; [by rewrite Ed, Edb|]. split; [by rewrite Hw, Eo|].
  do 3 (split; [done|]). split; [done|]. split; [done|]. split; [exact Etx|]. rewrite Eh. unfold send, hello, clock_now.
  simpl. unfold caps. by rewrite Ec, Ee, Ews, Ewd, Egr.
Qed.
(** A reply that tells its reader that it is in, as whom, and with how much gold. *)
Definition accepts (b : list Z) (pid gold : Z) : Prop :=
  exists n r, reads_back b n (PServerHello r) /\ sh_accepted r = true /\ sh_player_id r = pid /\ sh_balance_gold r = gold.

Lemma hello_accepts s n pid gold clk :
  Banner_ok (c_banner (core_of s)) -> inU 32 n -> 0 <= pid <= i64_max -> 0 <= gold <= i64_max -> clock_ok clk ->
  accepts (hello (core_of s) n true "" pid gold clk) pid gold.
Proof.
  intros [] Hn Hp Hg%nonneg_inS Hc. eexists n, _. split.
  - apply server_hello_reads_back; try done. unfold inU, i64_max in *. lia.
  - by split_and!.
Qed.

(** The last datagram of a send that fits. *)
Lemma last_sent peer a b h h0 sent :
  HostInv h -> peer_addr peer h = Some a -> tx h = tx h0 ++ sent ->
  exists all, tx (send_unreliable peer b (Ok tt) h).2 = tx h0 ++ all /\
    (len b <= MTU - HEADER_SIZE -> exists number before, all = before ++ [(a, build_unreliable number b)]).
Proof.
  intros HI Ha Etx. unfold send_unreliable. case_decide as Hl.
  { exists sent. split; [exact Etx|]. intros. lia. }
  rewrite Ha. apply peer_addr_spec in Ha as (p & Hp & _); [|apply HI]. rewrite Hp. simpl.
  exists (sent ++ [(a, build_unreliable (p_connection_number p) b)]). rewrite Etx, app_assoc. split; [done|].
  intros _. by exists (p_connection_number p), sent.
Qed.
End Serve.

(** The same player comes back from a second address while its first session is
    still there. *)
Definition again_env : Env := mkEnv 90000 90000 90000 90000.

Definition second_addr : SocketAddr := SockV4 2130706434 5001.

Definition doorstep (s : Server) :=
  (faults (db s), size (players (tables (db s))), ss_player_id <$> sessions s !! 1,
   bool_decide (sessions s !! 2 = None), peer_addr 2 (host s)).

Definition let_pass (s : Server) : bool * bool * Z :=
  ((limiter_allow 2 90000 (hello_limiter s)).1,
   (admit_session (addr_ip second_addr) (identity_players s !! token_hash "secret") 90000 s).1,
   max_wire_string_len_usize (cfg s)).

Definition remembered (s : Server) :=
  (identity_players s !! token_hash "secret", pl_gold <$> players (tables (db s)) !! 1).

Lemma doorstep_facts :
  (fun s => (doorstep s, let_pass s, remembered s)) <$> demo_run (take 4 second_inputs) =
  Some (([], 1%nat, Some 1, true, Some second_addr), (true, true, 512), (Some 1, Some 100)).
Proof. vm_compute. reflexivity. Qed.

Lemma doorstep_server : exists s, demo_run (take 4 second_inputs) = Some s /\ good ∅ s /\ CInv (core_of s) /\
  doorstep s = ([], 1%nat, Some 1, true, Some second_addr) /\ let_pass s = (true, true, 512) /\
  remembered s = (Some 1, Some 100).
Proof.
  pose proof doorstep_facts as Hb. destruct (demo_run (take 4 second_inputs)) as [s|] eqn:E; [|discriminate Hb].
  apply (inj Some), pair_equal_spec in Hb as [Hb Hr]. apply pair_equal_spec in Hb as [Hd Hl].
  exists s. split; [done|]. split; [exact (demo_good _ _ E)|].
  refine (conj _ (conj Hd (conj Hl Hr))). exact (demo_core _ _ (Forall_take _ 4%nat _ second_inputs_ok) E).
Qed.

Lemma demo_hello_valid : ValidHello demo_hello "secret" 512.
Proof. split; try done; [by exists "api"%string|]. repeat constructor; intros t; simpl; intros [= <-]; vm_compute; discriminate. Qed.

(** ** A server nobody can join *)
Section Mute.
Context `{FBI : FlatBuffersInline}.

(** A payload that, if it fits a datagram, is read as something else than a hello. *)
Definition silent (b : list Z) : Prop :=
  len b <= MTU - HEADER_SIZE ->
  exists n p, decode_envelope b = Some (mkEnvelope n p) /\ forall h, p <> PServerHello h.

Definition silent_packet (packet : list Z) : Prop :=
  Control packet \/ exists number b, packet = build_unreliable number b /\ len b <= MTU - HEADER_SIZE /\ silent b.

Record Mute (c : Core) : Prop := {
  mu_name : MTU - HEADER_SIZE < Z.of_nat (String.length (ba_name (c_banner c)));
  mu_queued : Forall silent (c_queued c);
  mu_sent : Forall (fun p => silent_packet p.2) (c_tx c)
}.

Lemma speech_silent c b : CInv c -> Mute c -> Speech c b -> silent b.
Proof.
  intros HC [Hn Hq _] [Hb|(p & (n & _ & Hd) & _ & Hg)]%speech_reads; [|intros Hl|done].
  { rewrite Forall_forall in Hq. by apply Hq. }
  exists n, p. split; [apply Hd; unfold MTU, HEADER_SIZE, max_buffer in *; lia|]. intros h Ep.
  destruct (Hg h Ep) as (k & acc & reason & pid & gold & clk & -> & Hk & Hr & Hp & Hgo & Hc).
  destruct (ci_banner _ HC). unfold hello in Hl.
  pose proof (server_hello_longer k acc reason pid (ba_name (c_banner c)) gold (ba_caps (c_banner c)) clk
    (ba_seed (c_banner c)) (ba_day (c_banner c))) as Hlong.
  specialize (Hlong ltac:(done) ltac:(done) ltac:(done) ltac:(done) ltac:(done) ltac:(done) ltac:(done) ltac:(done) ltac:(done)).
  lia.
Qed.

Lemma step_mute asked c c' : step asked c c' -> CInv c -> Mute c -> Mute c'.
Proof.
  intros [] HC HM; pose proof HM as [Hn Hq Ht]; split; simpl; try done.
  - apply Forall_app. split; [done|]. eapply Forall_impl; [eassumption|]. intros p. by left.
  - apply Forall_app. split; [done|]. constructor; [|done]. right. eexists _, _. split_and!; [done..|].
    by eapply speech_silent.
  - apply Forall_forall. intros x Hx. assert (Hx' : x ∈ b :: c_queued c) by auto.
    apply elem_of_cons in Hx' as [->|Hx']; [by eapply speech_silent|]. rewrite Forall_forall in Hq. auto.
  - apply Forall_forall. intros x Hx. rewrite Forall_forall in Hq. auto.
Qed.

Lemma steps_mute asked c c' : steps asked c c' -> CInv c -> Mute c -> Mute c'.
Proof.
  induction 1 as [c|c1 c2 c3 Hs _ IH]; intros HC HM; [done|].
  apply IH; [by eapply step_keeps|by eapply step_mute].
Qed.
End Mute.

Lemma server_new_cfg c d now rand s d' : server_new c d now rand = (Ok s, d') -> cfg s = c.
Proof.
  unfold server_new, lift_db. intros E.
  destruct (init false d) as [[u|e] d1]; [|done].
  destruct (load_identity_players d1) as [[ids|e] d2]; [|done].
  destruct (world_get_or_init KEY_CLOCK_EPOCH _ d2) as [[ep|e] d3]; [|done].
  destruct (world_get_or_init KEY_WEATHER_SEED _ d3) as [[sd|e] d4]; [|done].
  unfold bind_with_limits in E. case_decide; [done|].
  destruct (grid_new _) as [g|]; [|done]. by injection E as <- _.
Qed.

(** A configuration with such a name passes validation, and a client joins. *)
Definition long_config : Config :=
  config_default <| server_name := String.concat "" (repeat "a friendly port " 100) |>.

Definition joining_inputs : list TickInput := [demo_connect; demo_data 40000000 (PClientHello demo_hello)].

Definition long_run : option (Server * Server) :=
  match (server_new long_config (mkDb empty_tables []) 5000 42).1 with
  | Ok s => (fun p => (s, p.2)) <$> run joining_inputs 0 9000 s
  | Err _ => None
  end.

Lemma long_facts : (fun p => (size (sessions p.2), length (tx (host p.2)))) <$> long_run = Some (1%nat, 3%nat).
Proof. vm_compute. reflexivity. Qed.

Lemma long_config_typed : config_typed long_config.
Proof. split; [vm_compute; reflexivity|vm_compute; auto|vm_compute; discriminate]. Qed.

Lemma joining_ok : Forall input_ok joining_inputs.
Proof. exact (Forall_take _ 2%nat _ demo_data_ok). Qed.

Lemma long_start : exists s d, server_new long_config (mkDb empty_tables []) 5000 42 = (Ok s, d).
Proof. destruct (server_new _ _ _ _) as [[s|e] d] eqn:E; [eauto|vm_compute in E; discriminate]. Qed.

Lemma long_started :
  exists s d r s', server_new long_config (mkDb empty_tables []) 5000 42 = (Ok s, d) /\
    run joining_inputs 0 9000 s = Some (r, s') /\ long_run = Some (s, s').
Proof.
  destruct long_start as (s & d & E). exists s, d.
  destruct (start_run _ _ _ _ _ _ joining_inputs 0 9000 E long_config_typed empty_db_ok joining_ok) as (r & s' & Er & _).
  exists r, s'. split; [exact E|]. split; [exact Er|]. unfold long_run. rewrite E. cbn [fst]. by rewrite Er.
Qed.

(** ** Theorems *)

(** C8.  A valid hello is served.  When a live peer without a session sends a hello
    that is within the limits, the three limiters let it pass, the database works
    and the player is known or there is room for one more, the handler succeeds:
    the player is stored under its token (a known one keeps its id and its gold),
    the peer gets a fresh session at the origin that is queued for interest and
    snapshots, an older session of the same player is gone with its transport peer
    and every other session is as before, up to the renumbering of generations;
    and the last datagram sent is the acceptance, with the player's id and gold,
    to the peer's address, provided that it fits a datagram. *)
Theorem hello_served `{FBL : FlatBuffersLaws} (env : Env) (peer : Z) (m : ClientHello) (token : string)
    (a : SocketAddr) (s : Server) :
  good ∅ s -> CInv (core_of s) -> faults (db s) = [] ->
  Z.of_nat (size (players (tables (db s)))) <= MAX_PLAYER_ROWS ->
  sessions s !! peer = None -> peer_addr peer (host s) = Some a ->
  ValidHello m token (max_wire_string_len_usize (cfg s)) ->
  (limiter_allow peer (e_admission_ms env) (hello_limiter s)).1 = true ->
  (admit_session (addr_ip a) (identity_players s !! token_hash token) (e_admission_ms env) s).1 = true ->
  known_token (token_hash token) (tables (db s)) \/ room (max_player_rows_u32 (cfg s)) (tables (db s)) ->
  exists row x s' b sent, on_hello_at env peer m s = (Ok tt, s') /\
    players (tables (db s')) !! pl_id row = Some row /\ pl_token_hash row = token_hash token /\
    pl_name row = default "sailor"%string (ch_display_name m) /\
    (forall id old, players (tables (db s)) !! id = Some old -> pl_token_hash old = token_hash token ->
       pl_id row = id /\ pl_gold row = pl_gold old) /\
    sessions s' !! peer = Some x /\
    ungen x = ungen (fresh_session (pl_id row) (token_hash token) (pl_name row) s) /\
    ungen <$> sessions s' = <[peer := ungen x]> (ungen <$> others (pl_id row) (sessions s)) /\
    (forall q y, sessions s !! q = Some y -> ss_player_id y = pl_id row -> q ∉ live_ids (host s')) /\
    identity_players s' !! token_hash token = Some (pl_id row) /\
    w_cell_of (sworld s') !! pl_id row = Some (origin s) /\
    peer ∈ aoi_recipients s' /\ peer ∈ snapshot_recipients s' /\
    accepts b (pl_id row) (pl_gold row) /\ tx (host s') = tx (host s) ++ sent /\
    (len b <= MTU - HEADER_SIZE -> exists number before, sent = before ++ [(a, build_unreliable number b)]).
Proof.
  intros HG HC Hf Hsz Hn Ha Hv Hl Had Hroom.
  destruct (admit_works (token_hash token) (default "sailor"%string (ch_display_name m)) (e_now_ms env)
    (max_player_rows_u32 (cfg s)) (tables (db s)) (ac_players _ (ci_accounts _ HC)) Hroom) as (row & t' & Eadm).
  pose proof Eadm as Hadm. apply admit_cases in Hadm as [HI' Hok]; [|exact (ac_players _ (ci_accounts _ HC))].
  destruct (admitted_row (token_hash token) (default "sailor"%string (ch_display_name m)) (e_now_ms env)
    (max_player_rows_u32 (cfg s)) s row t' HC ltac:(unfold max_player_rows_u32, clampZ, MAX_PLAYER_ROWS; lia) Hsz HI' Hok)
    as (Hrow & Htok & Hname & Hold & Hidx & Hfit & Hid & Hgold).
  unfold on_hello_at. destruct (limiter_allow _ _ _) as [ok l]. simpl in Hl. subst ok. cbv zeta. cbn [negb].
  rewrite (check_valid m token) by exact Hv. change (sessions (s <| hello_limiter := l |>)) with (sessions s).
  change (host (s <| hello_limiter := l |>)) with (host s). rewrite Hn, Ha.
  change (identity_players (s <| hello_limiter := l |>)) with (identity_players s).
  destruct (admit_shape _ _ _ l _ Had) as (l1 & l2 & l3 & ->). cbn [negb]. unfold on_db. cbn [db cfg].
  assert (Ed : db s = mkDb (tables (db s)) []) by (rewrite <- Hf; by destruct (db s)). 
  change (db (s <| hello_limiter := l |> <| source_session_limiter := l1 |> <| reconnect_limiter := l2 |>
    <| new_session_limiter := l3 |>)) with (db s). rewrite Ed.
  change (cfg (s <| hello_limiter := l |> <| source_session_limiter := l1 |> <| reconnect_limiter := l2 |>
    <| new_session_limiter := l3 |>)) with (cfg s). rewrite Eadm.
  rewrite decide_False by lia.
  match goal with |- context [index_identity _ _ _ _ ?u] => set (s2 := u) end.
  destruct (join_works env peer a (token_hash token) (default "sailor"%string (ch_display_name m)) (pl_id row) (pl_gold row)
    (identity_players s !! token_hash token) s2) as (x & s' & n & sent & h & -> & Hx & Ex & Eu & Hgone & Ei & Edb & Hw & Hai & Hsr & Hn32 & HH & Hah & Etx & Eh).
  { exact HG. }
  { exact Hn. }
  { exact Ha. }
  { destruct (identity_players s !! token_hash token) as [id|] eqn:Eid; [left; f_equal; by apply Hidx|]. right. split; [done|].
    by apply Hfit. }
  destruct (last_sent peer a (hello (core_of s2) n true "" (pl_id row) (pl_gold row) (clock_now env s2)) h (host s) sent HH Hah Etx)
    as (all & Eall & Hlast).
  exists row, x, s', (hello (core_of s2) n true "" (pl_id row) (pl_gold row) (clock_now env s2)), all.
  rewrite Edb, Hname, Eh. split; [done|]. split; [exact Hrow|]. do 6 (split; [done|]).
  split. { rewrite <- Eh. exact Hgone. }
  split. { rewrite Ei. destruct (identity_players s !! token_hash token) as [id|] eqn:Eid.
           - rewrite <- (Hidx id eq_refl). exact Eid.
           - apply lookup_insert_eq. }
  do 3 (split; [done|]). split; [|done].
  apply hello_accepts; [exact (ci_banner _ HC)|done|done|done|apply clock_from_epoch_ok].
Qed.

Lemma hello_served_witness :
  exists s row s', demo_run (take 4 second_inputs) = Some s /\
    on_hello_at again_env 2 demo_hello s = (Ok tt, s') /\
    (ss_player_id <$> sessions s !! 1 = Some 1 /\ 1 ∉ live_ids (host s')) /\
    ss_player_id <$> sessions s' !! 2 = Some 1 /\ pl_id row = 1 /\ pl_gold row = 100 /\
    players (tables (db s')) !! 1 = Some row.
Proof.
  destruct doorstep_server as (s & E & HG & HC & Hd & Hl & Hr). exists s.
  unfold doorstep, let_pass, remembered in *.
  apply pair_equal_spec in Hd as [Hd Ha]. apply pair_equal_spec in Hd as [Hd Hn].
  apply pair_equal_spec in Hd as [Hd H1]. apply pair_equal_spec in Hd as [Hf Hsz].
  apply pair_equal_spec in Hl as [Hl Hmax]. apply pair_equal_spec in Hl as [Hl Had].
  apply pair_equal_spec in Hr as [Hid Hg]. apply bool_decide_eq_true in Hn.
  pose proof (ci_index _ HC _ _ Hid) as (old & Hold & Et). simpl in Hold.
  destruct (@hello_served tree_runtime tree_laws again_env 2 demo_hello "secret" second_addr s HG HC Hf)
    as (row & x & s' & b & sent & Eh & Hrow & _ & _ & Hsame & Hx & Ex & _ & Hgone & _).
  - rewrite Hsz. unfold MAX_PLAYER_ROWS. lia.
  - exact Hn.
  - exact Ha.
  - rewrite Hmax. exact demo_hello_valid.
  - exact Hl.
  - exact Had.
  - left. exists 1, old. split; [exact Hold|exact Et].
  - destruct (Hsame 1 old Hold Et) as [Eid Egold]. exists row, s'. rewrite Eid in *.
    split; [exact E|]. split; [exact Eh|]. destruct (sessions s !! 1) as [y|] eqn:E1; [|discriminate H1].
    apply (inj Some) in H1. split; [split; [exact (f_equal Some H1)|exact (Hgone 1 y E1 H1)]|].
    split; [rewrite Hx; exact (f_equal Some (fresh_player _ _ _ _ _ Ex))|]. split; [reflexivity|].
    split; [|exact Hrow]. rewrite Egold. rewrite Hold in Hg. by apply (inj Some) in Hg.
Defined.

(** C9.  A name nobody hears.  Validation does not look at [server_name], which
    every hello of the server carries; when it is longer than the payload of a
    datagram no hello is ever sent, in any run: every datagram from start-up to
    shutdown is a packet of the transport itself or decodes to a message of another
    kind.  Clients get sessions but never learn their player, and a rejected one is
    not told so. *)
Theorem long_name_unanswered `{FBI : FlatBuffersInline} (c : Config) (d d' : Db) (now rand start stop : Z)
    (s : Server) (inputs : list TickInput) :
  server_new c d now rand = (Ok s, d') -> config_typed c -> db_ok (tables d) -> Forall input_ok inputs ->
  MTU - HEADER_SIZE < Z.of_nat (String.length (server_name c)) ->
  (forall name, validate (c <| server_name := name |>) = validate c) /\
  exists r s', run inputs start stop s = Some (r, s') /\
    forall addr packet, (addr, packet) ∈ tx (host s') ->
      Control packet \/
      exists number b e, packet = build_unreliable number b /\ decode_envelope b = Some e /\
        forall h, env_payload e <> PServerHello h.
Proof.
  intros E Hc Hd Hi Hn. split; [done|].
  destruct (start_run _ _ _ _ _ _ inputs start stop E Hc Hd Hi) as (r & s' & Er & HC & Hs).
  exists r, s'. split; [done|]. destruct (server_new_blank _ _ _ _ _ _ E) as (_ & Eq & Et).
  assert (HM : Mute (core_of s)).
  { split; rewrite ?Eq, ?Et; [|done..]. simpl. by rewrite (server_new_cfg _ _ _ _ _ _ E). }
  pose proof (mu_sent _ (steps_mute _ _ _ Hs HC HM)) as Hall. rewrite Forall_forall in Hall.
  intros a p Hp. destruct (Hall _ Hp) as [?|(number & b & Eb & Hl & Hb)]; [by left|right].
  destruct (Hb Hl) as (n & q & He & Hq). exists number, b, (mkEnvelope n q). done.
Qed.

Lemma long_name_unanswered_witness :
  validate long_config = Ok tt /\
  exists s d r s', server_new long_config (mkDb empty_tables []) 5000 42 = (Ok s, d) /\
    run joining_inputs 0 9000 s = Some (r, s') /\ size (sessions s') = 1%nat /\ length (tx (host s')) = 3%nat /\
    Forall (fun p => Control p.2 \/ exists number b e, p.2 = build_unreliable number b /\
      decode_envelope b = Some e /\ forall h, env_payload e <> PServerHello h) (tx (host s')).
Proof.
  destruct long_started as (s & d & r & s' & E & Er & Ee). pose proof long_facts as Hb. rewrite Ee in Hb.
  apply (inj Some), pair_equal_spec in Hb as [H1 H2].
  destruct (@long_name_unanswered tree_runtime tree_laws tree_inline long_config (mkDb empty_tables []) d 5000 42 0 9000 s
    joining_inputs E long_config_typed empty_db_ok joining_ok) as (Hv & r2 & s2 & Er2 & Hall).
  - vm_compute. reflexivity.
  - rewrite Er in Er2. apply (inj Some), pair_equal_spec in Er2 as [_ <-].
    split; [etrans; [exact (Hv _)|vm_compute; reflexivity]|]. exists s, d, r, s'.
    split; [exact E|]. split; [exact Er|]. split; [exact H1|]. split; [exact H2|].
    apply Forall_forall. intros [a p]. exact (Hall a p).
Defined.
