(* ===== verification/Mooring.v ===== *)
(** * Moorings: what a request stores, and whose it was

    The functional behaviour of [Server.on_moor] on a working database.  The row is
    keyed by the boat the client says it is aboard, which nothing checks, and an
    upsert replaces the owner: a mooring belongs to whoever claimed it last. *)

From S2P Require Import Structs Flat Tables.
From S2P Require Import Prelude Float World Clock Config Econ RateLimit Wire Host TableSpecs.
From S2P Require Import HostInv Persist EconStore Codec FlatTree CodecProps Server Sched.
From S2P Require Import ServerInv TickInv ServerProps Progress ServerSpec Refinement EndToEnd Greeting.










Section Moor.
Context `{FBL : FlatBuffersLaws}.


End Moor.









(** ** Theorems *)


