(* ===== verification/Main.v ===== *)
(** * The process (main.rs)

    server/crates/sw-server/src/main.rs: resolve the configuration, install the
    signal handler, start the server, run it until the handler clears the flag.
    The flag decides how many ticks the run makes, so it is the length of the
    list of tick inputs: nothing here says that the loop ends.  A failing handler
    installation is only logged, and then nothing ever clears the flag. *)

From S2P Require Import Prelude Config Host Persist Flat Server Sched ServerInv.
From S2P Require Import HostInv TickInv ServerProps FlatTree.

Inductive MainError :=
| ConfigFailed (e : ConfigError)
| StartFailed (e : SrvError)
| ShutdownIncomplete (e : ShutdownError).

Definition main `{FB : FlatBuffers} (read : string -> result ConfigError Config) (args : list string)
    (swo_bind swo_db : option string) (d : Db) (now rand : Z) (inputs : list TickInput) (start fin : Z)
    : option (result MainError unit * Db) :=
  match resolve read args swo_bind swo_db with
  | Err e => Some (Err (ConfigFailed e), d)
  | Ok cfg =>
      match server_new cfg d now rand with
      | (Err e, d) => Some (Err (StartFailed e), d)
      | (Ok server, _) =>
          match run inputs start fin server with
          | None => None
          | Some (Ok _, s) => Some (Ok tt, db s)
          | Some (Err e, s) => Some (Err (ShutdownIncomplete e), db s)
          end
      end
  end.

(** A resolved configuration passed validation. *)
Lemma resolve_valid read args swo_bind swo_db c :
  (forall p c, read p = Ok c -> typed c) -> resolve read args swo_bind swo_db = Ok c -> Valid c.
Proof.
  intros Hread H. unfold resolve in H. destruct (parse_args _ _) as [o|e]; [|done].
  set (base := match config_path o with Some p => from_file read p | None => Ok config_default end) in H.
  assert (Hb : forall b, base = Ok b -> typed b).
  { intros b. unfold base, from_file. destruct (config_path o) as [p|].
    - destruct (read p) as [b'|] eqn:E; [|done]. destruct (validate b'); [|done]. intros [= <-]. eauto.
    - intros [= <-]. apply default_typed. }
  destruct base as [b|e]; [|done]. specialize (Hb b eq_refl).
  destruct swo_bind, swo_db, (bind_override o), (db_override o); cbv zeta in H;
    (match type of H with context [validate ?x] =>
       assert (typed x) as Ht by exact Hb; destruct (validate x) as [[]|] eqn:Ev; [|done];
       injection H as <-; exact (validate_sound _ Ht Ev) end).
Qed.

(** What the process leaves behind when it ends.  For any command line,
    environment, configuration file with fields of their types, database with
    failures anywhere, socket input and clock readings, and whatever number of ticks
    ran before the signal: a configuration that does not resolve leaves the database
    alone; a server only starts on a valid configuration; once started, every tick
    completes and leaves the server consistent; and when the process reports
    success, every player who was online, dirty or queued at the end has been
    saved with the time of the shutdown. *)
Lemma main_outcome `{FB : FlatBuffers} (read : string -> result ConfigError Config)
    (args : list string) (swo_bind swo_db : option string) (d : Db) (now rand : Z)
    (inputs : list TickInput) (start fin : Z) :
  (forall p c, read p = Ok c -> typed c) ->
  exists r d', main read args swo_bind swo_db d now rand inputs start fin = Some (r, d') /\
  match r with
  | Err (ConfigFailed e) => resolve read args swo_bind swo_db = Err e /\ d' = d
  | Err (StartFailed e) =>
      exists c, resolve read args swo_bind swo_db = Ok c /\ Valid c /\ server_new c d now rand = (Err e, d')
  | _ =>
      exists c s d0 l, resolve read args swo_bind swo_db = Ok c /\ Valid c /\
        server_new c d now rand = (Ok s, d0) /\ ticks inputs (mkLoop 0 start s) = Some l /\
        server_inv (lp_server l) /\
        (r = Ok tt -> forall pid row, pid ∈ flush_pending (lp_server l) ->
           players (tables d') !! wrapS 64 pid = Some row -> pl_last_seen row = fin)
  end.
Proof.
  intros Hread. unfold main. destruct (resolve read args swo_bind swo_db) as [c|e] eqn:Er; [|by do 2 eexists].
  pose proof (resolve_valid _ _ _ _ _ Hread Er) as Hv.
  destruct (server_new c d now rand) as [[s|e] d0] eqn:Es; [|do 2 eexists; split; [done|]; by exists c].
  assert (HG : tick_good (mkLoop 0 start s)).
  { eapply server_new_good; [exact Es|]. pose proof (v_radius c Hv). lia. }
  destruct (ticks_spec inputs _ HG) as (l & El & HGl). unfold run. rewrite El.
  pose proof (flush_all_spec fin (lp_server l)) as Hf.
  destruct (flush_all fin (lp_server l)) as [r s']. destruct Hf as (Hp & _ & Hr & _).
  destruct r as [u|e]; do 2 eexists; (split; [reflexivity|]); exists c, s, d0, l;
    do 4 (split; [done|]); (split; [apply HGl|]); [|done].
  intros _ pid row Hpid. cbn. destruct (Hp pid Hpid) as [Hin|Hs]; [|apply Hs].
  rewrite Hr in Hin. set_solver.
Qed.

Lemma main_outcome_witness :
  exists r d', main (fun _ => Ok config_default) [] None None (mkDb empty_tables []) 5000 42 demo_inputs 0 9000
                 = Some (r, d') /\ r = Ok tt.
Proof.
  destruct (main_outcome (fun _ => Ok config_default) [] None None (mkDb empty_tables []) 5000 42
              demo_inputs 0 9000) as (r & d' & E & _).
  - intros _ c [= <-]. apply default_typed.
  - exists r, d'. split; [exact E|].
    assert (fst <$> main (fun _ => Ok config_default) [] None None (mkDb empty_tables []) 5000 42 demo_inputs 0 9000
            = Some (Ok tt)) as Hr by (vm_compute; reflexivity).
    rewrite E in Hr. by injection Hr.
Defined.
