(* ===== verification/ArchDag.v ===== *)
(** * The architecture test (arch_dag.rs)

    server/crates/sw-server/src/arch_dag.rs scans Cargo manifests by hand and
    compares the dependencies between workspace crates with a table of allowed
    edges.  The scan is modelled on the UTF-8 bytes of the strings; a [panic] of
    [expect] or of an assertion is an error.  The manifests are read through a
    function. *)

From Stdlib Require Import Ascii.
From S2P Require Import Prelude.

(** ** The string operations the scan uses *)
Fixpoint find_char (c : ascii) (s : string) : option nat :=
  match s with
  | EmptyString => None
  | String d s => if decide (d = c) then Some O else S <$> find_char c s
  end.

Fixpoint find_str (needle s : string) : option nat :=
  if String.prefix needle s then Some O
  else match s with EmptyString => None | String _ s => S <$> find_str needle s end.

Fixpoint drop_s (n : nat) (s : string) : string :=
  match n, s with
  | S n, String _ s => drop_s n s
  | _, _ => s
  end.

Fixpoint take_s (n : nat) (s : string) : string :=
  match n, s with
  | S n, String c s => String c (take_s n s)
  | _, _ => EmptyString
  end.

(** [str::split] at a character: never empty. *)
Fixpoint split_on (c : ascii) (s : string) : list string :=
  match s with
  | EmptyString => [EmptyString]
  | String d s =>
      if decide (d = c) then EmptyString :: split_on c s
      else match split_on c s with
           | w :: ws => String d w :: ws
           | [] => [String d EmptyString]
           end
  end.

Definition code (c : ascii) : Z := Z.of_N (N_of_ascii c).

(** Unicode white space ([char::is_whitespace]) by the bytes of its UTF-8 form:
    one byte (U+0009 to U+000D, U+0020), two (U+0085, U+00A0) or three (U+1680,
    U+2000 to U+200A, U+2028, U+2029, U+202F, U+205F, U+3000). *)
Definition is_ws (c : ascii) : bool := ((9 <=? code c) && (code c <=? 13)) || (code c =? 32).

Definition is_ws2 (c d : ascii) : bool := (code c =? 194) && ((code d =? 133) || (code d =? 160)).

Definition is_ws3 (c d e : ascii) : bool :=
  ((code c =? 225) && (code d =? 154) && (code e =? 128)) ||
  ((code c =? 226) && (code d =? 128) &&
     (((128 <=? code e) && (code e <=? 138)) || (code e =? 168) || (code e =? 169) || (code e =? 175))) ||
  ((code c =? 226) && (code d =? 129) && (code e =? 159)) ||
  ((code c =? 227) && (code d =? 128) && (code e =? 128)).

Fixpoint trim_start (s : string) : string :=
  match s with
  | String c r =>
      if is_ws c then trim_start r
      else
        match r with
        | String d r2 =>
            if is_ws2 c d then trim_start r2
            else
              match r2 with
              | String e r3 => if is_ws3 c d e then trim_start r3 else s
              | EmptyString => s
              end
        | EmptyString => s
        end
  | EmptyString => s
  end.

(** [s] is all white space: what [trim_end] cuts off. *)
Definition blank (s : string) : bool := bool_decide (trim_start s = EmptyString).

Fixpoint trim_end (s : string) : string :=
  match s with
  | EmptyString => EmptyString
  | String c r => if blank s then EmptyString else String c (trim_end r)
  end.

Definition trim (s : string) : string := trim_end (trim_start s).

Definition starts_with (c : ascii) (s : string) : bool :=
  match s with String d _ => bool_decide (d = c) | EmptyString => false end.

Fixpoint ends_with (c : ascii) (s : string) : bool :=
  match s with
  | EmptyString => false
  | String d EmptyString => bool_decide (d = c)
  | String _ r => ends_with c r
  end.

Definition nl : ascii := "010".
Definition cr : ascii := "013".
Definition quote : ascii := "034".

Fixpoint strip_cr (s : string) : string :=
  match s with
  | EmptyString => EmptyString
  | String d EmptyString => if decide (d = cr) then EmptyString else s
  | String d r => String d (strip_cr r)
  end.

(** [str::lines]: a line ends at a line feed, with a carriage return before it. *)
Definition lines (s : string) : list string :=
  let parts := split_on nl s in
  (strip_cr <$> removelast parts) ++
  match list.last parts with
  | Some EmptyString | None => []
  | Some l => [l]
  end.

(** ** The policy *)
Definition workspace_libs : gset string :=
  list_to_set ["sw-contracts"; "sw-net"; "sw-world"; "sw-econ"; "sw-persist"]%string.

Definition allowed_edges : gmap string (gset string) :=
  let set (items : list string) : gset string := list_to_set items in
  <["sw-server" := set ["sw-contracts"; "sw-net"; "sw-world"; "sw-econ"; "sw-persist"]]>
  (<["sw-persist" := set ["sw-contracts"]]>
  (<["sw-econ" := set ["sw-contracts"]]>
  (<["sw-world" := set ["sw-contracts"]]>
  (<["sw-net" := set ["sw-contracts"]]>
  (<["sw-contracts" := set []]> ∅)))))%string.

(** ** The manifests *)

(** The loop over the quoted entries.  [None] is a loop cut short, the inner
    [None] the panic of an entry without a closing quote. *)
Fixpoint scan_entries (fuel : nat) (rest : string) : option (option (list string)) :=
  match fuel with
  | O => None
  | S fuel =>
      match find_char quote rest with
      | None => Some (Some [])
      | Some open =>
          let after := drop_s (open + 1) rest in
          match find_char quote after with
          | None => Some None
          | Some close =>
              let entry := take_s close after in
              let dir := default entry (list.last (split_on "/" entry)) in
              match scan_entries fuel (drop_s (close + 1) after) with
              | None => None
              | Some None => Some None
              | Some (Some members) => Some (Some (dir :: members))
              end
          end
      end
  end.

Definition workspace_members (manifest : string) : option (option (list string)) :=
  match find_str "members" manifest with
  | None => Some None
  | Some i =>
      match find_char "[" (drop_s i manifest) with
      | None => Some None
      | Some j =>
          let start := (i + j + 1)%nat in
          match find_char "]" (drop_s start manifest) with
          | None => Some None
          | Some len =>
              let rest := take_s len (drop_s start manifest) in
              scan_entries (S (String.length rest)) rest
          end
      end
  end.

Definition is_header (line : string) : bool := starts_with "[" line && ends_with "]" line.

(** The crate a dependency line names, if any. *)
Definition dependency_name (line : string) : option string :=
  if bool_decide (line = EmptyString) || starts_with "#" line then None
  else
    match find_char "=" line with
    | None => None
    | Some eq =>
        let key := trim (take_s eq line) in
        let name := trim (default key (head (split_on "." key))) in
        if decide (name = EmptyString) then None else Some name
    end.

Definition scan_line (st : gset string * bool) (raw : string) : gset string * bool :=
  let '(names, in_deps) := st in
  let line := trim raw in
  if is_header line then (names, bool_decide (line = "[dependencies]"%string))
  else if negb in_deps then (names, in_deps)
  else match dependency_name line with
       | None => (names, in_deps)
       | Some name => ({[name]} ∪ names, in_deps)
       end.

Definition dependency_names (manifest : string) : gset string :=
  (foldl scan_line (∅, false) (lines manifest)).1.

(** ** The check *)
Inductive DagError :=
| NoMembers
| PolicyMismatch
| Unreadable (member : string)
| ForbiddenEdges (edges : list (string * string))
| BadManifest.

Definition intra (manifest : string) : gset string := dependency_names manifest ∩ workspace_libs.

(** The edges of one member outside its allowed set, in the order of the names. *)
Definition forbidden (member manifest : string) : list (string * string) :=
  (fun dep => (member, dep)) <$>
  filter (fun dep => dep ∉ default ∅ (allowed_edges !! member))
    (btree_iter (fun a b => Is_true (String.leb a b)) (intra manifest)).

Fixpoint check_members (read : string -> option string) (members : list string)
    : result DagError (list (string * string)) :=
  match members with
  | [] => Ok []
  | member :: members =>
      match read member with
      | None => Err (Unreadable member)
      | Some manifest =>
          let? rest := check_members read members in
          Ok (forbidden member manifest ++ rest)
      end
  end.

Definition crate_dag_has_no_forbidden_edges (workspace_manifest : string)
    (read : string -> option string) : result DagError unit :=
  match workspace_members workspace_manifest with
  | None | Some None => Err BadManifest
  | Some (Some members) =>
      if decide (members = []) then Err NoMembers
      else if decide (list_to_set members ≠@{gset string} dom allowed_edges) then Err PolicyMismatch
      else
        let? violations := check_members read members in
        if decide (violations = []) then Ok tt else Err (ForbiddenEdges violations)
  end.

(** ** Scanning strings *)
Lemma length_drop_s n s : String.length (drop_s n s) = (String.length s - n)%nat.
Proof. revert s. induction n as [|n IH]; intros [|c s]; simpl; rewrite ?IH; lia. Qed.

Lemma find_char_lt c s i : find_char c s = Some i -> (i < String.length s)%nat.
Proof.
  revert i. induction s as [|d s IH]; intros i; simpl; [done|]. case_decide; [intros [= <-]; lia|].
  destruct (find_char c s) as [k|]; [|done]. intros [= <-]. specialize (IH k eq_refl). lia.
Qed.

(** The loop needs one round per entry, and an entry takes two characters at least. *)
Lemma scan_entries_total fuel rest :
  (String.length rest < fuel)%nat -> is_Some (scan_entries fuel rest).
Proof.
  revert rest. induction fuel as [|fuel IH]; intros rest Hf; [lia|]. simpl.
  destruct (find_char quote rest) as [o|] eqn:Eo; [|eauto].
  apply find_char_lt in Eo.
  destruct (find_char quote (drop_s (o + 1) rest)) as [k|] eqn:Ek; [|eauto].
  destruct (IH (drop_s (k + 1) (drop_s (o + 1) rest))) as [r ->]; [rewrite !length_drop_s; lia|].
  destruct r; eauto.
Qed.

Lemma append_nil t : (EmptyString +:+ t = t)%string.
Proof. done. Qed.

Lemma append_cons c s t : (String c s +:+ t = String c (s +:+ t))%string.
Proof. done. Qed.

Lemma append_assoc s t u : ((s +:+ t) +:+ u = s +:+ (t +:+ u))%string.
Proof. induction s as [|c s IH]; [done|]. by rewrite !append_cons, IH. Qed.

Lemma append_length s t : String.length (s +:+ t) = (String.length s + String.length t)%nat.
Proof. induction s as [|c s IH]; [done|]. rewrite append_cons. simpl. by rewrite IH. Qed.

(** A character that does not occur. *)
Fixpoint lacks (c : ascii) (s : string) : bool :=
  match s with
  | EmptyString => true
  | String d s => bool_decide (d <> c) && lacks c s
  end.

Lemma find_char_app c s t : lacks c s = true -> find_char c (s +:+ String c t) = Some (String.length s).
Proof.
  induction s as [|d s IH]; [rewrite append_nil; simpl; by rewrite decide_True|].
  rewrite append_cons. simpl. intros [Hd%bool_decide_eq_true Hs]%andb_true_iff.
  by rewrite decide_False, IH.
Qed.

Lemma find_char_lacks c s : lacks c s = true -> find_char c s = None.
Proof.
  induction s as [|d s IH]; simpl; [done|]. intros [Hd%bool_decide_eq_true Hs]%andb_true_iff.
  by rewrite decide_False, IH.
Qed.

Lemma take_s_app s t : take_s (String.length s) (s +:+ t) = s.
Proof. induction s as [|d s IH]; [by destruct t|]. rewrite append_cons. simpl. by rewrite IH. Qed.

Lemma drop_s_app s t n : drop_s (String.length s + n) (s +:+ t) = drop_s n t.
Proof. induction s as [|d s IH]; [done|]. by rewrite append_cons. Qed.

Lemma lacks_app c s t : lacks c (s +:+ t) = lacks c s && lacks c t.
Proof. induction s as [|d s IH]; [done|]. rewrite append_cons. simpl. by rewrite IH, andb_assoc. Qed.

(** ** A manifest with a list of members *)
Definition quoted (s : string) : string := String quote (s +:+ String quote EmptyString).

Definition render_entries (entries : list string) : string :=
  foldr (fun e r => quoted e +:+ ", " +:+ r)%string EmptyString entries.

Definition render_manifest (entries : list string) (tail : string) : string :=
  ("[workspace]" +:+ String nl ("members = [" +:+ (render_entries entries +:+ String "]" tail)))%string.

Definition entry_ok (e : string) : bool := lacks quote e && lacks "]" e.

Definition dir_name (e : string) : string := default e (list.last (split_on "/" e)).

Lemma scan_skip fuel c s : c <> quote -> scan_entries fuel (String c s) = scan_entries fuel s.
Proof.
  intros Hc. destruct fuel as [|fuel]; [done|]. cbn [scan_entries find_char]. rewrite decide_False by done.
  by destruct (find_char quote s).
Qed.

Lemma scan_render entries fuel :
  forallb entry_ok entries = true -> (length entries < fuel)%nat ->
  scan_entries fuel (render_entries entries) = Some (Some (dir_name <$> entries)).
Proof.
  revert fuel. induction entries as [|e es IH]; intros [|fuel] He Hf; cbn [length] in Hf; try lia; [done|].
  cbn [forallb] in He. apply andb_true_iff in He as [He Hes]. apply andb_true_iff in He as [Hq _].
  cbn [render_entries foldr]. change (foldr _ _ es) with (render_entries es).
  set (rest := (", " +:+ render_entries es)%string).
  assert (quoted e +:+ rest = String quote (e +:+ String quote rest))%string as ->.
  { unfold quoted. by rewrite append_cons, append_assoc. }
  cbn [scan_entries]. change (find_char quote (String quote _)) with (Some O). cbv iota zeta.
  change (drop_s (0 + 1) (String quote (e +:+ String quote rest))) with (e +:+ String quote rest)%string.
  rewrite (find_char_app quote e) by done. rewrite take_s_app, drop_s_app.
  change (drop_s 1 (String quote rest)) with rest. unfold rest.
  rewrite !append_cons, append_nil, !scan_skip by done. rewrite IH by (done || lia). done.
Qed.

Lemma render_lacks entries : forallb entry_ok entries = true -> lacks "]" (render_entries entries) = true.
Proof.
  induction entries as [|e es IH]; [done|]. cbn [forallb]. intros [He Hes]%andb_true_iff.
  apply andb_true_iff in He as [_ Hb]. cbn [render_entries foldr].
  change (foldr _ _ es) with (render_entries es). unfold quoted.
  rewrite append_cons, append_assoc. cbn [lacks]. rewrite !lacks_app, Hb, (IH Hes). done.
Qed.

Lemma render_length entries : (length entries <= String.length (render_entries entries))%nat.
Proof.
  induction entries as [|e es IH]; [done|]. cbn [render_entries foldr length].
  change (foldr _ _ es) with (render_entries es). unfold quoted.
  rewrite append_cons. cbn [String.length]. rewrite !append_length. lia.
Qed.

Lemma members_of_render entries tail :
  forallb entry_ok entries = true ->
  workspace_members (render_manifest entries tail) = Some (Some (dir_name <$> entries)).
Proof.
  intros He. unfold workspace_members, render_manifest.
  change (find_str _ _) with (Some 12%nat). cbv iota.
  change (drop_s 12 _) with ("members = [" +:+ (render_entries entries +:+ String "]" tail))%string.
  change (find_char "[" _) with (Some 10%nat). cbv iota.
  change (drop_s (12 + 10 + 1) _) with (render_entries entries +:+ String "]" tail)%string.
  rewrite (find_char_app "]" (render_entries entries) tail) by (by apply render_lacks).
  rewrite take_s_app. apply scan_render; [done|]. pose proof (render_length entries). lia.
Qed.

(** ** The scan of a manifest *)

(** The section a line after these would be in is [[dependencies]]: no header
    follows that one. *)
Definition in_dependencies (ls : list string) : Prop :=
  exists pre h mid, ls = pre ++ h :: mid /\ trim h = "[dependencies]"%string /\
    Forall (fun l => is_header (trim l) = false) mid.

(** A line of such a section declares the name. *)
Definition declares (ls : list string) (name : string) : Prop :=
  exists before raw after, ls = before ++ raw :: after /\ in_dependencies before /\
    is_header (trim raw) = false /\ dependency_name (trim raw) = Some name.

Lemma in_dependencies_snoc ls l :
  in_dependencies (ls ++ [l]) <->
  (if is_header (trim l) then trim l = "[dependencies]"%string else in_dependencies ls).
Proof.
  split.
  - intros (pre & h & mid & E & Hh & Hm). destruct mid as [|m mid _] using rev_ind.
    + apply app_inj_tail in E as [-> ->]. by rewrite Hh.
    + rewrite app_comm_cons, app_assoc in E. apply app_inj_tail in E as [-> ->].
      apply Forall_app in Hm as [Hm Hl]. inversion Hl as [|? ? Hh2]; subst. rewrite Hh2.
      by exists pre, h, mid.
  - destruct (is_header (trim l)) eqn:El.
    + intros Hl. by exists ls, l, [].
    + intros (pre & h & mid & -> & Hh & Hm). exists pre, h, (mid ++ [l]).
      rewrite <- app_assoc. split; [done|]. split; [done|]. apply Forall_app. auto.
Qed.

Lemma declares_snoc ls l name :
  declares (ls ++ [l]) name <->
  declares ls name \/
  (in_dependencies ls /\ is_header (trim l) = false /\ dependency_name (trim l) = Some name).
Proof.
  split.
  - intros (before & raw & after & E & Hb & Hh & Hn). destruct after as [|p after _] using rev_ind.
    + right. apply app_inj_tail in E as [-> ->]. done.
    + left. rewrite app_comm_cons, app_assoc in E. apply app_inj_tail in E as [-> ->].
      by exists before, raw, after.
  - intros [(before & raw & after & -> & Hb & Hh & Hn)|(Hd & Hh & Hn)].
    + exists before, raw, (after ++ [l]). by rewrite <- app_assoc.
    + by exists ls, l, [].
Qed.

Lemma scan_spec ls :
  let '(names, in_deps) := foldl scan_line (∅, false) ls in
  (in_deps = true <-> in_dependencies ls) /\ (forall name, name ∈ names <-> declares ls name).
Proof.
  induction ls as [|l ls IH] using rev_ind.
  - split; [split; [done|intros ([] & ? & ? & ? & _); done]|].
    intros name. split; [set_solver|]. intros ([] & ? & ? & ? & _); done.
  - rewrite foldl_snoc. destruct (foldl scan_line (∅, false) ls) as [names d]. destruct IH as [Hd Hn].
    unfold scan_line. destruct (is_header (trim l)) eqn:El.
    + split; [rewrite in_dependencies_snoc, El; by rewrite bool_decide_eq_true|].
      intros name. rewrite declares_snoc, El, Hn. naive_solver.
    + assert (forall b, (b = true <-> in_dependencies ls) -> (b = true <-> in_dependencies (ls ++ [l]))) as Hi.
      { intros b. by rewrite in_dependencies_snoc, El. }
      destruct d; cbn [negb].
      * destruct (dependency_name (trim l)) as [k|] eqn:Ek; (split; [by apply Hi|]);
          intros name; rewrite declares_snoc, El, <- Hn, ?elem_of_union, ?elem_of_singleton; naive_solver.
      * split; [by apply Hi|]. intros name. rewrite declares_snoc, El, <- Hn. naive_solver.
Qed.

(** ** The policy is layered *)
Definition layer (crate : string) : nat :=
  if decide (crate = "sw-contracts"%string) then 0
  else if decide (crate = "sw-server"%string) then 2 else 1.

Lemma allowed_edges_layered member permitted dep :
  allowed_edges !! member = Some permitted -> dep ∈ permitted -> (layer dep < layer member)%nat.
Proof.
  intros H Hd.
  assert (map_Forall (fun m s => Forall (fun d => (layer d < layer m)%nat) (elements s)) allowed_edges) as Ha
    by (apply (bool_decide_unpack _); vm_compute; exact I).
  specialize (Ha member permitted H). rewrite Forall_forall in Ha. by apply Ha, elem_of_elements.
Qed.

(** The libraries may only use the contracts. *)
Lemma allowed_edges_star member permitted dep :
  allowed_edges !! member = Some permitted -> dep ∈ permitted ->
  member = "sw-server"%string \/ dep = "sw-contracts"%string.
Proof.
  intros H Hd.
  assert (map_Forall (fun m s => m = "sw-server"%string \/
            Forall (fun d => d = "sw-contracts"%string) (elements s)) allowed_edges) as Ha
    by (apply (bool_decide_unpack _); vm_compute; exact I).
  destruct (Ha member permitted H) as [?|Hf]; [by left|right].
  rewrite Forall_forall in Hf. by apply Hf, elem_of_elements.
Qed.

Lemma forbidden_nil member manifest permitted dep :
  forbidden member manifest = [] -> allowed_edges !! member = Some permitted ->
  dep ∈ dependency_names manifest -> dep ∈ workspace_libs -> dep ∈ permitted.
Proof.
  unfold forbidden. intros H Hp Hd Hl. rewrite Hp in H. apply fmap_nil_inv in H.
  destruct (decide (dep ∈ permitted)) as [|Hn]; [done|].
  assert (dep ∈ filter (fun dep => dep ∉ permitted)
            (btree_iter (fun a b => Is_true (String.leb a b)) (intra manifest))) as Hin.
  { apply list_elem_of_filter. split; [done|]. apply elem_of_btree_iter. unfold intra. set_solver. }
  simpl in H. rewrite H in Hin. by apply elem_of_nil in Hin.
Qed.

Lemma check_members_spec read members :
  match check_members read members with
  | Ok v => forall member, member ∈ members -> exists manifest, read member = Some manifest /\
              (v = [] -> forbidden member manifest = [])
  | Err e => exists member, member ∈ members /\ read member = None
  end.
Proof.
  induction members as [|m ms IH]; simpl; [by intros ? ?%elem_of_nil|].
  destruct (read m) as [manifest|] eqn:Em; [|by exists m; split; [left|]].
  destruct (check_members read ms) as [v|e].
  - intros k [->|Hk]%elem_of_cons.
    + exists manifest. split; [done|]. by intros [? _]%app_nil.
    + destruct (IH k Hk) as (mk & Hr & Hf). exists mk. split; [done|]. intros [_ ?]%app_nil. auto.
  - destruct IH as (k & Hk & Hr). exists k. split; [by right|done].
Qed.

Lemma check_members_ok read members :
  check_members read members = Ok [] <->
  Forall (fun m => exists manifest, read m = Some manifest /\ forbidden m manifest = []) members.
Proof.
  induction members as [|m ms IH]; simpl; [by split|]. split.
  - intros H. destruct (read m) as [manifest|] eqn:Em; [|done].
    destruct (check_members read ms) as [v|e]; [|done]. injection H as [Hf ->]%app_nil.
    constructor; [by exists manifest|]. by apply IH.
  - intros [(manifest & -> & Hf) Hms]%Forall_cons. rewrite Hf. by rewrite (proj2 IH Hms).
Qed.

Lemma forbidden_nil_iff member manifest permitted :
  allowed_edges !! member = Some permitted ->
  forbidden member manifest = [] <->
  (forall dep, dep ∈ dependency_names manifest -> dep ∈ workspace_libs -> dep ∈ permitted).
Proof.
  intros Hp. split; [intros H dep; by eapply forbidden_nil|]. intros H. unfold forbidden. rewrite Hp.
  assert (filter (fun dep => dep ∉ permitted)
            (btree_iter (fun a b => Is_true (String.leb a b)) (intra manifest)) = []) as E; [|by simpl; rewrite E].
  apply filter_none. intros dep Hd%elem_of_btree_iter. unfold intra in Hd. intros Hn. apply Hn, H; set_solver.
Qed.

(** ** Theorems *)

(** An edge from a member to a workspace library, as the check sees the manifests:
    the only edges it looks at.  One to the server is none, since the server is not
    in [workspace_libs]. *)
Definition seen_edge (read : string -> option string) (member dep : string) : Prop :=
  is_Some (allowed_edges !! member) /\ dep ∈ workspace_libs /\
  exists manifest, read member = Some manifest /\ dep ∈ dependency_names manifest.

(** One member per policy entry, every manifest readable, every edge allowed. *)
Definition policy_holds (ws : string) (read : string -> option string) : Prop :=
  exists members, workspace_members ws = Some (Some members) /\
    list_to_set members = dom allowed_edges /\
    forall m, m ∈ members -> exists manifest permitted,
      read m = Some manifest /\ allowed_edges !! m = Some permitted /\
      forall dep, dep ∈ dependency_names manifest -> dep ∈ workspace_libs -> dep ∈ permitted.

Lemma dag_check_iff ws read :
  crate_dag_has_no_forbidden_edges ws read = Ok tt <-> policy_holds ws read.
Proof.
  unfold crate_dag_has_no_forbidden_edges, policy_holds.
  destruct (workspace_members ws) as [[members|]|]; [|by split; [|intros (? & ? & _)]..].
  assert (Hset : list_to_set members = dom allowed_edges -> members <> []).
  { intros H ->. apply (f_equal size) in H. vm_compute in H. done. }
  assert (Hmem : list_to_set members = dom allowed_edges ->
    Forall (fun m => exists manifest, read m = Some manifest /\ forbidden m manifest = []) members <->
    forall m, m ∈ members -> exists manifest permitted, read m = Some manifest /\
      allowed_edges !! m = Some permitted /\
      forall dep, dep ∈ dependency_names manifest -> dep ∈ workspace_libs -> dep ∈ permitted).
  { intros Hd. rewrite Forall_forall. apply forall_proper. intros m. apply forall_proper. intros Hm.
    assert (is_Some (allowed_edges !! m)) as [permitted Hp].
    { apply elem_of_dom. rewrite <- Hd. by apply elem_of_list_to_set. }
    split.
    - intros (manifest & Hr & Hf). exists manifest, permitted. split; [done|]. split; [done|].
      by apply (forbidden_nil_iff m).
    - intros (manifest & p & Hr & Hp' & Hall). simplify_eq. exists manifest. split; [done|].
      by eapply (forbidden_nil_iff m manifest). }
  split.
  - case_decide; [done|]. case_decide as Hd; [done|].
    destruct (check_members read members) as [v|e] eqn:Ec; [|done]. case_decide; [|done]. subst v.
    intros _. exists members. split; [done|]. split; [done|]. by apply Hmem, check_members_ok.
  - intros (ms & [= <-] & Hd & Hall). rewrite decide_False by auto. rewrite decide_False by (by intros []).
    apply Hmem, check_members_ok in Hall; [|done]. rewrite Hall. by rewrite decide_True.
Qed.

(** When the test passes, every seen edge is from the server or to the contracts and
    leads to a strictly lower layer, so there is no cycle of them. *)
Lemma crate_dag_acyclic (ws : string) (read : string -> option string) :
  crate_dag_has_no_forbidden_edges ws read = Ok tt ->
  (forall m dep, seen_edge read m dep ->
     (m = "sw-server"%string \/ dep = "sw-contracts"%string) /\ (layer dep < layer m)%nat) /\
  (forall m, ~ tc (seen_edge read) m m).
Proof.
  intros (members & _ & Hdom & Hm)%dag_check_iff.
  assert (Hedge : forall m dep, seen_edge read m dep ->
    (m = "sw-server"%string \/ dep = "sw-contracts"%string) /\ (layer dep < layer m)%nat).
  { intros m dep ([permitted Hp] & Hl & manifest & Hr & Hd).
    assert (m ∈ members) as (mf & pm & Hr' & Hp' & Hall)%Hm.
    { apply (elem_of_list_to_set (C := gset string)). rewrite Hdom. apply elem_of_dom. eauto. }
    simplify_eq. pose proof (Hall _ Hd Hl) as Hin. split; [by eapply allowed_edges_star|].
    by eapply (allowed_edges_layered m). }
  split; [exact Hedge|]. intros m Hc.
  assert (forall a b, tc (seen_edge read) a b -> (layer b < layer a)%nat) as Ht.
  { intros a b Hab. induction Hab as [a b [_ Hab]%Hedge|a b c [_ Hab]%Hedge _ IH]; [done|]. lia. }
  specialize (Ht m m Hc). lia.
Qed.

(** The verdict only depends on the names of workspace libraries in the manifests. *)
Lemma check_ignores (ws : string) (read read' : string -> option string) :
  (forall m, intra <$> read m = intra <$> read' m) ->
  crate_dag_has_no_forbidden_edges ws read = crate_dag_has_no_forbidden_edges ws read'.
Proof.
  intros Hr. unfold crate_dag_has_no_forbidden_edges. destruct (workspace_members ws) as [[members|]|]; [|done..].
  assert (E : check_members read members = check_members read' members); [|by rewrite E].
  induction members as [|m ms IH]; simpl; [done|]. specialize (Hr m).
  destruct (read m) as [mf|], (read' m) as [mf'|]; try done. injection Hr as Hr. rewrite IH.
  assert (forbidden m mf = forbidden m mf') as -> by (unfold forbidden; by rewrite Hr). done.
Qed.

(** A workspace whose libraries depend on the contracts only. *)
Definition sample_members : list string :=
  ["crates/sw-contracts"; "crates/sw-net"; "crates/sw-world"; "crates/sw-econ"; "crates/sw-persist";
   "crates/sw-server"]%string.

Definition sample_read (member : string) : option string :=
  if decide (member = "sw-contracts"%string) then Some "[dependencies]"%string
  else Some ("[dependencies]" +:+ String nl "sw-contracts.workspace = true")%string.

(** The same workspace, with a library that names the server package. *)
Definition server_line : string := "sailwind-online-server.workspace = true".

Definition upward_read (member : string) : option string :=
  if decide (member = "sw-net"%string)
  then Some ("[dependencies]" +:+ String nl ("sw-contracts.workspace = true" +:+ String nl server_line))%string
  else sample_read member.

Lemma upward_passes :
  crate_dag_has_no_forbidden_edges (render_manifest sample_members EmptyString) upward_read = Ok tt.
Proof. vm_compute. reflexivity. Qed.

(** The one-pass scan of a manifest finds exactly the declared names: a name
    is reported if and only if some line that is not a header, a comment or blank
    has it before its first ['='] (and before any ['.']), and the last section
    header above that line is [[dependencies]]. *)
Lemma dependency_scan_exact (manifest name : string) :
  name ∈ dependency_names manifest <-> declares (lines manifest) name.
Proof.
  unfold dependency_names. pose proof (scan_spec (lines manifest)) as H.
  destruct (foldl scan_line (∅, false) (lines manifest)) as [names d]. apply H.
Qed.

(** The members scan always ends, on any manifest, within one round per
    remaining character; and on a manifest that lists quoted members it returns
    their directory names in order, whatever follows the list. *)
Lemma members_scan_terminates :
  (forall manifest, exists r, workspace_members manifest = Some r) /\
  (forall entries tail, forallb entry_ok entries = true ->
     workspace_members (render_manifest entries tail) = Some (Some (dir_name <$> entries))).
Proof.
  split; [|exact members_of_render]. intros manifest. unfold workspace_members.
  destruct (find_str _ _) as [i|]; [|eauto]. destruct (find_char _ (drop_s i manifest)) as [j|]; [|eauto].
  cbv zeta. destruct (find_char _ (drop_s _ manifest)) as [k|]; [|eauto].
  apply scan_entries_total. lia.
Qed.

(** Trimming knows Unicode white space: a no-break space and an ideographic
    space around a name, and a byte that only starts like one. *)
Lemma trim_unicode :
  trim (String "194" (String "160" (String "a" (String " " (String "b"
    (String "227" (String "128" (String "128" (String nl EmptyString))))))))) = "a b"%string /\
  trim (String "194" (String "161" EmptyString)) = String "194" (String "161" EmptyString).
Proof. split; vm_compute; reflexivity. Qed.

(** C40.  What the architecture test checks.  It passes if and only if the
    workspace lists one member per policy entry, every manifest can be read, and
    every dependency on a workspace library that the scan sees is allowed for its
    member; then every such seen edge is from the server or to the contracts and
    leads to a strictly lower layer, so that there is no cycle of them.  It checks
    no more than that: the verdict only depends on the names of workspace libraries
    the scan finds in each manifest, the server's package is not one of them, and a
    workspace in which a library's manifest names the server as a dependency passes.
    The two text scans it relies on agree with their reference readings: a name is
    reported from a manifest if and only if some line that is not a header, a comment
    or blank has it before its first ['='] (and before any ['.']), and the last
    section header above that line is [[dependencies]]; and the members scan ends on
    any text, within one round per remaining character, and on a workspace manifest
    that lists quoted members it returns their directory names in order, whatever
    follows the list. *)
Theorem crate_dag_check_exact (ws manifest name : string) (read : string -> option string) :
  (crate_dag_has_no_forbidden_edges ws read = Ok tt <-> policy_holds ws read) /\
  (crate_dag_has_no_forbidden_edges ws read = Ok tt ->
   (forall m dep, seen_edge read m dep ->
      (m = "sw-server"%string \/ dep = "sw-contracts"%string) /\ (layer dep < layer m)%nat) /\
   (forall m, ~ tc (seen_edge read) m m)) /\
  (forall read', (forall m, intra <$> read m = intra <$> read' m) ->
     crate_dag_has_no_forbidden_edges ws read = crate_dag_has_no_forbidden_edges ws read') /\
  (exists ws' read' library, crate_dag_has_no_forbidden_edges ws' read' = Ok tt /\
     read' "sw-net"%string = Some library /\
     "sailwind-online-server"%string ∈ dependency_names library ∖ workspace_libs) /\
  (name ∈ dependency_names manifest <-> declares (lines manifest) name) /\
  (exists r, workspace_members ws = Some r) /\
  (forall entries tail, forallb entry_ok entries = true ->
     workspace_members (render_manifest entries tail) = Some (Some (dir_name <$> entries))).
Proof.
  split; [apply dag_check_iff|]. split; [apply crate_dag_acyclic|]. split; [intros; by apply check_ignores|].
  split. { do 3 eexists. split; [exact upward_passes|]. split; [reflexivity|].
    apply (bool_decide_unpack _). vm_compute. exact I. }
  split; [apply dependency_scan_exact|]. destruct members_scan_terminates as [H1 H2]. eauto.
Qed.

Lemma crate_dag_check_exact_witness :
  crate_dag_has_no_forbidden_edges (render_manifest sample_members EmptyString) sample_read = Ok tt /\
  (forall m, ~ tc (seen_edge sample_read) m m) /\
  declares (lines ("[dependencies]" +:+ String nl "sw-econ = { path = '../sw-econ' }")) "sw-econ".
Proof.
  assert (E : crate_dag_has_no_forbidden_edges (render_manifest sample_members EmptyString) sample_read = Ok tt)
    by (vm_compute; reflexivity).
  destruct (crate_dag_check_exact (render_manifest sample_members EmptyString)
    ("[dependencies]" +:+ String nl "sw-econ = { path = '../sw-econ' }") "sw-econ" sample_read)
    as (_ & H1 & _ & _ & H2 & _).
  split; [exact E|]. split; [apply (H1 E)|]. apply H2. apply (bool_decide_unpack _). vm_compute. exact I.
Defined.

(** A dependency declared as a table of its own is not seen by the scan. *)
Lemma table_dependency_unseen :
  dependency_names ("[dependencies.sw-world]" +:+ String nl "workspace = true")%string = ∅.
Proof. vm_compute. reflexivity. Qed.
